(* ===== verification/_CoqProject ===== *)
-Q . S2P
Prelude.v
Libc.v
Base64.v
TestB64.v
Sort.v
Crc32Tables.v
Crc32.v
CrcHw.v
Queue.v
Xvdat.v
XvRec.v
XvdatTest.v
Fdio.v
Debugsync.v
DsProgress.v
DsWindDown.v
DsMemory.v
DebugsyncDyn.v
Utest.v
Utest2.v
Small.v
Wbuft.v
WbuftThreads.v
Prof.v
PrfmTest.v
Timers.v
Ftmspec.v
Fs.v
Frelay.v
Writer.v
Kq.v
Reader.v
Evrdr.v
Kqfile.v
Iorly.v
Mmcu.v
Rsymb.v
Unalign.v
