(* ===== verification/Prelude.v ===== *)
(** * Verification of the bsl45-misc.tools C utilities

    The repository is a collection of small C programs and libraries for Unix.
    The development models their logic as Rocq functions and proves what makes
    them correct; where the code goes wrong, that is what is proved.

    ** Parts and files

    Shared:
    Prelude (this file): outcomes of C computations, machine integers, arrays,
      loops, C strings, and the tactics shared by all files.
    Libc: what the programs use of the C library: atoi and atol, string
      comparison, fgets, getopt and getopt_long, errno values.

    Libraries and their tests:
    Base64, TestB64: base64/b64.c, b64.h and the command test_b64.c.  Memory areas
      are byte lists; the lookup tables and their initialisation flag are the
      state.  Theorems: digits as in RFC 4648, decoding with its errors, the round
      trip, the allocating wrappers, what the command prints.
    Sort: sort/simple_sort.c.  Bubble sort sorts; the other three are shown
      to fail.
    Crc32Tables, Crc32: crc32.intel/crc32.c, its ten tables and the byte-wise and
      slicing loops, in both byte orders.  Theorems: equality with bit-serial
      polynomial division, incremental use, detection of error bursts.
    CrcHw: crc32.intel/ucrc32hw.c, cpu_fi.c, cpu_feature.c, cpuid.c and
      test_cpuf.c: the crc32 instruction and the feature probe, over the
      interface [Sse42] and a record for the processor.  The hardware routines
      compute the same CRC as Crc32.
    Queue: queue/queue.c, queue.h and the driver testq.c.  A heap of ring
      buffers refines a capacity and a list ([simulates]); the driver, written
      against the class [QueueOps], prints the replies of [dialogue], which says
      request by request what its user is to see.
    Xvdat, XvRec, XvdatTest: fdwatch/xvdat.c, xvdat.h (growing vectors and lists
      that hand out the least free index) and the unit test test_xvdat.c,
      executed on the model with its assertions and with the bytes of its records
      (XvRec).  Both tests pass and print at the end what they stored last.
    Debugsync: debugsync/debugsync.c, debugsync.h: named synchronisation points.
      Threads, their waits on one condition variable, signals and spurious
      wake-ups are explicit; a run is any sequence of atomic sections ([trace]).
      Theorems: the well-formed state, the rendezvous, no lost wake-up, no failed
      assertion for lawful clients, release of everyone when points are disabled.
    DsProgress, DsWindDown: liveness of the same system.  While nobody disables
      points, whoever is held in ds_exec has a partner that can release it, and
      can be released by others' steps alone; and when disciplined clients start
      nothing new, every schedule ends, within a bound, with nobody held.
    DsMemory: the blocks behind the names, from strndup to ds_destroy.
    Utest2: debugsync/utest2.c, its threads as sequences of calls on Debugsync.
    DebugsyncDyn, Utest: debugsync/debugsync_dyn.c, the variant with a growing table,
      over a memory of sized blocks, with its search through the table, and its
      test utest.c in any interleaving.  It never works, which is the theorem.
    Prof, PrfmTest, Timers: prof/nbsd_time.h, rusage_ops.h, prfm.c, prfm.h, the
      difference routines of tmcmp.c and of tmtest/clkgtm.c; the benchmark
      prof/prfm_test.c; and the programs tmcmp.c and clkgtm.c.  Theorems: time
      differences are exact as integers, and as the doubles two routines return
      they are exact up to 2^53 units and within a factor of 2^-51 beyond ([dbl]); the probe accumulates the sums of its intervals; what the
      programs print lies between the readings of the clock.
    Ftmspec: tmtest/ftmspec.c, a double split into seconds and nanoseconds in the
      binary64 of SpecFloat, with a bound on its rounding.

    Input and output:
    Fdio: fdwatch/fdio.c, fdio.h: reading and writing in full over the class [Os]
      of system calls; [OsLaws] states the manual pages.  Theorems: no byte lost
      or repeated through partial transfers and interruptions, termination,
      what is lost on errors.
    Wbuft: wal/wbuft.c: a sync thread under every interleaving with the main
      thread's requests, the write and writev loops over Fdio's interface
      extended to [Sys], options and [main].  [SyncLog] is the record of the
      fsync and fdatasync calls a system has made, from which the theorems read
      what was synchronised and when.  Theorems: which requests are served,
      gathered writes equal plain ones, what reaches the file and which syncs
      follow it, safety of the whole program.
    WbuftThreads: the same sync thread with the main thread that [run_odsync] has
      (requests, close, quit, join).  Every schedule ends, within a bound, with the
      join; what has been served and counted by then; and [main] of Wbuft only
      starts such systems.
    Fs: the file calls of the relays as a class [Fs] over [Os], with its laws and
      a view of the file system (names, contents, open descriptors); what
      transfer, rename, reopening and rewinding do to a source and a
      destination ([pair]); a disk that satisfies the laws.
    Frelay, Writer: fdwatch/frelay.c and writer.c, which copy a file over and over
      by [transfer] of Fdio.  Theorems: the destinations, those already removed
      and the one being filled, are those of a copier without system calls
      ([copies]), after any number of turns; how the loop ends, and with which
      status; and that writer destroys what it copies.
    Kq: kqueue and the calls of the file watchers as a class [Kq] over [Os], with its
      laws, the record of calls [KqTrace], the options the watchers share, and a
      system with scripted events.
    Reader, Evrdr: fdwatch/reader.c and evrdr.c, which show a file as it grows, the
      second one through rotations, by [nread] of Fdio.  Theorems: the calls made
      are those the events ask for, and what is printed is what the reads answered
      ([followed]).
    Kqfile: fdwatch/kqfile.c, which copies the lines added to several files, with
      the names it prints in front of them.
    Iorly: fdwatch/iorly.c, the unfinished relay, up to its empty server loop: the
      list of kqueue changes, which are never handed to the kernel, and the table
      of destinations.  Theorems: what a start without destinations leaves, and
      where a start with destinations breaks.

    Tools:
    Mmcu: memcached/mmcu.c over libmemcached's interface.
    Rsymb: bfd/rsymb.c over what libbfd answers, with its output.
    Small: hi/hi.c, pthr_cleanup/pthrc.c and pthrm.c, bfd/frameaddr.c.
    Unalign: memalign/unalcalc.c and unalign.c, the addresses they compute and
      store to.

    ** How the code is read

    A function of the code is a definition of the same name.  Its result is in
    the monad [res]: a value, undefined behaviour, a failed assertion, or a loop
    that ran out of fuel; [ensures m Q] says that [m] returns a value in [Q], so
    a theorem stated with it includes memory safety and termination.  Arrays are
    lists with bounds-checked [aget] and [aset]; integers are in [Z], wrapped to
    their width where the code can exceed it ([u32], [s64], ...), and signed
    overflow is undefined.  Static variables and objects behind pointers are
    passed as states.  Threads are program counters stepped one critical section
    at a time.  System and library calls that are not in the repository are
    classes of operations with classes of laws, each instantiated by a concrete
    system on which the theorems are evaluated.

    Fuel: the loops of Base64 take one more turn than their input has characters
    (a group of digits has at most four, hence 5), the driver's session in Queue
    one per line of input, the [printf] of Kqfile one per byte, the sync thread of
    Wbuft two passes; the loops of Fdio, Kqfile, Mmcu, Unalign and PrfmTest
    depend on the system or the arguments, and their theorems ask for as much as
    the bytes to move, the interruptions still to come, or the turns asked for.  In
    each case the theorem shows that the fuel is enough; other loops recurse on
    their counter.  The loops of the relays and the watchers are meant to run for
    ever: their theorems hold after any number of turns ([turns]), of which [loop]
    is the run to the end.

    ** What is not modelled

    Output for the user other than the results named in each file, and floating
    point except in Ftmspec and in the differences of Prof.  It is assumed that
    mutex and condition calls succeed (Debugsync, Wbuft, WbuftThreads), and that no
    file is read and written by the same relay.  [g_quit] of the relays is never set, there as here.
    Two files do not compile and are read with their slips mended, as each file
    says: fdwatch/iorly.c (undeclared names) and debugsync/utest.c (an argument
    too many for debugsync_dyn.c, whose [ds_init] in turn the present header
    contradicts); the undeclared [N] of shell_sort is a parameter.
    Not covered: libcoro (third party, debugsync/coro); the assembly of memalign,
    which is compiler output; crc32.intel/cpu_feature2.c, a copy of
    cpu_feature.c; debugsync/corocond.c, a fragment of declarations; lua_eh (not C)
    and cfg (editor settings). *)

From stdpp Require Export base numbers list list_numbers sets.
From Stdlib Require Export ZArith Lia.

#[export] Set Default Goal Selector "!".
Global Open Scope Z_scope.

(** ** Outcomes of a C computation

    [Ok a]     the computation returned [a];
    [Ub]       it performed an operation the C standard leaves undefined
               (an access outside an object, a null dereference, ...);
    [Abort]    an [assert] failed or [abort] was called;
    [NoFuel]   the fuel given to a loop of the model ran out.  *)

Inductive res (A : Type) : Type :=
  | Ok (a : A)
  | Ub
  | Abort
  | NoFuel.
Arguments Ok {A} a.
Arguments Ub {A}.
Arguments Abort {A}.
Arguments NoFuel {A}.

#[export] Instance res_ret : MRet res := fun A a => Ok a.
#[export] Instance res_bind : MBind res := fun A B f m =>
  match m with
  | Ok a => f a
  | Ub => Ub
  | Abort => Abort
  | NoFuel => NoFuel
  end.

#[export] Instance res_eq_dec {A} `{HA : EqDecision A} : EqDecision (res A).
Proof.
  intros x y; destruct x as [a| | |], y as [b| | |];
    try (right; discriminate); try (left; reflexivity).
  destruct (HA a b) as [->|Hne]; [left; reflexivity|].
  right; intros [= He]; exact (Hne He).
Defined.

(** [assert (b)] of <assert.h>, with NDEBUG undefined. *)
Definition c_assert (b : bool) : res unit := if b then Ok tt else Abort.

(** The total-correctness judgement: [m] returns, and its value satisfies [Q]. *)
Definition ensures {A} (m : res A) (Q : A → Prop) : Prop :=
  match m with Ok a => Q a | _ => False end.

Section ensures.
Context {A B : Type}.
Implicit Types (m : res A) (f : A → res B).

Lemma ensures_ret (a : A) (Q : A → Prop) : Q a → ensures (mret a) Q.
Proof. done. Qed.

Lemma ensures_bind m f (Q : B → Prop) :
  ensures m (fun a => ensures (f a) Q) → ensures (m ≫= f) Q.
Proof. by destruct m. Qed.

Lemma ensures_mono m (P Q : A → Prop) :
  ensures m P → (∀ a, P a → Q a) → ensures m Q.
Proof. destruct m; simpl; auto. Qed.

Lemma ensures_iff m (Q : A → Prop) : ensures m Q ↔ ∃ a, m = Ok a ∧ Q a.
Proof.
  destruct m; simpl; (split; [try (by intros []); eauto | by intros (? & [= ] & ?)]) || idtac.
  split; [eauto | by intros (? & [= <-] & ?)].
Qed.

Lemma ensures_assert (b : bool) (Q : unit → Prop) :
  b = true → Q tt → ensures (c_assert b) Q.
Proof. by intros ->. Qed.

Lemma bind_ok_inv m f (b : B) :
  m ≫= f = Ok b → ∃ a, m = Ok a ∧ f a = Ok b.
Proof. destruct m; simpl; try done. eauto. Qed.
End ensures.

Lemma bind_Ok {A B} (a : A) (f : A → res B) : Ok a ≫= f = f a.
Proof. done. Qed.

(** ** Machine integers *)

(** Conversion to an unsigned type of [w] bits, and to a signed one. *)
Definition wrap (w x : Z) : Z := x mod 2 ^ w.
Definition swrap (w x : Z) : Z := (x + 2 ^ (w - 1)) mod 2 ^ w - 2 ^ (w - 1).

Abbreviation u8 := (wrap 8).
Abbreviation u16 := (wrap 16).
Abbreviation u32 := (wrap 32).
Abbreviation u64 := (wrap 64).
Abbreviation s32 := (swrap 32).
Abbreviation s64 := (swrap 64).

Lemma wrap_range w x : 0 ≤ w → 0 ≤ wrap w x < 2 ^ w.
Proof. intros. apply Z.mod_pos_bound. lia. Qed.

Lemma wrap_small w x : 0 ≤ x < 2 ^ w → wrap w x = x.
Proof. apply Z.mod_small. Qed.

Lemma wrap_wrap w x : wrap w (wrap w x) = wrap w x.
Proof. apply Z.mod_mod_divide, Z.divide_refl. Qed.

Lemma swrap_small w x : 0 < w → - 2 ^ (w - 1) ≤ x < 2 ^ (w - 1) → swrap w x = x.
Proof.
  intros Hw Hx. unfold swrap.
  assert (2 ^ w = 2 * 2 ^ (w - 1)) by (rewrite <- Z.pow_succ_r by lia; f_equal; lia).
  rewrite Z.mod_small; lia.
Qed.

Lemma swrap_range w x : 0 < w → - 2 ^ (w - 1) ≤ swrap w x < 2 ^ (w - 1).
Proof.
  intros Hw. unfold swrap.
  assert (2 ^ w = 2 * 2 ^ (w - 1)) by (rewrite <- Z.pow_succ_r by lia; f_equal; lia).
  assert (0 < 2 ^ w) by lia.
  pose proof (Z.mod_pos_bound (x + 2 ^ (w - 1)) (2 ^ w)). lia.
Qed.

(** A value of type [long], which must not overflow. *)
Definition ck (x : Z) : res Z := if (- 2 ^ 63 <=? x) && (x <? 2 ^ 63) then Ok x else Ub.

Lemma ck_ok x : - 2 ^ 63 ≤ x < 2 ^ 63 → ck x = Ok x.
Proof.
  intros Hx. unfold ck. by rewrite (proj2 (Z.leb_le _ _)), (proj2 (Z.ltb_lt _ _)) by lia.
Qed.

Lemma s64_small x : - 2 ^ 63 ≤ x < 2 ^ 63 → s64 x = x.
Proof. intros. apply swrap_small; simpl; lia. Qed.

(** Bit operations read as arithmetic. *)
Lemma land_low x n : 0 ≤ n → Z.land x (2 ^ n - 1) = x mod 2 ^ n.
Proof. intros. by rewrite <- Z.land_ones, Z.ones_equiv by done. Qed.

Lemma testbit_high y n k : 0 ≤ y < 2 ^ n → n ≤ k → Z.testbit y k = false.
Proof.
  intros Hy Hk. destruct (Z.neg_nonneg_cases n).
  { rewrite Z.pow_neg_r in Hy by done. lia. }
  rewrite <- (Z.mod_small y (2 ^ n)) by done. apply Z.mod_pow2_bits_high. lia.
Qed.

Lemma bits_range x n :
  0 ≤ n → 0 ≤ x → (∀ k, n ≤ k → Z.testbit x k = false) → x < 2 ^ n.
Proof.
  intros Hn Hx Hb.
  enough (x = x mod 2 ^ n) by (pose proof (Z.mod_pos_bound x (2 ^ n)); lia).
  apply Z.bits_inj'. intros k Hk. destruct (Z.lt_ge_cases k n).
  - by rewrite Z.mod_pow2_bits_low.
  - by rewrite Z.mod_pow2_bits_high, Hb by lia.
Qed.

Lemma lxor_range x y n :
  0 ≤ n → 0 ≤ x < 2 ^ n → 0 ≤ y < 2 ^ n → 0 ≤ Z.lxor x y < 2 ^ n.
Proof.
  intros Hn Hx Hy. assert (0 ≤ Z.lxor x y) by (apply Z.lxor_nonneg; lia).
  split; [done|]. apply bits_range; [done|done|]. intros k Hk.
  by rewrite Z.lxor_spec, (testbit_high x n), (testbit_high y n).
Qed.

(** A byte below a shifted word: the disjoint union is an exclusive or. *)
Lemma lor_lxor_low b x n :
  0 ≤ n → 0 ≤ b < 2 ^ n → Z.lor b (Z.shiftl x n) = Z.lxor b (Z.shiftl x n).
Proof.
  intros Hn Hb. apply Z.bits_inj'. intros k Hk. rewrite Z.lor_spec, Z.lxor_spec.
  destruct (Z.lt_ge_cases k n).
  - rewrite Z.shiftl_spec_low by done. by destruct (Z.testbit b k).
  - rewrite (testbit_high b n) by done. by destruct (Z.testbit _ k).
Qed.

Lemma lor_shiftl_add x y n :
  0 ≤ n → 0 ≤ y < 2 ^ n → Z.lor (Z.shiftl x n) y = x * 2 ^ n + y.
Proof.
  intros Hn Hy. rewrite <- Z.shiftl_mul_pow2 by done.
  assert (Hd : Z.land (Z.shiftl x n) y = 0).
  { apply Z.bits_inj'. intros k Hk. rewrite Z.land_spec, Z.bits_0.
    destruct (Z.lt_ge_cases k n).
    - by rewrite Z.shiftl_spec_low.
    - rewrite (testbit_high y n k) by done. by rewrite andb_false_r. }
  by rewrite <- (Z.lxor_lor _ y), Z.add_nocarry_lxor.
Qed.

(** ** Arrays: a list indexed by an integer, out of bounds is undefined *)

Definition in_range {A} (a : list A) (i : Z) : bool :=
  (0 <=? i) && (i <? Z.of_nat (length a)).

Definition aget {A} (a : list A) (i : Z) : res A :=
  if 0 <=? i then
    match a !! Z.to_nat i with Some x => Ok x | None => Ub end
  else Ub.

Definition aset {A} (a : list A) (i : Z) (x : A) : res (list A) :=
  if in_range a i then Ok (<[Z.to_nat i := x]> a) else Ub.

Declare Scope c_scope.
Delimit Scope c_scope with C.
(** The total read used by specifications. *)
Notation "a .[ i ]" := (a !!! Z.to_nat i)
  (at level 1, left associativity, format "a .[ i ]") : c_scope.
Open Scope c_scope.

Abbreviation zlen a := (Z.of_nat (length a)).

Section arrays.
Context {A : Type} `{Inhabited A}.
Implicit Types (a : list A) (i j : Z) (x : A).

Lemma in_range_true a i : in_range a i = true ↔ 0 ≤ i < zlen a.
Proof. unfold in_range. rewrite andb_true_iff, Z.leb_le, Z.ltb_lt. lia. Qed.

Lemma aget_Ok a i : 0 ≤ i < zlen a → aget a i = Ok a.[i].
Proof.
  intros Hi. unfold aget. rewrite (proj2 (Z.leb_le 0 i)) by lia.
  destruct (lookup_lt_is_Some_2 a (Z.to_nat i)) as [x Hx]; [lia|].
  by rewrite Hx, (list_lookup_total_correct _ _ _ Hx).
Qed.

Lemma aget_Ub a i : ¬ (0 ≤ i < zlen a) → aget a i = Ub.
Proof.
  intros Hi. unfold aget. destruct (Z.leb_spec 0 i); [|done].
  rewrite lookup_ge_None_2; [done|lia].
Qed.

Lemma aset_Ok a i x : 0 ≤ i < zlen a → aset a i x = Ok (<[Z.to_nat i := x]> a).
Proof. intros Hi. unfold aset. by rewrite (proj2 (in_range_true a i)). Qed.

Lemma aset_Ub a i x : ¬ (0 ≤ i < zlen a) → aset a i x = Ub.
Proof.
  intros Hi. unfold aset. destruct (in_range a i) eqn:E; [|done].
  by apply in_range_true in E.
Qed.

Lemma rd_insert a i j x : 0 ≤ i < zlen a → 0 ≤ j →
  (<[Z.to_nat i := x]> a).[j] = if decide (i = j) then x else a.[j].
Proof.
  intros Hi Hj. case_decide as E.
  - subst j. rewrite list_lookup_total_insert_eq; [done|lia].
  - rewrite list_lookup_total_insert_ne; [done|lia].
Qed.

Lemma rd_eq_ext a b : length a = length b →
  (∀ i, 0 ≤ i < zlen a → a.[i] = b.[i]) → a = b.
Proof.
  intros Hl He. apply list_eq_same_length with (length a); [done|done|].
  intros k x y Hk Hx Hy. specialize (He (Z.of_nat k) ltac:(lia)).
  rewrite Nat2Z.id in He.
  rewrite (list_lookup_total_correct _ _ _ Hx),
    (list_lookup_total_correct _ _ _ Hy) in He. done.
Qed.

Lemma ensures_aget a i (Q : A → Prop) :
  0 ≤ i < zlen a → Q a.[i] → ensures (aget a i) Q.
Proof. intros Hi HQ. by rewrite aget_Ok. Qed.

Lemma ensures_aset a i x (Q : list A → Prop) :
  0 ≤ i < zlen a → Q (<[Z.to_nat i := x]> a) → ensures (aset a i x) Q.
Proof. intros Hi HQ. by rewrite aset_Ok. Qed.
End arrays.

(** [patch w a]: the array [a] with its first elements overwritten by [w]. *)
Definition patch {A} (w a : list A) : list A := w ++ drop (length w) a.

Section patch.
Context {A : Type}.
Implicit Types (w a : list A) (x : A).

Lemma length_patch w a : (length w ≤ length a)%nat → length (patch w a) = length a.
Proof. intros. unfold patch. rewrite length_app, length_drop. lia. Qed.

Lemma patch_nil a : patch [] a = a.
Proof. done. Qed.

(** Writing at the end of the patched prefix extends it. *)
Lemma aset_patch w a x i :
  i = zlen w → zlen w < zlen a → aset (patch w a) i x = Ok (patch (w ++ [x]) a).
Proof.
  intros -> Hl. unfold aset.
  rewrite (proj2 (in_range_true _ _)) by (rewrite length_patch; lia).
  f_equal. unfold patch. rewrite Nat2Z.id, insert_app_r_alt, Nat.sub_diag by lia.
  rewrite <- (app_assoc w), length_app. simpl. f_equal.
  destruct (drop (length w) a) as [|y r] eqn:E.
  { apply (f_equal length) in E. rewrite length_drop in E. simpl in E. lia. }
  simpl. f_equal. rewrite <- drop_drop, E. done.
Qed.

Lemma ensures_aset_patch w a x i (Q : list A → Prop) :
  i = zlen w → zlen w < zlen a → Q (patch (w ++ [x]) a) →
  ensures (aset (patch w a) i x) Q.
Proof. intros. by rewrite aset_patch. Qed.
End patch.

(** Induction by groups of three and of four elements. *)
Lemma list_ind3 {A} (P : list A → Prop) :
  (∀ l, (length l < 3)%nat → P l) →
  (∀ a b c l, P l → P (a :: b :: c :: l)) → ∀ l, P l.
Proof.
  intros H0 H3. fix IH 1. intros [|a [|b [|c l]]].
  1-3: apply H0; simpl; lia.
  apply H3, IH.
Qed.

Lemma list_ind4 {A} (P : list A → Prop) :
  (∀ l, (length l < 4)%nat → P l) →
  (∀ a b c d l, P l → P (a :: b :: c :: d :: l)) → ∀ l, P l.
Proof.
  intros H0 H4. fix IH 1. intros [|a [|b [|c [|d l]]]].
  1-4: apply H0; simpl; lia.
  apply H4, IH.
Qed.

(** ** Loops *)

(** [for_up n i body s]: the counted loop running [body] for [i], [i+1], ...,
    [i+n-1]. *)
Fixpoint for_up {St} (n : nat) (i : Z) (body : Z → St → res St) (s : St) : res St :=
  match n with
  | O => Ok s
  | S n' => s' ← body i s; for_up n' (i + 1) body s'
  end.

(** [for_down n i body s]: the same with [i], [i-1], ..., [i-n+1]. *)
Fixpoint for_down {St} (n : nat) (i : Z) (body : Z → St → res St) (s : St) : res St :=
  match n with
  | O => Ok s
  | S n' => s' ← body i s; for_down n' (i - 1) body s'
  end.

(** One iteration of a loop either goes on or leaves it with a result. *)
Inductive ctl (St R : Type) : Type :=
  | Next (s : St)
  | Leave (r : R).
Arguments Next {St R} s.
Arguments Leave {St R} r.

Fixpoint loop {St R} (fuel : nat) (body : St → res (ctl St R)) (s : St) : res R :=
  match fuel with
  | O => NoFuel
  | S f =>
      c ← body s;
      match c with
      | Next s' => loop f body s'
      | Leave r => Ok r
      end
  end.

Lemma for_up_inv {St} (I : Z → St → Prop) (body : Z → St → res St) n i s :
  I i s →
  (∀ j t, i ≤ j < i + Z.of_nat n → I j t → ensures (body j t) (I (j + 1))) →
  ensures (for_up n i body s) (I (i + Z.of_nat n)).
Proof.
  revert i s. induction n as [|n IH]; intros i s Hs Hb; simpl.
  - by rewrite Z.add_0_r.
  - apply ensures_bind, (ensures_mono _ (I (i + 1))).
    + apply Hb; [lia|done].
    + intros t Ht. replace (i + Z.of_nat (S n)) with (i + 1 + Z.of_nat n) by lia.
      apply IH; [done|]. intros; apply Hb; [lia|done].
Qed.

Lemma for_down_inv {St} (I : Z → St → Prop) (body : Z → St → res St) n i s :
  I i s →
  (∀ j t, i - Z.of_nat n < j ≤ i → I j t → ensures (body j t) (I (j - 1))) →
  ensures (for_down n i body s) (I (i - Z.of_nat n)).
Proof.
  revert i s. induction n as [|n IH]; intros i s Hs Hb; simpl.
  - by rewrite Z.sub_0_r.
  - apply ensures_bind, (ensures_mono _ (I (i - 1))).
    + apply Hb; [lia|done].
    + intros t Ht. replace (i - Z.of_nat (S n)) with (i - 1 - Z.of_nat n) by lia.
      apply IH; [done|]. intros; apply Hb; [lia|done].
Qed.

Lemma loop_total {St R} (I : St → Prop) (m : St → nat) (Q : R → Prop)
    (body : St → res (ctl St R)) fuel s :
  (∀ t, I t → ensures (body t) (fun c =>
     match c with Next t' => I t' ∧ (m t' < m t)%nat | Leave r => Q r end)) →
  I s → (m s < fuel)%nat → ensures (loop fuel body s) Q.
Proof.
  intros Hb. revert s. induction fuel as [|f IH]; intros s Hs Hm; [lia|].
  simpl. apply ensures_bind. eapply ensures_mono; [by apply Hb|].
  intros [t|r]; simpl; [|done]. intros [Ht Hlt]. apply IH; [done|lia].
Qed.

(** More fuel never changes a result. *)
Lemma loop_fuel_mono {St R} (body : St → res (ctl St R)) f f' s r :
  (f ≤ f')%nat → loop f body s = Ok r → loop f' body s = Ok r.
Proof.
  revert f' s. induction f as [|f IH]; intros f' s Hle; [done|].
  destruct f' as [|f']; [lia|]. simpl.
  destruct (body s) as [[t|q]| | |]; simpl; try done. apply IH. lia.
Qed.

(** What holds of every result of a loop, whether or not it ends. *)
Lemma loop_partial {St R} (I : St → Prop) (Q : R → Prop) (body : St → res (ctl St R)) fuel s r :
  (∀ t c, I t → body t = Ok c → match c with Next t' => I t' | Leave q => Q q end) →
  I s → loop fuel body s = Ok r → Q r.
Proof.
  intros Hb. revert s. induction fuel as [|f IH]; intros s Hs; [done|]. cbn [loop].
  destruct (body s) as [c| | |] eqn:E; cbn; try done. specialize (Hb s c Hs E).
  destruct c as [t|q]; [by apply IH|by intros [= <-]].
Qed.

(** [turns n body s]: the state after [n] turns, for loops meant to run for ever,
    or the result if the loop has been left before. *)
Fixpoint turns {St R} (n : nat) (body : St → res (ctl St R)) (s : St) : res (ctl St R) :=
  match n with
  | O => Ok (Next s)
  | S n' =>
      c ← body s;
      match c with
      | Next s' => turns n' body s'
      | Leave r => Ok (Leave r)
      end
  end.

(** The two outcomes of a turn. *)
Definition either {St R} (I : St → Prop) (Q : R → Prop) (c : ctl St R) : Prop :=
  match c with Next s => I s | Leave r => Q r end.

(** The invariant may depend on the number of turns still to come. *)
Lemma turns_inv {St R} (I : nat → St → Prop) (Q : R → Prop) (body : St → res (ctl St R)) n s :
  (∀ m t, I (S m) t → ensures (body t) (either (I m) Q)) → I n s →
  ensures (turns n body s) (either (I O) Q).
Proof.
  intros Hb. revert s. induction n as [|n IH]; intros s Hs; [done|]. cbn [turns].
  apply ensures_bind. eapply ensures_mono; [by apply Hb|]. intros [t|r]; cbn; [apply IH|done].
Qed.

Lemma loop_turns {St R} (body : St → res (ctl St R)) n s :
  loop n body s =
    (c ← turns n body s; match c with Next _ => NoFuel | Leave r => Ok r end).
Proof.
  revert s. induction n as [|n IH]; intros s; [done|]. cbn [loop turns].
  destruct (body s) as [[t|r]| | |]; cbn; [apply IH|done..].
Qed.

Lemma turns_add {St R} (body : St → res (ctl St R)) n m s :
  turns (n + m) body s =
    (c ← turns n body s; match c with Next t => turns m body t | Leave r => Ok (Leave r) end).
Proof.
  revert s. induction n as [|n IH]; intros s; [done|]. cbn [turns Nat.add].
  destruct (body s) as [[t|r]| | |]; cbn; [apply IH|done..].
Qed.

(** Counting the turns up: how a loop is left says after which state. *)
Lemma turns_trail {St R} (I : nat → St → Prop) (Q : nat → St → R → Prop) (body : St → res (ctl St R)) n s :
  (∀ k t, (k < n)%nat → I k t → ensures (body t) (either (I (S k)) (Q k t))) → I O s →
  ensures (turns n body s)
    (either (I n) (fun r => ∃ k t, (k < n)%nat ∧ turns k body s = Ok (Next t) ∧ I k t ∧ Q k t r)).
Proof.
  intros Hb Hs. induction n as [|n IH]; [done|].
  assert (H : ensures (turns n body s)
    (either (I n) (fun r => ∃ k t, (k < n)%nat ∧ turns k body s = Ok (Next t) ∧ I k t ∧ Q k t r)))
    by (apply IH; intros; apply Hb; [lia|done]).
  rewrite <- Nat.add_1_r, turns_add. apply ensures_iff in H as ([t|r] & E & H); rewrite E, bind_Ok; cbn in H.
  - rewrite Nat.add_1_r. cbn [turns]. apply ensures_bind. eapply ensures_mono; [apply (Hb n t); [lia|done]|].
    intros [t'|r]; cbn; [done|]. intros HQ. exists n, t. split_and!; (done || lia).
  - cbn. destruct H as (k & t & Hk & H). exists k, t. split; [lia|done].
Qed.

(** ** C strings: a memory area read up to its first NUL *)

Fixpoint strlen (mem : list Z) : res Z :=
  match mem with
  | [] => Ub
  | c :: mem' => if c =? 0 then Ok 0 else n ← strlen mem'; Ok (n + 1)
  end.

(** The bytes of a string that holds no NUL. *)
Definition cstr (s : list Z) : Prop := Forall (fun c => 0 < c < 256) s.

Lemma strlen_cstr s rest : cstr s → strlen (s ++ 0 :: rest) = Ok (zlen s).
Proof.
  induction 1 as [|c s Hc Hs IH]; [done|].
  cbn [app strlen]. rewrite (proj2 (Z.eqb_neq c 0)) by lia.
  rewrite IH. cbn. f_equal. lia.
Qed.

(** ** Automation

    [wp] walks through the monadic code of a goal [ensures _ _], discharging
    the bounds of array accesses with [lia] after the hints of [c_len] have
    normalised the lengths. *)

Create Rewrite HintDb c_len.
#[export] Hint Rewrite @length_insert @length_app @length_replicate @length_take
  @length_drop @length_map @length_seq : c_len.

Ltac len := autorewrite with c_len in *; simpl length in *; lia.

Ltac wp1 :=
  match goal with
  | |- ensures (_ ≫= _) _ => apply ensures_bind
  | |- ensures (mret _) _ => apply ensures_ret
  | |- ensures (Ok _) _ => apply ensures_ret
  | |- ensures (aget _ _) _ => apply ensures_aget; [try len|]
  | |- ensures (aset (patch _ _) _ _) _ => apply ensures_aset_patch; [try len|try len|]
  | |- ensures (aset _ _ _) _ => apply ensures_aset; [try len|]
  | |- ensures (c_assert _) _ => apply ensures_assert
  end.
Ltac wp := repeat wp1.

(** Evaluate the literal powers of two of the goal and the hypotheses. *)
Ltac pow2 :=
  repeat match goal with
  | |- context [2 ^ Zpos ?n] =>
      let v := eval vm_compute in (2 ^ Zpos n) in change (2 ^ Zpos n) with v
  | H : context [2 ^ Zpos ?n] |- _ =>
      let v := eval vm_compute in (2 ^ Zpos n) in change (2 ^ Zpos n) with v in H
  end.
Ltac plia := pow2; Z.div_mod_to_equations; lia.
