(* ===== verification/Libc.v ===== *)
(** * The C library functions the programs share

    Decimal parsing, [errno] values and option scanning, on C strings given as
    the list of their characters (the terminating NUL is implicit here). *)

From stdpp Require Import strings.
From S2P Require Import Prelude.
Local Open Scope Z_scope.

(** The characters of a string literal. *)
Definition zs (s : string) : list Z := map Z.of_N (map Ascii.N_of_ascii (String.list_ascii_of_string s)).

Definition EPERM : Z := 1.
Definition ENOENT : Z := 2.
Definition EINTR : Z := 4.
Definition EIO : Z := 5.
Definition EAGAIN : Z := 11.
Definition ENOMEM : Z := 12.
Definition EINVAL : Z := 22.
Definition ERANGE : Z := 34.

Definition isspace (c : Z) : bool := (c =? 32) || ((9 <=? c) && (c <=? 13)).
Definition isdigit (c : Z) : bool := (48 <=? c) && (c <=? 57).

(** The longest decimal prefix. *)
Fixpoint digits (acc : Z) (s : list Z) : Z :=
  match s with
  | c :: s' => if isdigit c then digits (10 * acc + (c - 48)) s' else acc
  | [] => acc
  end.

Fixpoint skip_space (s : list Z) : list Z :=
  match s with
  | c :: s' => if isspace c then skip_space s' else s
  | [] => []
  end.

Definition parse_dec (s : list Z) : Z :=
  match skip_space s with
  | 45 :: s' => - digits 0 s'
  | 43 :: s' => digits 0 s'
  | s' => digits 0 s'
  end.

(** [atoi] and [atol]: undefined when the value is not representable. *)
Definition ato (w : Z) (s : list Z) : res Z :=
  let v := parse_dec s in
  if (- 2 ^ (w - 1) <=? v) && (v <? 2 ^ (w - 1)) then Ok v else Ub.
Abbreviation atoi := (ato 32).
Abbreviation atol := (ato 64).

Lemma ato_range w s v : ato w s = Ok v → - 2 ^ (w - 1) ≤ v < 2 ^ (w - 1).
Proof.
  unfold ato. destruct (_ && _) eqn:E; [|done]. intros [= <-].
  apply andb_true_iff in E as [H1%Z.leb_le H2%Z.ltb_lt]. lia.
Qed.

Example atoi_42 : atoi [32; 52; 50; 120] = Ok 42.
Proof. reflexivity. Qed.
Example atoi_neg : atoi [45; 49] = Ok (-1).
Proof. reflexivity. Qed.

(** ** Strings and line input *)

(** The C string at the start of a memory area. *)
Fixpoint c_str (s : list Z) : list Z :=
  match s with
  | [] => []
  | c :: s' => if c =? 0 then [] else c :: c_str s'
  end.

(** A NUL ends it. *)
Lemma c_str_app_nul d l : c_str (d ++ 0 :: l) = c_str d.
Proof. induction d as [|c d IH]; cbn; [done|]. destruct (c =? 0); [done|]. by rewrite IH. Qed.

Lemma c_str_cstr s : cstr s → c_str s = s.
Proof. induction 1 as [|c s Hc _ IH]; [done|]. cbn. rewrite (proj2 (Z.eqb_neq c 0)) by lia. by rewrite IH. Qed.

Fixpoint eqb_list (s t : list Z) : bool :=
  match s, t with
  | [], [] => true
  | c :: s', d :: t' => (c =? d) && eqb_list s' t'
  | _, _ => false
  end.
Definition strcmp_eq (s t : list Z) : bool := eqb_list s t.

Definition tolower (c : Z) : Z := if (65 <=? c) && (c <=? 90) then c + 32 else c.
Definition strcasecmp_eq (s t : list Z) : bool := eqb_list (map tolower s) (map tolower t).

(** [if (NULL != (p = strrchr (s, c))) *p = 0;] *)
Fixpoint cut_last (c : Z) (s : list Z) : list Z :=
  match s with
  | [] => []
  | x :: s' =>
      if existsb (Z.eqb c) s' then x :: cut_last c s'
      else if x =? c then [] else s
  end.

(** [fgets (buf, n, fp)]: at most [n - 1] characters, up to a newline; NULL at
    the end of the input. *)
Fixpoint fgets_upto (n : nat) (s : list Z) : list Z * list Z :=
  match n, s with
  | S n', c :: s' =>
      if c =? 10 then ([c], s')
      else let '(l, r) := fgets_upto n' s' in (c :: l, r)
  | _, _ => ([], s)
  end.
Definition fgets (n : Z) (s : list Z) : option (list Z * list Z) :=
  match s with
  | [] => None
  | _ => Some (fgets_upto (Z.to_nat (n - 1)) s)
  end.

Lemma fgets_upto_rest n s : (length (fgets_upto n s).2 ≤ length s)%nat.
Proof.
  revert s. induction n as [|n IH]; intros [|c s]; simpl; try lia.
  destruct (c =? 10); simpl; [lia|]. specialize (IH s).
  destruct (fgets_upto n s) as [l r]. simpl in *. lia.
Qed.

(** Every call that returns a line consumes input. *)
Lemma fgets_progress n s l r : 2 ≤ n → fgets n s = Some (l, r) → (length r < length s)%nat.
Proof.
  intros Hn. destruct s as [|c s]; [done|]. unfold fgets.
  replace (Z.to_nat (n - 1)) with (S (Z.to_nat (n - 2))) by lia. cbn [fgets_upto].
  pose proof (fgets_upto_rest (Z.to_nat (n - 2)) s).
  destruct (c =? 10); [|destruct (fgets_upto _ s)]; intros [= <- <-]; simpl in *; lia.
Qed.

(** ** Options: getopt (3)

    [getopt optstring args]: what successive calls return, each with [optarg],
    up to the -1; and the operands, which the GNU C library moves behind the
    options.  An option that is unknown or lacks its argument comes back
    as a question mark. *)
Fixpoint takes_arg (c : Z) (optstring : list Z) : option bool :=
  match optstring with
  | [] => None
  | x :: rest =>
      if x =? c then Some (match rest with y :: _ => y =? 58 | [] => false end)
      else takes_arg c rest
  end.

Definition question : Z := 63.

Fixpoint getopt (optstring : list Z) (args : list (list Z)) : list (Z * list Z) * list (list Z) :=
  match args with
  | [] => ([], [])
  | a :: args' =>
      let fix cluster (cs : list Z) :=
        match cs with
        | [] => getopt optstring args'
        | c :: cs' =>
            match (if c =? 58 then None else takes_arg c optstring) with
            | None => let '(o, r) := cluster cs' in ((question, []) :: o, r)
            | Some false => let '(o, r) := cluster cs' in ((c, []) :: o, r)
            | Some true =>
                match cs' with
                | _ :: _ => let '(o, r) := getopt optstring args' in ((c, cs') :: o, r)
                | [] =>
                    match args' with
                    | [] => ([(question, [])], [])
                    | w :: args'' => let '(o, r) := getopt optstring args'' in ((c, w) :: o, r)
                    end
                end
            end
        end in
      match a with
      | 45 :: 45 :: [] => ([], args')
      | 45 :: _ :: _ => cluster (tail a)
      | _ => let '(o, r) := getopt optstring args' in (o, a :: r)
      end
  end.

Example getopt_mixed :
  getopt (zs "ab:c") [zs "-ab5"; zs "x"; zs "-b"; zs "7"; zs "-q"; zs "--"; zs "-a"] =
    ([(97, []); (98, zs "5"); (98, zs "7"); (question, [])], [zs "x"; zs "-a"]).
Proof. reflexivity. Qed.

(** [getopt_long]: the long options with what they return and whether they take
    an argument.  A name may be shortened as long as only one option fits. *)
Fixpoint split_eq (s : list Z) : list Z * option (list Z) :=
  match s with
  | [] => ([], None)
  | c :: s' => if c =? 61 then ([], Some s') else let '(n, v) := split_eq s' in (c :: n, v)
  end.

Fixpoint is_prefix (s t : list Z) : bool :=
  match s, t with
  | [], _ => true
  | c :: s', d :: t' => (c =? d) && is_prefix s' t'
  | _, _ => false
  end.

Definition find_long (name : list Z) (longs : list (list Z * Z * bool)) : option (Z * bool) :=
  match List.filter (fun o => eqb_list name o.1.1) longs with
  | (_, c, arg) :: _ => Some (c, arg)
  | [] =>
      match List.filter (fun o => is_prefix name o.1.1) longs with
      | [(_, c, arg)] => Some (c, arg)
      | _ => None
      end
  end.

Fixpoint getopt_long (optstring : list Z) (longs : list (list Z * Z * bool)) (args : list (list Z)) :
    list (Z * list Z) * list (list Z) :=
  match args with
  | [] => ([], [])
  | a :: args' =>
      let give c v r := let '(o, r) := r in ((c, v) :: o, r) in
      let with_arg c :=
        match args' with
        | [] => ([(question, [])], [])
        | w :: args'' => give c w (getopt_long optstring longs args'')
        end in
      let fix cluster (cs : list Z) :=
        match cs with
        | [] => getopt_long optstring longs args'
        | c :: cs' =>
            match (if c =? 58 then None else takes_arg c optstring) with
            | None => give question [] (cluster cs')
            | Some false => give c [] (cluster cs')
            | Some true =>
                match cs' with
                | _ :: _ => give c cs' (getopt_long optstring longs args')
                | [] => with_arg c
                end
            end
        end in
      match a with
      | 45 :: 45 :: [] => ([], args')
      | 45 :: 45 :: name =>
          let '(n, v) := split_eq name in
          match find_long n longs, v with
          | Some (c, true), Some v => give c v (getopt_long optstring longs args')
          | Some (c, true), None => with_arg c
          | Some (c, false), None => give c [] (getopt_long optstring longs args')
          | _, _ => give question [] (getopt_long optstring longs args')
          end
      | 45 :: _ :: _ => cluster (tail a)
      | _ => let '(o, r) := getopt_long optstring longs args' in (o, a :: r)
      end
  end.

Example getopt_long_mixed :
  getopt_long (zs "pt:") [(zs "print", 112, false); (zs "timeout", 116, true)]
    [zs "--pri"; zs "x"; zs "--timeout"; zs "--"; zs "-pt5"; zs "--print=1"; zs "--"; zs "-p"] =
    ([(112, []); (116, zs "--"); (112, []); (116, zs "5"); (question, [])], [zs "x"; zs "-p"]).
Proof. reflexivity. Qed.
