(* ===== verification/Base64.v ===== *)
(** * base64/b64.c: the base64 codec

    State: the two lookup tables and the [g_ready] flag, static variables of
    the file.  Memory areas are lists of bytes; a string argument is the area
    it points to, read up to its first NUL; an output buffer is the area
    written through the pointer, its [nenc]/[ndecoded] argument being a
    separate number as in the code. *)

From S2P Require Import Prelude.
From stdpp Require Import strings.
From Stdlib Require Import Ascii.
Local Open Scope Z_scope.

(** Character constants. *)
Definition chr (c : Ascii.ascii) : Z := Z.of_N (Ascii.N_of_ascii c).

Record b64_state := B64 {
  g_etable : list Z;
  g_dtable : list Z;
  g_ready : Z;
}.

(** Static storage starts zeroed. *)
Definition b64_static : b64_state :=
  B64 (replicate 64 0) (replicate 256 0) 0.

Definition EINVAL : Z := 22.
Definition EMSGSIZE : Z := 90.

Definition min_decoded_buflen (el : Z) : Z := u64 ((el / 4 + 1) * 3 + 1).
Definition min_encoded_buflen (l : Z) : Z := u64 ((l / 3 + 1) * 4 + 1).

(** ** Table initialisation *)

Definition init_etable (t : list Z) : res (list Z) :=
  t ← for_up 9 0 (fun i t =>
        t ← aset t i (u8 (chr "A"%char + i));
        t ← aset t (i + 9) (u8 (chr "J"%char + i));
        t ← aset t (26 + i) (u8 (chr "a"%char + i));
        aset t (26 + i + 9) (u8 (chr "j"%char + i))) t;
  t ← for_up 8 0 (fun i t =>
        t ← aset t (i + 18) (u8 (chr "S"%char + i));
        aset t (26 + i + 18) (u8 (chr "s"%char + i))) t;
  t ← for_up 10 0 (fun i t => aset t (52 + i) (u8 (chr "0"%char + i))) t;
  t ← aset t 62 (chr "+"%char);
  aset t 63 (chr "/"%char).

(** [for (i = lo; i <= hi; i++)] *)
Definition for_incl {St} (lo hi : Z) (body : Z → St → res St) : St → res St :=
  for_up (Z.to_nat (hi - lo + 1)) lo body.

Definition init_dtable (t : list Z) : res (list Z) :=
  t ← for_up 255 0 (fun i t => aset t i 0x80) t;
  t ← for_incl (chr "A"%char) (chr "I"%char) (fun i t => aset t i (u8 (0 + (i - chr "A"%char)))) t;
  t ← for_incl (chr "J"%char) (chr "R"%char) (fun i t => aset t i (u8 (9 + (i - chr "J"%char)))) t;
  t ← for_incl (chr "S"%char) (chr "Z"%char) (fun i t => aset t i (u8 (18 + (i - chr "S"%char)))) t;
  t ← for_incl (chr "a"%char) (chr "i"%char) (fun i t => aset t i (u8 (26 + (i - chr "a"%char)))) t;
  t ← for_incl (chr "j"%char) (chr "r"%char) (fun i t => aset t i (u8 (35 + (i - chr "j"%char)))) t;
  t ← for_incl (chr "s"%char) (chr "z"%char) (fun i t => aset t i (u8 (44 + (i - chr "s"%char)))) t;
  t ← for_incl (chr "0"%char) (chr "9"%char) (fun i t => aset t i (u8 (52 + (i - chr "0"%char)))) t;
  t ← aset t (chr "+"%char) 62;
  t ← aset t (chr "/"%char) 63;
  aset t (chr "="%char) 0.

Definition b64_init (st : b64_state) : res b64_state :=
  e ← init_etable (g_etable st);
  d ← init_dtable (g_dtable st);
  Ok (B64 e d 1).

Definition ensure_ready (st : b64_state) : res b64_state :=
  if g_ready st =? 0 then b64_init st else Ok st.

(** ** Encoding *)

(** [ogroup[0..3]] for [n] bytes read into [igroup]. *)
Definition encode_group (etable : list Z) (i0 i1 i2 n : Z) : res (list Z) :=
  o0 ← aget etable (Z.shiftr i0 2);
  o1 ← aget etable (Z.lor (Z.shiftl (Z.land i0 3) 4) (Z.shiftr i1 4));
  o2 ← aget etable (Z.lor (Z.shiftl (Z.land i1 0xF) 2) (Z.shiftr i2 6));
  o3 ← aget etable (Z.land i2 0x3F);
  let o3 := if n <? 3 then chr "="%char else o3 in
  let o2 := if n <? 2 then chr "="%char else o2 in
  Ok [o0; o1; o2; o3].

(** [if (i < plen) { igroup[..] = p[i++]; ++n; }], the group byte being 0
    otherwise. *)
Definition read_next (plain : list Z) (plen i n : Z) : res (Z * Z * Z) :=
  if i <? plen then c ← aget plain i; Ok (c, i + 1, n + 1) else Ok (0, i, n).

(** The body of the encoding loop up to the digits: read one to three bytes at
    [i] and compute [ogroup]. *)
Definition next_ogroup (etable plain : list Z) (plen i : Z) : res (list Z * Z) :=
  igroup0 ← aget plain i;
  '(igroup1, i, n) ← read_next plain plen (i + 1) 1;
  '(igroup2, i, n) ← read_next plain plen i n;
  ogroup ← encode_group etable igroup0 igroup1 igroup2 n;
  Ok (ogroup, i).

(** [for (k = 0; k < kmax && j < lim; ++k, ++j) buf[j] = group[k];] *)
Definition put_group (group : list Z) (kmax lim : Z) (j : Z) (buf : list Z)
  : res (Z * list Z) :=
  loop (S (Z.to_nat kmax)) (fun '(k, j, buf) =>
    if (k <? kmax) && (j <? lim) then
      x ← aget group k;
      buf' ← aset buf j x;
      Ok (Next (k + 1, j + 1, buf'))
    else Ok (Leave (j, buf))) (0, j, buf).

(** One turn of the encoding loop on [(i, j, enc)]; [lim] is [nenc - 1]. *)
Definition encode_turn (etable plain : list Z) (plen lim : Z)
  : Z * Z * list Z → res (ctl (Z * Z * list Z) (Z * list Z)) :=
  fun '(i, j, enc) =>
    more ← (if i <? plen then c ← aget plain i; Ok (negb (c =? 0)) else Ok false);
    if negb more then Ok (Leave (j, enc))
    else
      '(ogroup, i) ← next_ogroup etable plain plen i;
      '(j, enc) ← put_group ogroup 4 lim j enc;
      Ok (Next (i, j, enc)).

Definition b64_encode (st : b64_state) (plain enc : list Z) (nenc : Z)
  : res (b64_state * list Z) :=
  st ← ensure_ready st;
  plen ← strlen plain;
  '(j, enc) ← loop (S (Z.to_nat plen))
    (encode_turn (g_etable st) plain plen (u64 (nenc - 1))) (0, 0, enc);
  enc ← aset enc j 0;
  Ok (st, enc).

(** ** Decoding *)

(** The inner loop over [k]: up to four characters into [a] and their table
    values into [b]; [None] is the [EINVAL] return. *)
Definition read_group_step (dtable encoded : list Z) (elen : Z)
  : Z * Z * list Z * list Z → res (ctl (Z * Z * list Z * list Z) (option (Z * list Z * list Z))) :=
  fun '(k, i, a, b) =>
    if (k <? 4) && (i <? elen) then
      c ← aget encoded i;
      v ← aget dtable c;
      if negb (Z.land v 0x80 =? 0) then Ok (Leave None)
      else
        a ← aset a k c;
        b ← aset b k v;
        Ok (Next (k + 1, i + 1, a, b))
    else Ok (Leave (Some (i, a, b))).

Definition read_group (dtable encoded : list Z) (elen : Z) (i : Z) (a b : list Z)
  : res (option (Z * list Z * list Z)) :=
  loop 5 (read_group_step dtable encoded elen) (0, i, a, b).

Definition decode_group (b : list Z) : res (list Z) :=
  b0 ← aget b 0;
  b1 ← aget b 1;
  b2 ← aget b 2;
  b3 ← aget b 3;
  Ok [u8 (Z.lor (Z.shiftl b0 2) (Z.shiftr b1 4));
      u8 (Z.lor (Z.shiftl b1 4) (Z.shiftr b2 2));
      u8 (Z.lor (Z.shiftl b2 6) b3)].

Definition group_olen (a : list Z) : res Z :=
  a2 ← aget a 2;
  a3 ← aget a 3;
  Ok (if a2 =? chr "="%char then 1 else if a3 =? chr "="%char then 2 else 3).

(** One turn of the decoding loop on [(i, j, a, b, decoded)]; it is left with
    [false] at the [EINVAL] return. *)
Definition decode_turn (dtable encoded : list Z) (elen lim : Z)
  : Z * Z * list Z * list Z * list Z →
    res (ctl (Z * Z * list Z * list Z * list Z) (Z * list Z * bool)) :=
  fun '(i, j, a, b, decoded) =>
    if (i <? elen) && (j <? lim) then
      g ← read_group dtable encoded elen i a b;
      match g with
      | None => Ok (Leave (j, decoded, false))
      | Some (i, a, b) =>
          o ← decode_group b;
          olen ← group_olen a;
          '(j, decoded) ← put_group o olen lim j decoded;
          Ok (Next (i, j, a, b, decoded))
      end
    else Ok (Leave (j, decoded, true)).

(** The result: [errno] afterwards, the buffer, and the pointer returned
    ([true] for [decoded], [false] for NULL). *)
Definition b64_decode (st : b64_state) (errno : Z)
    (encoded decoded : list Z) (ndecoded : Z)
  : res (b64_state * Z * list Z * bool) :=
  st ← ensure_ready st;
  elen ← strlen encoded;
  if negb (elen mod 4 =? 0) || (ndecoded <? min_decoded_buflen elen)
  then Ok (st, EMSGSIZE, decoded, false)
  else
    '(j, decoded, ok) ← loop (S (Z.to_nat elen))
      (decode_turn (g_dtable st) encoded elen (u64 (ndecoded - 1)))
      (0, 0, replicate 4 0, replicate 4 0, decoded);
    if negb ok then Ok (st, EINVAL, decoded, false)
    else
      decoded ← aset decoded j 0;
      Ok (st, errno, decoded, true).

(** ** Allocating wrappers.  [malloc n] is the block the C library returns,
    with whatever contents it has, or NULL. *)

Section wrappers.
Variable malloc : Z → option (list Z).

Definition new_b64_encoded (st : b64_state) (plain : option (list Z))
  : res (b64_state * option (list Z)) :=
  match plain with
  | None => Ok (st, None)
  | Some plain =>
      len ← strlen plain;
      if len <? 1 then Ok (st, None)
      else
        match malloc (min_encoded_buflen len) with
        | None => Ok (st, None)
        | Some encoded =>
            '(st, r) ← b64_encode st plain encoded (min_encoded_buflen len);
            Ok (st, Some r)
        end
  end.

(** It calls [b64_encode], as the source does. *)
Definition new_b64_decoded (st : b64_state) (encoded : option (list Z))
  : res (b64_state * option (list Z)) :=
  match encoded with
  | None => Ok (st, None)
  | Some encoded =>
      len ← strlen encoded;
      if len <? 1 then Ok (st, None)
      else
        match malloc (min_decoded_buflen len) with
        | None => Ok (st, None)
        | Some decoded =>
            '(st, r) ← b64_encode st encoded decoded (min_decoded_buflen len);
            Ok (st, Some r)
        end
  end.
End wrappers.

(** ** Reference definitions *)

Definition zs (s : string) : list Z := map chr (String.list_ascii_of_string s).

(** The alphabet of RFC 4648. *)
Definition alphabet : list Z :=
  zs "ABCDEFGHIJKLMNOPQRSTUVWXYZabcdefghijklmnopqrstuvwxyz0123456789+/".

(** The four digits of a 24-bit group. *)
Definition enc3 (a b c : Z) : list Z :=
  let v := a * 2 ^ 16 + b * 2 ^ 8 + c in
  [alphabet.[v / 2 ^ 18]; alphabet.[v / 2 ^ 12 mod 64];
   alphabet.[v / 2 ^ 6 mod 64]; alphabet.[v mod 64]].

Fixpoint b64_spec (s : list Z) : list Z :=
  match s with
  | [] => []
  | [a] => take 2 (enc3 a 0 0) ++ [chr "="%char; chr "="%char]
  | [a; b] => take 3 (enc3 a b 0) ++ [chr "="%char]
  | a :: b :: c :: r => enc3 a b c ++ b64_spec r
  end.

(** The value of a digit: its index in the alphabet, 0 for the pad. *)
Definition sextet (c : Z) : option Z :=
  if c =? chr "="%char then Some 0
  else (fun p => Z.of_nat p.1) <$> list_find (c =.) alphabet.

(** What the decoding table holds: byte 255 is accepted as a zero digit. *)
Definition table_sextet (c : Z) : option Z :=
  if c =? 255 then Some 0 else sextet c.

(** One group of four characters. *)
Definition dec4 (c0 c1 c2 c3 : Z) : option (list Z) :=
  v0 ← table_sextet c0;
  v1 ← table_sextet c1;
  v2 ← table_sextet c2;
  v3 ← table_sextet c3;
  let v := v0 * 2 ^ 18 + v1 * 2 ^ 12 + v2 * 2 ^ 6 + v3 in
  let n := if c2 =? chr "="%char then 1%nat
           else if c3 =? chr "="%char then 2%nat else 3%nat in
  Some (take n [v / 2 ^ 16; v / 2 ^ 8 mod 256; v mod 256]).

(** The bytes decoded before the first bad group, and whether there is none. *)
Fixpoint dec_run (s : list Z) : list Z * bool :=
  match s with
  | c0 :: c1 :: c2 :: c3 :: r =>
      match dec4 c0 c1 c2 c3 with
      | Some w => let '(w', ok) := dec_run r in (w ++ w', ok)
      | None => ([], false)
      end
  | _ => ([], true)
  end.

(** The state once the tables are filled. *)
Definition dtable_ready : list Z :=
  map (fun c => default 0x80 (table_sextet (Z.of_nat c))) (seq 0 256).
Definition b64_ready : b64_state := B64 alphabet dtable_ready 1.

(** The only two states the static variables go through. *)
Definition b64_ok (st : b64_state) : Prop := st = b64_static ∨ st = b64_ready.

(** ** The tables *)

Lemma b64_init_static : b64_init b64_static = Ok b64_ready.
Proof. vm_compute. reflexivity. Qed.

Lemma ensure_ready_ok st : b64_ok st → ensure_ready st = Ok b64_ready.
Proof. intros [-> | ->]; [exact b64_init_static|reflexivity]. Qed.

Lemma dtable_ready_rd c : 0 ≤ c < 256 →
  dtable_ready.[c] = default 0x80 (table_sextet c).
Proof.
  intros Hc. apply list_lookup_total_correct. unfold dtable_ready.
  change (map ?f ?l) with (f <$> l). rewrite list_lookup_fmap, lookup_seq_lt by lia.
  simpl. do 3 f_equal. lia.
Qed.

Lemma table_sextet_range c v : table_sextet c = Some v → 0 ≤ v < 64.
Proof.
  unfold table_sextet, sextet. intros H.
  destruct (c =? 255), (c =? chr "="%char); try (injection H as <-; lia).
  apply fmap_Some in H as ([k x] & Hf & ->).
  apply list_find_Some in Hf as (Hk & _). apply lookup_lt_Some in Hk.
  change (length alphabet) with 64%nat in Hk. simpl. lia.
Qed.

Lemma alphabet_sextet k : 0 ≤ k < 64 →
  table_sextet alphabet.[k] = Some k ∧ alphabet.[k] ≠ chr "="%char
  ∧ 0 < alphabet.[k] < 128.
Proof.
  intros Hk.
  assert (H : forallb (fun n => let c := alphabet !!! n in
     bool_decide (table_sextet c = Some (Z.of_nat n)) && negb (c =? chr "="%char)
     && (0 <? c) && (c <? 128)) (seq 0 64) = true) by (vm_compute; reflexivity).
  rewrite forallb_forall in H.
  specialize (H (Z.to_nat k)). rewrite in_seq in H.
  specialize (H ltac:(lia)). cbv zeta in H.
  rewrite !andb_true_iff, bool_decide_eq_true, negb_true_iff, Z.eqb_neq, !Z.ltb_lt in H.
  rewrite Z2Nat.id in H by lia. tauto.
Qed.

(** ** Encoding *)

Lemma aget_mid {A} (l r : list A) x i : i = zlen l → aget (l ++ x :: r) i = Ok x.
Proof.
  intros ->. unfold aget. rewrite (proj2 (Z.leb_le 0 _)) by lia.
  by rewrite Nat2Z.id, list_lookup_middle.
Qed.

Lemma put_group_spec group kmax lim w buf :
  0 ≤ kmax ≤ zlen group → zlen w ≤ lim < zlen buf →
  put_group group kmax lim (zlen w) (patch w buf)
  = let w' := take (Z.to_nat lim) (w ++ take (Z.to_nat kmax) group) in
    Ok (zlen w', patch w' buf).
Proof.
  intros Hk Hl. cbv zeta. set (w' := take _ _).
  enough (H : ensures (put_group group kmax lim (zlen w) (patch w buf))
                (λ r, r = (zlen w', patch w' buf))).
  { apply ensures_iff in H as (r & -> & ->). done. }
  unfold put_group.
  apply (loop_total (λ '(k, j, b), 0 ≤ k ≤ kmax ∧ zlen w + k ≤ lim ∧ j = zlen w + k
           ∧ b = patch (w ++ take (Z.to_nat k) group) buf)
         (λ '(k, _, _), Z.to_nat (kmax - k))).
  - intros [[k j] b] (Hk0 & Hlim & -> & ->).
    destruct (Z.ltb_spec k kmax), (Z.ltb_spec (zlen w + k) lim); cbn [andb].
    2,3,4: wp; assert (E : w ++ take (Z.to_nat k) group = w'); subst w';
      [|by rewrite <- E, length_app, length_take; do 2 f_equal; lia].
    + wp. repeat split; try lia. rewrite <- app_assoc.
      replace (Z.to_nat (k + 1)) with (S (Z.to_nat k)) by lia.
      do 2 f_equal. rewrite (take_S_r _ _ group.[k]); [done|].
      apply list_lookup_lookup_total_lt. lia.
    + rewrite take_app_ge, take_take by lia. do 2 f_equal. lia.
    + rewrite (take_ge (w ++ _)) by len. do 2 f_equal. lia.
    + rewrite (take_ge (w ++ _)) by len. do 2 f_equal. lia.
  - rewrite app_nil_r. split_and!; try lia. done.
  - lia.
Qed.

(** The code's shift-and-mask expressions select the digits of the 24-bit
    group. *)
Lemma encode_group_spec a b c n :
  0 ≤ a < 256 → 0 ≤ b < 256 → 0 ≤ c < 256 →
  encode_group alphabet a b c n =
  Ok (if n <? 2 then take 2 (enc3 a b c) ++ [chr "="%char; chr "="%char]
      else if n <? 3 then take 3 (enc3 a b c) ++ [chr "="%char] else enc3 a b c).
Proof.
  intros Ha Hb Hc. unfold encode_group.
  change (Z.land a 3) with (Z.land a (2 ^ 2 - 1)). change 0xF with (2 ^ 4 - 1).
  change 0x3F with (2 ^ 6 - 1).
  rewrite !land_low, !Z.shiftr_div_pow2 by lia.
  rewrite !lor_shiftl_add by plia.
  assert (Hn : zlen alphabet = 64) by reflexivity.
  unfold enc3. rewrite !aget_Ok, !bind_Ok by plia.
  replace (a / 2 ^ 2) with ((a * 2 ^ 16 + b * 2 ^ 8 + c) / 2 ^ 18) by plia.
  replace (a mod 2 ^ 2 * 2 ^ 4 + b / 2 ^ 4)
    with ((a * 2 ^ 16 + b * 2 ^ 8 + c) / 2 ^ 12 mod 64) by plia.
  replace (b mod 2 ^ 4 * 2 ^ 2 + c / 2 ^ 6)
    with ((a * 2 ^ 16 + b * 2 ^ 8 + c) / 2 ^ 6 mod 64) by plia.
  replace (c mod 2 ^ 6) with ((a * 2 ^ 16 + b * 2 ^ 8 + c) mod 64) by plia.
  destruct (Z.ltb_spec n 2), (Z.ltb_spec n 3); done || lia.
Qed.


(** The digits written for a whole number of groups do not depend on what
    follows. *)
Lemma b64_spec_app s r :
  (length s mod 3 = 0)%nat → b64_spec (s ++ r) = b64_spec s ++ b64_spec r.
Proof.
  induction s as [s H3|a b c s IH] using list_ind3; intros Hs.
  { destruct s as [|a [|b [|c s]]]; try done; simpl in H3; lia. }
  cbn [length] in Hs. cbn [app b64_spec]. rewrite IH; [by rewrite app_assoc|].
  replace (S (S (S (length s)))) with (length s + 1 * 3)%nat in Hs by lia.
  by rewrite Nat.Div0.mod_add in Hs.
Qed.

Lemma length_enc3 a b c : length (enc3 a b c) = 4%nat.
Proof. done. Qed.

(** [i] bytes of [s] are encoded; [t] is what fits of their digits. *)
Definition enc_inv (s enc : list Z) (lim : Z) (st : Z * Z * list Z) : Prop :=
  let '(i, j, buf) := st in
  ∃ s1 s2, s = s1 ++ s2 ∧ i = zlen s1 ∧ ((length s1 mod 3 = 0)%nat ∨ s2 = []) ∧
    let t := take (Z.to_nat lim) (b64_spec s1) in j = zlen t ∧ buf = patch t enc.

(** One turn of the loop encodes the next one to three bytes. *)
Lemma enc_step s enc lim s1 s2 g n :
  s = s1 ++ g ++ s2 → (length s1 mod 3 = 0)%nat →
  (length g = 3%nat ∨ s2 = []) → g ≠ [] →
  (length (s1 ++ g) mod 3 = 0)%nat ∨ s2 = [] →
  0 ≤ lim < zlen enc → zlen (b64_spec g) = 4 → n = zlen g →
  let t := take (Z.to_nat lim) (b64_spec s1) in
  ensures ('(j, buf) ← put_group (b64_spec g) 4 lim (zlen t) (patch t enc);
           Ok (Next (R := Z * list Z) (zlen s1 + n, j, buf)))
    (λ c, match c with
          | Next t' => enc_inv s enc lim t' ∧ t'.1.1 = zlen s1 + n
          | Leave _ => False
          end).
Proof.
  intros -> Hs1 Hg Hne Hm Hlim Hl -> t.
  rewrite put_group_spec by (subst t; len). cbv zeta. rewrite bind_Ok.
  split; [|done]. exists (s1 ++ g), s2. rewrite <- app_assoc. split; [done|].
  split; [len|]. split; [done|].
  replace (take (Z.to_nat lim) (b64_spec (s1 ++ g))) with
    (take (Z.to_nat lim) (t ++ take (Z.to_nat 4) (b64_spec g))); [done|].
  rewrite b64_spec_app, (take_ge (b64_spec g)) by (done || lia).
  subst t. destruct (decide (length (b64_spec s1) ≤ Z.to_nat lim)%nat).
  - by rewrite (take_ge (b64_spec s1)) by done.
  - rewrite !take_app_le by len. by rewrite take_take, Nat.min_id.
Qed.

Lemma read_next_some l c r plen i n :
  i = zlen l → i < plen → read_next (l ++ c :: r) plen i n = Ok (c, i + 1, n + 1).
Proof.
  intros Hi Hp. unfold read_next. rewrite (proj2 (Z.ltb_lt i plen)) by done.
  by rewrite aget_mid.
Qed.

Lemma read_next_none plain plen i n : plen ≤ i → read_next plain plen i n = Ok (0, i, n).
Proof. intros Hp. unfold read_next. by rewrite (proj2 (Z.ltb_ge i plen)). Qed.

Lemma cstr_byte s c : cstr s → c ∈ s → 0 < c < 256.
Proof. unfold cstr. rewrite Forall_forall. auto. Qed.

(** The straight-line part of the loop body: the bytes [g] at the front of what
    remains are read and turned into their digits. *)
Lemma encode_read s1 g s2 junk :
  cstr (s1 ++ g ++ s2) → g ≠ [] → (length g ≤ 3)%nat →
  (length g = 3%nat ∨ s2 = []) →
  let s := s1 ++ g ++ s2 in let plain := s ++ 0 :: junk in
  next_ogroup alphabet plain (zlen s) (zlen s1) = Ok (b64_spec g, zlen s1 + zlen g).
Proof.
  intros Hs Hne Hl Hg s plain. unfold next_ogroup.
  assert (Hb : ∀ c, c ∈ g → 0 ≤ c < 256).
  { apply Forall_app in Hs as [_ [Hs _]%Forall_app]. intros c Hc.
    pose proof (cstr_byte g c Hs Hc). lia. }
  assert (Hp : plain = s1 ++ g ++ s2 ++ 0 :: junk) by (subst plain s; by rewrite <- !app_assoc).
  assert (Hn : zlen s = zlen s1 + zlen g + zlen s2) by (subst s; len).
  rewrite Hp, Hn. clearbody plain s. clear Hp Hn Hs s plain.
  destruct g as [|a [|b [|c [|? ?]]]]; try (done || (simpl in Hl; lia)).
  all: rewrite <- ?app_comm_cons, aget_mid, bind_Ok by done.
  - destruct Hg as [ | ->]; [done|].
    do 2 (rewrite read_next_none, bind_Ok by len).
    rewrite encode_group_spec by (lia || (apply Hb; repeat constructor)). simpl. done.
  - destruct Hg as [ | ->]; [done|].
    rewrite (cons_middle a), (app_assoc s1).
    rewrite read_next_some, bind_Ok by len. rewrite read_next_none, bind_Ok by len.
    rewrite encode_group_spec by (lia || (apply Hb; repeat constructor)).
    simpl. do 2 f_equal. lia.
  - rewrite (cons_middle a), (app_assoc s1).
    rewrite read_next_some, bind_Ok by len.
    rewrite (cons_middle b), (app_assoc (s1 ++ [a])).
    rewrite read_next_some, bind_Ok by len.
    rewrite encode_group_spec by (lia || (apply Hb; repeat constructor)).
    simpl. do 2 f_equal. lia.
Qed.

(** The loop of [b64_encode]. *)
Lemma encode_loop s junk enc lim :
  cstr s → 0 ≤ lim < zlen enc →
  ensures (loop (S (Z.to_nat (zlen s)))
             (encode_turn alphabet (s ++ 0 :: junk) (zlen s) lim) (0, 0, enc))
    (λ '(j, buf), let t := take (Z.to_nat lim) (b64_spec s) in j = zlen t ∧ buf = patch t enc).
Proof.
  intros Hs Hlim.
  apply (loop_total (enc_inv s enc lim) (λ '(i, _, _), Z.to_nat (zlen s - i)));
    [|exists [], s; cbn; rewrite take_nil; auto|lia].
  intros [[i j] buf] (s1 & s2 & Es & -> & Hm & -> & ->). unfold encode_turn.
  destruct (decide (s2 = [])) as [->|Hne].
  { rewrite app_nil_r in Es. subst s1. by rewrite (proj2 (Z.ltb_ge _ _)) by lia. }
  destruct Hm as [Hm|]; [|done].
  assert (Hg : ∃ g s3, s2 = g ++ s3 ∧ g ≠ [] ∧ (length g ≤ 3)%nat ∧
    (length g = 3%nat ∨ s3 = []) ∧ zlen (b64_spec g) = 4).
  { exists (take 3 s2), (drop 3 s2). rewrite take_drop.
    destruct s2 as [|a [|b [|c r]]]; [done|..]; cbn [take drop length];
      rewrite ?take_0, ?drop_0; split_and!; try (done || lia); auto. }
  destruct Hg as (g & s3 & -> & Hg & Hl & H3 & H4).
  assert (Hmore : (if zlen s1 <? zlen s
     then c ← aget (s ++ 0 :: junk) (zlen s1); Ok (negb (c =? 0)) else Ok false) = Ok true).
  { destruct g as [|c g]; [done|]. subst s.
    rewrite (proj2 (Z.ltb_lt _ _)) by len.
    pose proof (cstr_byte _ c Hs ltac:(rewrite elem_of_app; right; constructor)).
    rewrite <- app_assoc. cbn [app]. rewrite aget_mid, bind_Ok by done.
    by rewrite (proj2 (Z.eqb_neq c 0)) by lia. }
  rewrite Hmore, bind_Ok. cbn [negb]. subst s.
  rewrite encode_read, bind_Ok by done.
  assert (H3' : (length (s1 ++ g) mod 3 = 0)%nat ∨ s3 = []).
  { destruct H3 as [H3|]; [left|auto].
    by rewrite length_app, H3, Nat.Div0.add_mod, Hm. }
  eapply ensures_mono;
    [by apply (enc_step (s1 ++ g ++ s3) enc lim s1 s3 g (zlen g)); auto|].
  intros [t|]; [|done]. intros [Ht Hi]. split; [done|].
  destruct t as [[i' j'] b']; simpl in Hi; subst i'.
  destruct g; [done|]. len.
Qed.

(** [b64_encode] writes the base64 digits of the string, cut to the
    [nenc - 1] bytes that fit, then a NUL, and touches nothing after it. *)
Lemma encode_run st s junk enc nenc :
  b64_ok st → cstr s → 1 ≤ nenc ≤ zlen enc → zlen enc < 2 ^ 64 →
  b64_encode st (s ++ 0 :: junk) enc nenc =
  Ok (b64_ready, patch (take (Z.to_nat (nenc - 1)) (b64_spec s) ++ [0]) enc).
Proof.
  intros Hst Hs Hn He. unfold b64_encode.
  rewrite ensure_ready_ok, bind_Ok, strlen_cstr, bind_Ok by done.
  change (g_etable b64_ready) with alphabet.
  rewrite (wrap_small 64 (nenc - 1)) by lia.
  destruct (proj1 (ensures_iff _ _) (encode_loop s junk enc (nenc - 1) Hs ltac:(lia)))
    as ([j buf] & -> & -> & ->).
  rewrite bind_Ok, aset_patch by len. done.
Qed.

(** ** Decoding *)

Lemma land_0x80_digit v : 0 ≤ v < 64 → Z.land v 0x80 = 0.
Proof.
  intros Hv. apply Z.bits_inj'. intros k Hk. rewrite Z.land_spec, Z.bits_0.
  destruct (Z.lt_ge_cases k 6).
  - assert (k = 0 ∨ k = 1 ∨ k = 2 ∨ k = 3 ∨ k = 4 ∨ k = 5) as Hc by lia.
    replace (Z.testbit 0x80 k) with false by (by repeat destruct Hc as [-> | Hc]; subst).
    apply andb_false_r.
  - by rewrite (testbit_high v 6) by lia.
Qed.

Lemma read_group_one encoded elen f k d c r a b :
  encoded = d ++ c :: r → zlen d < elen → k < 4 →
  0 ≤ c < 256 → 0 ≤ k < zlen a → 0 ≤ k < zlen b →
  loop (S f) (read_group_step dtable_ready encoded elen) (k, zlen d, a, b) =
  match table_sextet c with
  | None => Ok None
  | Some v => loop f (read_group_step dtable_ready encoded elen)
      (k + 1, zlen d + 1, <[Z.to_nat k := c]> a, <[Z.to_nat k := v]> b)
  end.
Proof.
  intros -> He Hk Hc Ha Hb.
  assert (E : read_group_step dtable_ready (d ++ c :: r) elen (k, zlen d, a, b) =
    Ok match table_sextet c with
       | None => Leave None
       | Some v => Next (k + 1, zlen d + 1, <[Z.to_nat k := c]> a, <[Z.to_nat k := v]> b)
       end).
  { unfold read_group_step.
    rewrite (proj2 (Z.ltb_lt k 4)), (proj2 (Z.ltb_lt _ elen)) by done. cbn [andb].
    rewrite aget_mid, bind_Ok by done.
    rewrite aget_Ok, bind_Ok by (change (zlen dtable_ready) with 256; lia).
    rewrite dtable_ready_rd by done.
    destruct (table_sextet c) as [v|] eqn:Ev; [|done]. cbn [default].
    rewrite land_0x80_digit by (by apply (table_sextet_range c)).
    cbn [negb Z.eqb]. by rewrite !aset_Ok by done. }
  cbn [loop]. rewrite E, bind_Ok. by destruct (table_sextet c).
Qed.

Lemma read_group_spec d c0 c1 c2 c3 r elen a b :
  cstr [c0; c1; c2; c3] → zlen d + 4 ≤ elen → length a = 4%nat → length b = 4%nat →
  read_group dtable_ready (d ++ c0 :: c1 :: c2 :: c3 :: r) elen (zlen d) a b =
  Ok (v0 ← table_sextet c0; v1 ← table_sextet c1; v2 ← table_sextet c2;
      v3 ← table_sextet c3;
      Some (zlen d + 4, [c0; c1; c2; c3], [v0; v1; v2; v3])).
Proof.
  intros Hc He Ha Hb. unfold read_group.
  apply Forall_cons in Hc as [H0 [H1 [H2 [H3 _]%Forall_cons]%Forall_cons]%Forall_cons].
  do 5 (destruct a as [|? a]; try done). do 5 (destruct b as [|? b]; try done).
  rewrite (read_group_one _ _ _ 0 d c0 (c1 :: c2 :: c3 :: r)) by (done || simpl; lia).
  destruct (table_sextet c0) as [v0|]; [|done].
  replace (zlen d + 1) with (zlen (d ++ [c0])) by len.
  rewrite (read_group_one _ _ _ _ (d ++ [c0]) c1 (c2 :: c3 :: r))
    by (by rewrite <- app_assoc) || len.
  destruct (table_sextet c1) as [v1|]; [|done].
  replace (zlen (d ++ [c0]) + 1) with (zlen (d ++ [c0; c1])) by len.
  rewrite (read_group_one _ _ _ _ (d ++ [c0; c1]) c2 (c3 :: r))
    by (by rewrite <- app_assoc) || len.
  destruct (table_sextet c2) as [v2|]; [|done].
  replace (zlen (d ++ [c0; c1]) + 1) with (zlen (d ++ [c0; c1; c2])) by len.
  rewrite (read_group_one _ _ _ _ (d ++ [c0; c1; c2]) c3 r)
    by (by rewrite <- app_assoc) || len.
  destruct (table_sextet c3) as [v3|]; [|done].
  transitivity (Ok (Some (zlen (d ++ [c0; c1; c2]) + 1, [c0; c1; c2; c3], [v0; v1; v2; v3])));
    [done|].
  replace (zlen (d ++ [c0; c1; c2]) + 1) with (zlen d + 4) by len. done.
Qed.

Lemma decode_group_spec v0 v1 v2 v3 :
  0 ≤ v0 < 64 → 0 ≤ v1 < 64 → 0 ≤ v2 < 64 → 0 ≤ v3 < 64 →
  let v := v0 * 2 ^ 18 + v1 * 2 ^ 12 + v2 * 2 ^ 6 + v3 in
  decode_group [v0; v1; v2; v3] = Ok [v / 2 ^ 16; v / 2 ^ 8 mod 256; v mod 256].
Proof.
  intros H0 H1 H2 H3 v. subst v.
  change (decode_group [v0; v1; v2; v3]) with
    (Ok [u8 (Z.lor (Z.shiftl v0 2) (Z.shiftr v1 4));
         u8 (Z.lor (Z.shiftl v1 4) (Z.shiftr v2 2));
         u8 (Z.lor (Z.shiftl v2 6) v3)]).
  rewrite !Z.shiftr_div_pow2, !lor_shiftl_add by plia. unfold wrap.
  do 2 f_equal; [plia|f_equal; [plia|f_equal; plia]].
Qed.

Lemma group_olen_spec c0 c1 c2 c3 :
  group_olen [c0; c1; c2; c3] =
  Ok (if c2 =? chr "="%char then 1 else if c3 =? chr "="%char then 2 else 3).
Proof. done. Qed.

Lemma dec_run_app d r w :
  dec_run d = (w, true) → (length d mod 4 = 0)%nat →
  dec_run (d ++ r) = (w ++ (dec_run r).1, (dec_run r).2).
Proof.
  revert w. induction d as [d Hs|c0 c1 c2 c3 d IH] using list_ind4; intros w Hd Hl.
  { destruct d as [|c0 [|c1 [|c2 [|c3 d]]]]; try done; [|simpl in Hs; lia].
    injection Hd as <-. simpl. by destruct (dec_run r). }
  cbn [app dec_run] in *. destruct (dec4 c0 c1 c2 c3) as [g|]; [|done].
  destruct (dec_run d) as [w' ok] eqn:Ed. injection Hd as <- ->.
  rewrite (IH w' eq_refl); [by rewrite app_assoc|].
  cbn [length] in Hl. replace (S (S (S (S (length d))))) with (length d + 1 * 4)%nat in Hl by lia.
  by rewrite Nat.Div0.mod_add in Hl.
Qed.

Lemma length_dec_run d : zlen (dec_run d).1 * 4 ≤ zlen d * 3.
Proof.
  induction d as [d Hs|c0 c1 c2 c3 d IH] using list_ind4.
  { destruct d as [|c0 [|c1 [|c2 [|c3 d]]]]; simpl in *; lia. }
  cbn [dec_run]. unfold dec4.
  destruct (table_sextet c0), (table_sextet c1), (table_sextet c2), (table_sextet c3);
    try (simpl; lia).
  cbn [mbind option_bind]. destruct (dec_run d) as [w ok]. simpl in IH.
  cbn [fst]. rewrite length_app, length_take. simpl length. lia.
Qed.

Definition dec_inv (s buf : list Z) (t : Z * Z * list Z * list Z * list Z) : Prop :=
  let '(i, j, a, b, cur) := t in
  ∃ d r w, s = d ++ r ∧ (length d mod 4 = 0)%nat ∧ i = zlen d
    ∧ dec_run d = (w, true) ∧ j = zlen w ∧ cur = patch w buf
    ∧ length a = 4%nat ∧ length b = 4%nat.

(** A turn at the front of the group [c0 c1 c2 c3]. *)
Lemma decode_turn_group s junk buf lim d c0 c1 c2 c3 r w a b :
  cstr s → s = d ++ c0 :: c1 :: c2 :: c3 :: r → zlen s * 3 < lim * 4 - 4 → lim < zlen buf →
  dec_run d = (w, true) → length a = 4%nat → length b = 4%nat →
  ∃ a' b', length a' = 4%nat ∧ length b' = 4%nat ∧
  decode_turn dtable_ready (s ++ 0 :: junk) (zlen s) lim (zlen d, zlen w, a, b, patch w buf) =
  Ok match dec4 c0 c1 c2 c3 with
     | None => Leave (zlen w, patch w buf, false)
     | Some g => Next (zlen d + 4, zlen (w ++ g), a', b', patch (w ++ g) buf)
     end.
Proof.
  intros Hs -> Hlim Hbuf Hd Ha Hb.
  apply Forall_app in Hs as [_ Hg]. apply (Forall_take _ 4) in Hg. cbn [take] in Hg.
  pose proof (length_dec_run d) as Hw. rewrite Hd in Hw. cbn [fst] in Hw.
  unfold decode_turn. rewrite (proj2 (Z.ltb_lt (zlen d) _)), (proj2 (Z.ltb_lt _ lim)) by len.
  cbn [andb]. rewrite <- app_assoc. cbn [app].
  rewrite read_group_spec, bind_Ok by (done || len). unfold dec4.
  destruct (table_sextet c0) as [v0|] eqn:E0; [|by exists a, b].
  destruct (table_sextet c1) as [v1|] eqn:E1; [|by exists a, b].
  destruct (table_sextet c2) as [v2|] eqn:E2; [|by exists a, b].
  destruct (table_sextet c3) as [v3|] eqn:E3; [|by exists a, b].
  exists [c0; c1; c2; c3], [v0; v1; v2; v3]. split; [done|]. split; [done|].
  cbn [mbind option_bind].
  rewrite decode_group_spec, bind_Ok by (by eapply table_sextet_range).
  rewrite group_olen_spec, bind_Ok.
  rewrite put_group_spec by (simpl; repeat case_match; len).
  cbv zeta. rewrite bind_Ok.
  rewrite (take_ge (w ++ _)) by (rewrite length_app, length_take; simpl; len).
  repeat case_match; done.
Qed.

Lemma decode_loop s junk buf lim :
  cstr s → (length s mod 4 = 0)%nat → zlen s * 3 < lim * 4 - 4 → lim < zlen buf →
  ensures (loop (S (Z.to_nat (zlen s))) (decode_turn dtable_ready (s ++ 0 :: junk) (zlen s) lim)
             (0, 0, replicate 4 0, replicate 4 0, buf))
    (λ '(j, cur, ok), j = zlen (dec_run s).1 ∧ cur = patch (dec_run s).1 buf
                      ∧ ok = (dec_run s).2).
Proof.
  intros Hs Hl Hlim Hbuf.
  apply (loop_total (dec_inv s buf) (λ '(i, _, _, _, _), Z.to_nat (zlen s - i)));
    [|exists [], s, []; by auto|lia].
  intros [[[[i j] a] b] cur] (d & r & w & Es & Hd & -> & Hrun & -> & -> & Ha & Hb).
  assert (Hr : r = [] ∨ ∃ c0 c1 c2 c3 r', r = c0 :: c1 :: c2 :: c3 :: r').
  { subst s. destruct r as [|c0 [|c1 [|c2 [|c3 r]]]]; eauto 9; exfalso.
    all: rewrite length_app, Nat.Div0.add_mod, Hd in Hl; done. }
  destruct Hr as [-> | (c0 & c1 & c2 & c3 & r' & ->)].
  { rewrite app_nil_r in Es. subst d. unfold decode_turn.
    rewrite (proj2 (Z.ltb_ge _ _)) by lia. by rewrite Hrun. }
  destruct (decode_turn_group s junk buf lim d c0 c1 c2 c3 r' w a b)
    as (a' & b' & Ha' & Hb' & ->); try done.
  rewrite Es, (dec_run_app d _ w) by done. cbn [dec_run ensures].
  destruct (dec4 c0 c1 c2 c3) as [g|] eqn:Eg; [|by rewrite app_nil_r].
  split; [|subst s; len].
  exists (d ++ [c0; c1; c2; c3]), r', (w ++ g).
  split_and!; try done.
  - subst s. by rewrite <- app_assoc.
  - by rewrite length_app, Nat.Div0.add_mod, Hd.
  - len.
  - rewrite (dec_run_app d _ w) by done. cbn [dec_run]. rewrite Eg.
    cbn. by rewrite app_nil_r.
Qed.

(** [b64_decode] on a buffer of sufficient size. *)
Lemma decode_run st errno s junk buf nd :
  b64_ok st → cstr s → zlen s mod 4 = 0 → zlen s < 2 ^ 61 →
  min_decoded_buflen (zlen s) ≤ nd ≤ zlen buf → zlen buf < 2 ^ 64 →
  b64_decode st errno (s ++ 0 :: junk) buf nd =
  let '(w, ok) := dec_run s in
  Ok (if ok : bool then (b64_ready, errno, patch (w ++ [0]) buf, true)
      else (b64_ready, EINVAL, patch w buf, false)).
Proof.
  intros Hst Hs Hm Hl Hn Hbuf. unfold b64_decode.
  rewrite ensure_ready_ok, bind_Ok, strlen_cstr, bind_Ok by done.
  rewrite Hm, (proj2 (Z.ltb_ge nd _)) by lia. cbn [Z.eqb negb orb].
  unfold min_decoded_buflen in Hn. rewrite wrap_small in Hn by plia.
  rewrite (wrap_small 64 (nd - 1)) by plia.
  destruct (proj1 (ensures_iff _ _) (decode_loop s junk buf (nd - 1) Hs
    ltac:(apply Nat2Z.inj; rewrite Nat2Z.inj_mod; exact Hm) ltac:(plia) ltac:(lia)))
    as ([[j cur] ok] & E & -> & -> & ->).
  change (g_dtable b64_ready) with dtable_ready. rewrite E, bind_Ok.
  pose proof (length_dec_run s) as Hd. destruct (dec_run s) as [w [|]]; cbn [fst snd negb] in *; [|done].
  rewrite aset_patch by plia. done.
Qed.

Lemma length_b64_spec s : zlen (b64_spec s) = (zlen s + 2) / 3 * 4.
Proof.
  induction s as [s H3|a b c s IH] using list_ind3.
  { by destruct s as [|a [|b [|c s]]]; [| | |simpl in H3; lia]. }
  cbn [b64_spec]. rewrite length_app, length_enc3, Nat2Z.inj_add, IH.
  simpl length. plia.
Qed.

(** The digits of a group as characters of the alphabet. *)
Lemma enc3_digits a b c :
  0 ≤ a < 256 → 0 ≤ b < 256 → 0 ≤ c < 256 →
  ∃ v0 v1 v2 v3, enc3 a b c = [alphabet.[v0]; alphabet.[v1]; alphabet.[v2]; alphabet.[v3]]
    ∧ 0 ≤ v0 < 64 ∧ 0 ≤ v1 < 64 ∧ 0 ≤ v2 < 64 ∧ 0 ≤ v3 < 64
    ∧ v0 * 2 ^ 18 + v1 * 2 ^ 12 + v2 * 2 ^ 6 + v3 = a * 2 ^ 16 + b * 2 ^ 8 + c.
Proof. intros Ha Hb Hc. unfold enc3. do 4 eexists. split; [done|]. plia. Qed.

Lemma cstr_b64_spec s : cstr s → cstr (b64_spec s).
Proof.
  assert (Hd : ∀ v, 0 ≤ v < 64 → 0 < alphabet.[v] < 256).
  { intros v Hv. pose proof (alphabet_sextet v Hv). lia. }
  assert (Hp : 0 < chr "="%char < 256) by done.
  induction s as [s H3|a b c s IH] using list_ind3; intros Hs.
  - destruct s as [|a [|b [|c s]]]; [done| | |simpl in H3; lia].
    all: repeat (apply Forall_cons in Hs as [? Hs]); cbn [b64_spec].
    + destruct (enc3_digits a 0 0) as (? & ? & ? & ? & -> & ?); try lia.
      repeat constructor; try apply Hd; lia.
    + destruct (enc3_digits a b 0) as (? & ? & ? & ? & -> & ?); try lia.
      repeat constructor; try apply Hd; lia.
  - do 3 (apply Forall_cons in Hs as [? Hs]). cbn [b64_spec].
    destruct (enc3_digits a b c) as (? & ? & ? & ? & -> & ?); try lia.
    repeat constructor; try apply Hd; try lia. by apply IH.
Qed.

(** Decoding a group of digits gives its first bytes back. *)
Lemma dec4_digits v0 v1 c2 c3 v2 v3 :
  0 ≤ v0 < 64 → 0 ≤ v1 < 64 → table_sextet c2 = Some v2 → table_sextet c3 = Some v3 →
  dec4 alphabet.[v0] alphabet.[v1] c2 c3 =
  let v := v0 * 2 ^ 18 + v1 * 2 ^ 12 + v2 * 2 ^ 6 + v3 in
  let n := if c2 =? chr "="%char then 1%nat else if c3 =? chr "="%char then 2%nat else 3%nat in
  Some (take n [v / 2 ^ 16; v / 2 ^ 8 mod 256; v mod 256]).
Proof.
  intros H0 H1 E2 E3. unfold dec4.
  rewrite (proj1 (alphabet_sextet v0 H0)), (proj1 (alphabet_sextet v1 H1)).
  by rewrite E2, E3.
Qed.

Lemma dec_run_spec s : cstr s → dec_run (b64_spec s) = (s, true).
Proof.
  assert (Hd : ∀ v, 0 ≤ v < 64 → table_sextet alphabet.[v] = Some v ∧
            (alphabet.[v] =? chr "="%char) = false).
  { intros v Hv. rewrite Z.eqb_neq. split; apply (alphabet_sextet v Hv). }
  assert (Hp : table_sextet (chr "="%char) = Some 0) by done.
  induction s as [s H3|a b c s IH] using list_ind3; intros Hs.
  - destruct s as [|a [|b [|c s]]]; [done| | |simpl in H3; lia].
    all: repeat (apply Forall_cons in Hs as [? Hs]); cbn [b64_spec].
    + destruct (enc3_digits a 0 0) as (v0 & v1 & ? & ? & -> & ?); try lia.
      cbn [take app dec_run]. rewrite (dec4_digits v0 v1 _ _ 0 0) by (done || lia).
      rewrite Z.eqb_refl. cbn [take app]. do 2 f_equal. plia.
    + destruct (enc3_digits a b 0) as (v0 & v1 & v2 & ? & -> & ?); try lia.
      cbn [take app dec_run].
      rewrite (dec4_digits v0 v1 _ _ v2 0) by (done || apply Hd || lia; lia).
      rewrite (proj2 (Hd v2 ltac:(lia))), Z.eqb_refl. cbn [take app].
      do 2 f_equal; [plia|f_equal; plia].
  - do 3 (apply Forall_cons in Hs as [? Hs]). cbn [b64_spec].
    destruct (enc3_digits a b c) as (v0 & v1 & v2 & v3 & -> & ?); try lia.
    cbn [app dec_run].
    rewrite (dec4_digits v0 v1 _ _ v2 v3) by (lia || (apply Hd; lia)).
    rewrite (proj2 (Hd v2 ltac:(lia))), (proj2 (Hd v3 ltac:(lia))).
    rewrite IH by done. cbn [take app].
    do 2 f_equal; [plia|f_equal; [plia|f_equal; plia]].
Qed.

Lemma table_sextet_None c :
  table_sextet c = None ↔ c ∉ alphabet ∧ c ≠ chr "="%char ∧ c ≠ 255.
Proof.
  unfold table_sextet, sextet.
  destruct (Z.eqb_spec c 255) as [->|]; [naive_solver|].
  destruct (Z.eqb_spec c (chr "="%char)) as [->|]; [naive_solver|].
  rewrite fmap_None, list_find_None, Forall_forall. naive_solver.
Qed.

(** Decoding stops early exactly at a byte the table marks as bad. *)
Lemma dec_run_ok s : (length s mod 4 = 0)%nat →
  (dec_run s).2 = false ↔ Exists (λ c, table_sextet c = None) s.
Proof.
  induction s as [s H4|c0 c1 c2 c3 s IH] using list_ind4; intros Hl.
  { destruct s as [|a [|b [|c [|d s]]]]; try done; [|simpl in H4; lia].
    split; [done|by intros ?%Exists_nil]. }
  cbn [length] in Hl. replace (S (S (S (S (length s))))) with (length s + 1 * 4)%nat in Hl by lia.
  rewrite Nat.Div0.mod_add in Hl. specialize (IH Hl).
  rewrite !Exists_cons. cbn [dec_run]. unfold dec4.
  destruct (table_sextet c0); [|cbn; naive_solver].
  destruct (table_sextet c1); [|cbn; naive_solver].
  destruct (table_sextet c2); [|cbn; naive_solver].
  destruct (table_sextet c3); [|cbn; naive_solver].
  cbn [mbind option_bind]. destruct (dec_run s) as [w ok]. cbn [fst snd] in *.
  rewrite <- IH. naive_solver.
Qed.

(** ** Properties *)

(** C34: [b64_encode] writes the RFC 4648 digits of the string, cut to the
    [nenc - 1] bytes that fit, then a NUL, and touches nothing after it. *)
Theorem b64_encode_spec st s junk enc nenc :
  b64_ok st → cstr s → 1 ≤ nenc ≤ zlen enc → zlen enc < 2 ^ 64 →
  b64_encode st (s ++ 0 :: junk) enc nenc =
  Ok (b64_ready, patch (take (Z.to_nat (nenc - 1)) (b64_spec s) ++ [0]) enc).
Proof. apply encode_run. Qed.

Lemma b64_encode_spec_witness :
  b64_encode b64_static (zs "Man i" ++ [0]) (replicate 9 7) 7 =
  Ok (b64_ready, zs "TWFuIG" ++ [0; 7; 7]).
Proof.
  apply (b64_encode_spec b64_static (zs "Man i") [] (replicate 9 7) 7);
    [by left | repeat constructor | vm_compute; split; congruence | done].
Defined.

(** C3: encoding a string into a buffer of [min_encoded_buflen] bytes and
    decoding the result gives the string back, NUL-terminated, with success
    and [errno] unchanged. *)
Theorem b64_roundtrip st errno s junk enc nenc dec ndec :
  b64_ok st → cstr s → zlen s < 2 ^ 60 →
  min_encoded_buflen (zlen s) ≤ nenc ≤ zlen enc → zlen enc < 2 ^ 64 →
  min_decoded_buflen (zlen (b64_spec s)) ≤ ndec ≤ zlen dec → zlen dec < 2 ^ 64 →
  ('(st, enc) ← b64_encode st (s ++ 0 :: junk) enc nenc;
   b64_decode st errno enc dec ndec) =
  Ok (b64_ready, errno, patch (s ++ [0]) dec, true).
Proof.
  intros Hst Hs Hl Hne He Hnd Hd.
  pose proof (length_b64_spec s) as Hlen.
  unfold min_encoded_buflen in Hne. rewrite wrap_small in Hne by plia.
  rewrite encode_run, bind_Ok by (done || plia).
  rewrite take_ge by plia. unfold patch at 1. rewrite <- app_assoc. cbn [app].
  rewrite decode_run, dec_run_spec; try done.
  - by right.
  - by apply cstr_b64_spec.
  - plia.
  - plia.
Qed.

Lemma b64_roundtrip_witness :
  ('(st, enc) ← b64_encode b64_static (zs "tail" ++ [0]) (replicate 9 7) 9;
   b64_decode st 5 enc (replicate 12 9) 10) =
  Ok (b64_ready, 5, zs "tail" ++ [0] ++ replicate 7 9, true).
Proof.
  apply (b64_roundtrip b64_static 5 (zs "tail") [] (replicate 9 7) 9 (replicate 12 9) 10);
    [by left | repeat constructor | done | vm_compute; split; congruence | done
    | vm_compute; split; congruence | done].
Defined.

(** How [b64_decode] ends, whatever the string and the buffer. *)
Lemma decode_errors st errno s junk buf nd :
  b64_ok st → cstr s → zlen s < 2 ^ 61 → nd ≤ zlen buf → zlen buf < 2 ^ 64 →
  ensures (b64_decode st errno (s ++ 0 :: junk) buf nd) (λ '(_, e, _, ret),
    let bad_size := zlen s mod 4 ≠ 0 ∨ nd < min_decoded_buflen (zlen s) in
    let bad_char := Exists (λ c, c ∉ alphabet ∧ c ≠ chr "="%char ∧ c ≠ 255) s in
    (ret = false ↔ bad_size ∨ bad_char) ∧
    (e = if ret then errno
         else if bool_decide bad_size then EMSGSIZE else EINVAL)).
Proof.
  intros Hst Hs Hl Hn Hb.
  destruct (decide (zlen s mod 4 ≠ 0 ∨ nd < min_decoded_buflen (zlen s))) as [Hsz|Hsz].
  - unfold b64_decode. rewrite ensure_ready_ok, bind_Ok, strlen_cstr, bind_Ok by done.
    replace (negb _ || _) with true.
    + cbn. rewrite bool_decide_eq_true_2 by done. naive_solver.
    + symmetry. rewrite orb_true_iff, negb_true_iff, Z.eqb_neq, Z.ltb_lt. done.
  - rewrite decode_run by (done || lia).
    assert (Hm : (length s mod 4 = 0)%nat) by (apply Nat2Z.inj; rewrite Nat2Z.inj_mod; lia).
    pose proof (dec_run_ok s Hm) as Hr.
    setoid_rewrite table_sextet_None in Hr.
    destruct (dec_run s) as [w [|]]; cbn in *; (split; [naive_solver|]); [done|].
    by rewrite bool_decide_eq_false_2.
Qed.

(** C35: whatever the string and the buffer, [b64_decode] stays in bounds; it
    fails with [EMSGSIZE] exactly when the length is no multiple of four or
    the buffer is too short, otherwise with [EINVAL] exactly when some byte is
    neither a digit, nor the pad, nor 255 (which the table accepts as a zero
    digit because its initialisation loop stops at 254).  Given a buffer of
    [min_decoded_buflen] bytes and whole groups it writes the decoded bytes and a
    NUL, or, at a bad character, has written the groups before it. *)
Theorem b64_decode_spec st errno s junk buf nd :
  b64_ok st → cstr s → zlen s < 2 ^ 61 → nd ≤ zlen buf → zlen buf < 2 ^ 64 →
  ensures (b64_decode st errno (s ++ 0 :: junk) buf nd) (λ '(_, e, _, ret),
    let bad_size := zlen s mod 4 ≠ 0 ∨ nd < min_decoded_buflen (zlen s) in
    let bad_char := Exists (λ c, c ∉ alphabet ∧ c ≠ chr "="%char ∧ c ≠ 255) s in
    (ret = false ↔ bad_size ∨ bad_char) ∧
    (e = if ret then errno
         else if bool_decide bad_size then EMSGSIZE else EINVAL)) ∧
  (zlen s mod 4 = 0 → min_decoded_buflen (zlen s) ≤ nd →
   b64_decode st errno (s ++ 0 :: junk) buf nd =
   let '(w, ok) := dec_run s in
   Ok (if ok : bool then (b64_ready, errno, patch (w ++ [0]) buf, true)
       else (b64_ready, EINVAL, patch w buf, false))).
Proof.
  intros Hst Hs Hl Hn Hb. split; [by apply decode_errors|]. intros Hm Hmin. by apply decode_run.
Qed.

Lemma b64_decode_spec_witness :
  b64_decode b64_static 0 (zs "TWFuaQ=*" ++ [0]) (replicate 10 7) 10 =
    Ok (b64_ready, EINVAL, zs "Man" ++ replicate 7 7, false) ∧
  ensures (b64_decode b64_static 0 ([255; 255; 65; 66] ++ [0]) (replicate 7 7) 7)
    (λ '(_, e, _, ret),
    let bad_size := zlen [255; 255; 65; 66] mod 4 ≠ 0
                    ∨ 7 < min_decoded_buflen (zlen [255; 255; 65; 66]) in
    let bad_char := Exists (λ c, c ∉ alphabet ∧ c ≠ chr "="%char ∧ c ≠ 255) [255; 255; 65; 66] in
    (ret = false ↔ bad_size ∨ bad_char) ∧
    (e = if ret then 0 else if bool_decide bad_size then EMSGSIZE else EINVAL)).
Proof.
  split.
  - apply (b64_decode_spec b64_static 0 (zs "TWFuaQ=*") [] (replicate 10 7) 10);
      [by left | repeat constructor | done | done | done | done | vm_compute; congruence].
  - apply (b64_decode_spec b64_static 0 [255; 255; 65; 66] [] (replicate 7 7) 7);
      [by left | repeat constructor | done | done | done].
Defined.

(** What the allocator guarantees: the block has the size asked for. *)
Definition malloc_ok (malloc : Z → option (list Z)) : Prop :=
  ∀ n blk, malloc n = Some blk → zlen blk = n.

(** [new_b64_encoded] returns NULL for a NULL or empty string or when
    [malloc] fails, and otherwise a block that holds the whole encoding and its
    NUL. *)
Lemma new_b64_encoded_run malloc st s junk :
  malloc_ok malloc → b64_ok st → cstr s → zlen s < 2 ^ 60 →
  new_b64_encoded malloc st (Some (s ++ 0 :: junk)) =
  Ok (if s is [] then (st, None)
      else match malloc (min_encoded_buflen (zlen s)) with
           | None => (st, None)
           | Some blk => (b64_ready, Some (patch (b64_spec s ++ [0]) blk))
           end).
Proof.
  intros Hma Hst Hs Hl. unfold new_b64_encoded. rewrite strlen_cstr, bind_Ok by done.
  destruct (decide (s = [])) as [->|Hne]; [done|].
  rewrite (proj2 (Z.ltb_ge _ 1)) by (destruct s; [done|simpl; lia]).
  pose proof (length_b64_spec s) as Hlen.
  destruct (malloc _) as [blk|] eqn:Em; [|by destruct s].
  pose proof (Hma _ _ Em) as Hb. unfold min_encoded_buflen in *.
  rewrite wrap_small in * by plia.
  rewrite encode_run, bind_Ok, take_ge by (done || plia). by destruct s.
Qed.

(** An allocator that never fails. *)
Definition malloc_zeroed (n : Z) : option (list Z) :=
  if 0 <=? n then Some (replicate (Z.to_nat n) 0) else None.

Lemma malloc_zeroed_ok : malloc_ok malloc_zeroed.
Proof.
  intros n blk. unfold malloc_zeroed. destruct (Z.leb_spec 0 n); [|done].
  intros [= <-]. len.
Qed.

(** [new_b64_decoded] does not decode: what it returns is the base64
    encoding of its argument, cut to the size meant for the decoded bytes. *)
Lemma new_b64_decoded_run malloc st s junk blk :
  malloc_ok malloc → b64_ok st → cstr s → s ≠ [] → zlen s < 2 ^ 60 →
  malloc (min_decoded_buflen (zlen s)) = Some blk →
  new_b64_decoded malloc st (Some (s ++ 0 :: junk)) =
  Ok (b64_ready,
      Some (patch (take (Z.to_nat ((zlen s / 4 + 1) * 3)) (b64_spec s) ++ [0]) blk)).
Proof.
  intros Hma Hst Hs Hne Hl Em. unfold new_b64_decoded. rewrite strlen_cstr, bind_Ok by done.
  rewrite (proj2 (Z.ltb_ge _ 1)) by (destruct s; [done|simpl; lia]). rewrite Em.
  pose proof (Hma _ _ Em) as Hb. unfold min_decoded_buflen in *.
  rewrite wrap_small in * by plia.
  rewrite encode_run, bind_Ok by (done || plia). do 6 f_equal. lia.
Qed.

(** the allocating wrappers, for a string and an allocator that gives blocks of
    the size asked for.  [new_b64_encoded] returns NULL for an empty string or
    when there is no memory, and otherwise a block that holds the whole encoding
    and its NUL.  [new_b64_decoded] does not decode: what it returns is the
    base64 encoding of its argument, cut to the size meant for the decoded
    bytes. *)
Theorem new_b64_wrappers malloc st s junk :
  malloc_ok malloc → b64_ok st → cstr s → zlen s < 2 ^ 60 →
  new_b64_encoded malloc st (Some (s ++ 0 :: junk)) =
    Ok (if s is [] then (st, None)
        else match malloc (min_encoded_buflen (zlen s)) with
             | None => (st, None)
             | Some blk => (b64_ready, Some (patch (b64_spec s ++ [0]) blk))
             end) ∧
  (∀ blk, s ≠ [] → malloc (min_decoded_buflen (zlen s)) = Some blk →
   new_b64_decoded malloc st (Some (s ++ 0 :: junk)) =
     Ok (b64_ready,
         Some (patch (take (Z.to_nat ((zlen s / 4 + 1) * 3)) (b64_spec s) ++ [0]) blk))).
Proof.
  intros Hm Hst Hs Hl. split; [by apply new_b64_encoded_run|].
  intros blk Hne Hb. by apply new_b64_decoded_run.
Qed.

Lemma new_b64_wrappers_witness :
  new_b64_encoded malloc_zeroed b64_static (Some (zs "Ma" ++ [0])) =
  Ok (b64_ready, Some (zs "TWE=" ++ [0])).
Proof.
  apply (new_b64_wrappers malloc_zeroed b64_static (zs "Ma") []);
    [exact malloc_zeroed_ok | by left | repeat constructor | done].
Defined.
