(* ===== verification/TestB64.v ===== *)
(** * base64/test_b64.c: the base64 codec as a command

    The program encodes or decodes its argument with Base64 and prints the
    result.  Arguments are the characters of the strings, without their NUL. *)

From stdpp Require Import strings.
From S2P Require Import Prelude Libc Base64.
Local Open Scope Z_scope.

(** What the program prints: usage or a failed allocation, the result of the
    codec, or ERROR. *)
Inductive output := Complaint | Printed (l : list Z) | Failure.

Section code.
(** [calloc (1, n)], if it succeeds: zeros. *)
Variable calloc : Z → option (list Z).

(** The exit status, the output and the tables; [args] is [argv] without the
    program's name. *)
Definition main (st : b64_state) (errno : Z) (args : list (list Z)) : res (Z * output * b64_state) :=
  match args with
  | mode :: str :: _ =>
      n ← strlen (str ++ [0]);
      let buflen := u64 ((n / 3 + 1) * 4 + 1) in
      match calloc buflen with
      | None => Ok (1, Complaint, st)
      | Some buf =>
          '(res, st) ←
            (if strcasecmp_eq (Libc.zs "encode") mode then
               '(st, buf) ← b64_encode st (str ++ [0]) buf buflen; Ok (Some buf, st)
             else if strcasecmp_eq (Libc.zs "decode") mode then
               '(st, _, buf, ok) ← b64_decode st errno (str ++ [0]) buf buflen;
               Ok (if ok : bool then Some buf else None, st)
             else Ok (None, st));
          Ok (0, match res with Some l => Printed (c_str l) | None => Failure end, st)
      end
  | _ => Ok (1, Complaint, st)
  end.
End code.

Definition zeroed (n : Z) : option (list Z) := Some (replicate (Z.to_nat n) 0).

(** The buffer has room for the result of either mode. *)
Lemma buffer_fits n : 0 ≤ n < 2 ^ 60 →
  let buflen := u64 ((n / 3 + 1) * 4 + 1) in
  (n + 2) / 3 * 4 < buflen < 2 ^ 62 ∧ min_decoded_buflen n ≤ buflen.
Proof. intros Hn. unfold min_decoded_buflen. cbn zeta. rewrite !wrap_small by plia. split; plia. Qed.

Lemma encode_mode st errno s mode :
  b64_ok st → cstr s → zlen s < 2 ^ 60 → strcasecmp_eq (Libc.zs "encode") mode = true →
  main zeroed st errno [mode; s] = Ok (0, Printed (b64_spec s), b64_ready).
Proof.
  intros Hst Hs Hl Hm. cbn [main]. rewrite strlen_cstr, bind_Ok by done. unfold zeroed. rewrite Hm.
  destruct (buffer_fits (zlen s)) as [Hb _]; [lia|]. revert Hb. generalize (u64 ((zlen s / 3 + 1) * 4 + 1)). intros n Hb.
  pose proof (length_b64_spec s) as Hlen.
  rewrite encode_run by (done || (rewrite length_replicate; lia)).
  rewrite !bind_Ok, take_ge by lia. unfold patch. rewrite <- app_assoc. cbn [app].
  by rewrite c_str_app_nul, c_str_cstr by (by apply cstr_b64_spec).
Qed.

Lemma decode_mode st errno s mode :
  b64_ok st → cstr s → zlen s < 2 ^ 60 →
  strcasecmp_eq (Libc.zs "encode") mode = false → strcasecmp_eq (Libc.zs "decode") mode = true →
  ∃ st', main zeroed st errno [mode; s] =
    Ok (0, if decide (zlen s mod 4 = 0 ∧ (dec_run s).2 = true) then Printed (c_str (dec_run s).1) else Failure, st').
Proof.
  intros Hst Hs Hl Hm Hm'. cbn [main]. rewrite strlen_cstr, bind_Ok by done. unfold zeroed. rewrite Hm, Hm'.
  destruct (buffer_fits (zlen s)) as [Hb Hd]; [lia|]. revert Hb Hd. generalize (u64 ((zlen s / 3 + 1) * 4 + 1)). intros n Hb Hd.
  assert (Hz : zlen (replicate (Z.to_nat n) 0) = n) by (rewrite length_replicate; plia).
  destruct (decide (zlen s mod 4 = 0)) as [Hmod|Hmod].
  - rewrite decode_run by (done || lia). destruct (dec_run s) as [w ok]. cbn [fst snd].
    destruct ok; rewrite !bind_Ok; [rewrite decide_True by done|rewrite decide_False by naive_solver]; [|by eexists].
    eexists. unfold patch. rewrite <- app_assoc. cbn [app]. by rewrite c_str_app_nul.
  - rewrite decide_False by naive_solver.
    pose proof (decode_errors st errno s [] (replicate (Z.to_nat n) 0) n Hst Hs) as H.
    apply ensures_iff in H as ([[[st' e] buf] ok] & -> & [_ Hr] & _); [|lia|lia|lia].
    rewrite Hr by (by left; left). rewrite bind_Ok. by eexists.
Qed.

(** The command encodes every string, and decoding what it prints prints the
    string again; any other text is decoded up to its first NUL byte, or an
    error is printed.  The status is 0 in every case, also after an error and
    for an unknown mode. *)
Theorem test_b64_tool st errno s :
  b64_ok st → cstr s → zlen s < 2 ^ 59 →
  main zeroed st errno [Libc.zs "encode"; s] = Ok (0, Printed (b64_spec s), b64_ready) ∧
  (∃ st', main zeroed st errno [Libc.zs "decode"; b64_spec s] = Ok (0, Printed s, st')) ∧
  (∃ st' out, main zeroed st errno [Libc.zs "decode"; s] = Ok (0, out, st') ∧
     out = if decide (zlen s mod 4 = 0 ∧ (dec_run s).2 = true) then Printed (c_str (dec_run s).1) else Failure) ∧
  (∀ mode, strcasecmp_eq (Libc.zs "encode") mode = false → strcasecmp_eq (Libc.zs "decode") mode = false →
     main zeroed st errno [mode; s] = Ok (0, Failure, st)).
Proof.
  intros Hst Hs Hl. split_and!.
  - apply encode_mode; (done || lia).
  - pose proof (length_b64_spec s) as Hlen.
    destruct (decode_mode st errno (b64_spec s) (Libc.zs "decode") Hst) as [st' E]; [by apply cstr_b64_spec|plia|done|done|].
    exists st'. rewrite E, dec_run_spec by done. cbn [fst snd]. rewrite decide_True; [by rewrite c_str_cstr|].
    split; [|done]. rewrite Hlen. by apply Z.mod_mul.
  - destruct (decode_mode st errno s (Libc.zs "decode") Hst Hs) as [st' E]; [lia|done|done|]. by eexists _, _.
  - intros mode Hm Hm'. cbn [main]. rewrite strlen_cstr, bind_Ok by done. unfold zeroed. by rewrite Hm, Hm', bind_Ok.
Qed.

(** Decoded zero bytes end what is printed; the status hides the error. *)
Example test_b64_run :
  (main zeroed b64_static 0 [Libc.zs "DECODE"; Libc.zs "YQBi"],
   main zeroed b64_static 0 [Libc.zs "decode"; Libc.zs "YQB"]) =
  (Ok (0, Printed [97], b64_ready), Ok (0, Failure, b64_ready)).
Proof. vm_compute. reflexivity. Qed.

Lemma test_b64_tool_witness :
  main zeroed b64_static 0 [Libc.zs "encode"; Libc.zs "Man"] = Ok (0, Printed (b64_spec (Libc.zs "Man")), b64_ready).
Proof. apply (test_b64_tool b64_static 0 (Libc.zs "Man")); [by left|repeat constructor|done]. Defined.
