(* ===== verification/Sort.v ===== *)
(** * sort/simple_sort.c: the exchange sorts on arrays of [long]

    [bubble_sort] is proved correct; [selection_sort] and [insertion_sort] are
    translated as they are written and shown to go wrong: the first one always
    reaches outside the array, the second one stores every element one slot too
    low.  [shell_sort] uses an identifier [N] the file never declares, which is a
    parameter here; for small [N] it is [insertion_sort]. *)

From S2P Require Import Prelude.
From Stdlib Require Import Sorted Permutation.

(** [swap (long *v1, long *v2)]: both pointers point into the same array. *)
Definition swap (val : list Z) (v1 v2 : Z) : res (list Z) :=
  tmp ← aget val v1;
  x ← aget val v2;
  val' ← aset val v1 x;
  aset val' v2 tmp.

Definition selection_sort (val : list Z) (num : Z) : res (list Z) :=
  if num <? 2 then Ok val
  else
    for_up (Z.to_nat num) 0 (fun i val =>
      min ← for_up (Z.to_nat (num - (i + 1))) (i + 1) (fun j min =>
              x ← aget val min;
              y ← aget val j;
              Ok (if x <? y then j else min)) i;
      if negb (min =? u64 (i - 1)) then swap val min (u64 (i - 1)) else Ok val) val.

(** The inner loop of [insertion_sort]: shift the elements above [v] up and
    return the array and the index it stopped at. *)
Definition insertion_shift (v : Z) (fuel : nat) : list Z * Z → res (list Z * Z) :=
  loop fuel (fun '(val, j) =>
    if negb (0 <=? j) then Ok (Leave (val, j))
    else
      x ← aget val j;
      if negb (v <? x) then Ok (Leave (val, j))
      else
        val' ← aset val (j + 1) x;
        Ok (Next (val', j - 1))).

Definition insertion_sort (val : list Z) (num : Z) : res (list Z) :=
  if num <? 2 then Ok val
  else
    for_up (Z.to_nat (s64 num - 1)) 1 (fun i val =>
      v ← aget val i;
      '(val', j) ← insertion_shift v (S (Z.to_nat i)) (val, i - 1);
      aset val' j v) val.

(** The inner loop of [shell_sort], with gap [h]. *)
Definition shell_shift (h v : Z) (fuel : nat) : list Z * Z → res (list Z * Z) :=
  loop fuel (fun '(val, j) =>
    if negb (0 <=? j) then Ok (Leave (val, j))
    else
      x ← aget val j;
      if negb (v <? x) then Ok (Leave (val, j))
      else
        val' ← aset val (j + h) x;
        Ok (Next (val', j - h))).

(** The elements from [h] on, each moved down in steps of [h]. *)
Definition shell_pass (h : Z) (val : list Z) (num : Z) : res (list Z) :=
  for_up (Z.to_nat (s64 num - h)) h (fun i val =>
    v ← aget val i;
    '(val', j) ← shell_shift h v (S (Z.to_nat i)) (val, i - h);
    aset val' j v) val.

(** [for (h = 1; h <= N/9; h += 3*h + 1);] *)
Definition first_gap (N : Z) : res Z :=
  loop (S (Z.to_nat N)) (fun h =>
    if h <=? N ÷ 9 then h' ← ck (h + (3 * h + 1)); Ok (Next h') else Ok (Leave h)) 1.

Definition shell_sort (N : Z) (val : list Z) (num : Z) : res (list Z) :=
  if num <? 2 then Ok val
  else
    h ← first_gap N;
    loop (S (Z.to_nat h)) (fun '(h, val) =>
      if 0 <? h then val' ← shell_pass h val num; Ok (Next (h ÷ 3, val')) else Ok (Leave val)) (h, val).

Definition bubble_sort (val : list Z) (num : Z) : res (list Z) :=
  if num <? 2 then Ok val
  else
    for_down (Z.to_nat (s64 num - 1)) (s64 num - 1) (fun i val =>
      for_up (Z.to_nat i) 1 (fun j val =>
        x ← aget val (j - 1);
        y ← aget val j;
        if y <? x then swap val (j - 1) j else Ok val) val) val.

(** ** Specification *)

Definition sorted_upto (P : Z → Z → Prop) (a : list Z) : Prop :=
  ∀ p q, 0 ≤ p → p ≤ q → q < zlen a → P p q → a.[p] ≤ a.[q].

(** The whole array is in ascending order. *)
Definition ascending (a : list Z) : Prop := sorted_upto (fun _ _ => True) a.

Definition sorts (a r : list Z) : Prop := Permutation a r ∧ ascending r.

(** ** Helper lemmas *)

Lemma swap_ok (a : list Z) i j :
  0 ≤ i < zlen a → 0 ≤ j < zlen a →
  swap a i j = Ok (<[Z.to_nat j := a.[i]]> (<[Z.to_nat i := a.[j]]> a)).
Proof.
  intros Hi Hj. unfold swap.
  rewrite (aget_Ok a i), (aget_Ok a j), !bind_Ok by lia.
  rewrite aset_Ok, bind_Ok by lia. apply aset_Ok. len.
Qed.

Lemma swap_permutation (a : list Z) i j :
  0 ≤ i < zlen a → 0 ≤ j < zlen a →
  Permutation a (<[Z.to_nat j := a.[i]]> (<[Z.to_nat i := a.[j]]> a)).
Proof.
  intros Hi Hj. symmetry.
  apply Permutation_insert_swap; apply list_lookup_lookup_total_lt; lia.
Qed.

(** What an exchange of neighbours reads back. *)
Lemma rd_swap (a : list Z) i j k :
  0 ≤ i < zlen a → 0 ≤ j < zlen a → 0 ≤ k →
  (<[Z.to_nat j := a.[i]]> (<[Z.to_nat i := a.[j]]> a)).[k]
  = if decide (j = k) then a.[i] else if decide (i = k) then a.[j] else a.[k].
Proof.
  intros Hi Hj Hk. rewrite rd_insert by len. case_decide; [done|].
  by rewrite rd_insert by lia.
Qed.

(** ** bubble_sort *)

(** Sorted in the positions above [i], each of them bounding all before it. *)
Definition bubble_outer (a0 : list Z) (i : Z) (a : list Z) : Prop :=
  Permutation a0 a ∧ sorted_upto (fun _ q => i < q) a.

(** ... and the largest of the positions below [j] sits at [j - 1]. *)
Definition bubble_inner (a0 : list Z) (i j : Z) (a : list Z) : Prop :=
  bubble_outer a0 i a ∧ ∀ p, 0 ≤ p < j → a.[p] ≤ a.[j - 1].

Lemma bubble_step a0 i j a :
  1 ≤ j ≤ i → i < zlen a0 → bubble_inner a0 i j a →
  ensures (x ← aget a (j - 1); y ← aget a j;
           if y <? x then swap a (j - 1) j else Ok a) (bubble_inner a0 i (j + 1)).
Proof.
  intros Hj Hi [[Hp Hs] Hm]. pose proof (Permutation_length Hp) as Hl.
  wp. unfold bubble_inner. rewrite Z.add_simpl_r.
  destruct (Z.ltb_spec a.[j] a.[j - 1]) as [Hlt|Hge].
  - rewrite swap_ok by lia. cbn [ensures]. repeat split.
    + etrans; [exact Hp|]. apply swap_permutation; lia.
    + intros p q Hp0 Hpq Hq Hiq. rewrite !length_insert in Hq.
      rewrite !rd_swap by lia.
      repeat case_decide; subst; try lia; apply Hs; lia.
    + intros p Hp0. rewrite !rd_swap by lia.
      repeat case_decide; subst; try lia. apply Hm; lia.
  - cbn [ensures]. repeat split; [done|done|].
    intros p Hp0. destruct (decide (p = j)) as [->|]; [lia|].
    specialize (Hm p). lia.
Qed.

Lemma bubble_pass a0 i a :
  1 ≤ i < zlen a0 → bubble_outer a0 i a →
  ensures (for_up (Z.to_nat i) 1 (fun j val =>
             x ← aget val (j - 1); y ← aget val j;
             if y <? x then swap val (j - 1) j else Ok val) a)
          (bubble_outer a0 (i - 1)).
Proof.
  intros Hi Ho. pose proof (Permutation_length (proj1 Ho)) as Hl.
  eapply ensures_mono; [apply (for_up_inv (bubble_inner a0 i))|].
  - split; [done|]. intros p Hp. replace p with 0 by lia. done.
  - intros j t Hj Ht. apply bubble_step; [lia|lia|done].
  - replace (1 + Z.of_nat (Z.to_nat i)) with (i + 1) by lia.
    intros r [[Hp Hs] Hm]. split; [done|].
    intros p q Hp0 Hpq Hq Hiq. rewrite Z.add_simpl_r in Hm.
    destruct (decide (q = i)) as [->|]; [apply Hm; lia|apply Hs; lia].
Qed.

(** C21: on an array of [num] longs, [bubble_sort] stays inside the array and
    leaves a permutation of it in ascending order. *)
Theorem bubble_sort_sorts (val : list Z) (num : Z) :
  num = zlen val → num < 2 ^ 63 →
  ensures (bubble_sort val num) (sorts val).
Proof.
  intros -> Hn. unfold bubble_sort.
  assert (Hz : ∀ a : list Z, Permutation val a →
    (zlen val < 2 ∨ sorted_upto (fun _ q => 0 < q) a) → sorts val a).
  { intros a Hp Hs. pose proof (Permutation_length Hp) as Hl. split; [done|].
    intros p q Hp0 Hpq Hq _. destruct (decide (p = q)) as [->|]; [done|].
    destruct Hs as [|Hs]; [lia|]. apply Hs; lia. }
  destruct (Z.ltb_spec (zlen val) 2) as [H2|H2]; [apply Hz; auto|].
  rewrite swrap_small by lia.
  eapply ensures_mono; [apply (for_down_inv (bubble_outer val))|].
  - split; [done|]. intros p q ?????. lia.
  - intros i a Hi Ha. apply bubble_pass; [lia|done].
  - intros a [Hp Hs]. apply Hz; [done|right].
    intros p q Hp0 Hpq Hq Hq0. apply Hs; lia.
Qed.

Lemma bubble_sort_sorts_witness :
  ensures (bubble_sort [3; -1; 7; 3; 0] 5) (sorts [3; -1; 7; 3; 0]).
Proof. apply (bubble_sort_sorts [3; -1; 7; 3; 0] 5); [reflexivity | lia]. Defined.

(** ** selection_sort *)

Lemma selection_min (val : list Z) i :
  0 ≤ i < zlen val →
  ensures (for_up (Z.to_nat (zlen val - (i + 1))) (i + 1) (fun j min =>
             x ← aget val min; y ← aget val j;
             Ok (if x <? y then j else min)) i) (fun m => 0 ≤ m < zlen val).
Proof.
  intros Hi.
  apply (for_up_inv (fun _ m => 0 ≤ m < zlen val)); [done|].
  intros j m Hj Hm. wp. destruct (val.[m] <? val.[j]); lia.
Qed.

(** [selection_sort] of two elements or more reads [val\[-1\]] in its very
    first round, whatever the array holds. *)
Lemma selection_sort_run (val : list Z) (num : Z) :
  num = zlen val → 2 ≤ num < 2 ^ 61 → selection_sort val num = Ub.
Proof.
  intros -> Hn. unfold selection_sort.
  rewrite (proj2 (Z.ltb_ge _ 2)) by lia.
  destruct (Z.to_nat (zlen val)) as [|n] eqn:E; [lia|]. cbn [for_up].
  destruct (proj1 (ensures_iff _ _) (selection_min val 0 ltac:(lia)))
    as (m & -> & Hm).
  rewrite bind_Ok. change (u64 (0 - 1)) with (2 ^ 64 - 1).
  rewrite (proj2 (Z.eqb_neq m (2 ^ 64 - 1))) by lia. cbn [negb].
  unfold swap. rewrite (aget_Ok val m), bind_Ok by lia.
  by rewrite (aget_Ub val (2 ^ 64 - 1)) by lia.
Qed.

(** ** insertion_sort *)

(** On input already in ascending order the inner loop stops at once and every
    element is written over its left neighbour. *)
Lemma insertion_shift_stop v f a j :
  0 ≤ j < zlen a → a.[j] ≤ v → insertion_shift v (S f) (a, j) = Ok (a, j).
Proof.
  intros Hj Hv. unfold insertion_shift. cbn [loop].
  rewrite (proj2 (Z.leb_le 0 j)) by lia. cbn [negb].
  rewrite aget_Ok, bind_Ok by lia.
  by rewrite (proj2 (Z.ltb_ge v a.[j])).
Qed.

(** Given an array already in ascending order, [insertion_sort] drops the
    smallest element and doubles the largest. *)
Lemma insertion_sort_run (val : list Z) (num : Z) :
  num = zlen val → 2 ≤ num < 2 ^ 61 → ascending val →
  insertion_sort val num = Ok (drop 1 val ++ [val.[num - 1]]).
Proof.
  intros -> Hn Ha. unfold insertion_sort.
  rewrite (proj2 (Z.ltb_ge (zlen val) 2)), swrap_small by lia.
  assert (H : ensures (for_up (Z.to_nat (zlen val - 1)) 1 (fun i val =>
      v ← aget val i;
      '(val', j) ← insertion_shift v (S (Z.to_nat i)) (val, i - 1);
      aset val' j v) val)
    (fun r => length r = length val ∧ ∀ p, 0 ≤ p < zlen val →
       r.[p] = val.[if decide (p < zlen val - 1) then p + 1 else p])).
  2:{ apply ensures_iff in H as (r & -> & Hl & Hr). f_equal.
      apply rd_eq_ext; [len|]. intros p Hp. rewrite Hr by lia. case_decide.
      - rewrite lookup_total_app_l by len.
        rewrite lookup_total_drop. f_equal. lia.
      - rewrite lookup_total_app_r by len. rewrite length_drop.
        replace (Z.to_nat p - _)%nat with 0%nat by lia. cbn. f_equal. lia. }
  eapply ensures_mono; [apply (for_up_inv (fun i r => length r = length val ∧
    ∀ p, 0 ≤ p < zlen val → r.[p] = val.[if decide (p < i - 1) then p + 1 else p]))|].
  - split; [done|]. intros p Hp. by rewrite decide_False by lia.
  - intros i r Hi [Hl Hr]. wp.
    rewrite insertion_shift_stop; [|lia|].
    + cbn [ensures]. wp. split; [len|]. intros p Hp.
      rewrite rd_insert, !Hr by lia. repeat case_decide; subst; f_equal; lia.
    + rewrite !Hr by lia. rewrite !decide_False by lia. apply Ha; lia.
  - intros r [Hl Hr]. split; [done|]. intros p Hp. rewrite Hr by lia.
    repeat case_decide; f_equal; lia.
Qed.

(** ** shell_sort *)

(** With an [N] below 9 the only gap is 1, and what remains is [insertion_sort]:
    the stores and the missing [+ h] are the same. *)
Lemma shell_sort_small (N : Z) (val : list Z) (num : Z) :
  N < 9 → shell_sort N val num = insertion_sort val num.
Proof.
  intros HN. unfold shell_sort, insertion_sort. destruct (num <? 2); [done|].
  assert (E : first_gap N = Ok 1).
  { unfold first_gap. cbn [loop]. rewrite (proj2 (Z.leb_gt 1 _)); [done|].
    destruct (Z.lt_ge_cases N 0).
    - assert (N ÷ 9 ≤ 0); [|lia]. rewrite <- (Z.opp_involutive N), Z.quot_opp_l by lia.
      pose proof (Z.quot_pos (- N) 9). lia.
    - rewrite Z.quot_small; lia. }
  rewrite E, bind_Ok. cbn [Z.to_nat Pos.to_nat Pos.iter_op loop]. cbn [Z.ltb Z.compare].
  change (shell_pass 1 val num) with (for_up (Z.to_nat (s64 num - 1)) 1 (fun i val =>
      v ← aget val i; '(val', j) ← insertion_shift v (S (Z.to_nat i)) (val, i - 1); aset val' j v) val).
  by destruct (for_up _ _ _ _).
Qed.

(** The first gap is found for every [N] of a sensible size. *)
Lemma first_gap_ends N : 0 ≤ N < 2 ^ 60 → ensures (first_gap N) (fun h => N ÷ 9 < h).
Proof.
  intros HN. assert (Hq : 0 ≤ N ÷ 9 ≤ N) by (rewrite Z.quot_div_nonneg by lia; split;
    [apply Z.div_pos|apply Z.div_le_upper_bound]; lia).
  apply (loop_total (fun h => 1 ≤ h) (fun h => Z.to_nat (N ÷ 9 + 1 - h))); [|done|lia].
  intros h Hh. destruct (Z.leb_spec h (N ÷ 9)); [|done]. rewrite ck_ok, bind_Ok by lia. cbn. lia.
Qed.

(** So it can leave an array unsorted even where it stays inside. *)
Example shell_sort_fails : shell_sort 2 [1; 2] 2 = Ok [2; 2] ∧ shell_sort 2 [2; 1] 2 = Ub.
Proof. split; reflexivity. Qed.

(** the two other sorts do not sort.  On two elements or more, [selection_sort]
    reads [val\[-1\]] in its very first round whatever the array holds; and
    [insertion_sort], given an array already in ascending order, drops the
    smallest element and doubles the largest. *)
Theorem other_sorts_fail (val : list Z) (num : Z) :
  num = zlen val → 2 ≤ num < 2 ^ 61 →
  selection_sort val num = Ub ∧
  (ascending val → insertion_sort val num = Ok (drop 1 val ++ [val.[num - 1]])).
Proof.
  intros Hnum Hn. split; [by apply selection_sort_run|].
  intros Ha. by apply insertion_sort_run.
Qed.

Lemma other_sorts_fail_witness :
  insertion_sort [1; 2; 5] 3 = Ok [2; 5; 5].
Proof.
  apply (other_sorts_fail [1; 2; 5] 3); [reflexivity | lia |].
  intros p q Hp Hpq Hq _. simpl in Hq.
  assert (p = 0 ∨ p = 1 ∨ p = 2) as [-> | [-> | ->]] by lia;
  assert (q = 0 ∨ q = 1 ∨ q = 2) as [-> | [-> | ->]] by lia;
  vm_compute; congruence || lia.
Defined.
