(* ===== verification/Crc32.v ===== *)
(** * crc32.intel/crc32.c: software CRC-32 and CRC-32C

    A buffer is the list of its bytes together with its address (the slicing
    code aligns on it); an [unsigned int] length is a separate argument.  The
    reference is the bit-serial division, [crc_spec]; the byte-table loops and
    the eight-bytes-at-a-time loop are proved equal to it. *)

From S2P Require Import Prelude Crc32Tables.

(** ** The code *)

(** [table[(crc ^ b) & 0xff] ^ (crc >> 8)] *)
Definition crc_update (table : list Z) (crc b : Z) : res Z :=
  t ← aget table (Z.land (Z.lxor crc b) 0xFF);
  Ok (Z.lxor t (Z.shiftr crc 8)).

(** [while (size--) crc = ... *p++ ...] from the position [p] on. *)
Definition crc_bytes (table buf : list Z) (size p crc : Z) : res Z :=
  for_up (Z.to_nat size) p (fun i crc =>
    b ← aget buf i;
    crc_update table crc b) crc.

Definition crc32 (buf : list Z) (size : Z) : res Z :=
  crc ← crc_bytes crc32_table buf size 0 (u32 (Z.lnot 0));
  Ok (Z.lxor crc (u32 (Z.lnot 0))).

Definition singletable_crc32c (crc : Z) (buf : list Z) (size : Z) : res Z :=
  crc_bytes crc32c_table buf size 0 crc.

(** A 32-bit load at [addr + i]: defined inside the buffer at a multiple of
    four, little-endian. *)
Definition load32 (addr : Z) (buf : list Z) (i : Z) : res Z :=
  if (addr + i) mod 4 =? 0 then
    b0 ← aget buf i;
    b1 ← aget buf (i + 1);
    b2 ← aget buf (i + 2);
    b3 ← aget buf (i + 3);
    Ok (Z.lor b0 (Z.shiftl (Z.lor b1 (Z.shiftl (Z.lor b2 (Z.shiftl b3 8)) 8)) 8))
  else Ub.

(** The preprocessor's [BYTE_ORDER].  The big-endian code shifts a byte, promoted to
    [int], left by 24: C leaves that undefined for bytes from 128 on, and some
    compilers define it to wrap around. *)
Inductive byte_order := Little | Big (shift_wraps : bool).

(** [b << 24] on an [int], as an operand of an [uint32_t] exclusive-or. *)
Definition shift24 (wraps : bool) (b : Z) : res Z :=
  let x := Z.shiftl b 24 in
  if x <? 2 ^ 31 then Ok x else if wraps then Ok (u32 (s32 x)) else Ub.

Section slicing.
Variable order : byte_order.

(** Exclusive-or the four bytes at [p] into the register. *)
Definition sb8_fold (addr : Z) (p_buf : list Z) (p crc : Z) : res Z :=
  match order with
  | Big wraps =>
      b0 ← aget p_buf p;
      b1 ← aget p_buf (p + 1);
      b2 ← aget p_buf (p + 2);
      b3 ← aget p_buf (p + 3);
      let crc := Z.lxor crc b0 in
      let crc := Z.lxor crc (Z.shiftl b1 8) in
      let crc := Z.lxor crc (Z.shiftl b2 16) in
      w ← shift24 wraps b3;
      Ok (Z.lxor crc w)
  | Little =>
      w ← load32 addr p_buf p;
      Ok (Z.lxor crc w)
  end.

(** One turn of the slicing loop, on the eight bytes at [p]. *)
Definition sb8_turn (addr : Z) (p_buf : list Z) (p crc : Z) : res Z :=
  crc ← sb8_fold addr p_buf p crc;
  t88 ← aget sctp_crc_tableil8_o88 (Z.land crc 0xFF);
  t80 ← aget sctp_crc_tableil8_o80 (Z.land (Z.shiftr crc 8) 0xFF);
  let term1 := Z.lxor t88 t80 in
  let term2 := Z.shiftr crc 16 in
  t72 ← aget sctp_crc_tableil8_o72 (Z.land term2 0xFF);
  t64 ← aget sctp_crc_tableil8_o64 (Z.land (Z.shiftr term2 8) 0xFF);
  let crc := Z.lxor (Z.lxor term1 t72) t64 in
  match order with
  | Big _ =>
      b4 ← aget p_buf (p + 4);
      t56 ← aget sctp_crc_tableil8_o56 b4;
      b5 ← aget p_buf (p + 5);
      t48 ← aget sctp_crc_tableil8_o48 b5;
      b6 ← aget p_buf (p + 6);
      t40 ← aget sctp_crc_tableil8_o40 b6;
      b7 ← aget p_buf (p + 7);
      t32 ← aget sctp_crc_tableil8_o32 b7;
      Ok (Z.lxor (Z.lxor (Z.lxor (Z.lxor crc t56) t48) t40) t32)
  | Little =>
      w ← load32 addr p_buf (p + 4);
      t56 ← aget sctp_crc_tableil8_o56 (Z.land w 0xFF);
      t48 ← aget sctp_crc_tableil8_o48 (Z.land (Z.shiftr w 8) 0xFF);
      let term1 := Z.lxor t56 t48 in
      let term2 := Z.shiftr w 16 in
      t40 ← aget sctp_crc_tableil8_o40 (Z.land term2 0xFF);
      t32 ← aget sctp_crc_tableil8_o32 (Z.land (Z.shiftr term2 8) 0xFF);
      Ok (Z.lxor (Z.lxor (Z.lxor crc term1) t40) t32)
  end.

Definition crc32c_sb8_64_bit (crc addr : Z) (p_buf : list Z) (length init_bytes : Z) : res Z :=
  let running_length := u32 (u32 (length - init_bytes) / 8 * 8) in
  let end_bytes := u32 (length - init_bytes - running_length) in
  crc ← crc_bytes sctp_crc_tableil8_o32 p_buf init_bytes 0 crc;
  crc ← for_up (Z.to_nat (running_length / 8)) 0
          (fun li crc => sb8_turn addr p_buf (init_bytes + 8 * li) crc) crc;
  crc_bytes sctp_crc_tableil8_o32 p_buf end_bytes (init_bytes + running_length) crc.

Definition multitable_crc32c (crc32c addr : Z) (buffer : list Z) (length : Z) : res Z :=
  if length =? 0 then Ok crc32c
  else
    let to_even_word := 4 - Z.land addr 3 in
    crc32c_sb8_64_bit crc32c addr buffer length to_even_word.

Definition crc32c (crc32c addr : Z) (buffer : list Z) (length : Z) : res Z :=
  if length <? 4 then singletable_crc32c crc32c buffer length
  else multitable_crc32c crc32c addr buffer length.
End slicing.

(** No shift is undefined: a condition only where the compiler leaves it so. *)
Definition shifts_defined (order : byte_order) (buf : list Z) : Prop :=
  match order with Big false => Forall (fun b => b < 128) buf | _ => True end.

(** ** The reference: bit-serial division by a reflected polynomial *)

Definition crc_bit (poly x : Z) : Z :=
  if Z.testbit x 0 then Z.lxor (Z.shiftr x 1) poly else Z.shiftr x 1.

Fixpoint crc_bits (poly : Z) (n : nat) (x : Z) : Z :=
  match n with
  | O => x
  | S n' => crc_bits poly n' (crc_bit poly x)
  end.

(** The register after one more message byte, and after a whole message. *)
Definition crc_byte (poly crc b : Z) : Z := crc_bits poly 8 (Z.lxor crc b).
Definition crc_spec (poly crc : Z) (bytes : list Z) : Z :=
  fold_left (crc_byte poly) bytes crc.

Definition poly32 : Z := 0xEDB88320.
Definition poly32c : Z := 0x82F63B78.

Definition bytes (l : list Z) : Prop := Forall (fun b => 0 ≤ b < 256) l.

(** "123456789" *)
Definition check_string : list Z := [49; 50; 51; 52; 53; 54; 55; 56; 57].

Example crc32_check : crc32 check_string 9 = Ok 0xCBF43926.
Proof. vm_compute. reflexivity. Qed.
Example crc32c_check : crc32c Little (2 ^ 32 - 1) 1001 check_string 9 = Ok (Z.lxor (2 ^ 32 - 1) 0xE3069283).
Proof. vm_compute. reflexivity. Qed.

(** ** Linearity *)

Lemma crc_bit_lxor poly x y : crc_bit poly (Z.lxor x y) = Z.lxor (crc_bit poly x) (crc_bit poly y).
Proof.
  unfold crc_bit. rewrite Z.lxor_spec, Z.shiftr_lxor.
  destruct (Z.testbit x 0), (Z.testbit y 0); cbn [xorb];
    apply Z.bits_inj'; intros n Hn; rewrite !Z.lxor_spec;
    destruct (Z.testbit _ n), (Z.testbit _ n), (Z.testbit poly n); done.
Qed.

Lemma crc_bits_lxor poly n x y :
  crc_bits poly n (Z.lxor x y) = Z.lxor (crc_bits poly n x) (crc_bits poly n y).
Proof. revert x y. induction n as [|n IH]; intros x y; simpl; [done|]. by rewrite crc_bit_lxor, IH. Qed.

Lemma crc_bits_add poly m n x : crc_bits poly (m + n) x = crc_bits poly n (crc_bits poly m x).
Proof. revert x. induction m as [|m IH]; intros x; simpl; auto. Qed.

(** Zero bits below only shift. *)
Lemma crc_bits_shiftl poly n x : crc_bits poly n (Z.shiftl x (Z.of_nat n)) = x.
Proof.
  revert x. induction n as [|n IH]; intros x; [apply Z.shiftl_0_r|].
  cbn [crc_bits]. rewrite <- (IH x) at 2. f_equal. unfold crc_bit.
  rewrite Z.shiftl_spec_low, Z.shiftr_shiftl_l by lia. f_equal. lia.
Qed.

(** Split off the low byte. *)
Lemma split_byte x : x = Z.lxor (Z.land x 0xFF) (Z.shiftl (Z.shiftr x 8) 8).
Proof.
  apply Z.bits_inj'. intros n Hn. rewrite Z.lxor_spec, Z.land_spec.
  change 0xFF with (Z.ones 8). destruct (Z.lt_ge_cases n 8).
  - rewrite Z.ones_spec_low, Z.shiftl_spec_low by lia. by destruct (Z.testbit x n).
  - rewrite Z.ones_spec_high, Z.shiftl_spec, Z.shiftr_spec by lia.
    replace (n - 8 + 8) with n by lia. by destruct (Z.testbit x n).
Qed.

(** Peel the low byte: the rest of the register is only shifted down. *)
Lemma crc_bits_split poly m x :
  crc_bits poly (8 + m) x =
  Z.lxor (crc_bits poly (8 + m) (Z.land x 0xFF)) (crc_bits poly m (Z.shiftr x 8)).
Proof.
  rewrite (split_byte x) at 1. rewrite crc_bits_lxor. f_equal.
  rewrite crc_bits_add. f_equal. apply (crc_bits_shiftl poly 8).
Qed.

Lemma crc_bits_0 poly n : crc_bits poly n 0 = 0.
Proof. induction n as [|n IH]; simpl; auto. Qed.

Lemma crc_bit_range poly x : 0 ≤ poly < 2 ^ 32 → 0 ≤ x < 2 ^ 32 → 0 ≤ crc_bit poly x < 2 ^ 32.
Proof.
  intros Hp Hx. assert (0 ≤ Z.shiftr x 1 < 2 ^ 32) by (rewrite Z.shiftr_div_pow2 by lia; plia).
  unfold crc_bit. destruct (Z.testbit x 0); [|done]. by apply lxor_range.
Qed.

Lemma crc_bits_range poly n x :
  0 ≤ poly < 2 ^ 32 → 0 ≤ x < 2 ^ 32 → 0 ≤ crc_bits poly n x < 2 ^ 32.
Proof.
  intros Hp. revert x. induction n as [|n IH]; intros x Hx; [done|].
  apply IH. by apply crc_bit_range.
Qed.

Lemma byte_lxor_range c b : 0 ≤ c < 2 ^ 32 → 0 ≤ b < 256 → 0 ≤ Z.lxor c b < 2 ^ 32.
Proof. intros. apply lxor_range; lia. Qed.

Lemma crc_spec_range poly c l :
  0 ≤ poly < 2 ^ 32 → 0 ≤ c < 2 ^ 32 → bytes l → 0 ≤ crc_spec poly c l < 2 ^ 32.
Proof.
  intros Hp Hc Hl. revert c Hc. induction Hl as [|b l Hb Hl IH]; intros c Hc; [done|].
  apply IH, crc_bits_range; [done|]. by apply byte_lxor_range.
Qed.

Lemma crc_spec_app poly c l l' : crc_spec poly c (l ++ l') = crc_spec poly (crc_spec poly c l) l'.
Proof. apply fold_left_app. Qed.

(** ** Tables of feedback terms *)

(** [t] holds the effect of [n] shifts on each byte. *)
Definition is_table (poly : Z) (n : nat) (t : list Z) : Prop :=
  t = map (fun i => crc_bits poly n (Z.of_nat i)) (seq 0 256).

Create HintDb crc_tables.
Lemma crc32_table_ok : is_table poly32 8 crc32_table.
Proof. vm_compute. reflexivity. Qed.
Lemma crc32c_table_ok : is_table poly32c 8 crc32c_table.
Proof. vm_compute. reflexivity. Qed.
Lemma sctp_o32_ok : is_table poly32c 8 sctp_crc_tableil8_o32.
Proof. vm_compute. reflexivity. Qed.
Lemma sctp_o40_ok : is_table poly32c 16 sctp_crc_tableil8_o40.
Proof. vm_compute. reflexivity. Qed.
Lemma sctp_o48_ok : is_table poly32c 24 sctp_crc_tableil8_o48.
Proof. vm_compute. reflexivity. Qed.
Lemma sctp_o56_ok : is_table poly32c 32 sctp_crc_tableil8_o56.
Proof. vm_compute. reflexivity. Qed.
Lemma sctp_o64_ok : is_table poly32c 40 sctp_crc_tableil8_o64.
Proof. vm_compute. reflexivity. Qed.
Lemma sctp_o72_ok : is_table poly32c 48 sctp_crc_tableil8_o72.
Proof. vm_compute. reflexivity. Qed.
Lemma sctp_o80_ok : is_table poly32c 56 sctp_crc_tableil8_o80.
Proof. vm_compute. reflexivity. Qed.
Lemma sctp_o88_ok : is_table poly32c 64 sctp_crc_tableil8_o88.
Proof. vm_compute. reflexivity. Qed.
#[export] Hint Resolve crc32_table_ok crc32c_table_ok sctp_o32_ok sctp_o40_ok sctp_o48_ok
  sctp_o56_ok sctp_o64_ok sctp_o72_ok sctp_o80_ok sctp_o88_ok : crc_tables.

Lemma aget_table poly n t i : is_table poly n t → 0 ≤ i < 256 → aget t i = Ok (crc_bits poly n i).
Proof.
  intros -> Hi. unfold aget. rewrite (proj2 (Z.leb_le 0 i)) by lia.
  change (map ?f ?l) with (f <$> l). rewrite list_lookup_fmap, lookup_seq_lt by lia.
  simpl. do 2 f_equal. lia.
Qed.

Lemma land_byte x : 0 ≤ Z.land x 0xFF < 256.
Proof. change 0xFF with (2 ^ 8 - 1). rewrite land_low by lia. apply Z.mod_pos_bound. lia. Qed.

Lemma crc_update_ok poly t crc b :
  is_table poly 8 t → 0 ≤ b < 256 → crc_update t crc b = Ok (crc_byte poly crc b).
Proof.
  intros Ht Hb. unfold crc_update.
  rewrite (aget_table poly 8), bind_Ok by (done || apply land_byte).
  f_equal. unfold crc_byte.
  pose proof (crc_bits_split poly 0 (Z.lxor crc b)) as E.
  cbn [Nat.add] in E. rewrite E. f_equal.
  change (crc_bits poly 0 ?x) with x.
  rewrite Z.shiftr_lxor, (Z.shiftr_div_pow2 b), (Z.div_small b) by (simpl; lia).
  by rewrite Z.lxor_0_r.
Qed.

Lemma take_drop_snoc {A} `{Inhabited A} (l : list A) p n :
  0 ≤ p → p + Z.of_nat n < zlen l →
  take (S n) (drop (Z.to_nat p) l) = take n (drop (Z.to_nat p) l) ++ [l.[p + Z.of_nat n]].
Proof.
  intros Hp Hn. apply take_S_r. rewrite lookup_drop.
  replace (Z.to_nat p + n)%nat with (Z.to_nat (p + Z.of_nat n)) by lia.
  apply list_lookup_lookup_total_lt. lia.
Qed.

Lemma bytes_rd l i : bytes l → 0 ≤ i < zlen l → 0 ≤ l.[i] < 256.
Proof.
  unfold bytes. rewrite Forall_lookup. intros Hl Hi. apply (Hl (Z.to_nat i)).
  apply list_lookup_lookup_total_lt. lia.
Qed.

Lemma crc_bytes_ok poly t buf size p crc :
  is_table poly 8 t → bytes buf → 0 ≤ p → 0 ≤ size → p + size ≤ zlen buf →
  crc_bytes t buf size p crc =
  Ok (crc_spec poly crc (take (Z.to_nat size) (drop (Z.to_nat p) buf))).
Proof.
  intros Ht Hb Hp Hs Hl. unfold crc_bytes.
  set (I := fun i c => c = crc_spec poly crc (take (Z.to_nat (i - p)) (drop (Z.to_nat p) buf))).
  assert (H : ensures (for_up (Z.to_nat size) p
    (fun i c => b ← aget buf i; crc_update t c b) crc) (I (p + Z.of_nat (Z.to_nat size)))).
  { apply for_up_inv; [unfold I; by rewrite Z.sub_diag|].
    intros i c Hi ->. wp.
    rewrite (crc_update_ok poly) by (done || (apply bytes_rd; [done|lia])).
    cbn [ensures]. unfold I.
    replace (Z.to_nat (i + 1 - p)) with (S (Z.to_nat (i - p))) by lia.
    rewrite take_drop_snoc, crc_spec_app by lia. cbn [crc_spec fold_left].
    do 3 f_equal. lia. }
  apply ensures_iff in H as (c & -> & ->). do 4 f_equal. lia.
Qed.

(** ** Eight bytes at a time *)

(** The little-endian value of a byte sequence. *)
Fixpoint le_word (l : list Z) : Z :=
  match l with
  | [] => 0
  | b :: l' => Z.lor b (Z.shiftl (le_word l') 8)
  end.

(** The register after [l] is the register with [l] exclusive-or-ed in at once,
    shifted by all of its bits. *)
Lemma crc_spec_word poly c l :
  bytes l → crc_spec poly c l = crc_bits poly (8 * length l) (Z.lxor c (le_word l)).
Proof.
  intros Hl. revert c. induction Hl as [|b l Hb Hl IH]; intros c.
  - simpl. by rewrite Z.lxor_0_r.
  - cbn [le_word length crc_spec fold_left]. fold (crc_spec poly (crc_byte poly c b) l).
    rewrite IH. replace (8 * S (length l))%nat with (8 + 8 * length l)%nat by lia.
    rewrite crc_bits_add. f_equal. unfold crc_byte.
    rewrite lor_lxor_low, <- Z.lxor_assoc, (crc_bits_lxor _ _ (Z.lxor c b)) by lia.
    f_equal. symmetry. apply (crc_bits_shiftl poly 8).
Qed.

Lemma le_word_value b l : 0 ≤ b < 256 → le_word (b :: l) = le_word l * 256 + b.
Proof.
  intros Hb. cbn [le_word]. rewrite Z.lor_comm. by rewrite lor_shiftl_add by lia.
Qed.

(** The four table lookups of a word. *)
Lemma crc_bits_word poly m w :
  0 ≤ w < 2 ^ 32 →
  crc_bits poly (32 + m) w =
  Z.lxor (crc_bits poly (32 + m) (Z.land w 0xFF))
    (Z.lxor (crc_bits poly (24 + m) (Z.land (Z.shiftr w 8) 0xFF))
       (Z.lxor (crc_bits poly (16 + m) (Z.land (Z.shiftr w 16) 0xFF))
          (crc_bits poly (8 + m) (Z.land (Z.shiftr w 24) 0xFF)))).
Proof.
  intros Hw.
  assert (Hs : ∀ a b, 0 ≤ a → 0 ≤ b → Z.shiftr w (a + b) = Z.shiftr (Z.shiftr w a) b)
    by (intros; by rewrite Z.shiftr_shiftr).
  pose proof (crc_bits_split poly (24 + m) w) as E1.
  pose proof (crc_bits_split poly (16 + m) (Z.shiftr w 8)) as E2.
  pose proof (crc_bits_split poly (8 + m) (Z.shiftr w 16)) as E3.
  pose proof (crc_bits_split poly m (Z.shiftr w 24)) as E4.
  rewrite <- (Hs 8 8) in E2 by lia. rewrite <- (Hs 16 8) in E3 by lia.
  rewrite <- (Hs 24 8) in E4 by lia.
  rewrite (Z.shiftr_div_pow2 w (24 + 8)), (Z.div_small w) in E4 by (simpl; lia).
  rewrite crc_bits_0, Z.lxor_0_r in E4.
  etransitivity; [exact E1|f_equal]. etransitivity; [exact E2|f_equal].
  etransitivity; [exact E3|f_equal]. exact E4.
Qed.

(** The value and the bytes of a 32-bit word. *)
Lemma word4 b0 b1 b2 b3 :
  bytes [b0; b1; b2; b3] →
  let w := le_word [b0; b1; b2; b3] in
  0 ≤ w < 2 ^ 32 ∧ Z.land w 0xFF = b0 ∧ Z.land (Z.shiftr w 8) 0xFF = b1 ∧
  Z.land (Z.shiftr w 16) 0xFF = b2 ∧ Z.land (Z.shiftr w 24) 0xFF = b3.
Proof.
  intros Hb w. subst w.
  apply Forall_cons in Hb as [H0 [H1 [H2 [H3 _]%Forall_cons]%Forall_cons]%Forall_cons].
  rewrite !le_word_value by done. change (le_word []) with 0.
  change 0xFF with (2 ^ 8 - 1). rewrite !land_low, !Z.shiftr_div_pow2 by lia.
  plia.
Qed.

Lemma load32_ok addr buf p b0 b1 b2 b3 :
  (addr + p) mod 4 = 0 → aget buf p = Ok b0 → aget buf (p + 1) = Ok b1 →
  aget buf (p + 2) = Ok b2 → aget buf (p + 3) = Ok b3 →
  load32 addr buf p = Ok (le_word [b0; b1; b2; b3]).
Proof.
  intros Ha H0 H1 H2 H3. unfold load32. rewrite Ha, H0, H1, H2, H3.
  cbn. by rewrite Z.lor_0_r.
Qed.

(** Exclusive-or-ing the bytes in one by one, as the big-endian branch does. *)
Lemma le_word4_lxor c b0 b1 b2 b3 :
  bytes [b0; b1; b2; b3] →
  Z.lxor (Z.lxor (Z.lxor (Z.lxor c b0) (Z.shiftl b1 8)) (Z.shiftl b2 16)) (Z.shiftl b3 24) =
  Z.lxor c (le_word [b0; b1; b2; b3]).
Proof.
  intros Hb.
  apply Forall_cons in Hb as [H0 [H1 [H2 [H3 _]%Forall_cons]%Forall_cons]%Forall_cons].
  cbn [le_word]. rewrite !lor_lxor_low by lia.
  rewrite !Z.shiftl_lxor, !Z.shiftl_shiftl, Z.shiftl_0_l, Z.lxor_0_r by lia.
  by rewrite !Z.lxor_assoc.
Qed.

Lemma crc_spec_8 poly c l l' :
  bytes l → bytes l' → length l = 4%nat → length l' = 4%nat →
  crc_spec poly c (l ++ l') =
  Z.lxor (crc_bits poly (32 + 32) (Z.lxor c (le_word l))) (crc_bits poly (32 + 0) (le_word l')).
Proof.
  intros Hl Hl' E E'. rewrite crc_spec_app, !crc_spec_word by done.
  rewrite E, E'. change (8 * 4)%nat with 32%nat. change (32 + 0)%nat with 32%nat.
  rewrite (crc_bits_add poly 32 32). apply crc_bits_lxor.
Qed.

(** The first four elements from a position. *)
Lemma take4 l p : bytes l → 0 ≤ p → p + 4 ≤ zlen l →
  ∃ b0 b1 b2 b3, bytes [b0; b1; b2; b3] ∧
    take 4 (drop (Z.to_nat p) l) = [b0; b1; b2; b3] ∧
    aget l p = Ok b0 ∧ aget l (p + 1) = Ok b1 ∧ aget l (p + 2) = Ok b2 ∧ aget l (p + 3) = Ok b3.
Proof.
  intros Hb Hp Hl. exists l.[p], l.[p + 1], l.[p + 2], l.[p + 3].
  rewrite !aget_Ok by lia. split_and!; try done.
  - unfold bytes. rewrite !Forall_cons. split_and!; try apply Forall_nil_2; apply bytes_rd; (done || lia).
  - do 4 (rewrite take_drop_snoc by lia). change (Z.of_nat 0) with 0.
    rewrite Z.add_0_r. done.
Qed.

Lemma shift24_ok wraps b : 0 ≤ b < 256 → wraps = true ∨ b < 128 → shift24 wraps b = Ok (Z.shiftl b 24).
Proof.
  intros Hb Hw. unfold shift24. rewrite Z.shiftl_mul_pow2 by lia.
  destruct (Z.ltb_spec (b * 2 ^ 24) (2 ^ 31)) as [|Hge]; [done|]. destruct Hw as [->|Hw]; [|lia].
  f_equal. unfold swrap, wrap. rewrite Zminus_mod_idemp_l. replace (b * 2 ^ 24 + 2 ^ (32 - 1) - 2 ^ (32 - 1)) with (b * 2 ^ 24) by lia.
  apply Z.mod_small. lia.
Qed.

Lemma shifts_defined_at order buf p b :
  shifts_defined order buf → aget buf p = Ok b → match order with Big false => b < 128 | _ => True end.
Proof.
  destruct order as [|[]]; try done. intros HD E. unfold aget in E. destruct (0 <=? p); [|done].
  destruct (buf !! Z.to_nat p) eqn:El; [|done]. injection E as <-. by apply (Forall_lookup_1 _ _ _ _ HD El).
Qed.

Lemma sb8_fold_ok be addr buf p crc b0 b1 b2 b3 :
  bytes [b0; b1; b2; b3] → shifts_defined be buf → (addr + p) mod 4 = 0 →
  aget buf p = Ok b0 → aget buf (p + 1) = Ok b1 →
  aget buf (p + 2) = Ok b2 → aget buf (p + 3) = Ok b3 →
  sb8_fold be addr buf p crc = Ok (Z.lxor crc (le_word [b0; b1; b2; b3])).
Proof.
  intros HB HD Ha E0 E1 E2 E3. unfold sb8_fold. pose proof (shifts_defined_at _ _ _ _ HD E3) as H3. destruct be as [|wraps].
  - by rewrite (load32_ok addr buf p b0 b1 b2 b3).
  - rewrite E0, E1, E2, E3, !bind_Ok. rewrite shift24_ok, bind_Ok; [by rewrite le_word4_lxor| |by destruct wraps; auto].
    apply Forall_cons in HB as [_ [_ [_ [? _]%Forall_cons]%Forall_cons]%Forall_cons]. done.
Qed.

Lemma sb8_turn_ok be addr buf p crc :
  bytes buf → shifts_defined be buf → 0 ≤ crc < 2 ^ 32 → 0 ≤ p → p + 8 ≤ zlen buf → (addr + p) mod 4 = 0 →
  sb8_turn be addr buf p crc = Ok (crc_spec poly32c crc (take 8 (drop (Z.to_nat p) buf))).
Proof.
  intros Hb HD Hc Hp Hl Ha.
  destruct (take4 buf p) as (b0 & b1 & b2 & b3 & HB & HT & E0 & E1 & E2 & E3); [done|lia|lia|].
  destruct (take4 buf (p + 4)) as (b4 & b5 & b6 & b7 & HB' & HT' & E4 & E5 & E6 & E7); [done|lia|lia|].
  replace (p + 4 + 1) with (p + 5) in E5 by lia.
  replace (p + 4 + 2) with (p + 6) in E6 by lia.
  replace (p + 4 + 3) with (p + 7) in E7 by lia.
  replace (take 8 (drop (Z.to_nat p) buf)) with ([b0; b1; b2; b3] ++ [b4; b5; b6; b7]).
  2: { rewrite <- HT, <- HT'. replace (Z.to_nat (p + 4)) with (Z.to_nat p + 4)%nat by lia.
       rewrite <- drop_drop. apply (take_take_drop _ 4 4). }
  rewrite crc_spec_8 by done.
  destruct (word4 _ _ _ _ HB) as (HW & _). destruct (word4 _ _ _ _ HB') as (HW' & D4 & D5 & D6 & D7).
  set (x := Z.lxor crc (le_word [b0; b1; b2; b3])).
  assert (Hx : 0 ≤ x < 2 ^ 32) by (by apply lxor_range).
  rewrite (crc_bits_word _ 32 x), (crc_bits_word _ 0 (le_word _)) by done.
  unfold sb8_turn.
  rewrite (sb8_fold_ok be addr buf p crc b0 b1 b2 b3), bind_Ok by done. fold x.
  rewrite !Z.shiftr_shiftr by lia. change (16 + 8) with 24.
  assert (T : ∀ n t i, is_table poly32c n t → 0 ≤ i < 256 → aget t i = Ok (crc_bits poly32c n i))
    by (intros; by apply aget_table).
  rewrite (T 64%nat sctp_crc_tableil8_o88), bind_Ok, (T 56%nat sctp_crc_tableil8_o80), bind_Ok,
    (T 48%nat sctp_crc_tableil8_o72), bind_Ok, (T 40%nat sctp_crc_tableil8_o64), bind_Ok
    by (apply land_byte || auto with crc_tables).
  apply Forall_cons in HB' as [H4 [H5 [H6 [H7 _]%Forall_cons]%Forall_cons]%Forall_cons].
  destruct be as [|wraps].
  - rewrite (load32_ok addr buf (p + 4) b4 b5 b6 b7); try done.
    2: { rewrite Z.add_assoc. rewrite Z.add_mod, Ha by lia. done. }
    2-4: rewrite <- Z.add_assoc; assumption.
    rewrite bind_Ok, !Z.shiftr_shiftr by lia. change (16 + 8) with 24.
    rewrite D4, D5, D6, D7.
    rewrite (T 32%nat sctp_crc_tableil8_o56), bind_Ok, (T 24%nat sctp_crc_tableil8_o48), bind_Ok, (T 16%nat sctp_crc_tableil8_o40), bind_Ok, (T 8%nat sctp_crc_tableil8_o32), bind_Ok
      by auto with crc_tables.
    cbn [Nat.add]. by rewrite !Z.lxor_assoc.
  - rewrite E4, bind_Ok, (T 32%nat sctp_crc_tableil8_o56), bind_Ok by auto with crc_tables.
    rewrite E5, bind_Ok, (T 24%nat sctp_crc_tableil8_o48), bind_Ok by auto with crc_tables.
    rewrite E6, bind_Ok, (T 16%nat sctp_crc_tableil8_o40), bind_Ok by auto with crc_tables.
    rewrite E7, bind_Ok, (T 8%nat sctp_crc_tableil8_o32), bind_Ok by auto with crc_tables.
    rewrite D4, D5, D6, D7. cbn [Nat.add]. by rewrite !Z.lxor_assoc.
Qed.

Lemma take_take_drop_Z {A} (l : list A) n m :
  0 ≤ n → 0 ≤ m →
  take (Z.to_nat n) l ++ take (Z.to_nat m) (drop (Z.to_nat n) l) = take (Z.to_nat (n + m)) l.
Proof. intros. rewrite take_take_drop. f_equal. lia. Qed.

(** The loop over groups of eight bytes. *)
Lemma sb8_loop_ok be addr buf p n crc :
  bytes buf → shifts_defined be buf → 0 ≤ crc < 2 ^ 32 → 0 ≤ p → p + 8 * Z.of_nat n ≤ zlen buf → (addr + p) mod 4 = 0 →
  for_up n 0 (fun li crc => sb8_turn be addr buf (p + 8 * li) crc) crc =
  Ok (crc_spec poly32c crc (take (Z.to_nat (8 * Z.of_nat n)) (drop (Z.to_nat p) buf))).
Proof.
  intros Hb HD Hc Hp Hl Ha.
  set (I := fun li c => 0 ≤ c < 2 ^ 32 ∧
    c = crc_spec poly32c crc (take (Z.to_nat (8 * li)) (drop (Z.to_nat p) buf))).
  assert (H : ensures (for_up n 0 (fun li crc => sb8_turn be addr buf (p + 8 * li) crc) crc)
    (I (0 + Z.of_nat n))).
  { apply for_up_inv; [by split|]. intros li c Hi [Hr ->].
    rewrite sb8_turn_ok; [|done|done|done|lia|lia|].
    2: { rewrite Z.add_assoc, Z.add_mod, Ha by lia.
         replace (8 * li) with (2 * li * 4) by lia. by rewrite Z.mod_mul. }
    assert (E : take (Z.to_nat (8 * (li + 1))) (drop (Z.to_nat p) buf) =
      take (Z.to_nat (8 * li)) (drop (Z.to_nat p) buf) ++ take 8 (drop (Z.to_nat (p + 8 * li)) buf)).
    { replace (Z.to_nat (p + 8 * li)) with (Z.to_nat p + Z.to_nat (8 * li))%nat by lia.
      rewrite <- drop_drop. change (take 8 ?l) with (take (Z.to_nat 8) l).
      rewrite take_take_drop_Z by lia. do 2 f_equal. lia. }
    cbn [ensures]. split; [|by rewrite E, crc_spec_app].
    apply crc_spec_range; [done|done|]. apply Forall_take. by apply Forall_drop. }
  apply ensures_iff in H as (c & -> & _ & ->). do 4 f_equal.
Qed.

Lemma crc32c_sb8_ok be crc addr buf length init_bytes :
  bytes buf → shifts_defined be buf → 0 ≤ crc < 2 ^ 32 → 0 ≤ init_bytes ≤ length → length < 2 ^ 32 → length ≤ zlen buf →
  (addr + init_bytes) mod 4 = 0 →
  crc32c_sb8_64_bit be crc addr buf length init_bytes =
  Ok (crc_spec poly32c crc (take (Z.to_nat length) buf)).
Proof.
  intros Hb HD Hc Hi Hw Hl Ha. unfold crc32c_sb8_64_bit.
  set (n := (length - init_bytes) / 8).
  assert (Hn : 0 ≤ n ∧ 8 * n ≤ length - init_bytes) by (unfold n; plia).
  assert (Er : u32 (u32 (length - init_bytes) / 8 * 8) = 8 * n).
  { rewrite (wrap_small 32 (length - init_bytes)) by lia. rewrite wrap_small; unfold n in *; lia. }
  rewrite Er, (wrap_small 32 (length - init_bytes - 8 * n)) by lia.
  replace (8 * n / 8) with n by plia.
  rewrite (crc_bytes_ok poly32c), bind_Ok by (auto with crc_tables || lia).
  rewrite sb8_loop_ok, bind_Ok; [|done|done| |lia|lia|done].
  2: { apply crc_spec_range; [done|done|]. apply Forall_take. by apply Forall_drop. }
  rewrite (crc_bytes_ok poly32c) by (auto with crc_tables || lia).
  rewrite <- !crc_spec_app. do 2 f_equal. rewrite Z2Nat.id, drop_0 by lia.
  rewrite app_assoc, take_take_drop_Z, take_take_drop_Z by lia. do 2 f_equal. lia.
Qed.

Lemma crc32c_run be crc addr buf length :
  bytes buf → shifts_defined be buf → 0 ≤ crc < 2 ^ 32 → 0 ≤ length < 2 ^ 32 → length ≤ zlen buf → 0 ≤ addr →
  crc32c be crc addr buf length = Ok (crc_spec poly32c crc (take (Z.to_nat length) buf)).
Proof.
  intros Hb HD Hc Hw Hl Ha. unfold crc32c. destruct (Z.ltb_spec length 4).
  - unfold singletable_crc32c. rewrite (crc_bytes_ok poly32c); auto with crc_tables; lia.
  - unfold multitable_crc32c. destruct (Z.eqb_spec length 0); [lia|].
    change 3 with (2 ^ 2 - 1). rewrite land_low by lia. change (2 ^ 2) with 4.
    apply crc32c_sb8_ok; try done; plia.
Qed.

(** ** The register determines the message *)

Lemma crc_bit_inj poly x y :
  2 ^ 31 ≤ poly < 2 ^ 32 → 0 ≤ x < 2 ^ 32 → 0 ≤ y < 2 ^ 32 →
  crc_bit poly x = crc_bit poly y → x = y.
Proof.
  intros Hp Hx Hy E. apply Z.lxor_eq.
  assert (Hr : 0 ≤ Z.lxor x y < 2 ^ 32) by (apply lxor_range; lia).
  assert (E0 : crc_bit poly (Z.lxor x y) = 0) by (by rewrite crc_bit_lxor, E, Z.lxor_nilpotent).
  revert E0 Hr. generalize (Z.lxor x y). intros z E0 Hr. unfold crc_bit in E0.
  assert (Hs : 0 ≤ Z.shiftr z 1 < 2 ^ 31) by (rewrite Z.shiftr_div_pow2 by lia; plia).
  destruct (Z.testbit z 0) eqn:T.
  - apply Z.lxor_eq in E0. lia.
  - rewrite Z.shiftr_div_pow2 in E0 by lia. rewrite Z.bit0_odd, <- Z.negb_even in T.
    apply negb_false_iff, Z.even_spec in T as [k ->]. plia.
Qed.

Lemma crc_bits_inj poly n x y :
  2 ^ 31 ≤ poly < 2 ^ 32 → 0 ≤ x < 2 ^ 32 → 0 ≤ y < 2 ^ 32 →
  crc_bits poly n x = crc_bits poly n y → x = y.
Proof.
  intros Hp. revert x y. induction n as [|n IH]; intros x y Hx Hy E; [done|].
  apply (crc_bit_inj poly); [done..|]. apply IH; [..|exact E]; apply crc_bit_range; lia.
Qed.

Lemma crc_spec_inj poly l x y :
  2 ^ 31 ≤ poly < 2 ^ 32 → bytes l → 0 ≤ x < 2 ^ 32 → 0 ≤ y < 2 ^ 32 →
  crc_spec poly x l = crc_spec poly y l → x = y.
Proof.
  intros Hp Hl. revert x y. induction Hl as [|b l Hb Hl IH]; intros x y Hx Hy E; [done|].
  apply IH in E; [|apply crc_bits_range; [lia|by apply byte_lxor_range]..].
  apply crc_bits_inj in E; [|done|by apply byte_lxor_range..].
  apply (f_equal (fun v => Z.lxor v b)) in E.
  by rewrite !Z.lxor_assoc, Z.lxor_nilpotent, !Z.lxor_0_r in E.
Qed.

Lemma le_word_range l : bytes l → 0 ≤ le_word l < 2 ^ (8 * zlen l).
Proof.
  induction 1 as [|b l Hb Hl IH]; [done|]. rewrite le_word_value by done.
  replace (8 * zlen (b :: l)) with (8 + 8 * zlen l) by (cbn [length]; lia).
  rewrite Z.pow_add_r by lia. lia.
Qed.

Lemma le_word_inj l l' :
  bytes l → bytes l' → length l = length l' → le_word l = le_word l' → l = l'.
Proof.
  intros Hl. revert l'. induction Hl as [|b l Hb Hl IH]; intros l' Hl' Hlen E.
  { by destruct l'. }
  destruct Hl' as [|b' l' Hb' Hl']; [done|]. rewrite !le_word_value in E by done.
  f_equal; [lia|]. apply IH; [done|by injection Hlen|lia].
Qed.

Lemma crc_spec_burst poly c w w' post :
  2 ^ 31 ≤ poly < 2 ^ 32 → 0 ≤ c < 2 ^ 32 → bytes w → bytes w' → bytes post →
  length w = length w' → (length w ≤ 4)%nat →
  crc_spec poly c (w ++ post) = crc_spec poly c (w' ++ post) → w = w'.
Proof.
  intros Hp Hc Hw Hw' Hpost Hlen H4. rewrite !crc_spec_app. intros E.
  apply crc_spec_inj in E; [|done|done|apply crc_spec_range; (lia || done)..].
  rewrite !crc_spec_word, <- Hlen in E by done.
  assert (Hr : ∀ v, bytes v → (length v ≤ 4)%nat → 0 ≤ le_word v < 2 ^ 32).
  { intros v Hv Hl. pose proof (le_word_range v Hv).
    assert (2 ^ (8 * zlen v) ≤ 2 ^ 32) by (apply Z.pow_le_mono_r; lia). lia. }
  apply crc_bits_inj in E; [|done|apply lxor_range; (lia || apply Hr; (done || lia))..].
  apply le_word_inj; [done..|].
  apply (f_equal (Z.lxor c)) in E. by rewrite <- !Z.lxor_assoc, Z.lxor_nilpotent, !Z.lxor_0_l in E.
Qed.

(** ** Properties *)

(** [crc32] of crc32.c is the bit-serial CRC-32 (reflected polynomial 0xEDB88320,
    register preset to all ones, result complemented). *)
Lemma crc32_run buf size :
  bytes buf → 0 ≤ size ≤ zlen buf →
  crc32 buf size =
  Ok (Z.lxor (crc_spec poly32 (2 ^ 32 - 1) (take (Z.to_nat size) buf)) (2 ^ 32 - 1)).
Proof.
  intros Hb Hs. unfold crc32. rewrite (crc_bytes_ok poly32) by (auto with crc_tables || lia).
  reflexivity.
Qed.

(** C5: the checksums of crc32.c are the bit-serial ones.  [crc32c] computes the
    CRC-32C (reflected polynomial 0x82F63B78) of the first [length] bytes, for
    every register, every alignment of the buffer and both byte orders of the
    slicing loop (on big-endian machines every byte must be below 128, unless the
    compiler gives the shift of a larger one its usual meaning), reads nothing outside the buffer and does no misaligned load;
    [crc32] computes the CRC-32 (reflected polynomial 0xEDB88320, register
    preset to all ones, result complemented). *)
Theorem crc32c_correct be crc addr buf length :
  bytes buf → shifts_defined be buf → 0 ≤ crc < 2 ^ 32 → 0 ≤ addr → 0 ≤ length < 2 ^ 32 → length ≤ zlen buf →
  crc32c be crc addr buf length = Ok (crc_spec poly32c crc (take (Z.to_nat length) buf)) ∧
  crc32 buf length =
    Ok (Z.lxor (crc_spec poly32 (2 ^ 32 - 1) (take (Z.to_nat length) buf)) (2 ^ 32 - 1)).
Proof. intros. split; [by apply crc32c_run|]. apply crc32_run; [done|lia]. Qed.

Lemma crc32c_correct_witness :
  (crc32c Little (2 ^ 32 - 1) 1001 check_string 9 =
     Ok (crc_spec poly32c (2 ^ 32 - 1) (take (Z.to_nat 9) check_string)) ∧
   crc32 check_string 9 =
     Ok (Z.lxor (crc_spec poly32 (2 ^ 32 - 1) (take (Z.to_nat 9) check_string)) (2 ^ 32 - 1))) ∧
  crc_spec poly32c (2 ^ 32 - 1) check_string = Z.lxor (2 ^ 32 - 1) 0xE3069283.
Proof.
  split; [|reflexivity]. apply (crc32c_correct Little (2 ^ 32 - 1) 1001 check_string 9); simpl; try lia.
  repeat constructor; simpl; lia.
Defined.

(** [crc32c] is incremental: feeding a message in two pieces, wherever it is
    cut and wherever the pieces lie in memory, gives the register of the whole
    message. *)
Theorem crc32c_incremental be crc addr addr' addr'' a b :
  bytes a → bytes b → shifts_defined be (a ++ b) → 0 ≤ crc < 2 ^ 32 → 0 ≤ addr → 0 ≤ addr' → 0 ≤ addr'' → zlen (a ++ b) < 2 ^ 32 →
  (c ← crc32c be crc addr a (zlen a); crc32c be c addr' b (zlen b)) =
  crc32c be crc addr'' (a ++ b) (zlen (a ++ b)).
Proof.
  intros Ha Hb HD Hc H1 H2 H3 Hl. rewrite length_app in Hl.
  assert (HDa : shifts_defined be a ∧ shifts_defined be b)
    by (by destruct be as [|[]]; cbn in HD |- *; rewrite <- ?Forall_app).
  destruct HDa as [HDa HDb].
  rewrite !crc32c_run; try (done || lia || by apply Forall_app).
  2: rewrite length_app; lia.
  rewrite bind_Ok, crc32c_run; try (done || lia).
  2: { apply crc_spec_range; [done|done|by apply Forall_take]. }
  rewrite !Nat2Z.id, !firstn_all. by rewrite crc_spec_app.
Qed.

Lemma crc32c_incremental_witness :
  (c ← crc32c (Big true) 7 3 [1; 2; 3; 4; 5] (zlen [1; 2; 3; 4; 5]); crc32c (Big true) c 64 [6; 255] (zlen [6; 255])) =
  crc32c (Big true) 7 2 ([1; 2; 3; 4; 5] ++ [6; 255]) (zlen ([1; 2; 3; 4; 5] ++ [6; 255])).
Proof.
  apply (crc32c_incremental (Big true) 7 3 64 2 [1; 2; 3; 4; 5] [6; 255]); simpl; try lia;
    repeat constructor; simpl; lia.
Defined.

(** C25: [crc32c] detects every error burst of up to 32 bits at byte granularity:
    two messages of the same length that differ only inside four consecutive
    bytes have different checksums (where the shifts of C5 are defined). *)
Theorem crc32c_detects_bursts be crc addr pre w w' post :
  bytes pre → bytes w → bytes w' → bytes post →
  shifts_defined be (pre ++ w ++ post) → shifts_defined be (pre ++ w' ++ post) → 0 ≤ crc < 2 ^ 32 → 0 ≤ addr →
  length w = length w' → (length w ≤ 4)%nat → w ≠ w' → zlen (pre ++ w ++ post) < 2 ^ 32 →
  crc32c be crc addr (pre ++ w ++ post) (zlen (pre ++ w ++ post)) ≠
  crc32c be crc addr (pre ++ w' ++ post) (zlen (pre ++ w' ++ post)).
Proof.
  intros H1 H2 H3 H4 HD HD' Hc Ha Hlen H32 Hne Hl. rewrite !length_app in Hl.
  assert (∀ v, bytes v → bytes (pre ++ v ++ post)) by (intros; unfold bytes; by rewrite !Forall_app).
  rewrite !crc32c_run; auto; try (rewrite !length_app; lia).
  rewrite !Nat2Z.id, !firstn_all. intros [= E]. apply Hne.
  rewrite (crc_spec_app _ _ pre), (crc_spec_app _ _ pre (w' ++ post)) in E.
  apply crc_spec_burst in E; try done. by apply crc_spec_range.
Qed.

(** A byte of 128 where the fourth byte of a word is folded in. *)
Example big_endian_shift :
  crc32c (Big false) 0 0 (repeat 128 12) 12 = Ub ∧
  crc32c (Big true) 0 0 (repeat 128 12) 12 = crc32c Little 0 0 (repeat 128 12) 12.
Proof. split; vm_compute; reflexivity. Qed.

Lemma crc32c_detects_bursts_witness :
  crc32c Little 0 0 ([9] ++ [1; 2; 3; 4] ++ [8]) (zlen ([9] ++ [1; 2; 3; 4] ++ [8])) ≠
  crc32c Little 0 0 ([9] ++ [1; 2; 0; 4] ++ [8]) (zlen ([9] ++ [1; 2; 0; 4] ++ [8])).
Proof.
  apply (crc32c_detects_bursts Little 0 0 [9] [1; 2; 3; 4] [1; 2; 0; 4] [8]); simpl; try lia; try done;
    repeat constructor; simpl; lia.
Defined.
