(* ===== verification/CrcHw.v ===== *)
(** * crc32.intel: the CRC-32C instruction and the CPU feature probe

    The SSE 4.2 [crc32] instruction, the flag toggling and [cpuid] are inline
    assembly or compiler intrinsics: they are the interface [Sse42] and the
    record [cpu], whose laws are the processor manual's.  The files compile on
    x86 only, where a word load needs no alignment. *)

From stdpp Require Import strings.
From S2P Require Import Prelude Libc Crc32.
Local Open Scope Z_scope.

(** ** The instruction *)

Class Sse42 := {
  (** [crc32 r32, r/m8] and [crc32 r, r/m32] or [r/m64] *)
  crc32_b : Z → Z → Z;
  crc32_w : Z → Z → Z;
  (** [sizeof (unsigned long)]: 4 on i386, 8 on x86_64 *)
  SCALE_F : nat
}.

(** The instruction divides its operand, low bit first, by the CRC-32C
    polynomial. *)
Class Sse42Laws (H : Sse42) : Prop := {
  scale_pos : SCALE_F = 4%nat ∨ SCALE_F = 8%nat;
  crc32_b_law c b : 0 ≤ c < 2 ^ 32 → 0 ≤ b < 256 → crc32_b c b = crc_bits poly32c 8 (Z.lxor c b);
  crc32_w_law c w : 0 ≤ c < 2 ^ 32 → 0 ≤ w < 2 ^ (8 * Z.of_nat SCALE_F) →
    crc32_w c w = crc_bits poly32c (8 * SCALE_F) (Z.lxor c w)
}.

Section hw.
Context {HI : Sse42}.

(** The load of an [unsigned long] at [p]: [n] bytes, little-endian. *)
Fixpoint load_le (n : nat) (buf : list Z) (p : Z) : res Z :=
  match n with
  | O => Ok 0
  | S n' => b ← aget buf p; w ← load_le n' buf (p + 1); Ok (Z.lor b (Z.shiftl w 8))
  end.

Definition crc32c_hw_byte (crc : Z) (buf : list Z) (data length : Z) : res Z :=
  for_up (Z.to_nat length) data (fun i crc =>
    b ← aget buf i;
    Ok (crc32_b crc b)) crc.

(** The word loop shared by the three versions: [n] words from the start. *)
Definition crc32c_hw_words (n crc : Z) (buf : list Z) : res Z :=
  for_up (Z.to_nat n) 0 (fun i crc =>
    w ← load_le SCALE_F buf (i * Z.of_nat SCALE_F);
    Ok (crc32_w crc w)) crc.

(** cpu_feature.c: both counts are [unsigned int]. *)
Definition crc32c_hw (crc : Z) (p : list Z) (len : Z) : res Z :=
  let iquotient := u32 (len / Z.of_nat SCALE_F) in
  let iremainder := u32 (len mod Z.of_nat SCALE_F) in
  crc ← crc32c_hw_words iquotient crc p;
  if negb (iremainder =? 0) then
    crc32c_hw_byte crc p (iquotient * Z.of_nat SCALE_F) iremainder
  else Ok crc.

(** ucrc32hw.c carries the same two functions under other names. *)
Definition crc32c_intel_le_hw_byte : Z → list Z → Z → Z → res Z := crc32c_hw_byte.
Definition crc32c_intel_le_hw : Z → list Z → Z → res Z := crc32c_hw.

(** cpu_fi.c: the counts are [size_t]. *)
Definition crc32c_hw_fi (crc : Z) (p : list Z) (len : Z) : res Z :=
  let nwords := len / Z.of_nat SCALE_F in
  let nbytes := len mod Z.of_nat SCALE_F in
  crc ← crc32c_hw_words nwords crc p;
  if negb (nbytes =? 0) then
    crc32c_hw_byte crc p (nwords * Z.of_nat SCALE_F) nbytes
  else Ok crc.
End hw.

(** ** The feature probe (cpu_feature.c) *)

(** What the processor answers: [toggle mask] is the flag register before and
    after an attempt to flip the bits of [mask]; [cpuid key] the registers. *)
Record cpu := {
  toggle_x86_flags : Z → Z * Z;
  get_cpuid : Z → Z * Z * Z * Z
}.

Definition cpuf_AC : Z := Z.shiftl 1 18.
Definition cpuf_ID : Z := Z.shiftl 1 21.
Definition ERR_i386 : Z := -10.
Definition ERR_NO_CPUID : Z := -11.

(** The result and [*err]. *)
Definition can_cpuid (m : cpu) (err : Z) : Z * Z :=
  let '(orig, toggled) := toggle_x86_flags m cpuf_AC in
  if Z.land orig cpuf_AC =? Z.land toggled cpuf_AC then (0, ERR_i386)
  else
    let '(orig, toggled) := toggle_x86_flags m cpuf_ID in
    if Z.land orig cpuf_ID =? Z.land toggled cpuf_ID then (0, ERR_NO_CPUID)
    else (1, err).

Definition eAX : Z := 0.
Definition eBX : Z := 1.
Definition eCX : Z := 2.
Definition eDX : Z := 3.

Definition cpu_ftr : list (Z * Z) :=
  [(eDX, Z.shiftl 1 28);   (* HT *)
   (eCX, Z.shiftl 1 19);   (* SSE 4.1 *)
   (eCX, Z.shiftl 1 20);   (* SSE 4.2 *)
   (eCX, Z.shiftl 1 31)].  (* HYPERV *)
Definition LEN_cpu_ftr : Z := zlen cpu_ftr.

Definition cpuf_sse4_2 : Z := 2.

Definition cpu_has (m : cpu) (feature : Z) : res Z :=
  let '(ok, err) := can_cpuid m 0 in
  if ok =? 0 then Ok err
  else if LEN_cpu_ftr <? feature then Ok (- ERANGE)
  else
    let '(a, b, c, d) := get_cpuid m 1 in
    f ← aget cpu_ftr feature;
    r ← aget [a; b; c; d] (fst f);
    Ok (if negb (Z.land r (snd f) =? 0) then 1 else 0).

(** cpu_fi.c: [__get_cpuid] answers nothing when the level is unsupported. *)
Definition sse42_enabled_cpu (__get_cpuid : Z → option (Z * Z * Z * Z)) : Z :=
  match __get_cpuid 1 with
  | None => 0
  | Some (_, _, cx, _) => if negb (Z.land cx (Z.shiftl 1 20) =? 0) then 1 else 0
  end.

(** ** The feature lister (cpuid.c) *)

Module CpuidTool.
Inductive line :=
  | TogglingAC
  | TogglingID
  | Flags (orig toggled : Z)
  | NoAC
  | NoID
  | Feature (name : string)
  | Newline
  | Registers (edx ecx : Z).

Definition can_cpuid (m : cpu) : Z * list line :=
  let '(orig, toggled) := toggle_x86_flags m cpuf_AC in
  if Z.land orig cpuf_AC =? Z.land toggled cpuf_AC then (0, [TogglingAC; Flags orig toggled; NoAC])
  else
    let '(orig', toggled') := toggle_x86_flags m cpuf_ID in
    let out := [TogglingAC; Flags orig toggled; TogglingID; Flags orig' toggled'] in
    if Z.land orig' cpuf_ID =? Z.land toggled' cpuf_ID then (0, out ++ [NoID]) else (1, out).

(** The masks are [int] enumeration constants, so bit 31 is negative. *)
Definition xfeatures : list (bool * Z * string) :=
  [(true, Z.shiftl 1 28, "ht "%string);
   (true, Z.shiftl 1 30, "ia64 "%string);
   (false, Z.shiftl 1 8, "tm2 "%string);
   (false, Z.shiftl 1 19, "sse4_1 "%string);
   (false, Z.shiftl 1 20, "sse4_2 "%string);
   (false, s32 (Z.shiftl 1 31), "hyperv "%string)].

Definition get_cpuid_xfeatures (m : cpu) : Z * Z * list line :=
  let '(ax, bx, ecx, edx) := get_cpuid m 1 in
  (ecx, edx,
   flat_map (fun '(in_edx, mask, name) =>
     if negb (Z.land (if in_edx : bool then edx else ecx) mask =? 0) then [Feature name] else [])
     xfeatures ++ [Newline]).

Definition main (m : cpu) : Z * list line :=
  let '(ok, out) := can_cpuid m in
  if negb (ok =? 0) then
    let '(c, d, out') := get_cpuid_xfeatures m in
    (0, out ++ out' ++ [Registers d c])
  else (EINVAL, out).
End CpuidTool.

(** ** The benchmark programs (test_cpuf.c, test_cpuf_i.c, ucrc32hw.c)

    Clock readings are printed but decide nothing; they are left out. *)

Inductive out :=
  | Usage
  | InvalidSeed
  | InvalidLength
  | NoSse42
  | CannotDetermine (err : Z)
  | InvalidParameter
  | OutOfMemory
  | Generating (len seed : Z)
  | HwCrc (crc : Z)
  | SwCrc (crc : Z).

(** [random ()] after [srandom seed], and [malloc]: the address and the
    indeterminate contents of a new block, or NULL. *)
Record host := {
  random : Z → Z → Z;
  malloc : Z → option (Z * list Z)
}.

Section bench.
Context {HI : Sse42}.

Definition MAX_LEN : Z := 1024 * 1024 * 1000 * 2.

(** The processor checks of the two test programs: [None] to go on, or the
    exit status and the message. *)
Definition check_test_cpuf (m : cpu) : res (option (Z * out)) :=
  sse42 ← cpu_has m cpuf_sse4_2;
  Ok (if - ERANGE =? sse42 then Some (ERANGE, InvalidParameter)
      else if 0 =? sse42 then Some (EINVAL, NoSse42)
      else if negb (1 =? sse42) then Some (EINVAL, CannotDetermine sse42)
      else None).

Definition check_test_cpuf_i (gc : Z → option (Z * Z * Z * Z)) : res (option (Z * out)) :=
  Ok (if 0 =? sse42_enabled_cpu gc then Some (EINVAL, NoSse42) else None).

(** Generation of the buffer and the two timed loops of a thousand rounds. *)
Definition bench_run (h : host) (hw : Z → list Z → Z → res Z) (addr : Z) (buf : list Z)
    (seed len : Z) : res (Z * list out) :=
  buf ← for_up (Z.to_nat len) 0 (fun i buf => aset buf i (Z.land (random h seed i) 0xff)) buf;
  chw ← for_up 1000 0 (fun _ _ => hw 0 buf len) 0;
  csw ← for_up 1000 0 (fun _ _ => crc32c Little 0 addr buf len) chw;
  Ok (0, [Generating len seed; HwCrc chw; SwCrc csw]).

(** [main] of the three programs: [check] and [hw] are what they differ in. *)
Definition bench_main (h : host) (check : res (option (Z * out))) (hw : Z → list Z → Z → res Z)
    (argv : list (list Z)) : res (Z * list out) :=
  if zlen argv <? 3 then Ok (1, [Usage])
  else
    a1 ← aget argv 1;
    seed ← atoi a1;
    if seed <=? 0 then Ok (EINVAL, [InvalidSeed])
    else
      a2 ← aget argv 2;
      len ← atol a2;
      if (len <=? 0) || (MAX_LEN <? len) then Ok (EINVAL, [InvalidLength])
      else
        c ← check;
        match c with
        | Some (rc, msg) => Ok (rc, [msg])
        | None =>
            match malloc h len with
            | None => Ok (ENOMEM, [OutOfMemory])
            | Some (addr, buf) => bench_run h hw addr buf seed len
            end
        end.

Definition main_test_cpuf (h : host) (m : cpu) (argv : list (list Z)) : res (Z * list out) :=
  bench_main h (check_test_cpuf m) crc32c_hw argv.
Definition main_test_cpuf_i (h : host) (gc : Z → option (Z * Z * Z * Z)) (argv : list (list Z)) :
    res (Z * list out) :=
  bench_main h (check_test_cpuf_i gc) crc32c_hw_fi argv.
Definition main_ucrc32hw (h : host) (argv : list (list Z)) : res (Z * list out) :=
  bench_main h (Ok None) crc32c_intel_le_hw argv.
End bench.

(** ** The instruction loop computes the CRC *)

Section correct.
Context {HI : Sse42} {HL : Sse42Laws HI}.

Lemma scale_range : 0 < Z.of_nat SCALE_F ≤ 8.
Proof. destruct (@scale_pos HI HL) as [E|E]; rewrite E; lia. Qed.

Lemma word_counts len : 0 ≤ len →
  0 ≤ len / Z.of_nat SCALE_F ∧ 0 ≤ len mod Z.of_nat SCALE_F < Z.of_nat SCALE_F ∧
  len / Z.of_nat SCALE_F * Z.of_nat SCALE_F + len mod Z.of_nat SCALE_F = len.
Proof.
  intros Hl. pose proof scale_range as HS. split_and!.
  - apply Z.div_pos; lia.
  - apply Z.mod_pos_bound; lia.
  - apply Z.mod_pos_bound; lia.
  - rewrite Z.mul_comm. symmetry. apply Z.div_mod. lia.
Qed.

Lemma load_le_ok n buf p :
  0 ≤ p → p + Z.of_nat n ≤ zlen buf →
  load_le n buf p = Ok (le_word (take n (drop (Z.to_nat p) buf))).
Proof.
  revert p. induction n as [|n IH]; intros p Hp Hl; [done|]. cbn [load_le].
  rewrite aget_Ok, bind_Ok, IH, bind_Ok by lia.
  rewrite (drop_S buf (buf.[p]) (Z.to_nat p)) by (apply list_lookup_lookup_total_lt; lia).
  cbn [take le_word]. by replace (Z.to_nat (p + 1)) with (S (Z.to_nat p)) by lia.
Qed.

Lemma insn_word c l :
  bytes l → length l = SCALE_F → 0 ≤ c < 2 ^ 32 → crc32_w c (le_word l) = crc_spec poly32c c l.
Proof.
  intros Hl E Hc. rewrite crc_spec_word, E by done. apply crc32_w_law; [done|].
  rewrite <- E. by apply le_word_range.
Qed.

(** A loop that folds the register over pieces of [k] bytes. *)
Lemma fold_pieces (body : Z → Z → res Z) (k : nat) n i0 p crc buf :
  bytes buf → 0 ≤ crc < 2 ^ 32 → 0 ≤ p → p + Z.of_nat k * Z.of_nat n ≤ zlen buf →
  (∀ i c, 0 ≤ i < Z.of_nat n → 0 ≤ c < 2 ^ 32 →
     body (i0 + i) c =
     Ok (crc_spec poly32c c (take k (drop (Z.to_nat (p + i * Z.of_nat k)) buf)))) →
  for_up n i0 body crc =
  Ok (crc_spec poly32c crc (take (Z.to_nat (Z.of_nat k * Z.of_nat n)) (drop (Z.to_nat p) buf))).
Proof.
  intros Hb Hc Hp Hl Hbody.
  set (I := fun i c => 0 ≤ c < 2 ^ 32 ∧
    c = crc_spec poly32c crc (take (Z.to_nat (Z.of_nat k * (i - i0))) (drop (Z.to_nat p) buf))).
  assert (H : ensures (for_up n i0 body crc) (I (i0 + Z.of_nat n))).
  { apply for_up_inv; [split; [done|by rewrite Z.sub_diag, Z.mul_0_r]|].
    intros i' c Hi [Hr ->]. replace i' with (i0 + (i' - i0)) at 1 by lia.
    set (i := i' - i0). rewrite Hbody by (done || lia). cbn [ensures].
    assert (E : take (Z.to_nat (Z.of_nat k * (i' + 1 - i0))) (drop (Z.to_nat p) buf) =
      take (Z.to_nat (Z.of_nat k * i)) (drop (Z.to_nat p) buf) ++
      take k (drop (Z.to_nat (p + i * Z.of_nat k)) buf)).
    { replace (Z.to_nat (p + i * Z.of_nat k)) with (Z.to_nat p + Z.to_nat (Z.of_nat k * i))%nat by lia.
      rewrite <- drop_drop.
      pose proof (take_take_drop_Z (drop (Z.to_nat p) buf) (Z.of_nat k * i) (Z.of_nat k)) as E.
      rewrite Nat2Z.id in E. rewrite E by (subst i; nia). f_equal. subst i. lia. }
    split; [|by rewrite E, crc_spec_app].
    apply crc_spec_range; [done|done|]. apply Forall_take. by apply Forall_drop. }
  apply ensures_iff in H as (c & -> & _ & ->). do 5 f_equal. lia.
Qed.

Lemma hw_byte_ok crc buf p length :
  bytes buf → 0 ≤ crc < 2 ^ 32 → 0 ≤ p → 0 ≤ length → p + length ≤ zlen buf →
  crc32c_hw_byte crc buf p length =
  Ok (crc_spec poly32c crc (take (Z.to_nat length) (drop (Z.to_nat p) buf))).
Proof.
  intros Hb Hc Hp Hn Hl. unfold crc32c_hw_byte.
  rewrite (fold_pieces _ 1 _ p p crc buf); try (done || lia).
  - do 4 f_equal. lia.
  - intros i c Hi Hr.
    rewrite aget_Ok, bind_Ok, crc32_b_law by (done || lia || (apply bytes_rd; (done || lia))).
    rewrite take_drop_snoc by lia. rewrite Z.mul_1_r, Z.add_0_r. done.
Qed.

Lemma hw_words_ok n crc buf :
  bytes buf → 0 ≤ crc < 2 ^ 32 → 0 ≤ n → n * Z.of_nat SCALE_F ≤ zlen buf →
  crc32c_hw_words n crc buf = Ok (crc_spec poly32c crc (take (Z.to_nat (n * Z.of_nat SCALE_F)) buf)).
Proof.
  intros Hb Hc Hn Hl. unfold crc32c_hw_words.
  rewrite (fold_pieces _ SCALE_F _ 0 0 crc buf); try (done || lia).
  - do 4 f_equal. lia.
  - intros i c Hi Hr. rewrite !Z.add_0_l, load_le_ok, bind_Ok by nia.
    rewrite insn_word; [done| |rewrite length_take, length_drop; nia|done].
    apply Forall_take. by apply Forall_drop.
Qed.

(** Words, then bytes. *)
Lemma hw_split crc buf len :
  bytes buf → 0 ≤ crc < 2 ^ 32 → 0 ≤ len ≤ zlen buf →
  (crc ← crc32c_hw_words (len / Z.of_nat SCALE_F) crc buf;
   if negb (len mod Z.of_nat SCALE_F =? 0) then
     crc32c_hw_byte crc buf (len / Z.of_nat SCALE_F * Z.of_nat SCALE_F) (len mod Z.of_nat SCALE_F)
   else Ok crc) = Ok (crc_spec poly32c crc (take (Z.to_nat len) buf)).
Proof.
  intros Hb Hc Hl. pose proof scale_range as HS.
  pose proof (word_counts len ltac:(lia)) as (Hq & Hr & E).
  rewrite hw_words_ok, bind_Ok by (done || lia).
  destruct (Z.eqb_spec (len mod Z.of_nat SCALE_F) 0) as [E0|E0]; cbn [negb].
  - do 4 f_equal. lia.
  - rewrite hw_byte_ok; try (done || lia).
    2: { apply crc_spec_range; [done|done|]. by apply Forall_take. }
    rewrite <- crc_spec_app, take_take_drop_Z by lia. do 4 f_equal. lia.
Qed.

(** The [unsigned int] counts drop the high bits of the length. *)
Lemma crc32c_hw_counts len : 0 ≤ len →
  let len' := len mod (Z.of_nat SCALE_F * 2 ^ 32) in
  0 ≤ len' ≤ len ∧ u32 (len / Z.of_nat SCALE_F) = len' / Z.of_nat SCALE_F ∧
  u32 (len mod Z.of_nat SCALE_F) = len' mod Z.of_nat SCALE_F.
Proof.
  intros Hl len'. pose proof scale_range as HS. pose proof (word_counts len Hl) as (Hq & Hr & E).
  assert (E' : len' = len mod Z.of_nat SCALE_F + Z.of_nat SCALE_F * u32 (len / Z.of_nat SCALE_F))
    by (apply Z.rem_mul_r; lia).
  pose proof (wrap_range 32 (len / Z.of_nat SCALE_F) ltac:(lia)).
  rewrite (wrap_small 32 (len mod _)) by lia. split_and!.
  - apply Z.mod_pos_bound. lia.
  - apply Z.mod_le; lia.
  - apply (Z.div_unique _ _ _ (len mod Z.of_nat SCALE_F)); lia.
  - apply (Z.mod_unique _ _ (u32 (len / Z.of_nat SCALE_F))); lia.
Qed.

Lemma crc32c_hw_run crc buf len :
  bytes buf → 0 ≤ crc < 2 ^ 32 → 0 ≤ len ≤ zlen buf →
  crc32c_hw crc buf len =
  Ok (crc_spec poly32c crc (take (Z.to_nat (len mod (Z.of_nat SCALE_F * 2 ^ 32))) buf)).
Proof.
  intros Hb Hc Hl. destruct (crc32c_hw_counts len) as (H1 & H2 & H3); [lia|].
  unfold crc32c_hw. rewrite H2, H3. apply hw_split; [done|done|lia].
Qed.

Lemma crc32c_hw_small crc buf len :
  bytes buf → 0 ≤ crc < 2 ^ 32 → 0 ≤ len ≤ zlen buf → len < 2 ^ 32 →
  crc32c_hw crc buf len = Ok (crc_spec poly32c crc (take (Z.to_nat len) buf)).
Proof.
  intros Hb Hc Hl Hw. pose proof scale_range.
  rewrite crc32c_hw_run by done. do 4 f_equal. apply Z.mod_small. lia.
Qed.

(** C26: the hardware routines compute the bit-serial CRC-32C.  [crc32c_hw] of
    cpu_fi.c returns that of the whole buffer, and so agrees with the software
    [crc32c] wherever the latter can be called.  [crc32c_hw] of cpu_feature.c (and
    [crc32c_intel_le_hw] of ucrc32hw.c) returns that of the first [len mod (sizeof
    (long) * 2^32)] bytes: the whole buffer below 32 GiB (16 GiB on i386), but
    only a prefix beyond, where the word count no longer fits its [unsigned
    int]. *)
Theorem crc32c_hw_correct be crc addr buf len :
  bytes buf → 0 ≤ crc < 2 ^ 32 → 0 ≤ len ≤ zlen buf → 0 ≤ addr →
  crc32c_hw_fi crc buf len = Ok (crc_spec poly32c crc (take (Z.to_nat len) buf)) ∧
  (len < 2 ^ 32 → shifts_defined be buf → crc32c_hw_fi crc buf len = crc32c be crc addr buf len) ∧
  crc32c_hw crc buf len =
  Ok (crc_spec poly32c crc (take (Z.to_nat (len mod (Z.of_nat SCALE_F * 2 ^ 32))) buf)).
Proof.
  intros Hb Hc Hl Ha.
  assert (E : crc32c_hw_fi crc buf len = Ok (crc_spec poly32c crc (take (Z.to_nat len) buf)))
    by (by apply hw_split).
  split_and!; [done| |by apply crc32c_hw_run].
  intros Hw HD. rewrite E, crc32c_run; [done|done|done|done|lia|lia|done].
Qed.

(** ** The benchmark *)

Definition random_bytes (h : host) (seed : Z) (len : nat) : list Z :=
  map (fun i => Z.land (random h seed (Z.of_nat i)) 0xff) (seq 0 len).

Lemma fill_ok h seed buf :
  for_up (length buf) 0 (fun i buf => aset buf i (Z.land (random h seed i) 0xff)) buf =
  Ok (random_bytes h seed (length buf)).
Proof.
  set (I := fun i b => b = patch (random_bytes h seed (Z.to_nat i)) buf ∧ 0 ≤ i ≤ zlen buf).
  assert (H : ensures (for_up (length buf) 0
    (fun i buf => aset buf i (Z.land (random h seed i) 0xff)) buf) (I (0 + zlen buf))).
  { apply for_up_inv; [split; [done|lia]|]. intros i b Hi [-> Hr].
    assert (Hlen : zlen (random_bytes h seed (Z.to_nat i)) = i)
      by (unfold random_bytes; rewrite length_map, length_seq; lia).
    apply ensures_aset_patch; [done|lia|]. split; [|lia]. f_equal.
    unfold random_bytes. replace (Z.to_nat (i + 1)) with (S (Z.to_nat i)) by lia.
    rewrite seq_S, map_app. cbn [map]. do 3 f_equal. f_equal. lia. }
  apply ensures_iff in H as (b & -> & -> & _). f_equal. rewrite Z.add_0_l, Nat2Z.id.
  unfold patch, random_bytes. rewrite length_map, length_seq, drop_all. apply app_nil_r.
Qed.

Lemma random_bytes_ok h seed n : bytes (random_bytes h seed n).
Proof. apply Forall_map, Forall_forall. intros x _. apply land_byte. Qed.

(** Repeating a computation that ignores the accumulator. *)
Lemma repeat_ok {A} (n : nat) (i : Z) (m : res A) (a0 a : A) :
  m = Ok a → for_up (S n) i (fun _ _ => m) a0 = Ok a.
Proof.
  intros ->. revert i a0. induction n as [|n IH]; intros i a0; [done|].
  exact (IH (i + 1) a).
Qed.

Lemma bench_run_ok h hw addr buf seed len :
  0 ≤ addr → len = zlen buf → 0 ≤ len < 2 ^ 32 →
  (∀ b, bytes b → zlen b = len → hw 0 b len = Ok (crc_spec poly32c 0 b)) →
  bench_run h hw addr buf seed len =
  let v := crc_spec poly32c 0 (random_bytes h seed (Z.to_nat len)) in
  Ok (0, [Generating len seed; HwCrc v; SwCrc v]).
Proof.
  intros Ha -> Hl Hhw. unfold bench_run. rewrite Nat2Z.id, fill_ok, bind_Ok.
  assert (Hn : zlen (random_bytes h seed (length buf)) = zlen buf)
    by (unfold random_bytes; by rewrite length_map, length_seq).
  pose proof (random_bytes_ok h seed (length buf)) as Hb.
  cbv zeta. unfold mbind, res_bind.
  rewrite (repeat_ok 999 0 _ 0 _ (Hhw _ Hb Hn)).
  rewrite (repeat_ok 999 0 _ _ (crc_spec poly32c 0 (random_bytes h seed (length buf)))); [done|].
  rewrite crc32c_run; [|done|done|lia|lia|lia|done].
  f_equal. f_equal. apply firstn_all2. lia.
Qed.

Lemma bench_main_ok h check hw argv a1 a2 seed len addr buf :
  3 ≤ zlen argv → argv !! 1%nat = Some a1 → argv !! 2%nat = Some a2 →
  atoi a1 = Ok seed → 0 < seed → atol a2 = Ok len → 0 < len ≤ MAX_LEN →
  check = Ok None → malloc h len = Some (addr, buf) →
  bench_main h check hw argv = bench_run h hw addr buf seed len.
Proof.
  intros Hargc E1 E2 Es Hs El Hl -> Em. unfold bench_main.
  rewrite (proj2 (Z.ltb_ge _ _)) by lia.
  change (aget argv 1) with (match argv !! 1%nat with Some x => Ok x | None => Ub end).
  rewrite E1, bind_Ok, Es, bind_Ok, (proj2 (Z.leb_gt _ _)) by lia.
  change (aget argv 2) with (match argv !! 2%nat with Some x => Ok x | None => Ub end).
  rewrite E2, bind_Ok, El, bind_Ok, (proj2 (Z.leb_gt _ _)), (proj2 (Z.ltb_ge _ _)) by lia.
  simpl. by rewrite Em.
Qed.

(** on a processor that reports SSE 4.2 the benchmark of test_cpuf.c ends
    with status 0 and prints the same value for the hardware and the software
    CRC, the CRC-32C of the generated bytes. *)
Theorem benchmark_agrees h m argv a1 a2 seed len addr buf :
  3 ≤ zlen argv → argv !! 1%nat = Some a1 → argv !! 2%nat = Some a2 →
  atoi a1 = Ok seed → 0 < seed → atol a2 = Ok len → 0 < len ≤ MAX_LEN →
  cpu_has m cpuf_sse4_2 = Ok 1 → malloc h len = Some (addr, buf) → zlen buf = len → 0 ≤ addr →
  let v := crc_spec poly32c 0 (random_bytes h seed (Z.to_nat len)) in
  main_test_cpuf h m argv = Ok (0, [Generating len seed; HwCrc v; SwCrc v]).
Proof.
  intros Hargc E1 E2 Es Hs El Hl Hc Em Hb Ha v. unfold main_test_cpuf, MAX_LEN in *.
  rewrite (bench_main_ok h _ _ argv a1 a2 seed len addr buf); try done.
  2: { unfold check_test_cpuf. by rewrite Hc. }
  rewrite bench_run_ok; [done|done|done|lia|]. intros b Hbb Hbl.
  rewrite crc32c_hw_small; [|done|lia|lia|lia]. rewrite firstn_all2; [done|lia].
Qed.
End correct.

(** ** The feature probe *)

(** The register of a feature and its bit. *)
Definition feature_bit (r : Z * Z * Z * Z) (feature : Z) : bool :=
  let '(_, _, c, d) := r in
  if feature =? 0 then Z.testbit d 28
  else if feature =? 1 then Z.testbit c 19
  else if feature =? 2 then Z.testbit c 20
  else Z.testbit c 31.

Lemma land_bit r n : 0 ≤ n → negb (Z.land r (Z.shiftl 1 n) =? 0) = Z.testbit r n.
Proof.
  intros Hn. rewrite Z.shiftl_1_l. destruct (Z.testbit r n) eqn:T.
  - apply negb_true_iff, Z.eqb_neq. intros E.
    apply (f_equal (fun x => Z.testbit x n)) in E.
    by rewrite Z.land_spec, Z.pow2_bits_true, T, Z.bits_0 in E.
  - apply negb_false_iff, Z.eqb_eq, Z.bits_inj'. intros k Hk.
    rewrite Z.land_spec, Z.pow2_bits_eqb, Z.bits_0 by done.
    destruct (Z.eqb_spec n k); [subst; by rewrite T|by rewrite andb_false_r].
Qed.

Lemma land_bit_eqb x y n : 0 ≤ n →
  (Z.land x (Z.shiftl 1 n) =? Z.land y (Z.shiftl 1 n)) = bool_decide (Z.testbit x n = Z.testbit y n).
Proof.
  intros Hn. rewrite Z.shiftl_1_l. apply eq_true_iff_eq.
  rewrite Z.eqb_eq, bool_decide_eq_true. split; intros E.
  - apply (f_equal (fun v => Z.testbit v n)) in E.
    by rewrite !Z.land_spec, Z.pow2_bits_true, !andb_true_r in E.
  - apply Z.bits_inj'. intros k Hk. rewrite !Z.land_spec, Z.pow2_bits_eqb by done.
    destruct (Z.eqb_spec n k); [subst; by rewrite E|by rewrite !andb_false_r].
Qed.

Lemma known_feature a b c d feature :
  0 ≤ feature < 4 →
  (f ← aget cpu_ftr feature; r ← aget [a; b; c; d] (fst f);
   Ok (if negb (Z.land r (snd f) =? 0) then 1 else 0)) =
  Ok (Z.b2z (feature_bit (a, b, c, d) feature)).
Proof.
  intros Hf. assert (Hc : feature = 0 ∨ feature = 1 ∨ feature = 2 ∨ feature = 3) by lia.
  destruct Hc as [->|[->|[->| ->]]].
  - exact (f_equal (fun v : bool => Ok (Z.b2z v)) (land_bit d 28 ltac:(done))).
  - exact (f_equal (fun v : bool => Ok (Z.b2z v)) (land_bit c 19 ltac:(done))).
  - exact (f_equal (fun v : bool => Ok (Z.b2z v)) (land_bit c 20 ltac:(done))).
  - exact (f_equal (fun v : bool => Ok (Z.b2z v)) (land_bit c 31 ltac:(done))).
Qed.

(** [cpu_has] on every branch.  Where the flag register shows no [cpuid]
    it returns the error of [can_cpuid]; for the four known features it
    returns the bit of the register that the table names; above the table it
    returns [-ERANGE]; but for feature 4, the length of the table, the guard
    [feature > LEN_cpu_ftr] lets the read past the end of the table happen. *)
Theorem cpu_has_spec m feature :
  0 ≤ feature →
  cpu_has m feature =
  let '(o, t) := toggle_x86_flags m cpuf_AC in
  let '(o', t') := toggle_x86_flags m cpuf_ID in
  if bool_decide (Z.testbit o 18 = Z.testbit t 18) then Ok ERR_i386
  else if bool_decide (Z.testbit o' 21 = Z.testbit t' 21) then Ok ERR_NO_CPUID
  else if feature <? 4 then Ok (Z.b2z (feature_bit (get_cpuid m 1) feature))
  else if feature =? 4 then Ub
  else Ok (- ERANGE).
Proof.
  intros Hf. unfold cpu_has, can_cpuid.
  destruct (toggle_x86_flags m cpuf_AC) as [o t], (toggle_x86_flags m cpuf_ID) as [o' t'].
  unfold cpuf_AC, cpuf_ID. rewrite !land_bit_eqb by lia.
  destruct (bool_decide (Z.testbit o 18 = _)); [done|].
  destruct (bool_decide (Z.testbit o' 21 = _)); [done|].
  change (1 =? 0) with false. cbv iota.
  destruct (get_cpuid m 1) as [[[a b] c] d]. unfold LEN_cpu_ftr. change (zlen cpu_ftr) with 4.
  destruct (Z.ltb_spec 4 feature).
  { rewrite (proj2 (Z.ltb_ge _ _)), (proj2 (Z.eqb_neq _ _)) by lia. done. }
  destruct (Z.ltb_spec feature 4).
  - apply known_feature. lia.
  - replace feature with 4 by lia. reflexivity.
Qed.

Lemma cpu_has_spec_witness :
  cpu_has {| toggle_x86_flags := fun m => (0, m); get_cpuid := fun _ => (0, 0, 2 ^ 20, 0) |} 2 = Ok 1.
Proof.
  etransitivity; [apply cpu_has_spec; lia|]. reflexivity.
Defined.

(** The names printed. *)
Lemma xfeatures_printed m a b c d name :
  get_cpuid m 1 = (a, b, c, d) →
  CpuidTool.Feature name ∈ snd (CpuidTool.get_cpuid_xfeatures m) ↔
  Exists (fun x : bool * Z * string => snd x = name ∧ negb (Z.land (if fst (fst x) then d else c) (snd (fst x)) =? 0) = true)
    CpuidTool.xfeatures.
Proof.
  intros E. unfold CpuidTool.get_cpuid_xfeatures. rewrite E. cbn [snd].
  rewrite elem_of_app, list_elem_of_singleton, list_elem_of_In, in_flat_map, List.Exists_exists.
  split.
  - intros [([[e mask] n] & Hin & Hx)|Hx]; [|done]. exists (e, mask, n). split; [done|].
    cbn [fst snd] in *. destruct (negb _) eqn:En; [|done].
    destruct Hx as [[= <-]|[]]. done.
  - intros ([[e mask] n] & Hin & <- & Hx). left. exists (e, mask, n). split; [done|].
    cbn [fst snd] in *. rewrite Hx. by left.
Qed.

Lemma land_bit31 r : 0 ≤ r < 2 ^ 32 → negb (Z.land r (s32 (Z.shiftl 1 31)) =? 0) = Z.testbit r 31.
Proof.
  intros Hr. rewrite <- land_bit by lia. do 2 f_equal. apply Z.bits_inj'. intros k Hk.
  change (s32 (Z.shiftl 1 31)) with (Z.lnot (Z.ones 31)). rewrite Z.shiftl_1_l, !Z.land_spec.
  rewrite Z.lnot_spec, Z.pow2_bits_eqb by lia.
  destruct (Z.lt_trichotomy k 31) as [H|[->|H]].
  - rewrite Z.ones_spec_low, (proj2 (Z.eqb_neq _ _)) by lia. done.
  - rewrite Z.ones_spec_high by lia. done.
  - rewrite (testbit_high r 32) by lia. done.
Qed.

Lemma Ok_b2z b : Ok (Z.b2z b) = Ok 1 ↔ b = true.
Proof. by destruct b. Qed.

(** the feature lister of cpuid.c and the library's [cpu_has] agree: the
    tool prints the line of SSE 4.1, SSE 4.2, HT or the hypervisor bit exactly
    when [cpu_has] returns 1 for it, and exits with 0 exactly when [cpu_has]
    can ask the processor. *)
Theorem cpuid_tool_agrees m feature name :
  (∀ a b c d, get_cpuid m 1 = (a, b, c, d) → 0 ≤ c < 2 ^ 32) →
  (feature, name) ∈ [(0, "ht "%string); (1, "sse4_1 "%string); (2, "sse4_2 "%string); (3, "hyperv "%string)] →
  (CpuidTool.Feature name ∈ snd (CpuidTool.main m) ↔ cpu_has m feature = Ok 1) ∧
  (fst (CpuidTool.main m) = 0 ↔ fst (can_cpuid m 0) = 1).
Proof.
  intros Hc Hin. unfold CpuidTool.main, CpuidTool.can_cpuid, can_cpuid, cpu_has, can_cpuid.
  destruct (toggle_x86_flags m cpuf_AC) as [o t], (toggle_x86_flags m cpuf_ID) as [o' t'].
  unfold cpuf_AC, cpuf_ID. rewrite !land_bit_eqb by lia.
  destruct (bool_decide (Z.testbit o 18 = Z.testbit t 18)).
  { cbn. rewrite !elem_of_cons, elem_of_nil. naive_solver. }
  destruct (bool_decide (Z.testbit o' 21 = Z.testbit t' 21)).
  { cbn. rewrite !elem_of_cons, elem_of_nil. naive_solver. }
  destruct (get_cpuid m 1) as [[[a b] c] d] eqn:E. specialize (Hc _ _ _ _ eq_refl).
  pose proof (xfeatures_printed m a b c d name E) as Hx.
  change (negb (1 =? 0)) with true. change (1 =? 0) with false. cbv iota.
  destruct (CpuidTool.get_cpuid_xfeatures m) as [[c' d'] out']. cbn [fst snd] in *.
  split; [|done]. rewrite !elem_of_app, !elem_of_cons, elem_of_nil, Hx.
  unfold CpuidTool.xfeatures. rewrite !Exists_cons, Exists_nil. cbn [fst snd].
  rewrite land_bit31, !land_bit by lia.
  rewrite !elem_of_cons, elem_of_nil in Hin.
  destruct Hin as [[= -> ->]|[[= -> ->]|[[= -> ->]|[[= -> ->]|[]]]]].
  all: match goal with |- context [LEN_cpu_ftr <? ?k] => change (LEN_cpu_ftr <? k) with false end;
    cbv iota; rewrite known_feature by lia; cbn [feature_bit Z.eqb Pos.eqb];
    rewrite Ok_b2z; intuition congruence.
Qed.

(** ** A concrete instruction *)

#[local] Instance sse42_x86_64 : Sse42 := {|
  crc32_b := fun c b => crc_byte poly32c c b;
  crc32_w := fun c w => crc_bits poly32c 64 (Z.lxor c w);
  SCALE_F := 8
|}.

#[local] Instance sse42_x86_64_laws : Sse42Laws sse42_x86_64.
Proof. split; [by right|done|done]. Qed.

Lemma crc32c_hw_correct_witness :
  crc32c_hw_fi 7 check_string 9 = Ok (crc_spec poly32c 7 (take (Z.to_nat 9) check_string)) ∧
  (9 < 2 ^ 32 → shifts_defined (Big true) check_string →
   crc32c_hw_fi 7 check_string 9 = crc32c (Big true) 7 3 check_string 9) ∧
  crc32c_hw 7 check_string 9 =
  Ok (crc_spec poly32c 7 (take (Z.to_nat (9 mod (Z.of_nat SCALE_F * 2 ^ 32))) check_string)).
Proof.
  apply (crc32c_hw_correct (Big true) 7 3 check_string 9); [|simpl; lia..].
  repeat constructor; simpl; lia.
Defined.

Lemma benchmark_agrees_witness :
  let h := {| random := fun s i => s * 1103515245 + 12345 * i; malloc := fun n => Some (16, repeat 0 (Z.to_nat n)) |} in
  let m := {| toggle_x86_flags := fun m => (0, m); get_cpuid := fun _ => (0, 0, 2 ^ 20, 0) |} in
  let v := crc_spec poly32c 0 (random_bytes h 42 (Z.to_nat 12)) in
  main_test_cpuf h m [[116]; [52; 50]; [49; 50]] = Ok (0, [Generating 12 42; HwCrc v; SwCrc v]).
Proof.
  intros h m v.
  apply (benchmark_agrees h m [[116]; [52; 50]; [49; 50]] [52; 50] [49; 50] 42 12 16 (repeat 0 12));
    try reflexivity; unfold MAX_LEN; simpl; lia.
Defined.

Lemma cpuid_tool_agrees_witness :
  let m := {| toggle_x86_flags := fun m => (0, m); get_cpuid := fun _ => (0, 0, 2 ^ 20, 0) |} in
  (CpuidTool.Feature "sse4_2 " ∈ snd (CpuidTool.main m) ↔ cpu_has m 2 = Ok 1) ∧
  (fst (CpuidTool.main m) = 0 ↔ fst (can_cpuid m 0) = 1).
Proof.
  apply (cpuid_tool_agrees _ 2 "sse4_2 ").
  - intros a b c d [= _ _ <- _]. lia.
  - do 2 right. left.
Defined.
