(* ===== verification/Queue.v ===== *)
(** * queue: the FIFO of pointers (queue.c, queue.h) and its driver (testq.c)

    Queues live in a heap indexed by their handles; an operation on a handle
    that is not allocated is undefined.  The abstract queue is a capacity and a
    list; [simulates] relates the two.  The driver is written against the
    interface [QueueOps], and [dialogue] says what its user sees. *)

From stdpp Require Import gmap strings.
From S2P Require Import Prelude Libc.
Local Open Scope Z_scope.

(** ** The code *)

(** [struct pqueue]; [data] is the block it points to, or NULL. *)
Record pqueue := MkPq {
  data : option (list Z);
  max_count : Z;
  count : Z;
  head : Z;
  tail : Z
}.

Record qworld := MkW { qheap : gmap Z pqueue; qerrno : Z }.

(** Dereference and update of a handle. *)
Definition pq_at (w : qworld) (q : Z) : res pqueue :=
  match qheap w !! q with Some pq => Ok pq | None => Ub end.
Definition pq_set (w : qworld) (q : Z) (pq : pqueue) : qworld :=
  MkW (<[q := pq]> (qheap w)) (qerrno w).
Definition set_errno (w : qworld) (e : Z) : qworld := MkW (qheap w) e.
Definition pq_data (pq : pqueue) : res (list Z) :=
  match data pq with Some d => Ok d | None => Ub end.

(** [c1] is the address the first [calloc] returns, or NULL; [c2] tells whether
    the second one succeeds. *)
Definition pqueue_create (c1 : option Z) (c2 : bool) (capacity : Z) (w : qworld) : Z * qworld :=
  match c1 with
  | None => (-1, set_errno w ENOMEM)
  | Some p =>
      let w := pq_set w p (MkPq None 0 0 0 0) in
      if c2 then
        (p, pq_set w p (MkPq (Some (replicate (Z.to_nat capacity) 0)) capacity 0 (-1) (-1)))
      else (-1, MkW (delete p (qheap w)) ENOMEM)
  end.

Definition pqueue_count (q : Z) (w : qworld) : res Z := pq ← pq_at w q; Ok (count pq).

Definition pqueue_free (q : Z) (w : qworld) : res qworld :=
  if q =? 0 then Ok w
  else _ ← pq_at w q; Ok (MkW (delete q (qheap w)) (qerrno w)).

Definition pqueue_is_empty (q : Z) (w : qworld) : res Z :=
  pq ← pq_at w q; Ok (if 0 =? count pq then 1 else 0).

Definition pqueue_get (q : Z) (w : qworld) : res (Z * qworld) :=
  pq ← pq_at w q;
  if 0 =? count pq then Ok (-1, set_errno w ENOENT)
  else
    _ ← c_assert ((0 <=? head pq) && (head pq <? s64 (max_count pq)));
    d ← pq_data pq;
    val ← aget d (head pq);
    let n := u64 (count pq - 1) in
    let pq' :=
      if 0 =? n then MkPq (data pq) (max_count pq) n (-1) (-1)
      else
        let h := s64 (head pq + 1) in
        let h := if s64 (max_count pq) <=? h then 0 else h in
        MkPq (data pq) (max_count pq) n h (tail pq) in
    Ok (val, pq_set w q pq').

Definition pqueue_put (q val : Z) (w : qworld) : res (Z * qworld) :=
  pq ← pq_at w q;
  if max_count pq <=? count pq then Ok (-1, set_errno w ENOMEM)
  else
    let n := u64 (count pq + 1) in
    let '(h, t) :=
      if 1 =? n then (0, 0)
      else
        let t := s64 (tail pq + 1) in
        (head pq, if s64 (max_count pq) <=? t then 0 else t) in
    _ ← c_assert ((0 <=? t) && (t <? s64 (max_count pq)));
    d ← pq_data pq;
    d ← aset d t val;
    Ok (0, pq_set w q (MkPq (Some d) (max_count pq) n h t)).

Definition pqueue_iget (q : Z) (w : qworld) : res (Z * qworld) :=
  '(lval, w) ← pqueue_get q w;
  Ok (s32 lval, w).

Definition pqueue_iput (q val : Z) (w : qworld) : res (Z * qworld) :=
  pqueue_put q val w.

(** What [pqueue_dump] prints: the header's four numbers and the items. *)
Definition dump_items (pq : pqueue) : res (Z * list Z) :=
  for_up (Z.to_nat (count pq)) 0 (fun n '(i, out) =>
    let i := if s64 (max_count pq) <=? i then 0 else i in
    d ← pq_data pq;
    v ← aget d i;
    Ok (i + 1, out ++ [v])) (head pq, []).

Definition pqueue_dump (q : Z) (w : qworld) : res (Z * Z * Z * Z * list Z) :=
  pq ← pq_at w q;
  '(_, items) ← dump_items pq;
  Ok (count pq, max_count pq, head pq, tail pq, items).

(** ** The abstract queue *)

Record fifo := MkFifo { cap : Z; items : list Z; ferrno : Z }.

Definition fifo_get (s : fifo) : Z * fifo :=
  match items s with
  | [] => (-1, MkFifo (cap s) [] ENOENT)
  | v :: l => (v, MkFifo (cap s) l (ferrno s))
  end.
Definition fifo_put (val : Z) (s : fifo) : Z * fifo :=
  if cap s <=? zlen (items s) then (-1, MkFifo (cap s) (items s) ENOMEM)
  else (0, MkFifo (cap s) (items s ++ [val]) (ferrno s)).

(** ** The representation *)

(** Slot [i] of the ring that starts at [head]. *)
Definition slot (pq : pqueue) (i : Z) : Z := (head pq + i) mod max_count pq.

Record rep (pq : pqueue) (c : Z) (l : list Z) : Prop := {
  rep_data : ∃ d, data pq = Some d ∧ zlen d = c ∧
    ∀ i, 0 ≤ i < zlen l → d.[slot pq i] = l.[i];
  rep_cap : max_count pq = c ∧ 0 ≤ c < 2 ^ 63;
  rep_count : count pq = zlen l ∧ zlen l ≤ c;
  rep_empty : l = [] → head pq = -1 ∧ tail pq = -1;
  rep_ring : l ≠ [] → 0 ≤ head pq < c ∧ tail pq = slot pq (zlen l - 1)
}.

Lemma rep_new c : 0 ≤ c < 2 ^ 63 →
  rep (MkPq (Some (replicate (Z.to_nat c) 0)) c 0 (-1) (-1)) c [].
Proof.
  intros Hc. split; simpl; try (done || lia).
  exists (replicate (Z.to_nat c) 0). rewrite length_replicate. split_and!; [done|lia|lia].
Qed.

(** One step around the ring. *)
Lemma ring_succ c h i : 0 < c → 0 ≤ i → 0 ≤ h →
  (if c <=? (h + i) mod c + 1 then 0 else (h + i) mod c + 1) = (h + (i + 1)) mod c.
Proof.
  intros Hc Hi Hh. pose proof (Z.mod_pos_bound (h + i) c Hc).
  rewrite Z.add_assoc, <- (Z.add_mod_idemp_l (h + i) 1 c) by lia.
  destruct (Z.leb_spec c ((h + i) mod c + 1)).
  - replace ((h + i) mod c + 1) with c by lia. by rewrite Z.mod_same by lia.
  - symmetry. apply Z.mod_small. lia.
Qed.

Lemma get_ok q w pq c l v :
  qheap w !! q = Some pq → rep pq c (v :: l) →
  ∃ pq', pqueue_get q w = Ok (v, pq_set w q pq') ∧ rep pq' c l.
Proof.
  intros Hq [(d & Hd & Hlen & Hring) [Hm Hc] [Hn Hle] _ Hr].
  destruct Hr as [Hh Ht]; [done|]. cbn [length] in *.
  unfold pqueue_get, pq_at, pq_data. rewrite Hq, bind_Ok, Hn, Hm, Hd.
  rewrite (proj2 (Z.eqb_neq 0 _)), (s64_small c) by lia.
  rewrite (proj2 (Z.leb_le 0 (head pq))), (proj2 (Z.ltb_lt (head pq) c)) by lia. cbn [andb c_assert]. rewrite !bind_Ok.
  rewrite aget_Ok, bind_Ok by lia.
  assert (Hv : d.[head pq] = v).
  { specialize (Hring 0 ltac:(lia)). unfold slot in Hring.
    rewrite Z.add_0_r, Hm, Z.mod_small in Hring by lia. done. }
  rewrite Hv, wrap_small by lia.
  eexists. split; [done|].
  destruct (Z.eqb_spec 0 (Z.of_nat (S (length l)) - 1)) as [E|E].
  - assert (l = []) as -> by (destruct l; [done|cbn [length] in E; lia]).
    split; cbn; try (done || lia). exists d. split_and!; [done|done|lia].
  - pose proof (ring_succ c (head pq) 0) as Hsucc. rewrite Z.add_0_r, Z.mod_small in Hsucc by lia.
    rewrite (s64_small (head pq + 1)), Hsucc by lia. change (0 + 1) with 1.
    pose proof (Z.mod_pos_bound (head pq + 1) c ltac:(lia)).
    split; cbn [data max_count count head tail]; try (done || lia).
    + exists d. split_and!; [done|done|]. intros i Hi. specialize (Hring (i + 1) ltac:(lia)).
      unfold slot in *. cbn [head max_count]. rewrite Hm in Hring.
      rewrite Z.add_mod_idemp_l, <- Z.add_assoc, (Z.add_comm 1) by lia. rewrite Hring.
      replace (Z.to_nat (i + 1)) with (S (Z.to_nat i)) by lia. done.
    + intros ->. cbn in E. lia.
    + intros _. split; [lia|]. unfold slot in *. cbn [head max_count]. rewrite Ht, Hm.
      rewrite Z.add_mod_idemp_l by lia. f_equal. lia.
Qed.

Lemma get_empty q w pq c :
  qheap w !! q = Some pq → rep pq c [] → pqueue_get q w = Ok (-1, set_errno w ENOENT).
Proof. intros Hq H. unfold pqueue_get, pq_at. rewrite Hq, bind_Ok. by rewrite (proj1 (rep_count _ _ _ H)). Qed.

Lemma put_full q w pq c l v :
  qheap w !! q = Some pq → rep pq c l → zlen l = c → pqueue_put q v w = Ok (-1, set_errno w ENOMEM).
Proof.
  intros Hq [_ [Hm Hc] [Hn Hle] _ _] E. unfold pqueue_put, pq_at.
  rewrite Hq, bind_Ok, Hn, Hm, E, (proj2 (Z.leb_le c c)) by lia. done.
Qed.

(** Different offsets less than a turn apart are different slots. *)
Lemma ring_inj c h i j : 0 ≤ i < c → 0 ≤ j < c → (h + i) mod c = (h + j) mod c → i = j.
Proof.
  intros Hi Hj E. assert (Hc : c ≠ 0) by lia.
  pose proof (Z.div_mod (h + i) c Hc) as E1. pose proof (Z.div_mod (h + j) c Hc) as E2.
  rewrite E in E1. revert E1 E2. generalize ((h + i) / c), ((h + j) / c), ((h + j) mod c).
  intros q1 q2 r E1 E2. assert (i - j = c * (q1 - q2)) by (rewrite Z.mul_sub_distr_l; lia).
  destruct (Z.lt_trichotomy q1 q2) as [|[->|]]; [nia|lia|nia].
Qed.

Lemma put_ok q w pq c l v :
  qheap w !! q = Some pq → rep pq c l → zlen l < c →
  ∃ pq', pqueue_put q v w = Ok (0, pq_set w q pq') ∧ rep pq' c (l ++ [v]).
Proof.
  intros Hq [(d & Hd & Hlen & Hring) [Hm Hc] [Hn Hle] He Hr] Hlt.
  unfold pqueue_put, pq_at, pq_data. rewrite Hq, bind_Ok, Hn, Hm, Hd.
  rewrite (proj2 (Z.leb_gt c (zlen l))), (wrap_small 64 (zlen l + 1)) by lia. cbv zeta.
  (* the slot written *)
  set (h := if 1 =? zlen l + 1 then 0 else head pq).
  assert (Ht : (if 1 =? zlen l + 1 then (0, 0) else
      (head pq, if s64 c <=? s64 (tail pq + 1) then 0 else s64 (tail pq + 1))) =
    (h, (h + zlen l) mod c) ∧ 0 ≤ h < c).
  { subst h. destruct (Z.eqb_spec 1 (zlen l + 1)) as [E|E].
    - replace (zlen l) with 0 by lia. rewrite Z.mod_small by lia. split; [done|lia].
    - destruct Hr as [Hh Ht]; [intros ->; cbn in E; lia|]. split; [|done].
      pose proof (ring_succ c (head pq) (zlen l - 1)) as Hs.
      replace (zlen l - 1 + 1) with (zlen l) in Hs by lia.
      unfold slot in Ht. rewrite Hm in Ht. pose proof (Z.mod_pos_bound (head pq + (zlen l - 1)) c).
      rewrite Ht, !s64_small, Hs by lia. done. }
  destruct Ht as [-> Hh]. pose proof (Z.mod_pos_bound (h + zlen l) c ltac:(lia)) as Hb.
  rewrite (s64_small c), (proj2 (Z.leb_le 0 _)), (proj2 (Z.ltb_lt ((h + zlen l) mod c) c)) by lia.
  cbn [andb c_assert]. rewrite !bind_Ok, aset_Ok, bind_Ok by lia. eexists. split; [done|].
  split; cbn [data max_count count head tail].
  - eexists. split; [done|]. rewrite length_insert. split; [done|].
    intros i Hi. rewrite length_app in Hi. cbn [length] in Hi. unfold slot. cbn [head max_count].
    pose proof (Z.mod_pos_bound (h + i) c ltac:(lia)). rewrite rd_insert by lia. case_decide as E.
    + apply ring_inj in E as <-; [|lia|lia]. rewrite list_lookup_total_middle; [done|lia].
    + assert (i < zlen l) by (destruct (Z.eq_dec i (zlen l)) as [->|]; [done|lia]).
      rewrite lookup_total_app_l by lia. rewrite <- Hring by lia. f_equal. unfold slot.
      rewrite Hm. subst h. destruct (Z.eqb_spec 1 (zlen l + 1)); [lia|done].
  - done.
  - rewrite length_app. cbn [length]. lia.
  - by intros []%app_nil.
  - intros _. split; [done|]. unfold slot. cbn [head max_count]. rewrite length_app. cbn [length].
    do 2 f_equal. lia.
Qed.

Lemma dump_items_ok pq c l : rep pq c l → ∃ i, dump_items pq = Ok (i, l).
Proof.
  intros [(d & Hd & Hlen & Hring) [Hm Hc] [Hn Hle] He Hr]. unfold dump_items, pq_data. rewrite Hn, Hm, Hd.
  set (I := fun n (s : Z * list Z) => 0 ≤ n ≤ zlen l ∧ s.2 = take (Z.to_nat n) l ∧
    (n < zlen l → (if c <=? s.1 then 0 else s.1) = slot pq n ∧ 0 ≤ slot pq n < c)).
  rewrite (s64_small c) by lia.
  match goal with |- context [for_up ?n ?i ?b ?s] =>
    assert (H : ensures (for_up n i b s) (I (i + Z.of_nat n))) end.
  { rewrite Nat2Z.id. apply for_up_inv.
    - split_and!; [lia|lia|done|]. cbn [fst]. intros Hl.
      destruct Hr as [Hh Ht]; [intros ->; cbn in *; lia|]. unfold slot. rewrite Hm, Z.add_0_r, Z.mod_small by lia.
      rewrite (proj2 (Z.leb_gt _ _)) by lia. lia.
    - intros n [i out] Hi ([_ _] & Ho & Hn'). cbn [fst snd] in *. destruct (Hn' ltac:(lia)) as [-> Hs].
      rewrite bind_Ok, aget_Ok, bind_Ok by lia. cbn [ensures].
      rewrite Hring by lia. split_and!; [lia|lia| |]; cbn [fst snd].
      + rewrite Ho. replace (Z.to_nat (n + 1)) with (S (Z.to_nat n)) by lia. symmetry.
        apply take_S_r, list_lookup_lookup_total_lt. lia.
      + intros Hl. unfold slot in *. rewrite Hm in *.
        destruct Hr as [Hh Ht]; [intros ->; cbn in Hl; lia|]. rewrite ring_succ by lia.
        split; [done|]. apply Z.mod_pos_bound. lia. }
  apply ensures_iff in H as ([i out] & -> & _ & Ho & _). cbn [snd] in Ho. exists i.
  rewrite Ho. do 2 f_equal. rewrite firstn_all2; [done|lia].
Qed.

(** ** Sequences of calls *)

Inductive qop :=
  | OpPut (v : Z)
  | OpIput (v : Z)
  | OpGet
  | OpIget
  | OpIsEmpty
  | OpCount
  | OpDump.

(** A call's result and, after it, [errno]. *)
Inductive qres :=
  | RVal (v errno : Z)
  | RDump (count max head tail : Z) (l : list Z).

Definition run_op (q : Z) (o : qop) (w : qworld) : res (qres * qworld) :=
  match o with
  | OpPut v => '(r, w) ← pqueue_put q v w; Ok (RVal r (qerrno w), w)
  | OpIput v => '(r, w) ← pqueue_iput q v w; Ok (RVal r (qerrno w), w)
  | OpGet => '(r, w) ← pqueue_get q w; Ok (RVal r (qerrno w), w)
  | OpIget => '(r, w) ← pqueue_iget q w; Ok (RVal r (qerrno w), w)
  | OpIsEmpty => r ← pqueue_is_empty q w; Ok (RVal r (qerrno w), w)
  | OpCount => r ← pqueue_count q w; Ok (RVal r (qerrno w), w)
  | OpDump => '(c, m, h, t, l) ← pqueue_dump q w; Ok (RDump c m h t l, w)
  end.

Fixpoint run_ops (q : Z) (os : list qop) (w : qworld) : res (list qres * qworld) :=
  match os with
  | [] => Ok ([], w)
  | o :: os' =>
      '(r, w) ← run_op q o w;
      '(rs, w) ← run_ops q os' w;
      Ok (r :: rs, w)
  end.

(** The same calls on the abstract queue, which has no indices to dump. *)
Definition spec_op (o : qop) (s : fifo) : qres * fifo :=
  match o with
  | OpPut v | OpIput v => let '(r, s) := fifo_put v s in (RVal r (ferrno s), s)
  | OpGet => let '(r, s) := fifo_get s in (RVal r (ferrno s), s)
  | OpIget => let '(r, s) := fifo_get s in (RVal (s32 r) (ferrno s), s)
  | OpIsEmpty => (RVal (if 0 =? zlen (items s) then 1 else 0) (ferrno s), s)
  | OpCount => (RVal (zlen (items s)) (ferrno s), s)
  | OpDump => (RDump (zlen (items s)) (cap s) 0 0 (items s), s)
  end.

Fixpoint spec_ops (os : list qop) (s : fifo) : list qres * fifo :=
  match os with
  | [] => ([], s)
  | o :: os' =>
      let '(r, s) := spec_op o s in
      let '(rs, s) := spec_ops os' s in (r :: rs, s)
  end.

Definition erase (r : qres) : qres :=
  match r with RDump c m _ _ l => RDump c m 0 0 l | _ => r end.

(** The queue [q] of the world stands for [s]. *)
Definition simulates (q : Z) (w : qworld) (s : fifo) : Prop :=
  (∃ pq, qheap w !! q = Some pq ∧ rep pq (cap s) (items s)) ∧ qerrno w = ferrno s.

(** Nothing but [q] changed. *)
Definition frame (q : Z) (w w' : qworld) : Prop := ∀ q', q' ≠ q → qheap w' !! q' = qheap w !! q'.

Lemma frame_refl q w : frame q w w.
Proof. done. Qed.
Lemma frame_errno q w e : frame q w (set_errno w e).
Proof. done. Qed.
Lemma frame_set q w pq : frame q w (pq_set w q pq).
Proof. intros q' Hq. simpl. by rewrite lookup_insert_ne. Qed.
Lemma frame_trans q w1 w2 w3 : frame q w1 w2 → frame q w2 w3 → frame q w1 w3.
Proof. intros H1 H2 q' Hq. by rewrite H2, H1. Qed.
Create HintDb queue.
#[export] Hint Resolve frame_refl frame_errno frame_set : queue.

Lemma simulates_set q w s pq l :
  rep pq (cap s) l → qerrno w = ferrno s → simulates q (pq_set w q pq) (MkFifo (cap s) l (ferrno s)).
Proof. intros H He. split; [|done]. exists pq. split; [|done]. apply lookup_insert_eq. Qed.

Lemma put_sim q v w s : simulates q w s →
  ∃ w', pqueue_put q v w = Ok ((fifo_put v s).1, w') ∧ simulates q w' (fifo_put v s).2 ∧ frame q w w'.
Proof.
  intros [(pq & Hq & H) He]. unfold fifo_put. destruct (Z.leb_spec (cap s) (zlen (items s))).
  - pose proof (rep_count _ _ _ H). eexists.
    rewrite (put_full _ _ _ _ _ _ Hq H) by lia. split; [done|]. split; [|auto with queue].
    split; [|done]. eauto.
  - destruct (put_ok _ _ _ _ _ v Hq H) as (pq' & E & H'); [lia|].
    eexists. rewrite E. split; [done|]. split; [by apply simulates_set|auto with queue].
Qed.

Lemma get_sim q w s : simulates q w s →
  ∃ w', pqueue_get q w = Ok ((fifo_get s).1, w') ∧ simulates q w' (fifo_get s).2 ∧ frame q w w'.
Proof.
  intros [(pq & Hq & H) He]. unfold fifo_get. destruct (items s) as [|v l] eqn:El.
  - eexists. rewrite (get_empty _ _ _ _ Hq H). split; [done|]. split; [|auto with queue].
    split; [|done]. eauto.
  - destruct (get_ok _ _ _ _ _ _ Hq H) as (pq' & E & H').
    eexists. rewrite E. split; [done|]. split; [by apply simulates_set|auto with queue].
Qed.

Lemma count_sim q w s : simulates q w s → pqueue_count q w = Ok (zlen (items s)).
Proof.
  intros [(pq & Hq & H) He]. unfold pqueue_count, pq_at. rewrite Hq, bind_Ok.
  f_equal. apply (rep_count _ _ _ H).
Qed.

Lemma dump_sim q w s : simulates q w s →
  ∃ h t, pqueue_dump q w = Ok (zlen (items s), cap s, h, t, items s).
Proof.
  intros [(pq & Hq & H) He]. unfold pqueue_dump, pq_at. rewrite Hq, bind_Ok.
  destruct (dump_items_ok _ _ _ H) as [i ->]. rewrite bind_Ok.
  destruct (rep_count _ _ _ H) as [-> _], (rep_cap _ _ _ H) as [-> _]. eauto.
Qed.

Lemma run_op_sim q o w s : simulates q w s →
  ∃ r w', run_op q o w = Ok (r, w') ∧ erase r = (spec_op o s).1 ∧
    simulates q w' (spec_op o s).2 ∧ frame q w w'.
Proof.
  intros H. destruct o as [v|v| | | | |]; cbn [run_op spec_op].
  1-2: destruct (put_sim q v w s H) as (w' & E & Hs & Hf); unfold pqueue_iput; rewrite E, bind_Ok;
    destruct (fifo_put v s); eexists _, _; split_and!; [done| |done|done]; cbn; f_equal; apply Hs.
  1-2: destruct (get_sim q w s H) as (w' & E & Hs & Hf); unfold pqueue_iget; rewrite E, ?bind_Ok;
    destruct (fifo_get s); eexists _, _; split_and!; [done| |done|done]; cbn; f_equal; apply Hs.
  - unfold pqueue_is_empty. pose proof (count_sim _ _ _ H) as E. unfold pqueue_count in E.
    apply bind_ok_inv in E as (pq & -> & [= E]). rewrite !bind_Ok, E.
    eexists _, _; split_and!; [done| |done|done]. cbn. f_equal. apply H.
  - rewrite (count_sim _ _ _ H), bind_Ok. eexists _, _; split_and!; [done| |done|done].
    cbn. f_equal. apply H.
  - destruct (dump_sim _ _ _ H) as (h & t & ->). rewrite bind_Ok. eexists _, _; by split_and!.
Qed.

(** A new queue, and where creation fails. *)
Lemma create_sim p c w :
  0 ≤ c < 2 ^ 63 → ∃ w', pqueue_create (Some p) true c w = (p, w') ∧
    simulates p w' (MkFifo c [] (qerrno w)) ∧ frame p w w'.
Proof.
  intros Hc. eexists. split; [done|]. split.
  - split; [|done]. eexists. split; [apply lookup_insert_eq|]. by apply rep_new.
  - eapply frame_trans; apply frame_set.
Qed.

(** ** Properties *)

(** C1: the ring buffer of queue.c is a bounded FIFO: a queue created with any
    capacity below 2^63 answers every sequence of calls ([pqueue_put],
    [pqueue_get], the integer wrappers, [pqueue_is_empty], [pqueue_count],
    [pqueue_dump]) exactly as a list bounded by that capacity does, results
    and [errno] included; no assertion fails, no slot outside the block is
    touched and no other queue changes. *)
Theorem queue_refines_fifo p c os w :
  0 ≤ c < 2 ^ 63 →
  ∃ w0 rs w',
    pqueue_create (Some p) true c w = (p, w0) ∧
    run_ops p os w0 = Ok (rs, w') ∧
    map erase rs = (spec_ops os (MkFifo c [] (qerrno w))).1 ∧
    (∀ q, q ≠ p → qheap w' !! q = qheap w !! q).
Proof.
  intros Hc. destruct (create_sim p c w Hc) as (w0 & E & Hs & Hf).
  exists w0. revert Hs Hf. generalize (MkFifo c [] (qerrno w)). rewrite E. clear E. revert w0.
  induction os as [|o os IH]; intros w0 s Hs Hf; cbn [run_ops spec_ops].
  - eexists _, _. split_and!; done.
  - destruct (run_op_sim p o w0 s Hs) as (r & w1 & E & Er & Hs' & Hf').
    destruct (spec_op o s) as [r' s']. cbn [fst snd] in *.
    destruct (IH w1 s' Hs' (frame_trans _ _ _ _ Hf Hf')) as (rs & w' & _ & E' & Ers & Hf'').
    rewrite E, bind_Ok, E', bind_Ok. destruct (spec_ops os s') as [rs' s'']. cbn [fst] in *.
    eexists _, _. split_and!; [done|done| |done]. cbn [map]. congruence.
Qed.

Lemma queue_refines_fifo_witness :
  ∃ w0 rs w',
    pqueue_create (Some 4096) true 2 (MkW ∅ 0) = (4096, w0) ∧
    run_ops 4096 [OpPut 5; OpPut 6; OpPut 7; OpGet; OpPut 8; OpDump; OpIget; OpGet; OpGet] w0 = Ok (rs, w') ∧
    map erase rs =
      [RVal 0 0; RVal 0 0; RVal (-1) ENOMEM; RVal 5 ENOMEM; RVal 0 ENOMEM;
       RDump 2 2 0 0 [6; 8]; RVal 6 ENOMEM; RVal 8 ENOMEM; RVal (-1) ENOENT] ∧
    (∀ q, q ≠ 4096 → qheap w' !! q = qheap (MkW ∅ 0) !! q).
Proof.
  apply (queue_refines_fifo 4096 2
    [OpPut 5; OpPut 6; OpPut 7; OpGet; OpPut 8; OpDump; OpIget; OpGet; OpGet] (MkW ∅ 0)); lia.
Defined.

(** creation and release.  A failed allocation returns -1 with [ENOMEM] and
    leaves no block behind; [pqueue_free] of a created queue gives the heap back
    as it was before creation, of the null handle does nothing, and any call on
    a released handle is undefined. *)
Theorem queue_lifecycle p c w o :
  qheap w !! p = None → 0 < p → 0 ≤ c < 2 ^ 63 →
  pqueue_create None true c w = (-1, set_errno w ENOMEM) ∧
  pqueue_create (Some p) false c w = (-1, set_errno w ENOMEM) ∧
  pqueue_free 0 w = Ok w ∧
  (∃ w', pqueue_create (Some p) true c w = (p, w') ∧ pqueue_free p w' = Ok w) ∧
  run_op p o w = Ub ∧ pqueue_free p w = Ub.
Proof.
  intros Hp Hpos Hc.
  assert (Hub : run_op p o w = Ub).
  { destruct o; cbn [run_op]; unfold pqueue_iput, pqueue_iget, pqueue_put, pqueue_get,
      pqueue_is_empty, pqueue_count, pqueue_dump, pq_at; by rewrite Hp. }
  assert (Hdel : ∀ pq, delete p (<[p := pq]> (qheap w)) = qheap w)
    by (intros pq; by rewrite delete_insert_id).
  split_and!; try done.
  - unfold pqueue_create, set_errno. cbn [pq_set qheap]. by rewrite Hdel.
  - eexists. split; [done|]. unfold pqueue_free, pq_at. rewrite (proj2 (Z.eqb_neq p 0)) by lia.
    unfold pq_set. cbn [qheap qerrno]. rewrite lookup_insert_eq, bind_Ok.
    rewrite insert_insert_eq, Hdel. by destruct w.
  - unfold pqueue_free, pq_at. rewrite (proj2 (Z.eqb_neq p 0)), Hp by lia. done.
Qed.

Lemma queue_lifecycle_witness :
  pqueue_create None true 8 (MkW ∅ 0) = (-1, set_errno (MkW ∅ 0) ENOMEM) ∧
  pqueue_create (Some 64) false 8 (MkW ∅ 0) = (-1, set_errno (MkW ∅ 0) ENOMEM) ∧
  pqueue_free 0 (MkW ∅ 0) = Ok (MkW ∅ 0) ∧
  (∃ w', pqueue_create (Some 64) true 8 (MkW ∅ 0) = (64, w') ∧ pqueue_free 64 w' = Ok (MkW ∅ 0)) ∧
  run_op 64 OpGet (MkW ∅ 0) = Ub ∧ pqueue_free 64 (MkW ∅ 0) = Ub.
Proof. apply (queue_lifecycle 64 8 (MkW ∅ 0) OpGet); [done|lia|lia]. Defined.

(** ** The interactive driver (testq.c) *)

(** What the driver needs of a queue. *)
Class QueueOps (Q : Type) := {
  q_put : Z → Q → res (Z * Q);
  q_get : Q → res (Z * Q);
  q_count : Q → res Z;
  q_dump : Q → res (Z * Z * Z * Z * list Z);
  q_errno : Q → Z;
  q_set_errno : Q → Z → Q
}.

Inductive tevent :=
  | EUsage
  | EBadCapacity
  | EPerror (who : string) (errno : Z)
  | EReady (cap n : Z)
  | EGot (cap n v : Z)
  | EPut (cap n v : Z)
  | EDump (count max head tail : Z) (l : list Z)
  | EInvalid
  | EExit (rc : Z).

Section driver.
Context {Q : Type} `{HQ : QueueOps Q}.

(** The body of the loop for one input line: the new [rc], queue and output. *)
Definition command (cap : Z) (input : list Z) (rc : Z) (q : Q) : res (Z * Q * list tevent) :=
  if strcasecmp_eq input (zs "get") then
    let q := q_set_errno q 0 in
    '(lval, q) ← q_get q;
    if (-1 =? lval) && negb (q_errno q =? 0) then Ok (rc, q, [EPerror "pqueue_get" (q_errno q)])
    else n ← q_count q; Ok (rc, q, [EGot cap (s32 n) lval])
  else if strcasecmp_eq (zs "dump") input || strcasecmp_eq (zs "list") input then
    '(c, m, h, t, l) ← q_dump q;
    Ok (rc, q, [EDump c m h t l])
  else
    lval ← atol input;
    if (lval =? 0) && negb (strcmp_eq (zs "0") input) then Ok (rc, q, [EInvalid])
    else
      '(rc, q) ← q_put lval q;
      if negb (rc =? 0) then Ok (rc, q, [EPerror "pqueue_put" (q_errno q)])
      else n ← q_count q; Ok (rc, q, [EPut cap (s32 n) lval]).

(** [for (;;)] until the end of the input. *)
Fixpoint session (fuel : nat) (cap : Z) (fp : list Z) (rc : Z) (q : Q) : res (Z * Q * list tevent) :=
  match fuel with
  | O => NoFuel
  | S f =>
      match fgets (80 - 1) fp with
      | None => Ok (rc, q, [])
      | Some (line, fp) =>
          let input := cut_last 13 (cut_last 10 (c_str line)) in
          '(rc, q, out) ← command cap input rc q;
          '(rc, q, out') ← session f cap fp rc q;
          Ok (rc, q, out ++ out')
      end
  end.

(** From the greeting on, with the queue just created. *)
Definition interact (cap : Z) (stdin : list Z) (q : Q) : res (Z * Q * list tevent) :=
  n ← q_count q;
  '(rc, q, out) ← session (S (length stdin)) cap stdin 0 q;
  Ok (rc, q, EReady cap (s32 n) :: out).
End driver.

Definition MIN_CAP : Z := 2.
Definition MAX_CAP : Z := 128.

(** The queue [p] of the heap as the driver sees it. *)
Definition heap_ops (p : Z) : QueueOps qworld := {|
  q_put := pqueue_put p;
  q_get := pqueue_get p;
  q_count := pqueue_count p;
  q_dump := pqueue_dump p;
  q_errno := qerrno;
  q_set_errno := set_errno
|}.

Definition testq_main (c1 : option Z) (c2 : bool) (argv : list (list Z)) (stdin : list Z) (w : qworld) :
    res (Z * list tevent) :=
  if zlen argv <? 2 then Ok (1, [EUsage])
  else
    a1 ← aget argv 1;
    cap ← atoi a1;
    if (cap <? MIN_CAP) || (MAX_CAP <? cap) then Ok (1, [EBadCapacity])
    else
      let '(q, w) := pqueue_create c1 c2 cap w in
      if -1 =? q then Ok (1, [EPerror "pqueue_create" (qerrno w)])
      else
        '(rc, w, out) ← interact (HQ := heap_ops q) cap stdin w;
        _ ← pqueue_free q w;
        Ok (rc, out ++ [EExit rc]).

(** The abstract queue as the driver sees it. *)
#[export] Instance fifo_ops : QueueOps fifo := {|
  q_put := fun v s => Ok (fifo_put v s);
  q_get := fun s => Ok (fifo_get s);
  q_count := fun s => Ok (zlen (items s));
  q_dump := fun s => Ok (zlen (items s), cap s, 0, 0, items s);
  q_errno := ferrno;
  q_set_errno := fun s e => MkFifo (cap s) (items s) e
|}.

Definition erase_event (e : tevent) : tevent :=
  match e with EDump c m _ _ l => EDump c m 0 0 l | _ => e end.

(** Same failure, or results that agree up to the dumped indices. *)
Definition agree {Q1 Q2} (R : Q1 → Q2 → Prop)
    (m1 : res (Z * Q1 * list tevent)) (m2 : res (Z * Q2 * list tevent)) : Prop :=
  match m1, m2 with
  | Ok (rc1, q1, o1), Ok (rc2, q2, o2) => rc1 = rc2 ∧ R q1 q2 ∧ map erase_event o1 = map erase_event o2
  | Ub, Ub => True
  | _, _ => False
  end.

Section client.
Variable p : Z.
#[local] Existing Instance heap_ops | 5.
Notation R := (simulates p).

Lemma command_agree c input rc w s :
  R w s → agree R (command (HQ := heap_ops p) c input rc w) (command c input rc s).
Proof.
  intros H. unfold command. destruct (strcasecmp_eq input (zs "get")).
  { cbn [q_get q_set_errno q_errno q_count heap_ops fifo_ops].
    assert (H0 : R (set_errno w 0) (MkFifo (cap s) (items s) 0)) by (split; [apply H|done]).
    destruct (get_sim p _ _ H0) as (w' & -> & Hs & _). rewrite !bind_Ok.
    destruct (fifo_get _) as [v s']. cbn [fst snd] in *.
    rewrite (proj2 Hs). destruct (_ && _); [done|].
    by rewrite (count_sim _ _ _ Hs), !bind_Ok. }
  destruct (_ || _).
  { cbn [q_dump heap_ops fifo_ops]. destruct (dump_sim _ _ _ H) as (h & t & ->). rewrite !bind_Ok.
    by split_and!. }
  unfold ato. destruct (_ && _); [|done]. rewrite !bind_Ok. destruct (_ && _); [done|].
  cbn [q_put q_errno q_count heap_ops fifo_ops].
  destruct (put_sim p (parse_dec input) _ _ H) as (w' & -> & Hs & _). rewrite !bind_Ok.
  destruct (fifo_put _ _) as [r s']. cbn [fst snd] in *.
  destruct (negb _); [by rewrite (proj2 Hs)|]. by rewrite (count_sim _ _ _ Hs), !bind_Ok.
Qed.

Lemma session_agree fuel c fp rc w s :
  (length fp < fuel)%nat → R w s →
  agree R (session (HQ := heap_ops p) fuel c fp rc w) (session fuel c fp rc s).
Proof.
  revert fp rc w s. induction fuel as [|f IH]; intros fp rc w s Hf H; [lia|]. cbn [session].
  destruct (fgets (80 - 1) fp) as [[line fp']|] eqn:E; [|done].
  apply fgets_progress in E; [|done].
  set (input := cut_last 13 _). pose proof (command_agree c input rc w s H) as Hc.
  destruct (command (HQ := heap_ops p) c input rc w) as [[[rc1 w1] o1]| | |],
    (command c input rc s) as [[[rc2 s1] o2]| | |]; try done.
  destruct Hc as (-> & H1 & Ho). rewrite !bind_Ok.
  specialize (IH fp' rc2 w1 s1 ltac:(lia) H1).
  destruct (session (HQ := heap_ops p) f c fp' rc2 w1) as [[[rc3 w2] o3]| | |],
    (session f c fp' rc2 s1) as [[[rc4 s2] o4]| | |]; try done.
  destruct IH as (-> & H2 & Ho'). rewrite !bind_Ok. split_and!; [done|done|].
  rewrite !map_app. congruence.
Qed.
End client.

(** ** What the driver shows its user *)

Inductive request := ReqGet | ReqDump | ReqPut (v : Z) | ReqNonsense | ReqTooLarge.

(** What a word asks for, in any mixture of cases; a number that [long] cannot hold
    is a request nobody can answer. *)
Definition request_of (word : list Z) : request :=
  let lower := map tolower word in
  if bool_decide (lower = zs "get") then ReqGet
  else if bool_decide (lower = zs "dump" ∨ lower = zs "list") then ReqDump
  else
    let v := parse_dec word in
    if bool_decide (- 2 ^ 63 ≤ v < 2 ^ 63) then
      if bool_decide (v = 0 ∧ word ≠ zs "0") then ReqNonsense else ReqPut v
    else ReqTooLarge.

(** The queue [l] of [c] places and the exit status after a request, and what is
    printed. *)
Definition reply (c : Z) (l : list Z) (rc : Z) (r : request) : option (list Z * Z * tevent) :=
  match r with
  | ReqGet =>
      match l with
      | [] => Some ([], rc, EPerror "pqueue_get" ENOENT)
      | v :: l' => Some (l', rc, EGot c (zlen l') v)
      end
  | ReqDump => Some (l, rc, EDump (zlen l) c 0 0 l)
  | ReqPut v =>
      if bool_decide (zlen l < c) then Some (l ++ [v], 0, EPut c (zlen l + 1) v)
      else Some (l, -1, EPerror "pqueue_put" ENOMEM)
  | ReqNonsense => Some (l, rc, EInvalid)
  | ReqTooLarge => None
  end.

Fixpoint dialogue (c : Z) (l : list Z) (rc : Z) (rs : list request) : option (Z * list tevent) :=
  match rs with
  | [] => Some (rc, [])
  | r :: rs' =>
      match reply c l rc r with
      | None => None
      | Some (l', rc', e) =>
          match dialogue c l' rc' rs' with
          | None => None
          | Some (rc', out) => Some (rc', e :: out)
          end
      end
  end.

(** Input as it is typed: lines that end with LF or CR LF, and an unfinished one. *)
Definition line_end (crlf : bool) : list Z := if crlf then [13; 10] else [10].
Definition typed (lines : list (list Z * bool)) (rest : list Z) : list Z :=
  concat (map (fun '(t, crlf) => t ++ line_end crlf) lines) ++ rest.
Definition clean (t : list Z) : Prop := Forall (fun c => c ≠ 0 ∧ c ≠ 10 ∧ c ≠ 13) t.

(** The driver takes a line in pieces of 78 characters, its end included, each
    for a word. *)
Fixpoint pieces (fuel : nat) (s : list Z) : list (list Z) :=
  match fuel, s with
  | S f, _ :: _ => take 78 s :: pieces f (drop 78 s)
  | _, _ => []
  end.
Definition line_words (s : list Z) : list (list Z) :=
  map (List.filter (fun c => negb ((c =? 10) || (c =? 13)))) (pieces (length s) s).
Definition words (lines : list (list Z * bool)) (rest : list Z) : list (list Z) :=
  concat (map (fun '(t, crlf) => line_words (t ++ line_end crlf)) lines) ++ line_words rest.

Lemma eqb_list_spec s t : eqb_list s t = bool_decide (s = t).
Proof.
  revert t. induction s as [|c s IH]; intros [|d t]; try done. cbn [eqb_list]. rewrite IH.
  destruct (Z.eqb_spec c d) as [->|Hne]; cbn [andb]; repeat case_bool_decide; congruence.
Qed.

(** The body of the loop over a list is [reply]. *)
Lemma command_reply c word rc l e :
  0 ≤ c ≤ MAX_CAP → zlen l ≤ c →
  match reply c l rc (request_of word) with
  | Some (l', rc', ev) => zlen l' ≤ c ∧ ∃ e', command c word rc (MkFifo c l e) = Ok (rc', MkFifo c l' e', [ev])
  | None => command c word rc (MkFifo c l e) = Ub
  end.
Proof.
  unfold MAX_CAP. intros Hc Hl. unfold request_of, command, strcasecmp_eq, strcmp_eq. rewrite !eqb_list_spec.
  change (map tolower (zs "get")) with (zs "get"). change (map tolower (zs "dump")) with (zs "dump").
  change (map tolower (zs "list")) with (zs "list").
  case_bool_decide as H1; [|].
  { cbn [q_set_errno q_get q_errno q_count fifo_ops]. unfold fifo_get. cbn [items cap ferrno].
    destruct l as [|v l']; rewrite bind_Ok; cbn [ferrno].
    - split; [done|]. by eexists.
    - cbn [length] in *. rewrite andb_false_r. cbn [items]. rewrite bind_Ok, swrap_small by (cbn; lia).
      split; [lia|]. by eexists. }
  replace (bool_decide (zs "dump" = map tolower word) || bool_decide (zs "list" = map tolower word))
    with (bool_decide (map tolower word = zs "dump" ∨ map tolower word = zs "list"))
    by (repeat case_bool_decide; naive_solver).
  case_bool_decide as H2; [|].
  { cbn [q_dump fifo_ops items cap]. rewrite bind_Ok. split; [done|]. by eexists. }
  unfold ato. change (64 - 1) with 63. set (v := parse_dec word).
  replace ((- 2 ^ 63 <=? v) && (v <? 2 ^ 63)) with (bool_decide (- 2 ^ 63 ≤ v < 2 ^ 63))
    by (case_bool_decide; destruct (Z.leb_spec (- 2 ^ 63) v), (Z.ltb_spec v (2 ^ 63)); (done || lia)).
  case_bool_decide as H3; [|done]. rewrite bind_Ok.
  replace ((v =? 0) && negb (bool_decide (zs "0" = word))) with (bool_decide (v = 0 ∧ word ≠ zs "0"))
    by (destruct (Z.eqb_spec v 0); repeat case_bool_decide; naive_solver).
  case_bool_decide as H4; [cbn [reply]; split; [done|by eexists]|].
  cbn [reply q_put q_errno q_count fifo_ops]. unfold fifo_put. cbn [cap items ferrno].
  destruct (Z.leb_spec c (zlen l)).
  - rewrite bool_decide_false by lia. rewrite bind_Ok. split; [done|]. by eexists.
  - rewrite bool_decide_true by lia. rewrite !bind_Ok. cbn [Z.eqb negb items]. rewrite length_app. cbn [length].
    rewrite swrap_small by (cbn; lia). split; [lia|]. exists e. do 4 f_equal. lia.
Qed.

(** How the loop takes its input: line by line of [fgets]. *)
Inductive reads_as : list Z → list (list Z) → Prop :=
| reads_end : reads_as [] []
| reads_line fp line fp' ws : fgets (80 - 1) fp = Some (line, fp') → reads_as fp' ws →
    reads_as fp (cut_last 13 (cut_last 10 (c_str line)) :: ws).

Lemma session_dialogue fp ws c : reads_as fp ws → 0 ≤ c ≤ MAX_CAP → ∀ fuel rc l e,
  (length fp < fuel)%nat → zlen l ≤ c →
  match dialogue c l rc (map request_of ws) with
  | Some (rc', out) => ∃ s, session fuel c fp rc (MkFifo c l e) = Ok (rc', s, out)
  | None => session fuel c fp rc (MkFifo c l e) = Ub
  end.
Proof.
  intros HR Hc. induction HR as [|fp line fp' ws E HR IH]; intros fuel rc l e Hf Hl;
    (destruct fuel as [|f]; [lia|]); cbn [session map dialogue].
  { by eexists. }
  rewrite E. apply fgets_progress in E; [|done].
  pose proof (command_reply c (cut_last 13 (cut_last 10 (c_str line))) rc l e Hc Hl) as HC.
  destruct (reply _ _ _ _) as [[[l' rc'] ev]|]; [|by rewrite HC].
  destruct HC as (Hl' & e' & ->). rewrite bind_Ok. specialize (IH f rc' l' e' ltac:(lia) Hl').
  destruct (dialogue _ _ _ _) as [[rc2 out]|]; [|by rewrite IH]. destruct IH as [s' ->]. rewrite bind_Ok. by eexists.
Qed.

(** Cutting off the end of a line. *)
Lemma cut_last_none c s : Forall (fun x => x ≠ c) s → cut_last c s = s.
Proof.
  induction 1 as [|x s Hx Hs IH]; [done|]. cbn. rewrite (proj2 (Z.eqb_neq x c)) by done.
  assert (E : existsb (Z.eqb c) s = false).
  { apply not_true_iff_false. intros (y & Hy & Ey%Z.eqb_eq)%existsb_exists.
    rewrite Forall_forall in Hs. apply (Hs y); [by apply list_elem_of_In|done]. }
  by rewrite E.
Qed.

Lemma cut_last_end c s : cut_last c (s ++ [c]) = s.
Proof.
  induction s as [|x s IH]; cbn; [by rewrite Z.eqb_refl|].
  assert (E : existsb (Z.eqb c) (s ++ [c]) = true) by (rewrite existsb_app; cbn; by rewrite Z.eqb_refl, orb_true_r).
  by rewrite E, IH.
Qed.

Lemma filter_clean t : clean t → List.filter (fun c => negb ((c =? 10) || (c =? 13))) t = t.
Proof.
  induction 1 as [|c t (H0 & H10 & H13) Ht IH]; [done|]. cbn.
  rewrite (proj2 (Z.eqb_neq _ _) H10), (proj2 (Z.eqb_neq _ _) H13). cbn. by rewrite IH.
Qed.

Lemma c_str_nonzero s : Forall (fun c => c ≠ 0) s → c_str s = s.
Proof. induction 1 as [|c s Hc Hs IH]; [done|]. cbn. rewrite (proj2 (Z.eqb_neq c 0)) by done. by rewrite IH. Qed.

(** What can follow the text of a piece. *)
Definition piece_end (e : list Z) : Prop := e = [] ∨ e = [10] ∨ e = [13] ∨ e = [13; 10].

Lemma word_of_piece t e : clean t → piece_end e →
  cut_last 13 (cut_last 10 (c_str (t ++ e))) = t ∧
  List.filter (fun c => negb ((c =? 10) || (c =? 13))) (t ++ e) = t.
Proof.
  intros Ht He.
  assert (Hc : c_str (t ++ e) = t ++ e).
  { apply c_str_nonzero, Forall_app. split; [eapply Forall_impl; [exact Ht|]; by intros c (? & _)|].
    destruct He as [->|[->|[->| ->]]]; by repeat constructor. }
  assert (H10 : Forall (fun x => x ≠ 10) t) by (eapply Forall_impl; [exact Ht|]; by intros c (_ & ? & _)).
  assert (H13 : Forall (fun x => x ≠ 13) t) by (eapply Forall_impl; [exact Ht|]; by intros c (_ & _ & ?)).
  rewrite Hc, List.filter_app, (filter_clean t Ht). split.
  - destruct He as [->|[->|[->| ->]]].
    + by rewrite app_nil_r, (cut_last_none 10), (cut_last_none 13).
    + by rewrite cut_last_end, cut_last_none.
    + rewrite (cut_last_none 10), cut_last_end; [done|]. apply Forall_app. split; [done|]. by repeat constructor.
    + change [13; 10] with ([13] ++ [10]). by rewrite app_assoc, !cut_last_end.
  - destruct He as [->|[->|[->| ->]]]; apply app_nil_r.
Qed.

(** What [fgets] takes: up to the newline, or 78 characters, or the rest. *)
Lemma fgets_upto_newline n t r :
  Forall (fun x => x ≠ 10) t → (length t < n)%nat → fgets_upto n (t ++ 10 :: r) = (t ++ [10], r).
Proof.
  intros Ht. revert n. induction Ht as [|c t Hc Ht IH]; intros [|n] Hn; cbn [length] in Hn; try lia; [done|].
  cbn [app fgets_upto]. rewrite (proj2 (Z.eqb_neq c 10)) by done. by rewrite IH by lia.
Qed.
Lemma fgets_upto_full t r : Forall (fun x => x ≠ 10) t → fgets_upto (length t) (t ++ r) = (t, r).
Proof.
  induction 1 as [|c t Hc Ht IH]; [by destruct r|]. cbn [length app fgets_upto].
  rewrite (proj2 (Z.eqb_neq c 10)) by done. by rewrite IH.
Qed.
Lemma fgets_upto_all n t : Forall (fun x => x ≠ 10) t → (length t ≤ n)%nat → fgets_upto n t = (t, []).
Proof.
  intros Ht. revert n. induction Ht as [|c t Hc Ht IH]; intros [|n] Hn; cbn [length] in Hn; try lia; try done.
  cbn [fgets_upto]. rewrite (proj2 (Z.eqb_neq c 10)) by done. by rewrite IH by lia.
Qed.

Lemma pieces_fuel f s : (length s ≤ f)%nat → pieces f s = pieces (length s) s.
Proof.
  revert s. induction f as [f IH] using lt_wf_ind. intros [|c s] Hf; [by destruct f|].
  destruct f as [|f]; [cbn in Hf; lia|]. cbn [pieces length] in *. f_equal.
  assert (Hd : (length (drop 78 (c :: s)) ≤ length s)%nat) by (rewrite length_drop; cbn [length]; lia).
  rewrite (IH f) by lia. symmetry. apply IH; lia.
Qed.

Lemma line_words_step s : s ≠ [] →
  line_words s = List.filter (fun c => negb ((c =? 10) || (c =? 13))) (take 78 s) :: line_words (drop 78 s).
Proof.
  intros Hs. unfold line_words. destruct s as [|c s]; [done|]. cbn [length pieces map]. f_equal. f_equal.
  apply pieces_fuel. rewrite length_drop. cbn [length]. lia.
Qed.

(** One piece read. *)
Lemma reads_piece t e fp ws :
  clean t → piece_end e → t ++ e ≠ [] → fgets (80 - 1) ((t ++ e) ++ fp) = Some (t ++ e, fp) →
  reads_as fp ws → reads_as ((t ++ e) ++ fp) (t :: ws).
Proof.
  intros Ht He _ E HR. pose proof (reads_line _ _ _ _ E HR) as H. by rewrite (proj1 (word_of_piece t e Ht He)) in H.
Qed.

Lemma clean_no_newline t : clean t → Forall (fun c => c ≠ 10) t.
Proof. intros Ht. eapply Forall_impl; [exact Ht|]. by intros c (_ & ? & _). Qed.

(** A line that fits is taken whole. *)
Lemma fgets_line t crlf fp : clean t → (length (t ++ line_end crlf) ≤ 78)%nat →
  fgets (80 - 1) ((t ++ line_end crlf) ++ fp) = Some (t ++ line_end crlf, fp).
Proof.
  intros Ht%clean_no_newline Hl. rewrite length_app in Hl.
  assert (Hfg : ∀ s, s ≠ [] → fgets (80 - 1) s = Some (fgets_upto 78 s)) by (by intros []).
  rewrite Hfg by by destruct t, crlf. f_equal. destruct crlf; cbn [line_end length] in *.
  - change [13; 10] with ([13] ++ [10]). rewrite app_assoc, <- (app_assoc _ [10] fp). change ([10] ++ fp) with (10 :: fp).
    apply fgets_upto_newline; [|rewrite length_app; cbn [length]; lia].
    apply Forall_app. split; [done|by repeat constructor].
  - rewrite <- app_assoc. change ([10] ++ fp) with (10 :: fp). apply fgets_upto_newline; [done|lia].
Qed.

Lemma reads_finished t crlf fp ws :
  clean t → reads_as fp ws → reads_as ((t ++ line_end crlf) ++ fp) (line_words (t ++ line_end crlf) ++ ws).
Proof.
  intros Ht HR. remember (length t) as n eqn:Hn. revert t Hn Ht. induction n as [n IH] using lt_wf_ind. intros t -> Ht.
  assert (H10 : Forall (fun x => x ≠ 10) t) by (eapply Forall_impl; [exact Ht|]; by intros c (_ & ? & _)).
  assert (Hne : t ++ line_end crlf ≠ []) by (destruct t, crlf; done).
  rewrite line_words_step by done.
  assert (Hfg : ∀ s, s ≠ [] → fgets (80 - 1) s = Some (fgets_upto 78 s)) by (by intros []).
  destruct (decide (78 ≤ length t)%nat) as [Hlong|Hshort].
  - rewrite take_app_le, drop_app_le by lia.
    rewrite <- (take_drop 78 t) at 1. rewrite <- !app_assoc, (app_assoc (drop 78 t)).
    assert (Hc1 : clean (take 78 t)) by by apply Forall_take.
    rewrite filter_clean by done. cbn [app].
    replace (take 78 t) with (take 78 t ++ []) at 1 by apply app_nil_r.
    apply reads_piece; [done|by left|rewrite app_nil_r; by destruct t; [cbn in Hlong; lia|]| |].
    + rewrite app_nil_r, Hfg by (destruct t; [cbn in Hlong; lia|done]).
      assert (H78 : 78%nat = length (take 78 t)) by (rewrite length_take; lia). rewrite H78 at 1.
      by rewrite fgets_upto_full by by apply Forall_take.
    + apply (IH (length (drop 78 t))); [rewrite length_drop; lia|done|by apply Forall_drop].
  - assert (Hpe : piece_end (line_end crlf)) by (destruct crlf; unfold piece_end; auto).
    destruct (decide (length (t ++ line_end crlf) ≤ 78)%nat) as [Hl|Hl].
    + rewrite take_ge, drop_ge by lia. rewrite (proj2 (word_of_piece t _ Ht Hpe)).
      by apply reads_piece; [| | |apply fgets_line|].
    + rewrite length_app in Hl. assert (Hcr : crlf = true ∧ length t = 77%nat) by (destruct crlf; cbn in Hl; lia).
      destruct Hcr as [-> H77]. cbn [line_end].
      assert (Et : t ++ [13; 10] = (t ++ [13]) ++ [10]) by by rewrite <- app_assoc.
      rewrite Et, take_app_le, drop_app_le, take_ge, drop_ge by (rewrite length_app; cbn; lia). cbn [app].
      assert (Hp13 : piece_end [13]) by (unfold piece_end; auto). assert (Hp10 : piece_end [10]) by (unfold piece_end; auto).
      rewrite (proj2 (word_of_piece t [13] Ht Hp13)), <- app_assoc.
      apply reads_piece; [done|done|by destruct t| |].
      * rewrite Hfg by by destruct t. f_equal.
        assert (H78 : 78%nat = length (t ++ [13])) by (rewrite length_app; cbn; lia). rewrite H78.
        apply fgets_upto_full, Forall_app. split; [done|by repeat constructor].
      * change [10] with ([] ++ [10]). apply (reads_piece [] [10]); [constructor|done|done|done|done].
Qed.

Lemma reads_rest t : clean t → reads_as t (line_words t).
Proof.
  intros Ht. remember (length t) as n eqn:Hn. revert t Hn Ht. induction n as [n IH] using lt_wf_ind. intros t -> Ht.
  assert (H10 : Forall (fun x => x ≠ 10) t) by (eapply Forall_impl; [exact Ht|]; by intros c (_ & ? & _)).
  destruct (decide (t = [])) as [->|Hne]; [constructor|]. rewrite line_words_step by done.
  assert (Hfg : ∀ s, s ≠ [] → fgets (80 - 1) s = Some (fgets_upto 78 s)) by (by intros []).
  rewrite filter_clean by by apply Forall_take.
  rewrite <- (take_drop 78 t) at 1. replace (take 78 t) with (take 78 t ++ []) at 1 by apply app_nil_r.
  apply reads_piece; [by apply Forall_take|by left|by destruct t| |].
  - rewrite app_nil_r, take_drop, Hfg by done. f_equal. destruct (decide (78 ≤ length t)%nat) as [Hlong|Hshort].
    + rewrite <- (take_drop 78 t) at 1.
      assert (H78 : 78%nat = length (take 78 t)) by (rewrite length_take; lia). rewrite H78 at 1.
      by apply fgets_upto_full, Forall_take.
    + rewrite take_ge, drop_ge by lia. apply fgets_upto_all; [done|lia].
  - apply (IH (length (drop 78 t))); [|done|by apply Forall_drop]. rewrite length_drop. destruct t; [done|cbn [length]; lia].
Qed.

Lemma typed_reads lines rest :
  Forall (fun l => clean l.1) lines → clean rest → reads_as (typed lines rest) (words lines rest).
Proof.
  intros Hl Hr. unfold typed, words. induction Hl as [|[t crlf] lines Ht Hl IH]; cbn [map concat].
  - by apply reads_rest.
  - rewrite <- !app_assoc, (app_assoc t). by apply reads_finished.
Qed.

(** What is printed in a dialogue has no ring indices. *)
Lemma dialogue_erased c l rc rs rc' out : dialogue c l rc rs = Some (rc', out) → map erase_event out = out.
Proof.
  revert l rc rc' out. induction rs as [|r rs IH]; intros l rc rc' out; cbn [dialogue]; [by intros [= <- <-]|].
  destruct (reply c l rc r) as [[[l' rc1] e]|] eqn:Er; [|done].
  destruct (dialogue c l' rc1 rs) as [[rc2 out']|] eqn:Ed; [|done]. intros [= <- <-]. cbn [map].
  rewrite (IH _ _ _ _ Ed). f_equal. destruct r; cbn [reply] in Er; try destruct l; try case_bool_decide; by simplify_eq.
Qed.

(** C33: the interactive driver of testq.c shows its user a bounded FIFO.  Whatever
    lines are typed (without NULs, and with carriage returns only at the end of a
    line), with or without an unfinished one, the driver prints, line by line, the
    replies of [dialogue]: "get" in any mixture of cases takes the oldest
    value or reports ENOENT, "dump" and "list" show all values in order (and the
    ring's indices, which are not compared), a number is queued or refused with
    ENOMEM when the queue is full, and anything else is called invalid; it
    ends with the input, and its status is 0 or that of the last number.  A line
    longer than 77 characters counts as several.  The only way it can go wrong is
    a number that [long] cannot represent. *)
Theorem testq_shows_fifo p argv lines rest w a1 c :
  0 < p → argv !! 1%nat = Some a1 → atoi a1 = Ok c → MIN_CAP ≤ c ≤ MAX_CAP →
  Forall (fun l => clean l.1) lines → clean rest →
  let run := testq_main (Some p) true argv (typed lines rest) w in
  match dialogue c [] 0 (map request_of (words lines rest)) with
  | Some (rc, out) => ∃ out', run = Ok (rc, out') ∧ map erase_event out' = EReady c 0 :: out ++ [EExit rc]
  | None => run = Ub
  end.
Proof.
  intros Hp Ha Hc Hr Hlines Hrest run. subst run. unfold MIN_CAP in Hr. unfold testq_main.
  pose proof (lookup_lt_Some _ _ _ Ha). rewrite (proj2 (Z.ltb_ge _ _)) by lia.
  change (aget argv 1) with (match argv !! 1%nat with Some x => Ok x | None => Ub end).
  rewrite Ha, bind_Ok, Hc, bind_Ok. unfold MIN_CAP. rewrite (proj2 (Z.ltb_ge c 2)), (proj2 (Z.ltb_ge MAX_CAP c)) by lia.
  cbn [orb]. unfold MAX_CAP in Hr.
  destruct (create_sim p c w) as (w0 & -> & Hs & _); [lia|]. rewrite (proj2 (Z.eqb_neq _ _)) by lia.
  unfold interact. cbn [q_count heap_ops]. rewrite (count_sim _ _ _ Hs), !bind_Ok. cbn [items length].
  set (stdin := typed lines rest).
  pose proof (session_agree p (S (length stdin)) c stdin 0 w0 _ ltac:(lia) Hs) as H1.
  pose proof (session_dialogue stdin _ c (typed_reads lines rest Hlines Hrest) ltac:(unfold MAX_CAP; lia)
    (S (length stdin)) 0 [] (qerrno w) ltac:(lia) ltac:(cbn; lia)) as H2.
  destruct (dialogue _ _ _ _) as [[rc out]|] eqn:Ed.
  - destruct H2 as [s2 H2]. rewrite H2 in H1.
    destruct (session (HQ := heap_ops p) _ _ _ _ _) as [[[rc1 w1] o1]| | |]; try done.
    destruct H1 as (-> & [(pq & Hq & _) _] & Ho). rewrite !bind_Ok.
    unfold pqueue_free, pq_at. rewrite (proj2 (Z.eqb_neq p 0)), Hq, !bind_Ok by lia.
    eexists. split; [done|]. cbn [app map erase_event]. rewrite swrap_small by (cbn; lia).
    rewrite map_app, Ho, (dialogue_erased _ _ _ _ _ _ Ed). done.
  - rewrite H2 in H1. by destruct (session (HQ := heap_ops p) _ _ _ _ _) as [[[rc1 w1] o1]| | |].
Qed.

(** Five lines, one of them too long. *)
Lemma testq_shows_fifo_witness :
  let lines := [(zs "7", false); (zs "-1", true); (zs "8", false); (zs "LiSt", false); (zs "GET", true)] in
  let rest := replicate 80 (Z.of_nat 120) in
  dialogue 2 [] 0 (map request_of (words lines rest)) =
    Some (-1, [EPut 2 1 7; EPut 2 2 (-1); EPerror "pqueue_put" ENOMEM; EDump 2 2 0 0 [7; -1]; EGot 2 1 7; EInvalid; EInvalid]) ∧
  ∃ out', testq_main (Some 64) true [zs "testq"; zs "2"] (typed lines rest) (MkW ∅ 0) = Ok (-1, out') ∧
    map erase_event out' = EReady 2 0 ::
      [EPut 2 1 7; EPut 2 2 (-1); EPerror "pqueue_put" ENOMEM; EDump 2 2 0 0 [7; -1]; EGot 2 1 7; EInvalid; EInvalid] ++ [EExit (-1)].
Proof.
  intros lines rest. split; [vm_compute; reflexivity|].
  refine (testq_shows_fifo 64 [zs "testq"; zs "2"] lines rest (MkW ∅ 0) (zs "2") 2 _ _ _ _ _ _).
  - lia.
  - reflexivity.
  - reflexivity.
  - unfold MIN_CAP, MAX_CAP. lia.
  - repeat constructor; vm_compute; discriminate.
  - apply Forall_replicate. vm_compute. split_and!; discriminate.
Defined.
