(* ===== verification/Xvdat.v ===== *)
(** * fdwatch/xvdat.c: extensible vectors and index lists

    [struct xvlst] begins with the members of [struct xvec], which the code
    exploits with a cast; here it has a [base] of that type.  Memory blocks are
    lists of bytes.  Whether each [realloc] succeeds is an argument. *)

From stdpp Require Import strings gmap.
From S2P Require Import Prelude Libc.
Local Open Scope Z_scope.

Definition EALREADY : Z := 114.

(** ** The code *)

Record xvec := MkVec { vdata : option (list Z); vlen : Z; vmax : Z }.

Record xvlst := MkLst {
  base : xvec;
  ltaken : option (list Z);
  llast : Z;
  lavail : Z
}.

(** [realloc]: the old bytes as far as they fit, then indeterminate ones. *)
Definition realloc_block (junk : Z) (p : option (list Z)) (size : Z) : list Z :=
  let old := default [] p in
  take (Z.to_nat size) old ++ replicate (Z.to_nat (size - zlen old)) junk.

(** [memset (&t[off], c, n)] *)
Definition memset (t : list Z) (off c n : Z) : res (list Z) :=
  if (0 <=? off) && (off + n <=? zlen t) then
    Ok (take (Z.to_nat off) t ++ replicate (Z.to_nat n) c ++ drop (Z.to_nat (off + n)) t)
  else Ub.

(** [memchr (&t[off], c, n)], as an index into [t]. *)
Fixpoint memchr (t : list Z) (off c : Z) (n : nat) : res (option Z) :=
  match n with
  | O => Ok None
  | S n' =>
      x ← aget t off;
      if x =? c then Ok (Some off) else memchr t (off + 1) c n'
  end.

Definition deref (p : option (list Z)) : res (list Z) :=
  match p with Some t => Ok t | None => Ub end.

Section code.
(** The value of an indeterminate byte. *)
Variable junk : Z.

Definition xvec_reserve (ok : bool) (v : xvec) (new_max blksz growblk : Z) : res (Z * xvec) :=
  _ ← c_assert (0 <? growblk);
  if new_max <? vmax v then Ok (0, v)
  else
    let nblk := u64 (u64 (1 + u64 (new_max - 1) / growblk) * growblk) in
    if ok then Ok (0, MkVec (Some (realloc_block junk (vdata v) (u64 (nblk * blksz)))) (vlen v) nblk)
    else Ok (-1, v).

Definition xvec_expand (ok : bool) (v : xvec) (plus blksz growblk : Z) : res (Z * xvec) :=
  _ ← c_assert (negb (plus =? 0) && negb (blksz =? 0) && (0 <? growblk));
  xvec_reserve ok v (u64 (vlen v + plus)) blksz growblk.

Definition xvlst_reserve (ok1 ok2 : bool) (l : xvlst) (new_max blksz growblk : Z) : res (Z * xvlst) :=
  if new_max <=? vmax (base l) then Ok (0, l)
  else
    let old_max := vmax (base l) in
    '(rc, v) ← xvec_reserve ok1 (base l) new_max blksz growblk;
    let l := MkLst v (ltaken l) (llast l) (lavail l) in
    if negb (0 =? rc) then Ok (rc, l)
    else if vmax v <=? old_max then Ok (rc, l)
    else if negb ok2 then Ok (-1, MkLst v None (llast l) (lavail l))
    else
      t ← memset (realloc_block junk (ltaken l) (vmax v)) old_max 0 (vmax v - old_max);
      Ok (0, MkLst v (Some t) (llast l) (if lavail l <? 0 then s64 old_max else lavail l)).

Definition xvlst_expand (ok1 ok2 : bool) (l : xvlst) (plus blksz growblk : Z) : res (Z * xvlst) :=
  _ ← c_assert (negb (plus =? 0) && negb (blksz =? 0) && negb (growblk =? 0));
  xvlst_reserve ok1 ok2 l (u64 (vlen (base l) + plus)) blksz growblk.

(** The new [avail] after index [i] was taken in [t]. *)
Definition next_avail (t : list Z) (max i last : Z) : res Z :=
  if i =? s64 last then
    if s64 max <=? s64 (i + 1) then Ok (-1)
    else
      x ← aget t (s64 (i + 1));
      _ ← c_assert (0 =? x);
      Ok (s64 (i + 1))
  else
    x ← aget t (i + 1);
    if 0 =? x then Ok (s64 (i + 1))
    else
      found ← memchr t (i + 1) 0 (Z.to_nat (u64 (max - u64 i - 1)));
      Ok (default (-1) found).

Definition xvlst_add (ok1 ok2 : bool) (l : xvlst) (blksz growblk : Z) : res (Z * xvlst) :=
  _ ← c_assert (lavail l <? s64 (vmax (base l)));
  '(rc, l) ← xvlst_expand ok1 ok2 l 1 blksz growblk;
  if negb (0 =? rc) then Ok (- ENOMEM, l)
  else if lavail l <? 0 then Ok (-1, l)
  else
    let i := lavail l in
    t ← deref (ltaken l);
    t ← aset t i 1;
    let last := if s64 (llast l) <? i then u64 i else llast l in
    avail ← next_avail t (vmax (base l)) i last;
    Ok (i, MkLst (MkVec (vdata (base l)) (u64 (vlen (base l) + 1)) (vmax (base l))) (Some t) last avail).

Definition xvlst_del (l : xvlst) (index : Z) : res (Z * xvlst) :=
  if llast l <? index then Ok (ERANGE, l)
  else
    t ← deref (ltaken l);
    x ← aget t index;
    if 0 =? x then Ok (EALREADY, l)
    else
      t ← aset t index 0;
      let avail :=
        if (lavail l <? 0) || (s64 index <? lavail l) then s64 index else lavail l in
      _ ← c_assert (negb (vlen (base l) =? 0));
      Ok (0, MkLst (MkVec (vdata (base l)) (u64 (vlen (base l) - 1)) (vmax (base l))) (Some t)
               (llast l) avail).
End code.

(** A list as [memset (&l, 0, sizeof (l))] leaves it. *)
Definition xvlst_zero : xvlst := MkLst (MkVec None 0 0) None 0 0.

Example add_three :
  (let r := '(_, l) ← xvlst_reserve 7 true true xvlst_zero 1 8 2;
            '(i, l) ← xvlst_add 7 true true l 8 2;
            '(j, l) ← xvlst_add 7 true true l 8 2;
            '(k, l) ← xvlst_add 7 true true l 8 2;
            '(e, l) ← xvlst_del l 0;
            '(m, l) ← xvlst_add 7 true true l 8 2; Ok (i, j, k, e, m, lavail l, ltaken l) in r) =
  Ok (0, 1, 2, 0, 0, 3, Some [1; 1; 1; 0]).
Proof. vm_compute. reflexivity. Qed.

(** ** Counting the taken slots *)

Definition ntaken (t : list Z) : Z := zlen (filter (fun x => x ≠ 0) t).

Lemma ntaken_app t t' : ntaken (t ++ t') = ntaken t + ntaken t'.
Proof. unfold ntaken. rewrite filter_app, length_app. lia. Qed.

Lemma ntaken_zeros n : ntaken (replicate n 0) = 0.
Proof.
  unfold ntaken. induction n as [|n IH]; [done|]. cbn [replicate].
  rewrite filter_cons_False; [done|]. by intros H.
Qed.

Lemma ntaken_cons x t : ntaken (x :: t) = (if decide (x = 0) then 0 else 1) + ntaken t.
Proof.
  unfold ntaken. rewrite filter_cons. repeat case_decide; try done; cbn [length]; lia.
Qed.

Lemma ntaken_bounds t : 0 ≤ ntaken t ≤ zlen t.
Proof. unfold ntaken. pose proof (length_filter (fun x => x ≠ 0) t). lia. Qed.

Lemma ntaken_insert t i x : 0 ≤ i < zlen t →
  ntaken (<[Z.to_nat i := x]> t) =
  ntaken t - (if decide (t.[i] = 0) then 0 else 1) + (if decide (x = 0) then 0 else 1).
Proof.
  intros Hi. rewrite insert_take_drop by lia.
  rewrite <- (take_drop_middle t (Z.to_nat i) t.[i]) at 3
    by (apply list_lookup_lookup_total_lt; lia).
  rewrite !ntaken_app, !ntaken_cons. lia.
Qed.

Lemma ntaken_full t : (∀ i, 0 ≤ i < zlen t → t.[i] ≠ 0) ↔ ntaken t = zlen t.
Proof.
  split.
  - intros H. assert (HF : Forall (fun x => x ≠ 0) t).
    { apply Forall_lookup. intros j x Hx. specialize (H (Z.of_nat j)).
      pose proof (lookup_lt_Some _ _ _ Hx).
      rewrite Nat2Z.id, (list_lookup_total_correct _ _ _ Hx) in H. apply H. lia. }
    clear H. induction HF as [|x t Hx HF IH]; [done|]. rewrite ntaken_cons, decide_False by done.
    cbn [length]. lia.
  - intros H i Hi E. pose proof (ntaken_insert t i 1 Hi) as Hn.
    pose proof (ntaken_bounds (<[Z.to_nat i:=1]> t)) as Hb. rewrite length_insert in Hb.
    rewrite E in Hn. simpl in Hn. lia.
Qed.

(** ** The invariant *)

(** [l] has the slots [t], of which the free ones hold 0. *)
Record inv (blksz : Z) (l : xvlst) (t : list Z) : Prop := {
  inv_taken : ltaken l = Some t ∨ (ltaken l = None ∧ t = []);
  inv_max : zlen t = vmax (base l) ∧ vmax (base l) < 2 ^ 63;
  inv_data : zlen (default [] (vdata (base l))) = vmax (base l) * blksz;
  inv_len : vlen (base l) = ntaken t;
  inv_last : 0 ≤ llast l ∧ (llast l < zlen t ∨ llast l = 0 ∧ t = []);
  inv_above : ∀ i, llast l < i < zlen t → t.[i] = 0;
  inv_avail : (lavail l < 0 ∧ t ≠ [] ∧ ∀ i, 0 ≤ i < zlen t → t.[i] ≠ 0) ∨
    (0 ≤ lavail l < zlen t ∧ t.[lavail l] = 0 ∧ ∀ i, 0 ≤ i < lavail l → t.[i] ≠ 0) ∨
    (t = [] ∧ lavail l = 0)
}.

Lemma inv_zero blksz : inv blksz xvlst_zero [].
Proof. split; simpl; try lia; auto. all: split; [lia|auto]. Qed.

Lemma round_up g n : 0 < g → 0 < n → n ≤ (1 + (n - 1) / g) * g < n + g.
Proof.
  intros Hg Hn. pose proof (Z.div_mod (n - 1) g ltac:(lia)) as E.
  pose proof (Z.mod_pos_bound (n - 1) g Hg). rewrite Z.mul_add_distr_r, Z.mul_1_l.
  rewrite (Z.mul_comm _ g). lia.
Qed.

Lemma length_realloc junk p size : 0 ≤ size → zlen (realloc_block junk p size) = size.
Proof. intros. unfold realloc_block. rewrite length_app, length_take, length_replicate. lia. Qed.

Lemma realloc_grow junk p size : zlen (default [] p) ≤ size →
  realloc_block junk p size = default [] p ++ replicate (Z.to_nat (size - zlen (default [] p))) junk.
Proof. intros. unfold realloc_block. by rewrite firstn_all2 by lia. Qed.

Section growth.
Context (junk blksz growblk : Z).
Context (Hblk : 0 < blksz) (Hgrow : 0 < growblk).

Lemma xvec_reserve_ok v n :
  0 < n → vmax v ≤ n → (n + growblk) * blksz < 2 ^ 63 →
  ∃ m, xvec_reserve junk true v n blksz growblk =
      Ok (0, MkVec (Some (realloc_block junk (vdata v) (m * blksz))) (vlen v) m) ∧
    n ≤ m < n + growblk.
Proof.
  intros Hn Hm Hsz. pose proof (round_up growblk n Hgrow Hn) as Hr.
  assert (Hd : 0 ≤ (n - 1) / growblk ≤ n) by (pose proof (Z.div_pos (n - 1) growblk);
    pose proof (Z.div_le_upper_bound (n - 1) growblk n); nia).
  assert (n + growblk < 2 ^ 63) by nia.
  exists ((1 + (n - 1) / growblk) * growblk). split; [|lia].
  unfold xvec_reserve. rewrite (proj2 (Z.ltb_lt 0 growblk)) by lia. cbn [c_assert]. rewrite bind_Ok.
  rewrite (proj2 (Z.ltb_ge n (vmax v))), (wrap_small 64 (n - 1)) by lia.
  revert Hr Hd. generalize ((n - 1) / growblk). intros q Hr Hd.
  rewrite (wrap_small 64 (1 + _)), (wrap_small 64 (_ * growblk)) by lia.
  rewrite wrap_small by nia. done.
Qed.

(** Growing: the slots are kept, the new ones are free. *)
Lemma xvlst_reserve_grow l t n :
  inv blksz l t → zlen t < n → (n + growblk) * blksz < 2 ^ 63 →
  ∃ l' k, xvlst_reserve junk true true l n blksz growblk = Ok (0, l') ∧
    inv blksz l' (t ++ replicate k 0) ∧ ltaken l' = Some (t ++ replicate k 0) ∧
    n ≤ zlen (t ++ replicate k 0) < n + growblk ∧
    llast l' = llast l ∧ default [] (vdata (base l)) `prefix_of` default [] (vdata (base l')).
Proof.
  intros [Ht [Hmax Hb] Hd Hlen Hlast Hab Hav] Hn Hsz.
  assert (Hdef : default [] (ltaken l) = t) by (destruct Ht as [-> |[-> ->]]; done).
  destruct (xvec_reserve_ok (base l) n) as (m & E & Hm); [lia|lia|done|].
  assert (n + growblk < 2 ^ 63) by nia.
  unfold xvlst_reserve. rewrite (proj2 (Z.leb_gt n _)), E, bind_Ok by lia. cbn [negb Z.eqb vmax ltaken llast lavail].
  rewrite (proj2 (Z.leb_gt m _)) by lia.
  unfold memset. rewrite length_realloc by lia.
  rewrite (proj2 (Z.leb_le 0 (vmax (base l)))), (proj2 (Z.leb_le (_ + _) m)) by lia. cbn [andb].
  rewrite bind_Ok. rewrite (realloc_grow junk (ltaken l) m) by (rewrite Hdef; lia). rewrite Hdef, <- Hmax.
  rewrite Nat2Z.id, take_app_length, drop_ge, app_nil_r by (rewrite length_app, length_replicate; lia).
  eexists _, (Z.to_nat (m - zlen t)). split; [done|].
  assert (Hz : zlen (t ++ replicate (Z.to_nat (m - zlen t)) 0) = m)
    by (rewrite length_app, length_replicate; lia).
  assert (Hnew : ∀ i, zlen t ≤ i < m → (t ++ replicate (Z.to_nat (m - zlen t)) 0).[i] = 0).
  { intros i Hi. rewrite lookup_total_app_r by lia. apply lookup_total_replicate_2. lia. }
  assert (Hold : ∀ i, 0 ≤ i < zlen t → (t ++ replicate (Z.to_nat (m - zlen t)) 0).[i] = t.[i])
    by (intros i Hi; apply lookup_total_app_l; lia).
  split_and!; cbn [ltaken llast base vdata from_option]; [|done|lia|lia|done|].
  - split; cbn [base vmax vdata vlen ltaken llast lavail from_option].
    + by left.
    + rewrite Hz. lia.
    + unfold id. rewrite length_realloc; nia.
    + rewrite ntaken_app, ntaken_zeros. lia.
    + rewrite Hz. lia.
    + intros i Hi. rewrite Hz in Hi. destruct (Z.lt_ge_cases i (zlen t)); [|apply Hnew; lia].
      rewrite Hold by lia. apply Hab. lia.
    + right. left. rewrite Hz. destruct Hav as [(Ha & Hne & Hf)|[(Ha & H0 & Hf)|[-> Ha]]].
      * rewrite (proj2 (Z.ltb_lt (lavail l) 0)), swrap_small by (simpl; lia).
        split_and!; [lia|lia|apply Hnew; lia|]. intros i Hi. rewrite Hold by lia. apply Hf. lia.
      * rewrite (proj2 (Z.ltb_ge (lavail l) 0)) by lia.
        split_and!; [lia|lia|by rewrite Hold by lia|]. intros i Hi. rewrite Hold by lia. apply Hf. lia.
      * rewrite Ha in *. cbn. split_and!; [lia|cbn in *; lia| |intros; lia].
        apply (Hnew 0). cbn in *. lia.
  - rewrite realloc_grow by nia. by apply prefix_app_r.
Qed.
End growth.

(** ** Adding and deleting *)

Lemma memchr_ok t off c n : 0 ≤ off → off + Z.of_nat n ≤ zlen t →
  ∃ r, memchr t off c n = Ok r ∧
    match r with
    | Some j => off ≤ j < off + Z.of_nat n ∧ t.[j] = c ∧ ∀ k, off ≤ k < j → t.[k] ≠ c
    | None => ∀ k, off ≤ k < off + Z.of_nat n → t.[k] ≠ c
    end.
Proof.
  revert off. induction n as [|n IH]; intros off Ho Hn; cbn [memchr].
  - exists None. split; [done|]. intros k Hk. lia.
  - rewrite aget_Ok, bind_Ok by lia. destruct (Z.eqb_spec t.[off] c) as [E|E].
    + exists (Some off). split; [done|]. split_and!; [lia|lia|done|]. intros k Hk. lia.
    + destruct (IH (off + 1)) as (r & Er & H); [lia|lia|]. exists r. split; [done|].
      destruct r as [j|].
      * destruct H as (Hj & Hc & Hk). split_and!; [lia|lia|done|]. intros k Hk'.
        destruct (Z.eq_dec k off) as [->|]; [done|]. apply Hk. lia.
      * intros k Hk. destruct (Z.eq_dec k off) as [->|]; [done|]. apply H. lia.
Qed.

(** The index of the least free slot, negative if there is none. *)
Definition least_free (t : list Z) (a : Z) : Prop :=
  (a < 0 ∧ ∀ i, 0 ≤ i < zlen t → t.[i] ≠ 0) ∨
  (0 ≤ a < zlen t ∧ t.[a] = 0 ∧ ∀ i, 0 ≤ i < a → t.[i] ≠ 0).

Lemma next_avail_ok t i last :
  zlen t < 2 ^ 63 → 0 ≤ i ≤ last → last < zlen t →
  (∀ j, 0 ≤ j ≤ i → t.[j] ≠ 0) → (∀ j, last < j < zlen t → t.[j] = 0) →
  ∃ a, next_avail t (zlen t) i last = Ok a ∧ least_free t a.
Proof.
  intros Hm Hi Hl Htk Hab. unfold next_avail. rewrite !s64_small by lia.
  destruct (Z.eqb_spec i last) as [->|Hne].
  - destruct (Z.leb_spec (zlen t) (last + 1)).
    + exists (-1). split; [done|]. left. split; [lia|]. intros j Hj. apply Htk. lia.
    + rewrite aget_Ok, bind_Ok, Hab by lia. cbn. exists (last + 1). split; [done|].
      right. split_and!; [lia|lia|apply Hab; lia|]. intros j Hj. apply Htk. lia.
  - rewrite aget_Ok, bind_Ok by lia. destruct (Z.eqb_spec 0 t.[i + 1]) as [E|E].
    + exists (i + 1). split; [done|]. right. split_and!; [lia|lia|done|]. intros j Hj. apply Htk. lia.
    + rewrite (wrap_small 64 i), wrap_small by lia.
      destruct (memchr_ok t (i + 1) 0 (Z.to_nat (zlen t - i - 1))) as (r & -> & Hr); [lia|lia|].
      rewrite bind_Ok. eexists. split; [done|]. rewrite Z2Nat.id in Hr by lia.
      destruct r as [j|]; cbn.
      * destruct Hr as (Hj & H0 & Hk). right. split_and!; [lia|lia|done|]. intros k Hk'.
        destruct (Z.le_gt_cases k i); [apply Htk; lia|apply Hk; lia].
      * left. split; [lia|]. intros k Hk.
        destruct (Z.le_gt_cases k i); [apply Htk; lia|apply Hr; lia].
Qed.

Section adding.
Context (junk blksz growblk : Z).
Context (Hblk : 0 < blksz) (Hgrow : 0 < growblk).

(** After [xvlst_expand (l, 1, ...)] there is a free slot. *)
Lemma expand_one l t :
  inv blksz l t → (zlen t + 1 + growblk) * blksz < 2 ^ 63 → t ≠ [] ∨ ltaken l = None →
  ∃ l' k, xvlst_expand junk true true l 1 blksz growblk = Ok (0, l') ∧
    inv blksz l' (t ++ replicate k 0) ∧ ltaken l' = Some (t ++ replicate k 0) ∧
    0 ≤ lavail l' ∧ zlen (t ++ replicate k 0) ≤ zlen t + growblk ∧ (t ++ replicate k 0) ≠ [] ∧
    llast l' = llast l ∧ default [] (vdata (base l)) `prefix_of` default [] (vdata (base l')).
Proof.
  intros H Hsz Hne. pose proof (ntaken_bounds t) as Hb. pose proof (inv_len _ _ _ H) as Hlen.
  destruct (inv_max _ _ _ H) as [Hmax Hm].
  assert (zlen t + 1 + growblk < 2 ^ 63) by nia.
  unfold xvlst_expand. rewrite (proj2 (Z.eqb_neq blksz 0)), (proj2 (Z.eqb_neq growblk 0)) by lia.
  cbn [negb andb c_assert Z.eqb]. rewrite bind_Ok, wrap_small by lia.
  destruct (Z.lt_ge_cases (ntaken t) (zlen t)) as [Hlt|Hge].
  - unfold xvlst_reserve. rewrite (proj2 (Z.leb_le _ _)) by lia.
    exists l, 0%nat. cbn [replicate]. rewrite app_nil_r.
    assert (Ht : t ≠ []) by (intros ->; cbn in *; lia).
    split_and!; try done; try lia.
    + by destruct (inv_taken _ _ _ H) as [|[_ ->]].
    + destruct (inv_avail _ _ _ H) as [(_ & _ & Hf)|[|[]]]; [|lia|done].
      apply ntaken_full in Hf. lia.
  - destruct (xvlst_reserve_grow junk blksz growblk Hblk Hgrow l t (vlen (base l) + 1))
      as (l' & k & E & H' & Ht & Hn & Hla & Hp); [done|lia|nia|].
    exists l', k. rewrite E. split_and!; try done; try lia.
    + destruct (inv_avail _ _ _ H') as [(_ & _ & Hf)|[|[E' ->]]]; [|lia|lia].
      apply ntaken_full in Hf. rewrite ntaken_app, ntaken_zeros, length_app in Hf.
      rewrite length_app in Hn. lia.
    + intros E'. rewrite E' in Hn. cbn in Hn. lia.
Qed.

Lemma xvlst_add_ok l t :
  inv blksz l t → t ≠ [] → (zlen t + 1 + growblk) * blksz < 2 ^ 63 →
  ∃ l' i k, let t1 := t ++ replicate k 0 in
    xvlst_add junk true true l blksz growblk = Ok (i, l') ∧
    inv blksz l' (<[Z.to_nat i := 1]> t1) ∧ least_free t1 i ∧ 0 ≤ i ∧
    zlen t1 ≤ zlen t + growblk ∧ llast l' = Z.max (llast l) i ∧
    default [] (vdata (base l)) `prefix_of` default [] (vdata (base l')).
Proof.
  intros H Hne Hsz.
  destruct (expand_one l t H Hsz (or_introl Hne)) as (l1 & k & E & H1 & Ht1 & Ha & Hg & Hne1 & Hll & Hp).
  set (t1 := t ++ replicate k 0) in *.
  destruct (inv_max _ _ _ H) as [Hmax Hm], (inv_max _ _ _ H1) as [Hmax1 Hm1].
  destruct (inv_last _ _ _ H1) as [Hl0 [Hl|[_ ?]]]; [|done].
  assert (Hfree : least_free t1 (lavail l1)).
  { destruct (inv_avail _ _ _ H1) as [(? & _)|[Hf|[? _]]]; [lia|by right|done]. }
  destruct Hfree as [[? _]|(Hi & H0 & Hlow)]; [lia|]. set (i := lavail l1) in *.
  set (last := if s64 (llast l1) <? i then u64 i else llast l1).
  assert (Hlast : last = Z.max (llast l1) i).
  { subst last. rewrite s64_small, wrap_small by lia. destruct (Z.ltb_spec (llast l1) i); lia. }
  set (t2 := <[Z.to_nat i := 1]> t1).
  assert (Hz : zlen t2 = zlen t1) by (subst t2; by rewrite length_insert).
  assert (Hrd : ∀ j, 0 ≤ j → t2.[j] = if decide (i = j) then 1 else t1.[j])
    by (intros j Hj; by apply rd_insert).
  assert (Hab : ∀ j, last < j < zlen t2 → t2.[j] = 0).
  { intros j Hj. rewrite Hrd, decide_False by lia. apply (inv_above _ _ _ H1). lia. }
  destruct (next_avail_ok t2 i last) as (a & Ea & Hfree); [lia|lia|lia| |done|].
  { intros j Hj. rewrite Hrd by lia. case_decide; [done|]. apply Hlow. lia. }
  pose proof (ntaken_bounds t1). pose proof (inv_len _ _ _ H1) as Hlen.
  eexists _, i, k. cbv zeta. fold t1. fold t2. split.
  { unfold xvlst_add. rewrite (proj2 (Z.ltb_lt _ _)).
    2: { rewrite s64_small by lia. destruct (inv_avail _ _ _ H) as [(? & _)|[[? _]|[? _]]]; [|lia|done].
         pose proof (Nat2Z.is_nonneg (length t)). lia. }
    cbn [c_assert]. rewrite bind_Ok, E, bind_Ok. cbn [Z.eqb negb]. fold i.
    rewrite (proj2 (Z.ltb_ge i 0)), Ht1 by lia. cbn [deref]. rewrite bind_Ok, aset_Ok, bind_Ok by lia.
    fold t2 last. rewrite <- Hmax1, <- Hz, Ea, bind_Ok, Hz. done. }
  split_and!; [|right; split_and!; (done || lia)|lia|lia|cbn [llast]; lia|done].
  split; cbn [base vmax vdata vlen ltaken llast lavail].
  - by left.
  - lia.
  - rewrite Hmax1. apply (inv_data _ _ _ H1).
  - rewrite wrap_small by lia. subst t2. rewrite ntaken_insert, H0, decide_True, decide_False by done. lia.
  - lia.
  - done.
  - destruct Hfree as [[Han Hf]|Hf]; [left|right; by left]. split_and!; [done| |done].
    intros E2. apply (f_equal length) in E2. subst t2. rewrite length_insert in E2. by destruct t1.
Qed.
End adding.

Lemma xvlst_del_ok blksz l t index :
  inv blksz l t → t ≠ [] → 0 ≤ index →
  ∃ l', xvlst_del l index =
      Ok (if llast l <? index then ERANGE else if t.[index] =? 0 then EALREADY else 0, l') ∧
    inv blksz l' (if llast l <? index then t else <[Z.to_nat index := 0]> t) ∧
    llast l' = llast l ∧ vdata (base l') = vdata (base l) ∧ vmax (base l') = vmax (base l).
Proof.
  intros H Hne Hi. destruct (inv_max _ _ _ H) as [Hmax Hm].
  destruct (inv_last _ _ _ H) as [Hl0 [Hl|[_ ?]]]; [|done].
  unfold xvlst_del. destruct (Z.ltb_spec (llast l) index) as [Hgt|Hle]; [by exists l|].
  destruct (inv_taken _ _ _ H) as [Ht|[_ ?]]; [|done]. rewrite Ht. cbn [deref].
  rewrite bind_Ok, aget_Ok, bind_Ok, (Z.eqb_sym 0) by lia. destruct (Z.eqb_spec t.[index] 0) as [E|E].
  { exists l. split_and!; try done. rewrite list_insert_id; [done|].
    rewrite <- E. apply list_lookup_lookup_total_lt. lia. }
  rewrite aset_Ok, bind_Ok, !s64_small by lia.
  pose proof (ntaken_insert t index 0 ltac:(lia)) as Hn.
  rewrite decide_False, decide_True in Hn by done.
  pose proof (ntaken_bounds (<[Z.to_nat index:=0]> t)) as Hb. pose proof (ntaken_bounds t).
  pose proof (inv_len _ _ _ H) as Hlen.
  rewrite (proj2 (Z.eqb_neq (vlen (base l)) 0)) by lia. cbn [c_assert negb]. rewrite bind_Ok.
  eexists. split; [done|]. split_and!; [|done|done|done].
  split; cbn [base vmax vdata vlen ltaken llast lavail]; rewrite ?length_insert.
  - by left.
  - done.
  - apply (inv_data _ _ _ H).
  - rewrite wrap_small; lia.
  - lia.
  - intros j Hj. rewrite rd_insert by lia. case_decide; [done|]. apply (inv_above _ _ _ H). lia.
  - right. left. set (a := if _ || _ then index else lavail l).
    assert (Ha : 0 ≤ a < zlen t ∧ (a = index ∨ t.[a] = 0) ∧ ∀ j, 0 ≤ j < a → j ≠ index ∧ t.[j] ≠ 0).
    { subst a. destruct (inv_avail _ _ _ H) as [(Ha & _ & Hf)|[(Ha & Hz0 & Hf)|[? _]]]; [| |done].
      - rewrite (proj2 (Z.ltb_lt _ _)) by lia. cbn [orb].
        split_and!; [lia|lia|by left|]. intros j Hj. split; [lia|]. apply Hf. lia.
      - rewrite (proj2 (Z.ltb_ge _ _)) by lia. cbn [orb]. destruct (Z.ltb_spec index (lavail l)).
        + split_and!; [lia|lia|by left|]. intros j Hj. split; [lia|]. apply Hf. lia.
        + split_and!; [lia|lia|by right|]. intros j Hj. split; [lia|]. apply Hf. lia. }
    destruct Ha as (Hr & Hfree & Hlow). split_and!; [lia|lia| |].
    + rewrite rd_insert by lia. case_decide; [done|]. by destruct Hfree.
    + intros j Hj. destruct (Hlow j Hj) as [Hne' Ht']. rewrite rd_insert by lia.
      by rewrite decide_False by congruence.
Qed.

(** ** The abstract allocator of indices *)

Inductive xop := OAdd | ODel (index : Z).

(** Taken indices and the largest one ever taken. *)
Inductive astep : gset Z * Z → xop → Z → gset Z * Z → Prop :=
  | a_add T hi i : 0 ≤ i → i ∉ T → (∀ j, 0 ≤ j < i → j ∈ T) →
      astep (T, hi) OAdd i ({[i]} ∪ T, Z.max hi i)
  | a_del T hi i : i ∈ T → astep (T, hi) (ODel i) 0 (T ∖ {[i]}, hi)
  | a_again T hi i : i ≤ hi → i ∉ T → astep (T, hi) (ODel i) EALREADY (T, hi)
  | a_range T hi i : hi < i → astep (T, hi) (ODel i) ERANGE (T, hi).

Inductive arun : gset Z * Z → list xop → list Z → gset Z * Z → Prop :=
  | arun_nil s : arun s [] [] s
  | arun_cons s o r s' os rs s'' : astep s o r s' → arun s' os rs s'' → arun s (o :: os) (r :: rs) s''.

Lemma astep_add_inv T hi r s :
  astep (T, hi) OAdd r s →
  0 ≤ r ∧ r ∉ T ∧ (∀ j, 0 ≤ j < r → j ∈ T) ∧ s = ({[r]} ∪ T, Z.max hi r).
Proof. by inversion 1. Qed.

Definition run_xop (junk blksz growblk : Z) (o : xop) (l : xvlst) : res (Z * xvlst) :=
  match o with
  | OAdd => xvlst_add junk true true l blksz growblk
  | ODel i => xvlst_del l i
  end.

Fixpoint run_xops (junk blksz growblk : Z) (os : list xop) (l : xvlst) : res (list Z * xvlst) :=
  match os with
  | [] => Ok ([], l)
  | o :: os' =>
      '(r, l) ← run_xop junk blksz growblk o l;
      '(rs, l) ← run_xops junk blksz growblk os' l;
      Ok (r :: rs, l)
  end.

(** [l] holds the indices [T]. *)
Record holds (blksz : Z) (l : xvlst) (T : gset Z) (hi : Z) : Prop := {
  holds_inv : ∃ t, inv blksz l t ∧ t ≠ [] ∧ ∀ i, i ∈ T ↔ 0 ≤ i < zlen t ∧ t.[i] ≠ 0;
  holds_hi : llast l = hi;
  holds_size : vlen (base l) = Z.of_nat (size T)
}.

(** A deletion, abstractly. *)
Lemma del_holds blksz l T hi i :
  holds blksz l T hi → 0 ≤ i →
  ∃ r l' T', xvlst_del l i = Ok (r, l') ∧ astep (T, hi) (ODel i) r (T', hi) ∧
    holds blksz l' T' hi ∧ vmax (base l') = vmax (base l) ∧ vdata (base l') = vdata (base l).
Proof.
  intros [(t & H & Hne & HT) <- Hsz] Ho. pose proof (inv_len _ _ _ H) as Hlen.
  destruct (xvlst_del_ok blksz l t i H Hne Ho) as (l' & E & H' & Hla & Hd & Hm).
  rewrite E. clear E.
  destruct (Z.ltb_spec (llast l) i) as [Hgt|Hle].
  { eexists _, l', T. split_and!; [done|by apply a_range| |done|done].
    split; [by exists t|done|]. rewrite (inv_len _ _ _ H'). lia. }
  destruct (inv_last _ _ _ H) as [Hl0 [Hl|[_ ?]]]; [|done].
  destruct (Z.eqb_spec t.[i] 0) as [E|E].
  { eexists _, l', T. split_and!; [done|apply a_again; [done|rewrite HT; tauto]| |done|done].
    rewrite list_insert_id in H' by (rewrite <- E; apply list_lookup_lookup_total_lt; lia).
    split; [by exists t|done|]. rewrite (inv_len _ _ _ H'). lia. }
  assert (HiT : i ∈ T) by (apply HT; lia).
  eexists _, l', (T ∖ {[i]}). split_and!; [done|by apply a_del| |done|done]. split; [|done|].
  - eexists. split; [done|]. rewrite length_insert. split.
    { intros E2. apply (f_equal length) in E2. rewrite length_insert in E2. cbn in E2. lia. }
    intros j. rewrite elem_of_difference, elem_of_singleton, HT. split.
    { intros [[Hj Hx] Hne']. split; [lia|]. rewrite rd_insert by lia. by rewrite decide_False by congruence. }
    { intros [Hj Hx]. rewrite rd_insert in Hx by lia. case_decide; [done|]. by split. }
  - rewrite size_difference, size_singleton by set_solver.
    rewrite (inv_len _ _ _ H'), ntaken_insert, decide_False, decide_True by done || lia.
    assert (size T ≠ 0%nat) by (apply size_non_empty_iff; set_solver). lia.
Qed.

Section run.
Context (junk blksz growblk : Z).
Context (Hblk : 0 < blksz) (Hgrow : 0 < growblk).

Definition xop_ok (o : xop) : Prop := match o with OAdd => True | ODel i => 0 ≤ i end.

Lemma run_xop_ok o l T hi :
  holds blksz l T hi → xop_ok o → (vmax (base l) + 1 + growblk) * blksz < 2 ^ 63 →
  ∃ r l' T' hi', run_xop junk blksz growblk o l = Ok (r, l') ∧ astep (T, hi) o r (T', hi') ∧
    holds blksz l' T' hi' ∧ vmax (base l') ≤ vmax (base l) + growblk ∧
    default [] (vdata (base l)) `prefix_of` default [] (vdata (base l')).
Proof.
  intros [(t & H & Hne & HT) <- Hsz] Ho Hg. destruct (inv_max _ _ _ H) as [Hmax _].
  pose proof (inv_len _ _ _ H) as Hlen. destruct o as [|i].
  - destruct (xvlst_add_ok junk blksz growblk Hblk Hgrow l t H Hne)
      as (l' & i & k & E & H' & Hf & Hi & Hz & Hla & Hp); [lia|]. set (t1 := t ++ replicate k 0) in *.
    destruct Hf as [[? _]|(Hir & Hfree & Hlow)]; [lia|].
    assert (Hz1 : zlen t1 = zlen t + Z.of_nat k)
      by (subst t1; rewrite length_app, length_replicate; lia).
    assert (HT1 : ∀ j, j ∈ T ↔ 0 ≤ j < zlen t1 ∧ t1.[j] ≠ 0).
    { intros j. rewrite HT. split; intros [Hj Hx].
      - split; [lia|]. subst t1. by rewrite lookup_total_app_l by lia.
      - destruct (Z.lt_ge_cases j (zlen t)) as [Hlt|Hge].
        + split; [lia|]. subst t1. by rewrite lookup_total_app_l in Hx by lia.
        + exfalso. apply Hx. subst t1. rewrite lookup_total_app_r by lia.
          apply lookup_total_replicate_2. lia. }
    assert (HiT : i ∉ T) by (rewrite HT1; tauto).
    eexists i, l', _, _. split_and!; [done|constructor| |destruct (inv_max _ _ _ H'); rewrite length_insert in *; lia|done].
    + lia.
    + done.
    + intros j Hj. apply HT1. split; [lia|]. apply Hlow. lia.
    + split; [|done|].
      * eexists. split; [done|]. rewrite length_insert. split.
        { intros E2. apply (f_equal length) in E2. rewrite length_insert in E2. cbn in E2. lia. }
        intros j. rewrite elem_of_union, elem_of_singleton, HT1. split.
        { intros [->|[Hj Hx]]; (split; [lia|]); rewrite rd_insert by lia; case_decide; done. }
        { intros [Hj Hx]. rewrite rd_insert in Hx by lia. case_decide; [left; done|by right]. }
      * rewrite size_union, size_singleton by set_solver.
        rewrite (inv_len _ _ _ H'), ntaken_insert, Hfree, decide_True, decide_False by done || lia.
        subst t1. rewrite ntaken_app, ntaken_zeros. lia.
  - destruct (del_holds blksz l T (llast l) i) as (r & l' & T' & E & Hs & H' & Hm & Hd).
    { split; [by exists t|done|done]. }
    { done. }
    eexists r, l', T', _. rewrite Hd, Hm. split_and!; [done|done|done|lia|done].
Qed.
End run.

(** ** Properties *)

Lemma reserve_new junk blksz growblk n :
  0 < blksz → 0 < growblk → 0 < n → (n + growblk) * blksz < 2 ^ 63 →
  ∃ l, xvlst_reserve junk true true xvlst_zero n blksz growblk = Ok (0, l) ∧
    holds blksz l ∅ 0 ∧ n ≤ vmax (base l) < n + growblk.
Proof.
  intros Hb Hg Hn Hsz.
  destruct (xvlst_reserve_grow junk blksz growblk Hb Hg xvlst_zero [] n (inv_zero blksz) Hn Hsz)
    as (l & k & E & H & Ht & Hr & Hla & _).
  exists l. split; [done|]. destruct (inv_max _ _ _ H) as [Hmax _].
  cbn [app] in *. split; [|lia]. split; [|done|].
  - exists (replicate k 0). split; [done|]. split.
    + intros E0. rewrite E0 in Hr. cbn in Hr. lia.
    + intros i. split; [by intros ?%elem_of_empty|]. intros [Hi Hx]. exfalso. apply Hx.
      rewrite length_replicate in Hi. apply lookup_total_replicate_2. lia.
  - rewrite (inv_len _ _ _ H), ntaken_zeros, size_empty. done.
Qed.

Lemma run_xops_ok junk blksz growblk os l T hi :
  0 < blksz → 0 < growblk → holds blksz l T hi → Forall xop_ok os →
  (vmax (base l) + (1 + zlen os) * (1 + growblk)) * blksz < 2 ^ 63 →
  ∃ rs l' T' hi', run_xops junk blksz growblk os l = Ok (rs, l') ∧
    arun (T, hi) os rs (T', hi') ∧ holds blksz l' T' hi' ∧
    default [] (vdata (base l)) `prefix_of` default [] (vdata (base l')).
Proof.
  intros Hb Hg H Hos. revert l T hi H. induction Hos as [|o os Ho Hos IH]; intros l T hi H Hsz.
  - eexists [], l, T, hi. split_and!; [done|constructor|done|done].
  - assert (Hm0 : 0 ≤ vmax (base l)).
    { destruct H as [(t & Hi & _) _ _]. destruct (inv_max _ _ _ Hi). lia. }
    cbn [length] in Hsz.
    destruct (run_xop_ok junk blksz growblk Hb Hg o l T hi H Ho)
      as (r & l1 & T1 & hi1 & E & Hs & H1 & Hm & Hp); [nia|].
    destruct (IH l1 T1 hi1 H1) as (rs & l' & T' & hi' & E' & Hr & H' & Hp'); [nia|].
    exists (r :: rs), l', T', hi'. cbn [run_xops]. rewrite E, bind_Ok, E', bind_Ok.
    split_and!; [done|by econstructor|done|by etransitivity].
Qed.

(** C6: an index list allocates indices as documented: after a reservation,
    every sequence of [xvlst_add] and [xvlst_del] (allocations succeeding, sizes
    below 2^63 bytes) gives the results of the abstract allocator, in which an
    addition returns the least index not taken, a deletion frees a taken index,
    answers [EALREADY] for a free one and [ERANGE] above the largest index ever
    taken; [len] counts the taken indices, no assertion fails and the user's
    records are carried along. *)
Theorem xvlst_allocates junk blksz growblk n os :
  0 < blksz → 0 < growblk → 0 < n → Forall xop_ok os →
  (n + growblk + (1 + zlen os) * (1 + growblk)) * blksz < 2 ^ 63 →
  ∃ l0 rs l T hi,
    xvlst_reserve junk true true xvlst_zero n blksz growblk = Ok (0, l0) ∧ n ≤ vmax (base l0) ∧
    run_xops junk blksz growblk os l0 = Ok (rs, l) ∧ arun (∅, 0) os rs (T, hi) ∧
    vlen (base l) = Z.of_nat (size T) ∧
    default [] (vdata (base l0)) `prefix_of` default [] (vdata (base l)).
Proof.
  intros Hb Hg Hn Hos Hsz. pose proof (Nat2Z.is_nonneg (length os)) as Hl0.
  destruct (reserve_new junk blksz growblk n) as (l0 & E & H & Hm); [done|done|done|nia|].
  destruct (run_xops_ok junk blksz growblk os l0 ∅ 0 Hb Hg H Hos)
    as (rs & l & T & hi & E' & Hr & H' & Hp); [nia|].
  exists l0, rs, l, T, hi. split_and!; try done; [lia|]. apply (holds_size _ _ _ _ H').
Qed.

Lemma xvlst_allocates_witness :
  ∃ l0 rs l T hi,
    xvlst_reserve 7 true true xvlst_zero 1 8 2 = Ok (0, l0) ∧ 1 ≤ vmax (base l0) ∧
    run_xops 7 8 2 [OAdd; OAdd; ODel 0; ODel 5; OAdd] l0 = Ok (rs, l) ∧
    arun (∅, 0) [OAdd; OAdd; ODel 0; ODel 5; OAdd] rs (T, hi) ∧
    vlen (base l) = Z.of_nat (size T) ∧
    default [] (vdata (base l0)) `prefix_of` default [] (vdata (base l)).
Proof.
  apply (xvlst_allocates 7 8 2 1 [OAdd; OAdd; ODel 0; ODel 5; OAdd]); try lia.
  - repeat constructor; simpl; lia.
  - simpl. lia.
Defined.

(** Where [xvlst_add] stops before taking an index. *)
Lemma expand_unfold junk ok1 ok2 l blksz growblk :
  0 < blksz → 0 < growblk →
  xvlst_expand junk ok1 ok2 l 1 blksz growblk =
  xvlst_reserve junk ok1 ok2 l (u64 (vlen (base l) + 1)) blksz growblk.
Proof.
  intros Hb Hg. unfold xvlst_expand.
  by rewrite (proj2 (Z.eqb_neq blksz 0)), (proj2 (Z.eqb_neq growblk 0)) by lia.
Qed.

Lemma xvlst_add_stop junk ok1 ok2 l blksz growblk rc l' :
  lavail l < 0 → 0 ≤ vmax (base l) < 2 ^ 63 →
  xvlst_expand junk ok1 ok2 l 1 blksz growblk = Ok (rc, l') → lavail l' < 0 →
  xvlst_add junk ok1 ok2 l blksz growblk = Ok (if 0 =? rc then -1 else - ENOMEM, l').
Proof.
  intros Ha Hm E Ha'. unfold xvlst_add.
  rewrite s64_small, (proj2 (Z.ltb_lt (lavail l) _)) by lia. cbn [c_assert]. rewrite bind_Ok, E, bind_Ok.
  destruct (0 =? rc); [|done]. cbn [negb]. by rewrite (proj2 (Z.ltb_lt (lavail l') 0)) by lia.
Qed.

(** What a failed allocation leaves.  When the vector cannot grow,
    [xvlst_add] on a full list answers [-ENOMEM] and changes nothing.  When only
    the [taken] array cannot grow it answers [-ENOMEM] too, but the array is
    lost (the old pointer was overwritten) while [max_len] has grown: from then
    on every addition fails with -1 although no allocation is attempted, and
    deleting any index that was taken dereferences NULL. *)
Theorem xvlst_add_out_of_memory junk blksz growblk l t index ok1 ok2 :
  0 < blksz → 0 < growblk → inv blksz l t → t ≠ [] → ntaken t = zlen t →
  (zlen t + 1 + growblk) * blksz < 2 ^ 63 → 0 ≤ index < zlen t →
  xvlst_add junk false ok2 l blksz growblk = Ok (- ENOMEM, l) ∧
  ∃ l', xvlst_add junk true false l blksz growblk = Ok (- ENOMEM, l') ∧
    ltaken l' = None ∧ vmax (base l) < vmax (base l') ∧
    xvlst_add junk ok1 ok2 l' blksz growblk = Ok (-1, l') ∧
    xvlst_del l' index = Ub.
Proof.
  intros Hb Hg H Hne Hfull Hsz Hi. destruct (inv_max _ _ _ H) as [Hmax Hm].
  pose proof (inv_len _ _ _ H) as Hlen. assert (zlen t + 1 + growblk < 2 ^ 63) by nia.
  assert (Hav : lavail l < 0).
  { destruct (inv_avail _ _ _ H) as [[? _]|[(Ha & Hz & _)|[? _]]]; [done| |done].
    exfalso. by apply (proj2 (ntaken_full t) Hfull (lavail l)). }
  assert (Hlast : llast l = zlen t - 1).
  { destruct (inv_last _ _ _ H) as [Hl0 [Hl|[_ ?]]]; [|done].
    destruct (Z.eq_dec (llast l) (zlen t - 1)) as [|Hn]; [done|]. exfalso.
    apply (proj2 (ntaken_full t) Hfull (zlen t - 1)); [lia|]. apply (inv_above _ _ _ H). lia. }
  destruct (xvec_reserve_ok junk blksz growblk Hb Hg (base l) (zlen t + 1)) as (m & E & Hr); [lia|lia|nia|].
  assert (Hgt : (zlen t + 1 <=? vmax (base l)) = false) by (apply Z.leb_gt; lia).
  split.
  - rewrite (xvlst_add_stop _ _ _ _ _ _ (-1) l); try (done || lia).
    rewrite expand_unfold by lia. rewrite Hlen, Hfull, wrap_small by lia.
    unfold xvlst_reserve, xvec_reserve. rewrite Hgt, (proj2 (Z.ltb_lt 0 growblk)) by lia.
    cbn [c_assert]. rewrite bind_Ok, (proj2 (Z.ltb_ge _ (vmax _))), bind_Ok by lia. by destruct l.
  - set (l' := MkLst (MkVec (Some (realloc_block junk (vdata (base l)) (m * blksz))) (vlen (base l)) m)
                 None (llast l) (lavail l)).
    exists l'. split_and!; [|done|cbn; lia| |].
    + rewrite (xvlst_add_stop _ _ _ _ _ _ (-1) l'); try (done || lia).
      rewrite expand_unfold by lia. rewrite Hlen, Hfull, wrap_small by lia.
      unfold xvlst_reserve. rewrite Hgt, E, bind_Ok. cbn [negb Z.eqb vmax].
      by rewrite (proj2 (Z.leb_gt m _)) by lia.
    + rewrite (xvlst_add_stop _ _ _ _ _ _ 0 l'); cbn [lavail base vmax l']; try (done || lia).
      rewrite expand_unfold by lia. cbn [vlen base l']. rewrite Hlen, Hfull, wrap_small by lia.
      unfold xvlst_reserve. cbn [base vmax]. by rewrite (proj2 (Z.leb_le _ m)) by lia.
    + unfold xvlst_del. cbn [llast ltaken l']. by rewrite (proj2 (Z.ltb_ge _ index)) by lia.
Qed.

Lemma xvlst_add_out_of_memory_witness :
  let l := MkLst (MkVec (Some [0; 0]) 2 2) (Some [1; 1]) 1 (-1) in
  xvlst_add 7 false true l 1 2 = Ok (- ENOMEM, l) ∧
  ∃ l', xvlst_add 7 true false l 1 2 = Ok (- ENOMEM, l') ∧
    ltaken l' = None ∧ vmax (base l) < vmax (base l') ∧
    xvlst_add 7 true true l' 1 2 = Ok (-1, l') ∧ xvlst_del l' 1 = Ub.
Proof.
  intros l. apply (xvlst_add_out_of_memory 7 1 2 l [1; 1] 1 true true); try done.
  split; simpl; try lia; auto.
  left. split_and!; [lia|done|]. intros i Hi.
  assert (i = 0 ∨ i = 1) as [-> | ->] by lia; done.
Defined.

(** A list that was never reserved (all members zero) cannot be used:
    [xvlst_add] fails its own assertion [avail < max_len] before it could grow
    the list, and [xvlst_del] of index 0 dereferences NULL. *)
Lemma xvlst_unreserved junk ok1 ok2 blksz growblk :
  xvlst_add junk ok1 ok2 xvlst_zero blksz growblk = Abort ∧ xvlst_del xvlst_zero 0 = Ub.
Proof. split; reflexivity. Qed.

(** a successful [xvec_reserve] reports at least the requested capacity, keeps
    the records, and the block behind it has [max_len * blksz] bytes as long as
    that product fits in a [size_t]; the product is not checked, so beyond that
    the vector claims more records than the block can hold. *)
Theorem xvec_reserve_block junk v n blksz growblk :
  0 < growblk → 0 < blksz → 0 < n → vmax v ≤ n → n + growblk < 2 ^ 64 →
  zlen (default [] (vdata v)) = vmax v * blksz →
  ∃ v', xvec_reserve junk true v n blksz growblk = Ok (0, v') ∧
    n ≤ vmax v' < n + growblk ∧ vlen v' = vlen v ∧
    zlen (default [] (vdata v')) = (vmax v' * blksz) mod 2 ^ 64 ∧
    (vmax v' * blksz < 2 ^ 64 → default [] (vdata v) `prefix_of` default [] (vdata v')) ∧
    (2 ^ 64 ≤ vmax v' * blksz → zlen (default [] (vdata v')) < vmax v' * blksz).
Proof.
  intros Hg Hb Hn Hm Hsz Hd. pose proof (round_up growblk n Hg Hn) as Hr.
  assert (Hq : 0 ≤ (n - 1) / growblk ≤ n) by (pose proof (Z.div_pos (n - 1) growblk);
    pose proof (Z.div_le_upper_bound (n - 1) growblk n); nia).
  unfold xvec_reserve. rewrite (proj2 (Z.ltb_lt 0 growblk)) by lia. cbn [c_assert]. rewrite bind_Ok.
  rewrite (proj2 (Z.ltb_ge n (vmax v))), (wrap_small 64 (n - 1)) by lia.
  revert Hr Hq. generalize ((n - 1) / growblk). intros q Hr Hq.
  destruct (Z.eq_dec (1 + q) (2 ^ 64)) as [Hbad|]; [exfalso; nia|].
  rewrite (wrap_small 64 (1 + q)), (wrap_small 64 ((1 + q) * growblk)) by nia.
  pose proof (wrap_range 64 ((1 + q) * growblk * blksz) ltac:(lia)) as Hw.
  eexists. split; [done|]. cbn [vmax vlen vdata from_option]. unfold id.
  rewrite length_realloc by lia. split_and!; try (done || lia).
  intros Hlt. rewrite wrap_small by nia. rewrite realloc_grow by nia. by apply prefix_app_r.
Qed.

Lemma xvec_reserve_block_witness :
  ∃ v', xvec_reserve 7 true (MkVec None 0 0) 3 (2 ^ 62) 4 = Ok (0, v') ∧
    3 ≤ vmax v' < 3 + 4 ∧ vlen v' = vlen (MkVec None 0 0) ∧
    zlen (default [] (vdata v')) = (vmax v' * 2 ^ 62) mod 2 ^ 64 ∧
    (vmax v' * 2 ^ 62 < 2 ^ 64 → default [] (vdata (MkVec None 0 0)) `prefix_of` default [] (vdata v')) ∧
    (2 ^ 64 ≤ vmax v' * 2 ^ 62 → zlen (default [] (vdata v')) < vmax v' * 2 ^ 62).
Proof. apply (xvec_reserve_block 7 (MkVec None 0 0) 3 (2 ^ 62) 4); simpl; lia. Defined.
