(* ===== verification/XvRec.v ===== *)
(** * fdwatch/test_xvdat.c: the records under test

    [struct rec] as bytes of a block: ten characters, six of padding and a long,
    little-endian.  What [snprintf] and [strncpy] store in a name, what ["%s"] and
    the member [index] read, and which of these stores touch which records. *)

From stdpp Require Import strings.
From S2P Require Import Prelude Libc.
Local Open Scope Z_scope.

(** [sizeof (struct rec)], [sizeof (name)] and the place of [index]. *)
Definition SZ : Z := 24.
Definition NAME_SZ : nat := 10.
Definition INDEX_OFF : Z := 16.

(** ** Longs *)

Fixpoint le_bytes (n : nat) (x : Z) : list Z :=
  match n with O => [] | S n' => x mod 256 :: le_bytes n' (x / 256) end.
Fixpoint le_val (b : list Z) : Z :=
  match b with [] => 0 | c :: b' => c + 256 * le_val b' end.

Lemma length_le_bytes n x : length (le_bytes n x) = n.
Proof. revert x. induction n as [|n IH]; intros x; cbn; [done|by rewrite IH]. Qed.

Lemma le_val_bytes n x : 0 ≤ x < 256 ^ Z.of_nat n → le_val (le_bytes n x) = x.
Proof.
  revert x. induction n as [|n IH]; intros x Hx; cbn [le_bytes le_val]; [cbn in Hx; lia|].
  rewrite Nat2Z.inj_succ, Z.pow_succ_r in Hx by lia.
  rewrite IH by (split; [apply Z.div_pos; lia|apply Z.div_lt_upper_bound; lia]).
  pose proof (Z.div_mod x 256). lia.
Qed.

(** ** Blocks *)

(** A store of several bytes at an offset, and the bytes there. *)
Definition put (d : list Z) (off : Z) (b : list Z) : res (list Z) :=
  if (0 <=? off) && (off + zlen b <=? zlen d) then
    Ok (take (Z.to_nat off) d ++ b ++ drop (Z.to_nat off + length b) d)
  else Ub.
Definition field (d : list Z) (off : Z) (n : nat) : list Z := take n (drop (Z.to_nat off) d).

(** The string ["%s"] reads: it must end within the block. *)
Definition get_str (d : list Z) (off : Z) : res (list Z) :=
  let s := drop (Z.to_nat off) d in
  if (0 <=? off) && bool_decide (0 ∈ s) then Ok (c_str s) else Ub.

(** [snprintf (r.name, sizeof(r.name)-1, ...)] of a text, and
  [strncpy (r.name, text, sizeof(r.name)-1)]: the bytes stored. *)
Definition snprintf_name (text : list Z) : list Z := take (NAME_SZ - 2) text ++ [0].
Definition strncpy_name (text : list Z) : list Z := take (NAME_SZ - 1) (text ++ replicate (NAME_SZ - 1) 0).

Definition put_name (d : list Z) (i : Z) (b : list Z) : res (list Z) := put d (i * SZ) b.
Definition put_index (d : list Z) (i x : Z) : res (list Z) := put d (i * SZ + INDEX_OFF) (le_bytes 8 (u64 x)).
Definition get_name (d : list Z) (i : Z) : res (list Z) := get_str d (i * SZ).
Definition get_index (d : list Z) (i : Z) : res Z :=
  let off := i * SZ + INDEX_OFF in
  if (0 <=? off) && (off + 8 <=? zlen d) then Ok (s64 (le_val (field d off 8))) else Ub.

(** ** What is stored *)

Lemma field_lookup d off n k :
  field d off n !! k = if decide (k < n)%nat then d !! (Z.to_nat off + k)%nat else None.
Proof.
  unfold field. case_decide.
  - by rewrite lookup_take_lt, lookup_drop.
  - by rewrite lookup_take_ge by lia.
Qed.

Lemma put_lookup d off b d' k :
  put d off b = Ok d' →
  d' !! k = if decide (Z.to_nat off ≤ k < Z.to_nat off + length b)%nat then b !! (k - Z.to_nat off)%nat else d !! k.
Proof.
  unfold put. destruct (Z.leb_spec 0 off); [|done]. destruct (Z.leb_spec (off + zlen b) (zlen d)); [|done].
  cbn [andb]. intros [= <-]. case_decide as Hk.
  - rewrite lookup_app_r by (rewrite length_take; lia). rewrite length_take, Nat.min_l by lia.
    by rewrite lookup_app_l by lia.
  - destruct (decide (k < Z.to_nat off)%nat).
    + rewrite lookup_app_l by (rewrite length_take; lia). by rewrite lookup_take_lt.
    + rewrite lookup_app_r by (rewrite length_take; lia). rewrite length_take, Nat.min_l by lia.
      rewrite lookup_app_r by lia. rewrite lookup_drop. f_equal. lia.
Qed.

Lemma put_fits d off b : 0 ≤ off → off + zlen b ≤ zlen d → ∃ d', put d off b = Ok d' ∧ length d' = length d.
Proof.
  intros H1 H2. unfold put. rewrite (proj2 (Z.leb_le 0 off)), (proj2 (Z.leb_le _ (zlen d))) by lia.
  eexists. split; [done|]. rewrite !length_app, length_take, length_drop. lia.
Qed.

(** A store leaves a field apart from it alone, and the beginning of a field
  holds what was stored there. *)
Lemma field_put_other d off b d' o n :
  put d off b = Ok d' → 0 ≤ o → (o + Z.of_nat n ≤ off ∨ off + zlen b ≤ o) → field d' o n = field d o n.
Proof.
  intros E Ho Hd. apply list_eq. intros k. rewrite !field_lookup. case_decide; [|done].
  rewrite (put_lookup _ _ _ _ _ E). rewrite decide_False; [done|].
  assert (0 ≤ off) by (unfold put in E; destruct (Z.leb_spec 0 off); done). lia.
Qed.

Lemma field_put_same d off b d' n :
  put d off b = Ok d' → (length b ≤ n)%nat → ∃ r, field d' off n = b ++ r.
Proof.
  intros E Hn. exists (drop (length b) (field d' off n)).
  rewrite <- (take_drop (length b) (field d' off n)) at 1. f_equal.
  apply list_eq. intros k. destruct (decide (k < length b)%nat) as [Hk|Hk].
  - rewrite lookup_take_lt, field_lookup, decide_True, (put_lookup _ _ _ _ _ E), decide_True by lia.
    f_equal. lia.
  - rewrite lookup_take_ge by lia. by rewrite lookup_ge_None_2 by lia.
Qed.

(** Growing a block keeps its fields. *)
Lemma field_prefix d d' off n :
  d `prefix_of` d' → 0 ≤ off → off + Z.of_nat n ≤ zlen d → field d' off n = field d off n.
Proof.
  intros [r ->] Ho Hn. unfold field. rewrite drop_app_le by lia. rewrite take_app_le; [done|].
  rewrite length_drop. lia.
Qed.

(** ** Records *)

(** The name of record [j], terminated within its ten characters, and its index. *)
Record named (d : list Z) (j : Z) (nm : list Z) : Prop := {
  named_in : 0 ≤ j ∧ (j + 1) * SZ ≤ zlen d;
  named_ends : 0 ∈ field d (j * SZ) NAME_SZ;
  named_str : c_str (field d (j * SZ) NAME_SZ) = nm
}.
Record indexed (d : list Z) (j x : Z) : Prop := {
  indexed_in : 0 ≤ j ∧ (j + 1) * SZ ≤ zlen d;
  indexed_le : field d (j * SZ + INDEX_OFF) 8 = le_bytes 8 (u64 x)
}.

Lemma c_str_app_ends a b : 0 ∈ a → c_str (a ++ b) = c_str a.
Proof.
  induction a as [|c a IH]; intros H; [by apply elem_of_nil in H|]. cbn.
  destruct (Z.eqb_spec c 0) as [->|Hc]; [done|]. f_equal. apply IH.
  apply elem_of_cons in H as [<-|H]; done.
Qed.

Lemma named_get d j nm : named d j nm → get_name d j = Ok nm.
Proof.
  intros [[Hj Hb] He <-]. unfold get_name, get_str.
  assert (E : drop (Z.to_nat (j * SZ)) d = field d (j * SZ) NAME_SZ ++ drop NAME_SZ (drop (Z.to_nat (j * SZ)) d))
    by (unfold field; by rewrite take_drop).
  rewrite (proj2 (Z.leb_le 0 _)) by (unfold SZ; lia). rewrite bool_decide_true.
  - cbn [andb]. by rewrite E, c_str_app_ends.
  - rewrite E. apply elem_of_app. by left.
Qed.

Lemma indexed_get d j x : indexed d j x → 0 ≤ x < 2 ^ 63 → get_index d j = Ok x.
Proof.
  intros [[Hj Hb] He] Hx. unfold get_index, SZ, INDEX_OFF in *. cbv zeta.
  rewrite (proj2 (Z.leb_le 0 _)), (proj2 (Z.leb_le _ (zlen d))) by lia. cbn [andb].
  rewrite He, (wrap_small 64 x), le_val_bytes, s64_small by (cbn; lia). done.
Qed.

Lemma named_prefix d d' j nm : d `prefix_of` d' → named d j nm → named d' j nm.
Proof.
  intros Hp [[Hj Hb] He Hs]. pose proof (prefix_length _ _ Hp). unfold SZ, NAME_SZ in *.
  assert (E : field d' (j * 24) 10 = field d (j * 24) 10) by (apply field_prefix; (done || lia)).
  split; unfold SZ, NAME_SZ; rewrite ?E; (done || lia).
Qed.

Lemma indexed_prefix d d' j x : d `prefix_of` d' → indexed d j x → indexed d' j x.
Proof.
  intros Hp [[Hj Hb] He]. pose proof (prefix_length _ _ Hp). unfold SZ, INDEX_OFF in *.
  split; unfold SZ, INDEX_OFF; [lia|]. by rewrite (field_prefix d d') by (done || lia).
Qed.

(** Stores into record [i]. *)
Lemma put_name_ok d i b :
  0 ≤ i → (i + 1) * SZ ≤ zlen d → 0 ∈ b → (length b ≤ NAME_SZ)%nat →
  ∃ d', put_name d i b = Ok d' ∧ length d' = length d ∧ named d' i (c_str b) ∧
    (∀ j nm, j ≠ i → named d j nm → named d' j nm) ∧ (∀ j x, indexed d j x → indexed d' j x).
Proof.
  intros Hi Hd H0 Hb. unfold put_name, SZ, NAME_SZ in *.
  destruct (put_fits d (i * 24) b) as (d' & E & Hl); [lia|lia|]. exists d'. split_and!; try done.
  - destruct (field_put_same _ _ _ _ 10 E Hb) as [r Hr].
    split; unfold SZ, NAME_SZ; rewrite ?Hr; [lia|apply elem_of_app; by left|by apply c_str_app_ends].
  - intros j nm Hne [[Hj Hjd] He Hs]. unfold SZ, NAME_SZ in *.
    assert (Ef : field d' (j * 24) 10 = field d (j * 24) 10) by (eapply field_put_other; [exact E|lia|lia]).
    split; unfold SZ, NAME_SZ; rewrite ?Ef; (done || lia).
  - intros j x [[Hj Hjd] He]. unfold SZ, INDEX_OFF in *. split; unfold SZ, INDEX_OFF; [lia|].
    rewrite (field_put_other _ _ _ _ _ _ E); [done|lia|lia].
Qed.

Lemma put_index_ok d i x :
  0 ≤ i → (i + 1) * SZ ≤ zlen d →
  ∃ d', put_index d i x = Ok d' ∧ length d' = length d ∧ indexed d' i x ∧
    (∀ j nm, named d j nm → named d' j nm) ∧ (∀ j y, j ≠ i → indexed d j y → indexed d' j y).
Proof.
  intros Hi Hd. unfold put_index, SZ, INDEX_OFF in *.
  pose proof (length_le_bytes 8 (u64 x)) as Hb.
  destruct (put_fits d (i * 24 + 16) (le_bytes 8 (u64 x))) as (d' & E & Hl); [lia|rewrite Hb; lia|].
  exists d'. split_and!; try done.
  - split; unfold SZ, INDEX_OFF; [lia|].
    destruct (field_put_same _ _ _ _ 8 E) as [r Hr]; [lia|]. rewrite Hr.
    assert (r = []) as ->; [|by rewrite app_nil_r].
    apply (f_equal length) in Hr. rewrite length_app, Hb in Hr. unfold field in Hr. rewrite length_take in Hr.
    destruct r; [done|cbn [length] in Hr; lia].
  - intros j nm [[Hj Hjd] He Hs]. unfold SZ, NAME_SZ in *.
    assert (Ef : field d' (j * 24) 10 = field d (j * 24) 10)
      by (eapply field_put_other; [exact E|lia|rewrite Hb; lia]).
    split; unfold SZ, NAME_SZ; rewrite ?Ef; (done || lia).
  - intros j y Hne [[Hj Hjd] He]. unfold SZ, INDEX_OFF in *. split; unfold SZ, INDEX_OFF; [lia|].
    rewrite (field_put_other _ _ _ _ _ _ E); [done|lia|rewrite Hb; lia].
Qed.

(** The bytes of a name end in it. *)
Lemma snprintf_name_ok text : 0 ∈ snprintf_name text ∧ (length (snprintf_name text) ≤ NAME_SZ)%nat.
Proof.
  unfold snprintf_name, NAME_SZ. split; [apply elem_of_app; right; by apply list_elem_of_singleton|].
  rewrite length_app, length_take. cbn [length]. lia.
Qed.

Lemma strncpy_name_ok text :
  (length text < NAME_SZ - 1)%nat → 0 ∈ strncpy_name text ∧ (length (strncpy_name text) ≤ NAME_SZ)%nat.
Proof.
  unfold strncpy_name, NAME_SZ. intros Hl. split; [|rewrite length_take; lia].
  rewrite take_app_ge by lia. apply elem_of_app. right.
  destruct (10 - 1 - length text)%nat eqn:E; [lia|]. cbn. apply elem_of_cons. by left.
Qed.
