(* ===== verification/XvdatTest.v ===== *)
(** * fdwatch/test_xvdat.c: the unit test of the vectors and lists

    The test's own assertions and its reads and writes of the records are
    executed on the model of xvdat.c; its output is the list of its dumps, without
    the addresses.  The theorem reads the last dumps: what has been stored is
    there, through every growth of the block and every deletion. *)

From stdpp Require Import strings gmap pretty.
From S2P Require Import Prelude Libc Xvdat XvRec.
Local Open Scope Z_scope.

Inductive devent :=
  | DXvl (len max : Z) (list_part : option (Z * Z * list Z))
  | DRec (i : Z) (name : list Z) (index : Z)
  | DMsg (msg : string)
  | DFail (rc : Z).

(** The record under test, the number of allocating calls so far, the output. *)
Record tst := MkT { tl : xvlst; tk : nat; tout : list devent }.

(** A loop whose body breaks out with a non-zero status. *)
Fixpoint for_rc (n : nat) (i : Z) (body : Z → tst → res (Z * tst)) (st : tst) : res (Z * tst) :=
  match n with
  | O => Ok (0, st)
  | S n' =>
      '(rc, st) ← body i st;
      if negb (rc =? 0) then Ok (rc, st) else for_rc n' (i + 1) body st
  end.

Section code.
Variable junk : Z.
(** Which of the two reallocations of the [k]-th call succeed. *)
Variable oracle : nat → bool * bool.

Definition emit (e : devent) (st : tst) : tst := MkT (tl st) (tk st) (tout st ++ [e]).

Definition dump_xvl (v : xvlst) : res devent :=
  _ ← c_assert (match vdata (base v) with Some _ => true | None => false end);
  match ltaken v with
  | Some t =>
      bits ← for_up (Z.to_nat (u64 (llast v + 1))) 0 (fun i out =>
        x ← aget t i; Ok (out ++ [if x =? 0 then 0 else 1])) [];
      Ok (DXvl (vlen (base v)) (vmax (base v)) (Some (llast v, lavail v, bits)))
  | None => Ok (DXvl (vlen (base v)) (vmax (base v)) None)
  end.

(** Stores to the members of [r[i]]. *)
Definition with_data (st : tst) (d : list Z) : tst :=
  let l := tl st in
  MkT (MkLst (MkVec (Some d) (vlen (base l)) (vmax (base l))) (ltaken l) (llast l) (lavail l)) (tk st) (tout st).
Definition set_name (i : Z) (b : list Z) (st : tst) : res tst :=
  d ← deref (vdata (base (tl st))); d ← put_name d i b; Ok (with_data st d).
Definition set_index (i x : Z) (st : tst) : res tst :=
  d ← deref (vdata (base (tl st))); d ← put_index d i x; Ok (with_data st d).

(** ["N%ld"] and the like. *)
Definition fmt (p : string) (n : Z) : list Z := zs p ++ zs (pretty n).

Definition dump_xvrec (v : xvlst) : res (list devent) :=
  match vdata (base v) with
  | None => Ok []
  | Some d =>
      for_up (Z.to_nat (match ltaken v with Some _ => u64 (llast v + 1) | None => vlen (base v) end)) 0
        (fun i out =>
          skip ← match ltaken v with Some t => x ← aget t i; Ok (x =? 0) | None => Ok false end;
          if skip : bool then Ok out
          else nm ← get_name d i; x ← get_index d i; Ok (out ++ [DRec i nm x])) []
  end.

Definition dump (msg : option string) (st : tst) (flags : bool) : res tst :=
  let out := match msg with Some m => [DMsg m] | None => [] end in
  e ← dump_xvl (tl st);
  recs ← (if flags then dump_xvrec (tl st) else Ok []);
  Ok (MkT (tl st) (tk st) (tout st ++ out ++ [e] ++ recs)).

(** The calls under test, with the block sizes the test passes. *)
Definition t_vreserve (n : Z) (st : tst) : res (Z * tst) :=
  '(rc, v) ← xvec_reserve junk (fst (oracle (tk st))) (base (tl st)) n SZ 10;
  Ok (rc, MkT (MkLst v (ltaken (tl st)) (llast (tl st)) (lavail (tl st))) (S (tk st)) (tout st)).
Definition t_vexpand (plus : Z) (st : tst) : res (Z * tst) :=
  '(rc, v) ← xvec_expand junk (fst (oracle (tk st))) (base (tl st)) plus SZ 10;
  Ok (rc, MkT (MkLst v (ltaken (tl st)) (llast (tl st)) (lavail (tl st))) (S (tk st)) (tout st)).
Definition t_reserve (n : Z) (st : tst) : res (Z * tst) :=
  '(rc, l) ← xvlst_reserve junk (fst (oracle (tk st))) (snd (oracle (tk st))) (tl st) n SZ 10;
  Ok (rc, MkT l (S (tk st)) (tout st)).
Definition t_add (st : tst) : res (Z * tst) :=
  '(j, l) ← xvlst_add junk (fst (oracle (tk st))) (snd (oracle (tk st))) (tl st) SZ 10;
  Ok (j, MkT l (S (tk st)) (tout st)).
Definition t_del (i : Z) (st : tst) : res (Z * tst) :=
  '(rc, l) ← xvlst_del (tl st) i;
  Ok (rc, MkT l (tk st) (tout st)).

Definition t_init : tst := MkT xvlst_zero 0 [].

Definition add_len (d : Z) (st : tst) : tst :=
  let l := tl st in
  MkT (MkLst (MkVec (vdata (base l)) (u64 (vlen (base l) + d)) (vmax (base l))) (ltaken l) (llast l) (lavail l))
    (tk st) (tout st).

Definition test_xvec (capacity : Z) : res (Z * tst) :=
  '(rc, st) ← t_vreserve (capacity / 2) t_init;
  if negb (0 =? rc) then Ok (rc, emit (DFail rc) st)
  else
    st ← dump (Some "Reserved xvec (size/2)"%string) st false;
    _ ← c_assert ((0 =? vlen (base (tl st))) && (capacity / 2 <=? vmax (base (tl st))));
    '(rc, st) ← for_rc (Z.to_nat (capacity / 2)) 0 (fun i st =>
      '(rc, st) ← t_vexpand 1 st;
      if negb (rc =? 0) then Ok (rc, emit (DFail rc) st)
      else
        st ← set_name i (snprintf_name (fmt "N" (i + 1))) st;
        st ← set_index i i st;
        Ok (0, add_len 1 st)) st;
    if negb (rc =? 0) then Ok (rc, st)
    else
      st ← dump (Some "filled xvec"%string) st true;
      let i0 := vlen (base (tl st)) in
      '(rc, st) ← for_rc (Z.to_nat ((u64 (capacity * 2) - i0 + 1) / 2)) 0 (fun k st =>
        let i := i0 + 2 * k in
        '(rc, st) ← t_vexpand 2 st;
        if negb (rc =? 0) then Ok (rc, emit (DFail rc) st)
        else
          st ← set_name i (snprintf_name (fmt "F" (i + 1))) st;
          st ← set_index i (u64 (i * 2)) st;
          st ← set_name (i + 1) (snprintf_name (fmt "S" (i + 1))) st;
          st ← set_index (i + 1) (u64 (u64 (i * 2) + 1)) st;
          Ok (0, add_len 2 st)) st;
      st ← dump (Some "expanded xvec"%string) st true;
      Ok (rc, st).

(** The second half of [test_xvlst], for lists of at least eight elements. *)
Definition test_xvlst_more (st : tst) : res (Z * tst) :=
  '(rc, st) ← for_rc 3 0 (fun i st => t_del i st) st;
  if negb (rc =? 0) then Ok (rc, emit (DFail rc) st)
  else
    st ← dump (Some "removed first 3"%string) st false;
    '(rc, st) ← for_rc 3 0 (fun k st => t_del (7 - k) st) st;
    if negb (rc =? 0) then Ok (rc, emit (DFail rc) st)
    else
      st ← dump (Some "removed 3 from 8 down"%string) st false;
      '(rc, st) ← for_rc 10 0 (fun _ st =>
        '(j, st) ← t_add st;
        if j <? 0 then Ok (-1, emit (DFail j) st)
        else
          st ← set_name j (snprintf_name (fmt "DD" j)) st;
          st ← set_index j j st;
          st ← dump None st false;
          Ok (0, st)) st;
      if negb (rc =? 0) then Ok (rc, st)
      else
        st ← dump (Some "Elements added"%string) st true;
        let lj := s64 (u64 (vlen (base (tl st)) - 1)) in
        '(r1, st) ← t_del 2 st;
        '(r2, st) ← (if negb (0 =? r1) then Ok (r1, st) else t_del (u64 lj) st);
        if negb (0 =? r2) then Ok (-1, emit (DFail r2) st)
        else
          st ← dump (Some "deleted #2 and last"%string) st false;
          '(j, st) ← t_add st;
          if j <? 0 then Ok (0, emit (DFail j) st)
          else
            _ ← c_assert (j =? 2);
            st ← set_name j (snprintf_name (fmt "QQ" j)) st;
            st ← dump (Some "added 2nd"%string) st false;
            '(j, st) ← t_add st;
            if j <? 0 then Ok (0, emit (DFail j) st)
            else
              _ ← c_assert (j =? lj);
              st ← set_name j (snprintf_name (fmt "QQ" j)) st;
              st ← dump (Some "added last"%string) st true;
              Ok (0, st).

Definition test_xvlst (capacity : Z) : res (Z * tst) :=
  '(rc, st) ← t_reserve (capacity / 2) t_init;
  if negb (0 =? rc) then Ok (rc, emit (DFail rc) st)
  else
    st ← dump (Some "reserved xvlst"%string) st false;
    _ ← c_assert ((0 =? vlen (base (tl st))) && (capacity / 2 <=? vmax (base (tl st))));
    '(rc, st) ← for_rc (Z.to_nat capacity) 0 (fun i st =>
      '(j, st) ← t_add st;
      if j <? 0 then Ok (-1, emit (DFail j) st)
      else if negb (j =? s64 i) then Ok (-1, emit (DFail j) st)
      else
        st ← set_name j (snprintf_name (fmt "NN" j)) st;
        st ← set_index j j st;
        st ← dump None st false;
        Ok (0, st)) st;
    if negb (rc =? 0) then Ok (rc, st)
    else
      st ← dump (Some "filled xvlst"%string) st true;
      '(rc, st) ← t_del 3 st;
      if negb (0 =? rc) then Ok (rc, emit (DFail rc) st)
      else
        st ← dump (Some "deleted 3rd"%string) st true;
        '(rc, st) ← t_del 3 st;
        _ ← c_assert (EALREADY =? rc);
        '(rc, st) ← t_del (u64 (llast (tl st) + 1)) st;
        _ ← c_assert (ERANGE =? rc);
        '(j, st) ← t_add st;
        _ ← c_assert (3 =? j);
        st ← set_name 3 (strncpy_name (zs "third")) st;
        st ← dump (Some "replaced 3rd element"%string) st true;
        if vlen (base (tl st)) <? 8 then Ok (0, emit (DFail 0) st)
        else test_xvlst_more st.

Definition MIN_VSIZE : Z := 4.

Definition main (argv : list (list Z)) : res (Z * list devent) :=
  if zlen argv <? 3 then Ok (1, [])
  else
    mode ← aget argv 1;
    a2 ← aget argv 2;
    vsize ← atol a2;
    if vsize <=? MIN_VSIZE then Ok (1, [])
    else if strcasecmp_eq (zs "xvec") mode then
      '(rc, st) ← test_xvec (u64 vsize); Ok (rc, tout st)
    else if strcasecmp_eq (zs "xvlst") mode then
      '(rc, st) ← test_xvlst (u64 vsize); Ok (rc, tout st)
    else Ok (0, [DMsg "not supported"%string]).
End code.

Example test_xvec_9 :
  (r ← test_xvec 7 (fun _ => (true, true)) 9; Ok (fst r)) = Ok 0.
Proof. vm_compute. reflexivity. Qed.
Example test_xvlst_9 :
  (r ← test_xvlst 7 (fun _ => (true, true)) 9; Ok (fst r)) = Ok 0.
Proof. vm_compute. reflexivity. Qed.

(** The last lines of the list test. *)
Example test_xvlst_9_out :
  (r ← test_xvlst 7 (fun _ => (true, true)) 9; Ok (drop (length (tout (snd r)) - 3) (tout (snd r)))) =
  Ok [DRec 10 (zs "DD10") 10; DRec 11 (zs "DD11") 11; DRec 12 (zs "QQ12") 12].
Proof. vm_compute. reflexivity. Qed.

(** ** Every capacity passes *)

(** All allocations succeed. *)
Definition plenty : nat → bool * bool := fun _ => (true, true).

(** The list under test holds the indices satisfying [P], [n] of them. *)
Record good (st : tst) (P : Z → Prop) (hi n m : Z) : Prop := {
  good_holds : ∃ T, holds SZ (tl st) T hi ∧ ∀ j, j ∈ T ↔ P j;
  good_len : vlen (base (tl st)) = n;
  good_max : vmax (base (tl st)) ≤ m
}.

(** The records satisfying [Q] have the names [nm], those below [I] the indices
  [ix]. *)
Definition filled (st : tst) (Q : Z → Prop) (nm : Z → list Z) (I : Z) (ix : Z → Z) : Prop :=
  ∃ d, vdata (base (tl st)) = Some d ∧ (∀ j, Q j → named d j (nm j)) ∧ (∀ j, 0 ≤ j < I → indexed d j (ix j)).

Lemma good_ext st P P' hi n m : (∀ j, P j ↔ P' j) → good st P hi n m → good st P' hi n m.
Proof.
  intros HP [(T & H & HT) Hn Hm]. split; [|done|done]. exists T. split; [done|].
  intros j. by rewrite HT, HP.
Qed.

Lemma good_tl st st' P hi n m : tl st' = tl st → good st P hi n m → good st' P hi n m.
Proof. intros E [H Hn Hm]. split; rewrite E; done. Qed.

Lemma filled_tl st st' Q nm I ix : tl st' = tl st → filled st Q nm I ix → filled st' Q nm I ix.
Proof. unfold filled. by intros ->. Qed.

Lemma filled_ext st Q Q' nm nm' I ix :
  (∀ j, Q' j → Q j ∧ nm' j = nm j) → filled st Q nm I ix → filled st Q' nm' I ix.
Proof.
  intros HQ (d & Hd & Hn & Hi). exists d. split_and!; [done| |done].
  intros j Hj. destruct (HQ j Hj) as [Hq ->]. by apply Hn.
Qed.

Lemma filled_prefix st st' Q nm I ix :
  default [] (vdata (base (tl st))) `prefix_of` default [] (vdata (base (tl st'))) →
  is_Some (vdata (base (tl st'))) → filled st Q nm I ix → filled st' Q nm I ix.
Proof.
  intros Hp [d' Ed'] (d & Hd & Hn & Hi). rewrite Hd, Ed' in Hp. cbn in Hp. exists d'.
  split_and!; [done| |]; intros j Hj; [eapply named_prefix; [exact Hp|]|eapply indexed_prefix; [exact Hp|]]; auto.
Qed.

(** Stores that fit. *)
Lemma set_name_ok st i b Q nm I ix :
  filled st Q nm I ix → 0 ≤ i → (i + 1) * SZ ≤ zlen (default [] (vdata (base (tl st)))) →
  0 ∈ b → (length b ≤ NAME_SZ)%nat → nm i = c_str b →
  ∃ d, set_name i b st = Ok (with_data st d) ∧ length d = length (default [] (vdata (base (tl st)))) ∧
    filled (with_data st d) (fun j => Q j ∨ j = i) nm I ix.
Proof.
  intros (d & Hd & Hn & Hi) H0 Hsz He Hl Hnm. rewrite Hd in *. cbn in Hsz.
  destruct (put_name_ok d i b H0 Hsz He Hl) as (d' & E & Hl' & Hi' & Hj & Hx).
  exists d'. unfold set_name. rewrite Hd. cbn [deref]. rewrite bind_Ok, E, bind_Ok. split_and!; [done|done|].
  exists d'. split_and!; [done| |].
  - intros j Hj'. destruct (Z.eq_dec j i) as [->|Hne]; [by rewrite Hnm|].
    apply Hj; [done|]. apply Hn. by destruct Hj'.
  - intros j Hj'. by apply Hx, Hi.
Qed.

Lemma set_index_ok st i x Q nm I ix :
  filled st Q nm I ix → 0 ≤ i ≤ I → (i + 1) * SZ ≤ zlen (default [] (vdata (base (tl st)))) → ix i = x →
  ∃ d, set_index i x st = Ok (with_data st d) ∧ length d = length (default [] (vdata (base (tl st)))) ∧
    filled (with_data st d) Q nm (Z.max I (i + 1)) ix.
Proof.
  intros (d & Hd & Hn & Hi) H0 Hsz <-. rewrite Hd in *. cbn in Hsz.
  destruct (put_index_ok d i (ix i) ltac:(lia) Hsz) as (d' & E & Hl' & Hi' & Hj & Hx).
  exists d'. unfold set_index. rewrite Hd. cbn [deref]. rewrite bind_Ok, E, bind_Ok. split_and!; [done|done|].
  exists d'. split_and!; [done| |].
  - intros j Hj'. by apply Hj, Hn.
  - intros j Hj'. destruct (Z.eq_dec j i) as [->|Hne]; [done|]. apply Hx; [done|]. apply Hi. lia.
Qed.

(** What an index list in use looks like. *)
Lemma good_shape st P hi n m :
  good st P hi n m → ∃ t d, ltaken (tl st) = Some t ∧ vdata (base (tl st)) = Some d ∧
    zlen d = zlen t * SZ ∧ vmax (base (tl st)) = zlen t ∧ 0 ≤ llast (tl st) < zlen t ∧ zlen t < 2 ^ 63 ∧
    llast (tl st) = hi ∧ 0 ≤ n < 2 ^ 63 ∧
    (∀ j, P j ↔ 0 ≤ j < zlen t ∧ t.[j] ≠ 0).
Proof.
  intros [(T & [(t & Hi & Hne & Hc) Hh Hs] & HT) Hn Hm].
  destruct (inv_taken _ _ _ Hi) as [Ht|[_ ?]]; [|done].
  destruct (inv_last _ _ _ Hi) as [Hl0 [Hl|[_ ?]]]; [|done].
  destruct (inv_max _ _ _ Hi) as [Hmax Hb]. pose proof (inv_data _ _ _ Hi) as Hd.
  pose proof (inv_len _ _ _ Hi) as Hlen. pose proof (ntaken_bounds t).
  destruct (vdata (base (tl st))) as [d|] eqn:E.
  - exists t, d. cbn in Hd. split_and!; try (done || lia).
    intros j. by rewrite <- HT, Hc.
  - cbn in Hd. unfold SZ in Hd. lia.
Qed.

(** Records held have room in the block. *)
Lemma good_room st P hi n m j :
  good st P hi n m → P j → 0 ≤ j ∧ (j + 1) * SZ ≤ zlen (default [] (vdata (base (tl st)))).
Proof.
  intros H HP. destruct (good_shape _ _ _ _ _ H) as (t & d & Ht & Hd & Hz & _ & _ & _ & _ & _ & HPt).
  apply HPt in HP. rewrite Hd. cbn. unfold SZ in *. lia.
Qed.

Lemma good_data st P hi n m d :
  good st P hi n m → length d = length (default [] (vdata (base (tl st)))) → good (with_data st d) P hi n m.
Proof.
  intros [(T & [(t & Hi & Hne & Hc) Hh Hs] & HT) Hn Hm] Hl. split; [|done|done].
  exists T. split; [|done]. split; [|done|done]. exists t. split; [|done].
  destruct Hi. split; cbn in *; try done. unfold id. by rewrite Hl.
Qed.

(** ** The dumps *)

Lemma dump_xvl_ok st P hi n m : good st P hi n m → ensures (dump_xvl (tl st)) (fun _ => True).
Proof.
  intros H. destruct (good_shape _ _ _ _ _ H) as (t & d & Ht & Hd & Hz & _ & Hl & Hb & _ & _ & HPt).
  unfold dump_xvl. rewrite Hd, Ht. cbn [c_assert]. rewrite bind_Ok, wrap_small by lia.
  apply ensures_bind. eapply ensures_mono; [apply (for_up_inv (fun _ _ => True)); [done|]|done].
  intros i out Hi _. by rewrite aget_Ok by lia.
Qed.

Lemma dump_quiet msg st P hi n m :
  good st P hi n m → ensures (dump msg st false) (fun st' => tl st' = tl st).
Proof.
  intros H. unfold dump. apply ensures_bind. eapply ensures_mono; [by eapply dump_xvl_ok|].
  intros e _. by rewrite bind_Ok.
Qed.

(** The lines for the records [0] to [k-1] that [f] selects. *)
Definition rec_lines (f : Z → bool) (nm : Z → list Z) (ix : Z → Z) (k : nat) : list devent :=
  map (fun j => DRec j (nm j) (ix j)) (List.filter f (map Z.of_nat (seq 0 k))).

Lemma rec_lines_S f nm ix k :
  rec_lines f nm ix (S k) =
  rec_lines f nm ix k ++ if f (Z.of_nat k) then [DRec (Z.of_nat k) (nm (Z.of_nat k)) (ix (Z.of_nat k))] else [].
Proof.
  unfold rec_lines. rewrite seq_S, map_app, List.filter_app, map_app. cbn. by destruct (f (Z.of_nat k)).
Qed.

Lemma rec_lines_all f nm ix k :
  (∀ j, 0 ≤ j < Z.of_nat k → f j = true) → rec_lines f nm ix k = rec_lines (fun _ => true) nm ix k.
Proof.
  induction k as [|k IH]; intros Hf; [done|]. rewrite !rec_lines_S, Hf by lia. rewrite IH; [done|].
  intros j Hj. apply Hf. lia.
Qed.

(** What a dump with the records prints. *)
Definition recs_of (st : tst) : nat :=
  Z.to_nat (match ltaken (tl st) with Some _ => llast (tl st) + 1 | None => vlen (base (tl st)) end).
Definition listed (st : tst) (j : Z) : bool :=
  match ltaken (tl st) with Some t => negb (t.[j] =? 0) | None => true end.

Lemma dump_xvrec_ok st Q nm I ix d :
  vdata (base (tl st)) = Some d → filled st Q nm I ix → (∀ j, 0 ≤ ix j < 2 ^ 63) →
  (match ltaken (tl st) with Some t => 0 ≤ llast (tl st) < zlen t ∧ zlen t < 2 ^ 63 | None => True end) →
  (∀ j, 0 ≤ j < Z.of_nat (recs_of st) → listed st j = true → Q j ∧ j < I) →
  dump_xvrec (tl st) = Ok (rec_lines (listed st) nm ix (recs_of st)).
Proof.
  intros Hd (d' & Hd' & Hn & Hi) Hx Ht HQ. rewrite Hd in Hd'. injection Hd' as <-.
  unfold dump_xvrec. rewrite Hd.
  assert (En : Z.to_nat (match ltaken (tl st) with Some _ => u64 (llast (tl st) + 1) | None => vlen (base (tl st)) end) =
    recs_of st) by (unfold recs_of; destruct (ltaken (tl st)); [by rewrite wrap_small by lia|done]).
  rewrite En. clear En.
  match goal with |- for_up _ _ ?b _ = _ => set (body := b) end.
  assert (H : ensures (for_up (recs_of st) 0 body [])
    (fun out => out = rec_lines (listed st) nm ix (Z.to_nat (0 + Z.of_nat (recs_of st))))).
  { apply (for_up_inv (fun i out => out = rec_lines (listed st) nm ix (Z.to_nat i))); [done|].
    intros j out Hj ->. subst body. cbv beta.
    replace (Z.to_nat (j + 1)) with (S (Z.to_nat j)) by lia. rewrite rec_lines_S, Z2Nat.id by lia.
    specialize (HQ j ltac:(lia)). unfold listed, recs_of in *.
    assert (Hread : Q j ∧ j < I → get_name d j = Ok (nm j) ∧ get_index d j = Ok (ix j)).
    { intros [Hq Hji]. split; [by apply named_get, Hn|]. apply indexed_get; [apply Hi; lia|done]. }
    destruct (ltaken (tl st)) as [t|].
    - rewrite aget_Ok, !bind_Ok by lia. destruct (Z.eqb_spec t.[j] 0); cbn [negb]; [by rewrite app_nil_r|].
      destruct (Hread (HQ eq_refl)) as [-> ->]. done.
    - rewrite bind_Ok. destruct (Hread (HQ eq_refl)) as [-> ->]. done. }
  apply ensures_iff in H as (out & -> & ->). by rewrite Z.add_0_l, Nat2Z.id.
Qed.

Lemma dump_full msg st P hi n m nm I ix :
  good st P hi n m → filled st P nm I ix → (∀ j, P j → j < I) → (∀ j, 0 ≤ ix j < 2 ^ 63) →
  ensures (dump msg st true) (fun st' => tl st' = tl st ∧
    ((∀ j, 0 ≤ j ≤ hi → P j) →
     ∃ out, tout st' = out ++ rec_lines (fun _ => true) nm ix (Z.to_nat (hi + 1)))).
Proof.
  intros H Hf HI Hx. destruct (good_shape _ _ _ _ _ H) as (t & d & Ht & Hd & Hz & _ & Hl & Hb & Hh & _ & HPt).
  unfold dump. apply ensures_bind. eapply ensures_mono; [by eapply dump_xvl_ok|]. intros e _.
  rewrite (dump_xvrec_ok st P nm I ix d Hd Hf Hx).
  - rewrite bind_Ok. cbn [ensures]. split; [done|]. intros HP. cbn [tout]. unfold recs_of. rewrite Ht, Hh.
    rewrite (rec_lines_all (listed st)); [by rewrite !app_assoc; eexists|].
    intros j Hj. unfold listed. rewrite Ht. destruct (Z.eqb_spec t.[j] 0) as [E|]; [|done].
    exfalso. eapply (proj1 (HPt j)); [apply HP; lia|done].
  - by rewrite Ht.
  - unfold recs_of, listed. rewrite Ht. intros j Hj Hlj. destruct (Z.eqb_spec t.[j] 0); [done|].
    assert (HPj : P j) by (apply HPt; lia). split; [done|by apply HI].
Qed.

(** ** The calls under test *)

Section steps.
Variable junk : Z.
Notation t_add := (t_add junk plenty).
Notation t_reserve := (t_reserve junk plenty).

Lemma t_add_ok st P hi n m i :
  good st P hi n m → 0 ≤ i → ¬ P i → (∀ j, 0 ≤ j < i → P j) → (m + 11) * SZ < 2 ^ 63 →
  ensures (t_add st) (fun '(j, st') =>
    j = i ∧ good st' (fun j => P j ∨ j = i) (Z.max hi i) (n + 1) (m + 10) ∧
    ∀ Q nm I ix, filled st Q nm I ix → filled st' Q nm I ix).
Proof.
  intros [(T & H & HT) Hn Hm] Hi HPi Hlow Hsz.
  destruct (run_xop_ok junk SZ 10 ltac:(done) ltac:(done) OAdd (tl st) T hi H I)
    as (r & l' & T' & hi' & E & Hs & H' & Hm' & Hp); [unfold SZ in *; lia|].
  cbn [run_xop] in E. unfold t_add, plenty. cbn [fst snd]. rewrite E, bind_Ok. cbn [ensures].
  apply astep_add_inv in Hs as (Hi0 & Hn0 & Hlow0 & [= -> ->]).
  assert (r = i) as ->.
  { destruct (Z.lt_trichotomy r i) as [Hlt|[->|Hlt]]; [|done|].
    - exfalso. apply Hn0, HT, Hlow. lia.
    - exfalso. apply HPi, HT, Hlow0. lia. }
  split; [done|]. split.
  2: { intros Q nm I ix Hf. destruct Hf as (d & Hd & Hf). eapply filled_prefix; [exact Hp| |by exists d].
    destruct (good_shape (MkT l' 0%nat []) (fun j => j ∈ {[i]} ∪ T) (hi `max` i) (vlen (base l')) (vmax (base l')))
      as (t & d' & _ & Hd' & _); [|by exists d'].
    split; [|done|done]. by eexists. }
  split; cbn [tl].
  - exists ({[i]} ∪ T). split; [done|]. intros j. rewrite elem_of_union, elem_of_singleton, HT. tauto.
  - rewrite (holds_size _ _ _ _ H'), <- Hn, (holds_size _ _ _ _ H), size_union, size_singleton by set_solver. lia.
  - lia.
Qed.

Lemma t_del_ok st P hi n m i :
  good st P hi n m → P i →
  ensures (t_del i st) (fun '(rc, st') => rc = 0 ∧ good st' (fun j => P j ∧ j ≠ i) hi (n - 1) m ∧
    ∀ Q nm I ix, filled st Q nm I ix → filled st' Q nm I ix).
Proof.
  intros [(T & H & HT) Hn Hm] HPi.
  assert (HiT : i ∈ T) by (by apply HT).
  assert (Hi : 0 ≤ i) by (destruct H as [(t & _ & _ & Hc) _ _]; apply Hc in HiT; lia).
  destruct (del_holds SZ (tl st) T hi i H Hi) as (r & l' & T' & E & Hs & H' & Hmx & Hdd).
  unfold t_del. rewrite E, bind_Ok. cbn [ensures]. inversion Hs; subst; try done.
  - split; [done|]. split; [|intros Q nm I' ix; unfold filled; cbn [tl]; by rewrite Hdd].
    split; cbn [tl]; [|rewrite (holds_size _ _ _ _ H'), (holds_size _ _ _ _ H)|lia].
    + exists (T ∖ {[i]}). split; [done|]. intros j. rewrite elem_of_difference, elem_of_singleton, HT. tauto.
    + assert (size T ≠ 0%nat) by (apply size_non_empty_iff; set_solver).
      rewrite size_difference, size_singleton by set_solver. lia.
  - destruct H as [(t & Hv & Hne & Hc) Hh _]. apply Hc in HiT.
    destruct (inv_last _ _ _ Hv) as [_ [Hl|[_ ?]]]; [|done].
    exfalso. destruct HiT as [Hr Hx]. apply Hx. apply (inv_above _ _ _ Hv). lia.
Qed.

(** Deleting what is not there changes nothing. *)
Lemma t_del_free st P hi n m i :
  good st P hi n m → 0 ≤ i → ¬ P i →
  ensures (t_del i st) (fun '(rc, st') =>
    rc = (if hi <? i then ERANGE else EALREADY) ∧ good st' P hi n m ∧
    ∀ Q nm I ix, filled st Q nm I ix → filled st' Q nm I ix).
Proof.
  intros [(T & H & HT) Hn Hm] Hi HPi.
  destruct (del_holds SZ (tl st) T hi i H Hi) as (r & l' & T' & E & Hs & H' & Hmx & Hdd).
  unfold t_del. rewrite E, bind_Ok. cbn [ensures]. inversion Hs; subst.
  - exfalso. by apply HPi, HT.
  - rewrite (proj2 (Z.ltb_ge _ _)) by lia. split; [done|].
    split; [|intros Q nm I' ix; unfold filled; cbn [tl]; by rewrite Hdd].
    split; cbn [tl]; [eauto| |lia]. by rewrite (holds_size _ _ _ _ H'), (holds_size _ _ _ _ H).
  - rewrite (proj2 (Z.ltb_lt _ _)) by lia. split; [done|].
    split; [|intros Q nm I' ix; unfold filled; cbn [tl]; by rewrite Hdd].
    split; cbn [tl]; [eauto| |lia]. by rewrite (holds_size _ _ _ _ H'), (holds_size _ _ _ _ H).
Qed.

Lemma t_reserve_ok n :
  0 < n → (n + 10) * SZ < 2 ^ 63 →
  ensures (t_reserve n t_init) (fun '(rc, st) =>
    rc = 0 ∧ good st (fun _ => False) 0 0 (n + 10) ∧ n ≤ vmax (base (tl st)) ∧
    ∀ nm ix, filled st (fun _ => False) nm 0 ix).
Proof.
  intros Hn Hsz. destruct (reserve_new junk SZ 10 n) as (l & E & H & Hm); [done|done|done|done|].
  unfold t_reserve, plenty, t_init. cbn [fst snd tl]. rewrite E, bind_Ok. cbn [ensures tl].
  split; [done|]. set (st := MkT l _ _).
  assert (Hg : good st (fun _ => False) 0 0 (n + 10)).
  { split; cbn [tl]; [|apply (holds_size _ _ _ _ H)|cbn; lia].
    exists ∅. split; [done|]. intros j. split; [by intros ?%elem_of_empty|done]. }
  split_and!; [done|cbn; lia|]. intros nm ix.
  destruct (good_shape _ _ _ _ _ Hg) as (t & d & _ & Hd & _). exists d. split_and!; [done|done|lia].
Qed.
End steps.

(** A loop that never breaks out. *)
Lemma for_rc_ok (J : Z → tst → Prop) n i body st :
  J i st →
  (∀ k s, i ≤ k < i + Z.of_nat n → J k s →
     ensures (body k s) (fun '(rc, s') => rc = 0 ∧ J (k + 1) s')) →
  ensures (for_rc n i body st) (fun '(rc, s') => rc = 0 ∧ J (i + Z.of_nat n) s').
Proof.
  revert i st. induction n as [|n IH]; intros i st H Hb; cbn [for_rc].
  - by rewrite Z.add_0_r.
  - apply ensures_bind. eapply ensures_mono; [apply Hb; [lia|done]|]. intros [rc s] [-> Hs].
    cbn [Z.eqb negb]. replace (i + Z.of_nat (S n)) with (i + 1 + Z.of_nat n) by lia.
    apply IH; [done|]. intros k s' Hk. apply Hb. lia.
Qed.

(** One monadic step of a program under [ensures]. *)
Ltac step lem := apply ensures_bind; eapply ensures_mono; [eapply lem|].

(** Stores to records that are held. *)
Lemma name_stored st P hi n m Q nm I ix i b :
  good st P hi n m → filled st Q nm I ix → P i → 0 ∈ b ∧ (length b ≤ NAME_SZ)%nat → nm i = c_str b →
  ensures (set_name i b st) (fun st' => good st' P hi n m ∧ filled st' (fun j => Q j ∨ j = i) nm I ix).
Proof.
  intros H Hf HP [Hb Hl] Hnm. destruct (good_room _ _ _ _ _ _ H HP) as [H0 Hr].
  destruct (set_name_ok st i b Q nm I ix Hf H0 Hr Hb Hl Hnm) as (d & -> & Hd & Hf').
  split; [by apply good_data|done].
Qed.

Lemma index_stored st P hi n m Q nm I ix i x :
  good st P hi n m → filled st Q nm I ix → P i → i ≤ I → ix i = x →
  ensures (set_index i x st) (fun st' => good st' P hi n m ∧ filled st' Q nm (Z.max I (i + 1)) ix).
Proof.
  intros H Hf HP HI Hx. destruct (good_room _ _ _ _ _ _ H HP) as [H0 Hr].
  destruct (set_index_ok st i x Q nm I ix Hf ltac:(lia) Hr Hx) as (d & -> & Hd & Hf').
  split; [by apply good_data|done].
Qed.

(** A dump of the list alone. *)
Ltac step_quiet H Hf :=
  apply ensures_bind; eapply ensures_mono; [eapply dump_quiet; exact H|];
  let E := fresh "E" in intros ? E; apply (good_tl _ _ _ _ _ _ E) in H; apply (filled_tl _ _ _ _ _ _ E) in Hf; clear E.

(** A dump with the records. *)
Ltac step_full H Hf :=
  apply ensures_bind; eapply ensures_mono;
  [eapply dump_full; [exact H|eapply filled_ext; [|exact Hf]; cbv beta; intros; split; [|reflexivity]; lia|cbv beta; lia|]|];
  [|let E := fresh "E" in intros ? [E _]; apply (good_tl _ _ _ _ _ _ E) in H; apply (filled_tl _ _ _ _ _ _ E) in Hf; clear E].

(** ** The list test *)

(** The text a name holds after [snprintf], at most eight characters; the names
  after the first half of the test, after ten additions, and at the end. *)
Definition stored (p : string) (j : Z) : list Z := c_str (snprintf_name (fmt p j)).
Definition nm_third (j : Z) : list Z := if j =? 3 then zs "third" else stored "NN" j.
Definition nm_refill (cap j : Z) : list Z :=
  if (j <=? 2) || ((5 <=? j) && (j <=? 7)) || (cap <=? j) then stored "DD" j else nm_third j.
Definition nm_last (cap j : Z) : list Z :=
  if (j =? 2) || (j =? cap + 3) then stored "QQ" j else nm_refill cap j.

(** A number that a long holds. *)
Definition as_long (j : Z) : Z := if (0 <=? j) && (j <? 2 ^ 63) then j else 0.

Lemma as_long_id j : 0 ≤ j < 2 ^ 63 → as_long j = j.
Proof. intros Hj. unfold as_long. by rewrite (proj2 (Z.leb_le 0 j)), (proj2 (Z.ltb_lt j _)) by lia. Qed.
Lemma as_long_range j : 0 ≤ as_long j < 2 ^ 63.
Proof. unfold as_long. destruct (Z.leb_spec 0 j), (Z.ltb_spec j (2 ^ 63)); cbn; lia. Qed.

Section passes.
Variable junk : Z.

Lemma fill_list_ok cap st m :
  0 < cap → (m + 10 * cap + 11) * SZ < 2 ^ 63 → cap < 2 ^ 63 →
  good st (fun _ => False) 0 0 m → filled st (fun _ => False) (stored "NN") 0 as_long →
  ensures (for_rc (Z.to_nat cap) 0 (fun i st =>
      '(j, st) ← t_add junk plenty st;
      if j <? 0 then Ok (-1, emit (DFail j) st)
      else if negb (j =? s64 i) then Ok (-1, emit (DFail j) st)
      else
        st ← set_name j (snprintf_name (fmt "NN" j)) st;
        st ← set_index j j st;
        st ← dump None st false;
        Ok (0, st)) st)
    (fun '(rc, st) => rc = 0 ∧ good st (fun j => 0 ≤ j < cap) (cap - 1) cap (m + 10 * cap) ∧
       filled st (fun j => 0 ≤ j < cap) (stored "NN") cap as_long).
Proof.
  intros Hcap Hsz Hc63 H Hf. eapply ensures_mono.
  - apply (for_rc_ok (fun i st => good st (fun j => 0 ≤ j < i) (Z.max 0 (i - 1)) i (m + 10 * i) ∧
      filled st (fun j => 0 ≤ j < i) (stored "NN") i as_long)).
    + rewrite Z.mul_0_r, Z.add_0_r. split; [eapply good_ext; [|exact H]; intros j; cbn beta; lia|].
      eapply filled_ext; [|exact Hf]. intros j Hj. lia.
    + clear st H Hf. intros i st Hi [H Hf]. step (t_add_ok junk st _ _ _ _ i H); [lia|lia|lia|unfold SZ in *; lia|].
      clear H. intros [j s'] (-> & H & Hk). apply Hk in Hf. clear Hk.
      rewrite (proj2 (Z.ltb_ge i 0)), s64_small, Z.eqb_refl by lia. cbn [negb].
      step name_stored; [exact H|exact Hf|cbv beta; lia|apply snprintf_name_ok|done|]. clear H Hf. intros s1 [H Hf].
      step index_stored; [exact H|exact Hf|cbv beta; lia|lia|by apply as_long_id; lia|]. clear H Hf. intros s2 [H Hf].
      step_quiet H Hf. cbn [ensures]. split; [done|]. split.
      * replace (Z.max 0 (i + 1 - 1)) with (Z.max (Z.max 0 (i - 1)) i) by lia.
        replace (m + 10 * (i + 1)) with (m + 10 * i + 10) by lia.
        eapply good_ext; [|exact H]. intros j; cbn beta; lia.
      * rewrite Z.max_r in Hf by lia. eapply filled_ext; [|exact Hf]. intros j Hj. split; [lia|done].
  - intros [rc s] (-> & Hs & Hf'). rewrite Z.add_0_l, Z2Nat.id in Hs, Hf' by lia.
    rewrite Z.max_r in Hs by lia. done.
Qed.

(** Deleting the first three, then 7, 6 and 5. *)
Lemma del_first_ok cap st m nm I ix :
  8 ≤ cap → good st (fun j => 0 ≤ j < cap) (cap - 1) cap m → filled st (fun j => 0 ≤ j < cap) nm I ix →
  ensures (for_rc 3 0 (fun i st => t_del i st) st)
    (fun '(rc, st) => rc = 0 ∧ good st (fun j => 3 ≤ j < cap) (cap - 1) (cap - 3) m ∧
       filled st (fun j => 0 ≤ j < cap) nm I ix).
Proof.
  intros Hcap H Hf.
  apply (for_rc_ok (fun i st => good st (fun j => i ≤ j < cap) (cap - 1) (cap - i) m ∧
    filled st (fun j => 0 ≤ j < cap) nm I ix)).
  - by rewrite Z.sub_0_r.
  - intros k s Hk [Hs Hfs]. eapply ensures_mono; [eapply (t_del_ok s _ _ _ _ k Hs); lia|].
    intros [rc s'] (-> & Hs' & Hkeep). split; [done|]. split; [|by apply Hkeep].
    replace (cap - (k + 1)) with (cap - k - 1) by lia.
    eapply good_ext; [|exact Hs']. intros j; cbn beta; lia.
Qed.

Lemma del_down_ok cap st m Q nm I ix :
  8 ≤ cap → good st (fun j => 3 ≤ j < cap) (cap - 1) (cap - 3) m → filled st Q nm I ix →
  ensures (for_rc 3 0 (fun k st => t_del (7 - k) st) st)
    (fun '(rc, st) => rc = 0 ∧
       good st (fun j => 3 ≤ j < cap ∧ ¬ (5 ≤ j ≤ 7)) (cap - 1) (cap - 6) m ∧ filled st Q nm I ix).
Proof.
  intros Hcap H Hf. eapply ensures_mono.
  - apply (for_rc_ok (fun i st =>
      good st (fun j => 3 ≤ j < cap ∧ ¬ (7 - i < j ≤ 7)) (cap - 1) (cap - 3 - i) m ∧ filled st Q nm I ix)).
    + rewrite (Z.sub_0_r (cap - 3)). split; [|done]. eapply good_ext; [|exact H]. intros j; cbn beta; lia.
    + intros k s Hk [Hs Hfs]. eapply ensures_mono; [eapply (t_del_ok s _ _ _ _ (7 - k) Hs); lia|].
      intros [rc s'] (-> & Hs' & Hkeep). split; [done|]. split; [|by apply Hkeep].
      replace (cap - 3 - (k + 1)) with (cap - 3 - k - 1) by lia.
      eapply good_ext; [|exact Hs']. intros j; cbn beta; lia.
  - intros [rc s] (-> & Hs & Hfs). split; [done|]. split; [|done].
    replace (cap - 6) with (cap - 3 - (0 + Z.of_nat 3)) by lia.
    eapply good_ext; [|exact Hs]. intros j; cbn beta; lia.
Qed.

(** The index handed out by the [k]-th of the ten additions, which fill the six
  holes from below and then extend the list. *)
Definition refilled (cap k : Z) : Z := if k <? 3 then k else if k <? 6 then k + 2 else cap + k - 6.

Lemma refilled_cases cap k :
  (k < 3 ∧ refilled cap k = k) ∨ (3 ≤ k < 6 ∧ refilled cap k = k + 2) ∨ (6 ≤ k ∧ refilled cap k = cap + k - 6).
Proof. unfold refilled. destruct (Z.ltb_spec k 3), (Z.ltb_spec k 6); lia. Qed.

Lemma nm_refilled cap k : 8 ≤ cap → 0 ≤ k → nm_refill cap (refilled cap k) = stored "DD" (refilled cap k).
Proof.
  intros Hc Hk. pose proof (refilled_cases cap k). unfold nm_refill.
  destruct (Z.leb_spec (refilled cap k) 2); [done|]. destruct (Z.leb_spec cap (refilled cap k)); [by rewrite orb_true_r|].
  by rewrite (proj2 (Z.leb_le 5 _)), (proj2 (Z.leb_le _ 7)) by lia.
Qed.

(** The indices held before the [k]-th addition. *)
Definition held (cap k j : Z) : Prop :=
  0 ≤ j < cap + Z.max 0 (k - 6) ∧ ¬ (k ≤ j ≤ 2) ∧ ¬ (Z.max 5 (k + 2) ≤ j ≤ 7).

Lemma refill_ok cap st m :
  8 ≤ cap < 2 ^ 62 → (m + 111) * SZ < 2 ^ 63 →
  good st (fun j => 3 ≤ j < cap ∧ ¬ (5 ≤ j ≤ 7)) (cap - 1) (cap - 6) m →
  filled st (fun j => 3 ≤ j < cap ∧ ¬ (5 ≤ j ≤ 7)) (nm_refill cap) cap as_long →
  ensures (for_rc 10 0 (fun _ st =>
      '(j, st) ← t_add junk plenty st;
      if j <? 0 then Ok (-1, emit (DFail j) st)
      else
        st ← set_name j (snprintf_name (fmt "DD" j)) st;
        st ← set_index j j st;
        st ← dump None st false;
        Ok (0, st)) st)
    (fun '(rc, st) => rc = 0 ∧ good st (fun j => 0 ≤ j < cap + 4) (cap + 3) (cap + 4) (m + 100) ∧
       filled st (fun j => 0 ≤ j < cap + 4) (nm_refill cap) (cap + 4) as_long).
Proof.
  intros Hcap Hsz H Hf. eapply ensures_mono.
  - apply (for_rc_ok (fun k st =>
      good st (held cap k) (cap - 1 + Z.max 0 (k - 6)) (cap - 6 + k) (m + 10 * k) ∧
      filled st (held cap k) (nm_refill cap) (cap + Z.max 0 (k - 6)) as_long)).
    + cbn [Z.sub Z.max Z.mul]. rewrite !Z.add_0_r. split.
      * eapply good_ext; [|exact H]. intros j; unfold held; lia.
      * eapply filled_ext; [|exact Hf]. intros j Hj. split; [unfold held in Hj; lia|done].
    + clear st H Hf. intros k st Hk [H Hf]. pose proof (refilled_cases cap k) as Hi.
      pose proof (nm_refilled cap k) as Hnm. set (i := refilled cap k) in *.
      step (t_add_ok junk st _ _ _ _ i H); [lia|unfold held; lia|unfold held; lia|unfold SZ in *; lia|].
      clear H. intros [j s'] (-> & H & Hkeep). apply Hkeep in Hf. clear Hkeep.
      rewrite (proj2 (Z.ltb_ge i 0)) by lia.
      step name_stored; [exact H|exact Hf|by right|apply snprintf_name_ok|apply Hnm; lia|]. clear H Hf. intros s1 [H Hf].
      step index_stored; [exact H|exact Hf|by right|lia|by apply as_long_id; lia|]. clear H Hf. intros s2 [H Hf].
      step_quiet H Hf. cbn [ensures]. split; [done|]. split.
      * replace (cap - 1 + Z.max 0 (k + 1 - 6)) with (Z.max (cap - 1 + Z.max 0 (k - 6)) i) by lia.
        replace (cap - 6 + (k + 1)) with (cap - 6 + k + 1) by lia.
        replace (m + 10 * (k + 1)) with (m + 10 * k + 10) by lia.
        eapply good_ext; [|exact H]. intros j; unfold held; lia.
      * replace (cap + Z.max 0 (k + 1 - 6)) with (Z.max (cap + Z.max 0 (k - 6)) (i + 1)) by lia.
        eapply filled_ext; [|exact Hf]. intros j Hj. split; [unfold held in *; lia|done].
  - intros [rc s] (-> & Hs & Hfs). split; [done|].
    replace (cap - 1 + Z.max 0 (0 + Z.of_nat 10 - 6)) with (cap + 3) in Hs by lia.
    replace (cap - 6 + (0 + Z.of_nat 10)) with (cap + 4) in Hs by lia.
    replace (m + 10 * (0 + Z.of_nat 10)) with (m + 100) in Hs by lia.
    replace (cap + Z.max 0 (0 + Z.of_nat 10 - 6)) with (cap + 4) in Hfs by lia. split.
    + eapply good_ext; [|exact Hs]. intros j; unfold held; lia.
    + eapply filled_ext; [|exact Hfs]. intros j Hj. split; [unfold held; lia|done].
Qed.
End passes.

Lemma rec_lines_ext f nm nm' ix ix' k :
  (∀ j, 0 ≤ j < Z.of_nat k → nm j = nm' j ∧ ix j = ix' j) → rec_lines f nm ix k = rec_lines f nm' ix' k.
Proof.
  induction k as [|k IH]; intros Hj; [done|]. rewrite !rec_lines_S. destruct (Hj (Z.of_nat k) ltac:(lia)) as [-> ->].
  rewrite IH; [done|]. intros j Hj'. apply Hj. lia.
Qed.

Section whole_list.
Variable junk : Z.

Lemma nm_last_refill cap j : j ≠ 2 → j ≠ cap + 3 → nm_last cap j = nm_refill cap j.
Proof. intros H1 H2. unfold nm_last. by rewrite (proj2 (Z.eqb_neq j 2)), (proj2 (Z.eqb_neq j (cap + 3))) by lia. Qed.

Lemma more_ok cap st m :
  8 ≤ cap < 2 ^ 62 → (m + 200) * SZ < 2 ^ 63 →
  good st (fun j => 0 ≤ j < cap) (cap - 1) cap m → filled st (fun j => 0 ≤ j < cap) nm_third cap as_long →
  ensures (test_xvlst_more junk plenty st) (fun '(rc, st') => rc = 0 ∧
    ∃ out, tout st' = out ++ rec_lines (fun _ => true) (nm_last cap) (fun j => j) (Z.to_nat (cap + 4))).
Proof.
  intros Hcap Hsz H Hf. unfold test_xvlst_more.
  step del_first_ok; [apply Hcap|exact H|exact Hf|]. clear st H Hf. intros [rc st] (-> & H & Hf). cbn [Z.eqb negb].
  step_quiet H Hf. step del_down_ok; [apply Hcap|exact H|exact Hf|]. clear H Hf. intros [rc s] (-> & H & Hf).
  cbn [Z.eqb negb]. step_quiet H Hf.
  step refill_ok; [done| |exact H| |]; [unfold SZ in *; lia| |].
  { eapply filled_ext; [|exact Hf]. intros j Hj. split; [lia|]. unfold nm_refill.
    by rewrite (proj2 (Z.leb_gt j 2)), (proj2 (Z.leb_gt cap j)), orb_false_r,
      (proj2 (andb_false_iff _ _)) by (rewrite ?Z.leb_gt; lia). }
  clear H Hf. intros [rc s2] (-> & H & Hf). cbn [Z.eqb negb]. step_full H Hf; [apply as_long_range|].
  rewrite (good_len _ _ _ _ _ H), (wrap_small 64 (cap + 4 - 1)), s64_small by lia. cbv zeta.
  step (t_del_ok _ _ _ _ _ 2 H); [lia|]. clear H. intros [rc s3] (-> & H & Hkeep). apply Hkeep in Hf. cbn [Z.eqb negb].
  rewrite wrap_small by lia.
  step (t_del_ok _ _ _ _ _ (cap + 4 - 1) H); [lia|]. clear H Hkeep. intros [rc s4] (-> & H & Hkeep).
  apply Hkeep in Hf. clear Hkeep. cbn [Z.eqb negb]. step_quiet H Hf.
  apply (filled_ext _ _ (fun j => (0 ≤ j < cap + 4 ∧ j ≠ 2) ∧ j ≠ cap + 4 - 1) _ (nm_last cap)) in Hf;
    [|intros j Hj; split; [lia|apply nm_last_refill; lia]].
  step (t_add_ok junk _ _ _ _ _ 2 H); [lia|lia|lia|unfold SZ in *; lia|]. clear H.
  intros [j s5] (-> & H & Hkeep). apply Hkeep in Hf. clear Hkeep. cbn [Z.ltb Z.compare Z.eqb Pos.eqb c_assert].
  rewrite bind_Ok. step name_stored; [exact H|exact Hf|by right|apply snprintf_name_ok|done|].
  clear H Hf. intros s6 [H Hf]. step_quiet H Hf.
  step (t_add_ok junk _ _ _ _ _ (cap + 4 - 1) H); [lia|lia|lia|unfold SZ in *; lia|]. clear H.
  intros [j s7] (-> & H & Hkeep). apply Hkeep in Hf. clear Hkeep.
  rewrite (proj2 (Z.ltb_ge _ 0)), Z.eqb_refl by lia. cbn [c_assert]. rewrite bind_Ok.
  step name_stored; [exact H|exact Hf|by right|apply snprintf_name_ok| |].
  { unfold nm_last. replace (cap + 4 - 1) with (cap + 3) by lia. by rewrite Z.eqb_refl, orb_true_r. }
  clear H Hf. intros s8 [H Hf]. apply ensures_bind. eapply ensures_mono.
  { eapply dump_full; [exact H|eapply filled_ext; [|exact Hf]; intros j Hj; split; [cbv beta in *; lia|done]|cbv beta; lia|apply as_long_range]. }
  intros s9 [_ Hout]. cbn [ensures]. split; [done|]. destruct Hout as [out ->]; [cbv beta; lia|].
  exists out. f_equal. replace (Z.to_nat _) with (Z.to_nat (cap + 4)) by lia. apply rec_lines_ext.
  intros j Hj. split; [done|]. apply as_long_id. lia.
Qed.

(** The unit test of the index list passes for every size it accepts up to
    2^54: all its assertions hold (a deleted index is handed out again, the
    least free index first, the whole list in sequence), every record access is
    inside the block, and it returns 0. *)
Lemma test_xvlst_run cap :
  MIN_VSIZE < cap < 2 ^ 54 →
  ∃ st, test_xvlst junk plenty cap = Ok (0, st) ∧
    (8 ≤ cap → ∃ out, tout st = out ++ rec_lines (fun _ => true) (nm_last cap) (fun j => j) (Z.to_nat (cap + 4))).
Proof.
  unfold MIN_VSIZE. intros Hcap.
  enough (H : ensures (test_xvlst junk plenty cap) (fun '(rc, st) => rc = 0 ∧ (8 ≤ cap →
    ∃ out, tout st = out ++ rec_lines (fun _ => true) (nm_last cap) (fun j => j) (Z.to_nat (cap + 4))))).
  { apply ensures_iff in H as ([rc st] & E & -> & H). by exists st. }
  unfold test_xvlst. assert (Hh : 2 ≤ cap / 2 ≤ cap) by plia.
  step (t_reserve_ok junk (cap / 2)); [lia|unfold SZ; lia|]. intros [rc st] (-> & H & Hm & Hf). cbn [Z.eqb negb].
  specialize (Hf (stored "NN") as_long).
  apply ensures_bind. eapply ensures_mono; [eapply dump_quiet; exact H|]. intros st1 Et.
  apply (good_tl _ st1) in H; [|done]. apply (filled_tl _ st1) in Hf; [|done].
  rewrite Et, <- Et, (good_len _ _ _ _ _ H), Et, (proj2 (Z.leb_le _ _)) by lia.
  cbn [Z.eqb andb c_assert]. rewrite bind_Ok. clear st Hm Et.
  step fill_list_ok; [| | |exact H|exact Hf|]; [lia|unfold SZ; lia|lia|]. clear st1 H Hf.
  intros [rc st] (-> & H & Hf). cbn [Z.eqb negb]. step_full H Hf; [apply as_long_range|].
  step (t_del_ok _ _ _ _ _ 3 H); [lia|]. clear H. intros [rc s1] (-> & H & Hkeep). apply Hkeep in Hf. clear Hkeep.
  cbn [Z.eqb negb]. step_full H Hf; [apply as_long_range|].
  step (t_del_free _ _ _ _ _ 3 H); [lia|lia|]. clear H. intros [rc s2] (-> & H & Hkeep). apply Hkeep in Hf. clear Hkeep.
  rewrite (proj2 (Z.ltb_ge _ 3)), Z.eqb_refl by lia. cbn [c_assert]. rewrite bind_Ok.
  destruct (good_shape _ _ _ _ _ H) as (t & d & _ & _ & _ & _ & _ & _ & Eh & _ & _).
  rewrite Eh, wrap_small by lia.
  step (t_del_free _ _ _ _ _ (cap - 1 + 1) H); [lia|lia|]. clear H Eh. intros [rc s3] (-> & H & Hkeep).
  apply Hkeep in Hf. clear Hkeep. rewrite (proj2 (Z.ltb_lt _ _)), Z.eqb_refl by lia. cbn [c_assert]. rewrite bind_Ok.
  step (t_add_ok junk _ _ _ _ _ 3 H); [lia|lia|lia|unfold SZ; lia|]. clear H.
  intros [j s4] (-> & H & Hkeep). apply Hkeep in Hf. clear Hkeep.
  cbn [Z.eqb Pos.eqb c_assert]. rewrite bind_Ok.
  apply (filled_ext _ _ (fun j => 0 ≤ j < cap ∧ j ≠ 3) _ nm_third) in Hf.
  2: { intros j Hj. split; [lia|]. unfold nm_third. by rewrite (proj2 (Z.eqb_neq j 3)) by lia. }
  step name_stored; [exact H|exact Hf|by right|apply strncpy_name_ok; cbn; lia|done|]. clear H Hf. intros s5 [H Hf].
  step_full H Hf; [apply as_long_range|].
  rewrite (good_len _ _ _ _ _ H). destruct (Z.ltb_spec (cap - 1 + 1) 8); [split; [done|lia]|].
  rewrite Z.sub_simpl_r, Z.max_l in H by lia.
  eapply ensures_mono; [eapply (more_ok cap); [lia| |eapply good_ext; [|exact H]; intros j; cbn beta; lia|]|].
  - unfold SZ. lia.
  - eapply filled_ext; [|exact Hf]. intros j Hj. split; [cbv beta; lia|done].
  - intros [rc st'] [-> Hout]. by split.
Qed.
End whole_list.

(** ** The vector test *)

(** The vector under test has [n] elements and room for them. *)
Record vgood (st : tst) (n : Z) : Prop := {
  vgood_taken : ltaken (tl st) = None;
  vgood_data : ∃ d, vdata (base (tl st)) = Some d ∧ zlen d = vmax (base (tl st)) * SZ;
  vgood_len : vlen (base (tl st)) = n ∧ 0 ≤ n ≤ vmax (base (tl st))
}.

Lemma vgood_tl st st' n : tl st' = tl st → vgood st n → vgood st' n.
Proof. intros E [H1 H2 H3]. split; rewrite E; done. Qed.

(** What the test stores in record [j], for [h] records before the vector grows. *)
Definition vec_name (h j : Z) : list Z :=
  if j <? h then stored "N" (j + 1) else if Z.even (j - h) then stored "F" (j + 1) else stored "S" j.
Definition vec_index (h j : Z) : Z := if (j <? h) then j else if Z.even (j - h) then j * 2 else (j - 1) * 2 + 1.

Section vector.
Variable junk : Z.

Lemma vname_stored st n Q nm I ix i b :
  vgood st n → filled st Q nm I ix → 0 ≤ i < vmax (base (tl st)) → 0 ∈ b ∧ (length b ≤ NAME_SZ)%nat → nm i = c_str b →
  ensures (set_name i b st) (fun st' => vgood st' n ∧ vmax (base (tl st')) = vmax (base (tl st)) ∧
    filled st' (fun j => Q j ∨ j = i) nm I ix).
Proof.
  intros [H1 (d & Hd & Hz) H3] Hf Hi [Hb Hl] Hnm.
  destruct (set_name_ok st i b Q nm I ix Hf) as (d' & -> & Hl' & Hf'); try done; [lia|rewrite Hd; cbn; unfold SZ in *; lia|].
  split; [|done]. split; [done| |done]. exists d'. split; [done|]. rewrite Hd in Hl'. cbn in *. lia.
Qed.

Lemma vindex_stored st n Q nm I ix i x :
  vgood st n → filled st Q nm I ix → 0 ≤ i < vmax (base (tl st)) → i ≤ I → ix i = x →
  ensures (set_index i x st) (fun st' => vgood st' n ∧ vmax (base (tl st')) = vmax (base (tl st)) ∧
    filled st' Q nm (Z.max I (i + 1)) ix).
Proof.
  intros [H1 (d & Hd & Hz) H3] Hf Hi HI Hx.
  destruct (set_index_ok st i x Q nm I ix Hf) as (d' & -> & Hl' & Hf'); try done; [lia|rewrite Hd; cbn; unfold SZ in *; lia|].
  split; [|done]. split; [done| |done]. exists d'. split; [done|]. rewrite Hd in Hl'. cbn in *. lia.
Qed.

Lemma vdump_ok msg st n nm ix flags :
  vgood st n → filled st (fun j => 0 ≤ j < n) nm n ix → (∀ j, 0 ≤ ix j < 2 ^ 63) →
  ensures (dump msg st flags) (fun st' => tl st' = tl st ∧
    (flags = true → ∃ out, tout st' = out ++ rec_lines (fun _ => true) nm ix (Z.to_nat n))).
Proof.
  intros [Ht (d & Hd & Hz) [Hn Hm]] Hf Hx. unfold dump, dump_xvl. rewrite Hd, Ht. cbn [c_assert]. rewrite !bind_Ok.
  destruct flags; [|by rewrite bind_Ok].
  rewrite (dump_xvrec_ok st (fun j => 0 ≤ j < n) nm n ix d Hd Hf Hx).
  - rewrite bind_Ok. cbn [ensures]. split; [done|]. intros _. cbn [tout]. unfold recs_of. rewrite Ht, Hn.
    rewrite (rec_lines_all (listed st)); [by rewrite !app_assoc; eexists|]. intros j Hj. unfold listed. by rewrite Ht.
  - by rewrite Ht.
  - unfold recs_of. rewrite Ht, Hn. intros j Hj _. lia.
Qed.

Lemma t_vexpand_ok st n k Q nm I ix :
  vgood st n → filled st Q nm I ix → 0 < k → (n + k + 10) * SZ < 2 ^ 63 →
  ensures (t_vexpand junk plenty k st)
    (fun '(rc, st') => rc = 0 ∧ vgood st' n ∧ n + k ≤ vmax (base (tl st')) ∧ filled st' Q nm I ix).
Proof.
  intros [Ht (d & Hd & Hz) [Hn Hm]] Hf Hk Hsz. unfold t_vexpand, xvec_expand, plenty. cbn [fst].
  rewrite (proj2 (Z.eqb_neq k 0)) by lia. cbn [negb andb Z.eqb SZ Z.ltb Z.compare c_assert].
  rewrite bind_Ok, Hn, wrap_small by (unfold SZ in *; lia).
  destruct (Z.lt_ge_cases (n + k) (vmax (base (tl st)))) as [Hlt|Hge].
  - unfold xvec_reserve. cbn [Z.ltb Z.compare c_assert].
    rewrite bind_Ok, (proj2 (Z.ltb_lt (n + k) _)), bind_Ok by lia. cbn [ensures tl base].
    split; [done|]. split; [|split; [lia|done]]. split; cbn [tl base ltaken]; eauto.
  - destruct (xvec_reserve_ok junk SZ 10 ltac:(done) ltac:(done) (base (tl st)) (n + k))
      as (m & E & Hr); [lia|lia|lia|].
    rewrite E, bind_Ok. cbn [ensures tl base vmax]. split; [done|]. split; [|split; [lia|]].
    + split; cbn [tl base ltaken vdata vlen vmax]; [done| |lia].
      eexists. split; [done|]. apply length_realloc. unfold SZ. lia.
    + eapply filled_prefix; [|by eexists|exact Hf]. cbn [tl base vdata from_option].
      rewrite Hd, realloc_grow by (cbn; unfold SZ in *; lia). by apply prefix_app_r.
Qed.

Lemma add_len_ok st n k :
  vgood st n → 0 ≤ k → n + k ≤ vmax (base (tl st)) → n + k < 2 ^ 63 → vgood (add_len k st) (n + k).
Proof.
  intros [Ht Hd [Hn Hm]] Hk Hr Hb. split; cbn [add_len tl base ltaken vdata vlen vmax]; [done|done|].
  rewrite Hn, wrap_small by lia. lia.
Qed.

(** The contents and the length go together. *)
Definition vfull (h : Z) (st : tst) (n : Z) : Prop :=
  vgood st n ∧ filled st (fun j => 0 ≤ j < n) (vec_name h) n (fun j => as_long (vec_index h j)).

Lemma vfull_add h st n k :
  vgood st n → 0 ≤ k → n + k ≤ vmax (base (tl st)) → n + k < 2 ^ 63 →
  filled st (fun j => 0 ≤ j < n + k) (vec_name h) (n + k) (fun j => as_long (vec_index h j)) →
  vfull h (add_len k st) (n + k).
Proof. intros H Hk Hm Hb Hf. split; [by apply add_len_ok|exact Hf]. Qed.

Lemma vfill_one h st i :
  0 ≤ i < h → h < 2 ^ 55 → vfull h st i →
  ensures ('(rc, st) ← t_vexpand junk plenty 1 st;
      if negb (rc =? 0) then Ok (rc, emit (DFail rc) st)
      else
        st ← set_name i (snprintf_name (fmt "N" (i + 1))) st;
        st ← set_index i i st;
        Ok (0, add_len 1 st)) (fun '(rc, st') => rc = 0 ∧ vfull h st' (i + 1)).
Proof.
  intros Hi Hh [H Hf]. step t_vexpand_ok; [exact H|exact Hf|lia|unfold SZ; lia|]. clear H Hf.
  intros [rc s] (-> & H & Hr & Hf). cbn [Z.eqb negb].
  assert (Hlt : (i <? h) = true) by (apply Z.ltb_lt; lia).
  step vname_stored; [exact H|exact Hf|lia|apply snprintf_name_ok|by unfold vec_name; rewrite Hlt|]. clear H Hf.
  intros s1 (H & Hv & Hf). rewrite <- Hv in Hr. clear Hv.
  step vindex_stored; [exact H|exact Hf|lia|lia|by unfold vec_index; rewrite Hlt; apply as_long_id; lia|]. clear H Hf.
  intros s2 (H & Hv & Hf). rewrite <- Hv in Hr. cbn [ensures]. split; [done|]. apply vfull_add; [done|lia|done|lia|].
  rewrite Z.max_r in Hf by lia. eapply filled_ext; [|exact Hf]. intros j Hj. split; [lia|done].
Qed.

Lemma vfill_two h st k i :
  0 ≤ k → i = h + 2 * k → 0 ≤ h → i < 2 ^ 55 → vfull h st i →
  ensures ('(rc, st) ← t_vexpand junk plenty 2 st;
      if negb (rc =? 0) then Ok (rc, emit (DFail rc) st)
      else
        st ← set_name i (snprintf_name (fmt "F" (i + 1))) st;
        st ← set_index i (u64 (i * 2)) st;
        st ← set_name (i + 1) (snprintf_name (fmt "S" (i + 1))) st;
        st ← set_index (i + 1) (u64 (u64 (i * 2) + 1)) st;
        Ok (0, add_len 2 st)) (fun '(rc, st') => rc = 0 ∧ vfull h st' (i + 2)).
Proof.
  intros Hk Ei Hh Hb [H Hf]. step t_vexpand_ok; [exact H|exact Hf|lia|unfold SZ; lia|]. clear H Hf.
  intros [rc s] (-> & H & Hr & Hf). cbn [Z.eqb negb]. rewrite !(wrap_small 64 (i * 2)), !(wrap_small 64 (i * 2 + 1)) by lia.
  assert (E1 : (i <? h) = false ∧ (i + 1 <? h) = false) by (split; apply Z.ltb_ge; lia). destruct E1 as [E1 E2].
  assert (E3 : Z.even (i - h) = true) by (replace (i - h) with (2 * k) by lia; apply Z.even_mul).
  assert (E4 : Z.even (i + 1 - h) = false)
    by (replace (i + 1 - h) with (1 + 2 * k) by lia; rewrite Z.even_add, Z.even_mul; done).
  step vname_stored; [exact H|exact Hf|lia|apply snprintf_name_ok|by unfold vec_name; rewrite E1, E3|]. clear H Hf.
  intros s1 (H & Hv & Hf). rewrite <- Hv in Hr. clear Hv.
  step vindex_stored; [exact H|exact Hf|lia|lia|by unfold vec_index; rewrite E1, E3; apply as_long_id; lia|]. clear H Hf.
  intros s2 (H & Hv & Hf). rewrite <- Hv in Hr. clear Hv.
  step vname_stored; [exact H|exact Hf|lia|apply snprintf_name_ok|by unfold vec_name; rewrite E2, E4|]. clear H Hf.
  intros s3 (H & Hv & Hf). rewrite <- Hv in Hr. clear Hv.
  step vindex_stored; [exact H|exact Hf|lia|lia| |].
  { unfold vec_index. rewrite E2, E4, as_long_id by lia. lia. }
  clear H Hf. intros s4 (H & Hv & Hf). rewrite <- Hv in Hr. cbn [ensures]. split; [done|].
  apply vfull_add; [done|lia|done|lia|].
  replace (Z.max (Z.max i (i + 1)) (i + 1 + 1)) with (i + 2) in Hf by lia.
  eapply filled_ext; [|exact Hf]. intros j Hj. split; [lia|done].
Qed.

Lemma vfull_dump h msg st n flags :
  vfull h st n → ensures (dump msg st flags) (fun st' => vfull h st' n ∧ tl st' = tl st ∧
    (flags = true → ∃ out, tout st' = out ++ rec_lines (fun _ => true) (vec_name h) (fun j => as_long (vec_index h j)) (Z.to_nat n))).
Proof.
  intros [H Hf]. eapply ensures_mono; [by apply vdump_ok; [| |intros; apply as_long_range]|].
  intros st' [E Ho]. split; [|done]. split; [by apply (vgood_tl st)|by apply (filled_tl st)].
Qed.

(** The unit test of the vector passes for every size it accepts up to 2^54:
    each expansion makes room for the records stored next, no access leaves the
    block, and it returns 0. *)
Lemma test_xvec_run cap :
  MIN_VSIZE < cap < 2 ^ 54 → ∃ st, test_xvec junk plenty cap = Ok (0, st) ∧
    ∃ out, tout st = out ++ rec_lines (fun _ => true) (vec_name (cap / 2)) (vec_index (cap / 2)) (Z.to_nat (vlen (base (tl st)))) ∧
      2 * cap ≤ vlen (base (tl st)) ≤ 2 * cap + 1.
Proof.
  unfold MIN_VSIZE. intros Hcap. set (h := cap / 2). assert (Hh : 2 ≤ h ≤ cap) by (subst h; plia).
  enough (H : ensures (test_xvec junk plenty cap) (fun '(rc, st) => rc = 0 ∧
    ∃ out, tout st = out ++ rec_lines (fun _ => true) (vec_name h) (vec_index h) (Z.to_nat (vlen (base (tl st)))) ∧
      2 * cap ≤ vlen (base (tl st)) ≤ 2 * cap + 1)).
  { apply ensures_iff in H as ([rc st] & E & -> & H). by exists st. }
  unfold test_xvec. fold h.
  destruct (xvec_reserve_ok junk SZ 10 ltac:(done) ltac:(done) (base (tl t_init)) h)
    as (m & E & Hm); [lia|cbn; lia|unfold SZ; lia|].
  assert (E' : t_vreserve junk plenty h t_init = Ok (0, MkT (MkLst (MkVec (Some
    (realloc_block junk None (m * SZ))) 0 m) None 0 0) 1 [])).
  { unfold t_vreserve. change (fst (plenty (tk t_init))) with true. by rewrite E. }
  rewrite E', !bind_Ok. clear E E'. cbn [Z.eqb negb].
  set (st := MkT _ _ _). assert (H : vfull h st 0).
  { split; [split; cbn; [done| |lia]; eexists; split; [done|]; apply length_realloc; unfold SZ; lia|].
    eexists. split_and!; [done|lia|lia]. }
  apply ensures_bind. eapply ensures_mono; [by eapply vfull_dump|]. intros s1 (H1 & Et & _). rewrite Et.
  cbn [st tl base vlen vmax Z.eqb andb]. rewrite (proj2 (Z.leb_le h m)) by lia.
  cbn [andb c_assert]. rewrite bind_Ok.
  apply ensures_bind. eapply ensures_mono.
  { apply (for_rc_ok (fun i s => vfull h s i)); [exact H1|]. intros i s Hi Hs. apply vfill_one; [lia|lia|done]. }
  clear st H s1 H1 Et. intros [rc st] [-> H]. rewrite Z.add_0_l, Z2Nat.id in H by lia. cbn [Z.eqb negb].
  apply ensures_bind. eapply ensures_mono; [by eapply vfull_dump|]. intros s1 (H1 & _ & _).
  rewrite (proj1 (vgood_len _ _ (proj1 H1))), wrap_small by lia. cbv zeta.
  apply ensures_bind. eapply ensures_mono.
  { apply (for_rc_ok (fun k s => vfull h s (h + 2 * k))); [by rewrite Z.mul_0_r, Z.add_0_r|].
    intros k s Hk Hs. assert (h + 2 * k + 1 ≤ 2 * cap) by plia.
    replace (h + 2 * (k + 1)) with (h + 2 * k + 2) by lia. apply (vfill_two h s k); [lia|done|lia|lia|done]. }
  clear st H s1 H1. intros [rc st] [-> H].
  apply ensures_bind. eapply ensures_mono; [by eapply vfull_dump|]. intros s1 ([H1 _] & _ & Ho). cbn [ensures].
  split; [done|]. destruct (Ho eq_refl) as [out ->]. rewrite (proj1 (vgood_len _ _ H1)).
  assert (Hlen : 2 * cap ≤ h + 2 * (0 + Z.of_nat (Z.to_nat ((cap * 2 - h + 1) / 2))) ≤ 2 * cap + 1) by plia.
  exists out. split; [|done]. f_equal. apply rec_lines_ext. intros j Hj. split; [done|]. apply as_long_id.
  unfold vec_index. destruct (Z.ltb_spec j h); [lia|]. destruct (Z.even _); lia.
Qed.
End vector.

(** C22: the unit tests pass for every size they accept up to 2^54, if there is
    always memory.  The test of
    the index list: all its assertions hold (a deleted index is handed out
    again, the least free index first, the whole list in sequence); the test of
    the vector: each expansion makes room for the records stored next; in both
    every record access is inside the block and the test returns 0.  The last
    lines they print (those of the index list from size 8 on) are all their
    records, with the names and numbers stored last: no growth and no deletion
    has disturbed a record that is held. *)
Theorem test_xvdat_passes junk cap :
  MIN_VSIZE < cap < 2 ^ 54 →
  (∃ st, test_xvlst junk plenty cap = Ok (0, st) ∧
    (8 ≤ cap → ∃ out, tout st = out ++ rec_lines (fun _ => true) (nm_last cap) (fun j => j) (Z.to_nat (cap + 4)))) ∧
  ∃ st, test_xvec junk plenty cap = Ok (0, st) ∧
    ∃ out, tout st = out ++ rec_lines (fun _ => true) (vec_name (cap / 2)) (vec_index (cap / 2)) (Z.to_nat (vlen (base (tl st)))) ∧
      2 * cap ≤ vlen (base (tl st)) ≤ 2 * cap + 1.
Proof. split; [by apply test_xvlst_run|by apply test_xvec_run]. Qed.

Lemma test_xvdat_passes_witness :
  (∃ st, test_xvlst 7 plenty 9 = Ok (0, st) ∧
    (8 ≤ 9 → ∃ out, tout st = out ++ rec_lines (fun _ => true) (nm_last 9) (fun j => j) (Z.to_nat (9 + 4)))) ∧
  ∃ st, test_xvec 7 plenty 9 = Ok (0, st) ∧
    ∃ out, tout st = out ++ rec_lines (fun _ => true) (vec_name (9 / 2)) (vec_index (9 / 2)) (Z.to_nat (vlen (base (tl st)))) ∧
      2 * 9 ≤ vlen (base (tl st)) ≤ 2 * 9 + 1.
Proof. apply (test_xvdat_passes 7 9). unfold MIN_VSIZE. lia. Defined.
