(* ===== verification/Fdio.v ===== *)
(** * fdwatch/fdio.c: full reads and writes over file descriptors

    The system calls are the interface [Os]; [OsLaws] states what their manual
    pages promise.  A state of the program is [errno], the messages printed by
    [perror] so far and the state of the system. *)

From S2P Require Import Prelude Libc.

Definition EPIPE : Z := 32.
Definition EWOULDBLOCK : Z := EAGAIN.

(** ** The system *)

Inductive io_result := IoOk (n : Z) | IoErr (e : Z).
Inductive rd_result := RdOk (d : list Z) | RdErr (e : Z).

Class Os (W : Type) := {
  (** [write (fd, b, length b)]; [writev] gathers its vector into one write *)
  os_write : Z → list Z → W → io_result * W;
  (** [read (fd, _, n)] and [pread (fd, _, n, off)] *)
  os_read : Z → Z → W → rd_result * W;
  os_pread : Z → Z → Z → W → rd_result * W
}.

(** [sink fd] is what has been written to [fd], [source fd] what can still be
    read from it, [content fd] the file behind it.  Signals interrupt a program
    finitely often: [patience] bounds how often from now on. *)
Class OsLaws (W : Type) `{Os W} := {
  sink : Z → W → list Z;
  source : Z → W → list Z;
  content : Z → W → list Z;
  patience : W → nat;
  write_ok fd b w n w' : os_write fd b w = (IoOk n, w') →
    0 ≤ n ≤ zlen b ∧ (b ≠ [] → 0 < n) ∧ sink fd w' = sink fd w ++ take (Z.to_nat n) b ∧
    (∀ fd, source fd w' = source fd w) ∧ (patience w' ≤ patience w)%nat;
  write_err fd b w e w' : os_write fd b w = (IoErr e, w') →
    0 < e ∧ sink fd w' = sink fd w ∧ (∀ fd, source fd w' = source fd w) ∧
    (patience w' ≤ patience w)%nat ∧ (e = EINTR → (patience w' < patience w)%nat);
  read_ok fd n w d w' : os_read fd n w = (RdOk d, w') → 0 ≤ n →
    zlen d ≤ n ∧ source fd w = d ++ source fd w' ∧ (0 < n → d = [] → source fd w = []) ∧
    (∀ fd, sink fd w' = sink fd w) ∧ (patience w' ≤ patience w)%nat;
  read_err fd n w e w' : os_read fd n w = (RdErr e, w') →
    0 < e ∧ source fd w' = source fd w ∧ (∀ fd, sink fd w' = sink fd w) ∧
    (patience w' ≤ patience w)%nat ∧ (e = EINTR → (patience w' < patience w)%nat);
  pread_ok fd n off w d w' : os_pread fd n off w = (RdOk d, w') → 0 ≤ n → 0 ≤ off →
    zlen d ≤ n ∧ d `prefix_of` drop (Z.to_nat off) (content fd w) ∧
    (0 < n → d = [] → drop (Z.to_nat off) (content fd w) = []) ∧
    content fd w' = content fd w ∧ (∀ fd, sink fd w' = sink fd w) ∧ (patience w' ≤ patience w)%nat;
  pread_err fd n off w e w' : os_pread fd n off w = (RdErr e, w') →
    0 < e ∧ content fd w' = content fd w ∧ (∀ fd, sink fd w' = sink fd w) ∧
    (patience w' ≤ patience w)%nat ∧ (e = EINTR → (patience w' < patience w)%nat)
}.

(** ** The code *)

Definition FDIO_QUIET_EAGAIN : Z := 1.
Definition FDIO_QUIET_EPIPE : Z := Z.shiftl 1 1.
Definition FDIO_QUIET_EINTR : Z := Z.shiftl 1 2.
Definition FDIO_SENDFILE : Z := Z.shiftl 1 3.
Definition FDIO_SENDFILE_NOWAIT : Z := Z.shiftl 1 4.

Definition has (flags f : Z) : bool := negb (Z.land flags f =? 0).

Record io (W : Type) := MkIo { ioerrno : Z; iolog : list Z; iow : W }.
Arguments MkIo {W} _ _ _.
Arguments ioerrno {W} _.
Arguments iolog {W} _.
Arguments iow {W} _.

(** The [n] bytes at [buf + off]. *)
Definition sub_bytes (buf : list Z) (off n : Z) : res (list Z) :=
  if (0 <=? off) && (0 <=? n) && (off + n <=? zlen buf) then
    Ok (take (Z.to_nat n) (drop (Z.to_nat off) buf))
  else Ub.

(** Storing [d] at [buf + off]. *)
Definition put_bytes (buf : list Z) (off : Z) (d : list Z) : res (list Z) :=
  if (0 <=? off) && (off + zlen d <=? zlen buf) then
    Ok (take (Z.to_nat off) buf ++ d ++ drop (Z.to_nat (off + zlen d)) buf)
  else Ub.

Section code.
Context {W : Type} `{Os W}.

(** [perror (...)] unless a flag keeps it quiet. *)
Definition perror_unless (quiet : bool) (s : io W) : io W :=
  if quiet then s else MkIo (ioerrno s) (iolog s ++ [ioerrno s]) (iow s).
Definition set_errno (e : Z) (s : io W) : io W := MkIo e (iolog s) (iow s).

(** The errors the flags keep quiet about in a write loop and in a read loop. *)
Definition quiet_write (flags err : Z) : bool :=
  (has flags FDIO_QUIET_EAGAIN && ((EWOULDBLOCK =? err) || (EAGAIN =? err))) ||
  (has flags FDIO_QUIET_EPIPE && (EPIPE =? err)).
Definition quiet_read (flags err : Z) : bool :=
  has flags FDIO_QUIET_EAGAIN && ((EWOULDBLOCK =? err) || (EAGAIN =? err)).

(** A call's return value and [errno]. *)
Definition write_call (fd : Z) (b : list Z) (s : io W) : Z * io W :=
  match os_write fd b (iow s) with
  | (IoOk n, w) => (n, MkIo (ioerrno s) (iolog s) w)
  | (IoErr e, w) => (-1, MkIo e (iolog s) w)
  end.

(** The state of the loop of [nwrite]: [total], [nwr], [err]. *)
Definition nwrite_body (fd : Z) (buf : list Z) (count flags : Z) (st : Z * Z * Z * io W) :
    res (ctl (Z * Z * Z * io W) (Z * Z * Z * io W)) :=
  let '(total, nwr, err, s) := st in
  if negb (total <? count) then Ok (Leave st)
  else
    b ← sub_bytes buf total (count - total);
    let '(nwr, s) := write_call fd b s in
    if nwr <=? 0 then
      let err := ioerrno s in
      if EINTR =? err then
        Ok (Next (total, nwr, 0, set_errno 0 (perror_unless (has flags FDIO_QUIET_EINTR) s)))
      else Ok (Leave (total, nwr, err, perror_unless (quiet_write flags err) s))
    else Ok (Next (total + nwr, nwr, err, s)).

Definition nwrite (fuel : nat) (fd : Z) (buf : list Z) (count flags : Z) (s : io W) : res (Z * io W) :=
  '(total, nwr, err, s) ← loop fuel (nwrite_body fd buf count flags) (0, 0, 0, s);
  let s := if negb (err =? 0) then set_errno err s else s in
  Ok (if nwr <? 0 then nwr else total, s).




(** [read] and [pread] as the loops call them: the bytes, or -1 and [errno]. *)
Definition read_call (call : W → rd_result * W) (s : io W) : option (list Z) * io W :=
  match call (iow s) with
  | (RdOk d, w) => (Some d, MkIo (ioerrno s) (iolog s) w)
  | (RdErr e, w) => (None, MkIo e (iolog s) w)
  end.

(** The loops of [nread] and [npread] differ in the call made with [total] bytes
    read so far; the state is [total], [err] and the buffer, and the flag says
    that the loop returned from the function at end of file. *)
Definition nread_body (call : Z → Z → W → rd_result * W) (count flags : Z)
    (st : Z * Z * list Z * io W) : res (ctl (Z * Z * list Z * io W) (bool * (Z * Z * list Z * io W))) :=
  let '(total, err, buf, s) := st in
  if negb (total <? count) then Ok (Leave (false, st))
  else
    let '(r, s) := read_call (call (count - total) total) s in
    match r with
    | None =>
        let err := ioerrno s in
        if EINTR =? err then
          Ok (Next (total, 0, buf, set_errno 0 (perror_unless (has flags FDIO_QUIET_EINTR) s)))
        else Ok (Leave (false, (total, err, buf, perror_unless (quiet_read flags err) s)))
    | Some d =>
        if zlen d =? 0 then Ok (Leave (true, (total, err, buf, s)))
        else buf ← put_bytes buf total d; Ok (Next (total + zlen d, err, buf, s))
    end.

Definition nread_loop (fuel : nat) (call : Z → Z → W → rd_result * W) (buf : list Z)
    (count flags : Z) (s : io W) : res (Z * list Z * io W) :=
  '(eof, (total, err, buf, s)) ← loop fuel (nread_body call count flags) (0, 0, buf, s);
  if eof : bool then Ok (total, buf, s)
  else
    let s := if negb (err =? 0) then set_errno err s else s in
    Ok (total, buf, s).

Definition nread (fuel : nat) (fd : Z) (buf : list Z) (count flags : Z) (s : io W) :
    res (Z * list Z * io W) :=
  nread_loop fuel (fun n _ => os_read fd n) buf count flags s.

Definition npread (fuel : nat) (fd : Z) (buf : list Z) (count offset flags : Z) (s : io W) :
    res (Z * list Z * io W) :=
  nread_loop fuel (fun n total => os_pread fd n (offset + total)) buf count flags s.
(** [bsd_nsendfile] (FreeBSD).  [sf off n] is sendfile from [off]: an error if
    any, and the bytes sent; [lseek_cur] and [lseek_set] are the two uses of
    [lseek] on [in_fd].  The loop's state is [total], [sbytes], the position
    [eoffset] points to, [err]. *)
Section bsd.
Variable sf : Z → Z → W → option Z * Z * W.
Variable lseek_cur : W → io_result * W.
Variable lseek_set : Z → W → io_result * W.

Definition lseek_call (call : W → io_result * W) (s : io W) : Z * io W :=
  match call (iow s) with
  | (IoOk pos, w) => (pos, MkIo (ioerrno s) (iolog s) w)
  | (IoErr e, w) => (-1, MkIo e (iolog s) w)
  end.

Definition bsd_body (count flags : Z) (st : Z * Z * Z * Z * io W) :
    res (ctl (Z * Z * Z * Z * io W) (Z * Z * Z * Z * io W)) :=
  let '(total, sbytes, eoff, err, s) := st in
  if negb (total <? count) then Ok (Leave st)
  else
    let '(e, sbytes, w) := sf eoff (count - total) (iow s) in
    match e with
    | None => Ok (Next (total + sbytes, sbytes, eoff + sbytes, err, MkIo (ioerrno s) (iolog s) w))
    | Some err =>
        let s := MkIo err (iolog s) w in
        if EINTR =? err then
          Ok (Next (total + sbytes, sbytes, eoff + sbytes, 0,
                    set_errno 0 (perror_unless (has flags FDIO_QUIET_EINTR) s)))
        else Ok (Leave (total, sbytes, eoff, err, perror_unless (quiet_write flags err) s))
    end.

Definition bsd_nsendfile (fuel : nat) (offset : option Z) (count flags : Z) (s : io W) :
    res (Z * option Z * io W) :=
  let '(start_pos, s) := match offset with None => lseek_call lseek_cur s | Some _ => (0, s) end in
  if start_pos =? -1 then
    let err := ioerrno s in Ok (-1, offset, set_errno err (perror_unless false s))
  else
    let eoff := match offset with None => start_pos | Some o => o end in
    if eoff <? 0 then Ok (-1, offset, set_errno EINVAL s)
    else
      '(total, sbytes, eoff, err, s) ← loop fuel (bsd_body count flags) (0, 0, eoff, 0, s);
      let '(pos, s) :=
        match offset with
        | None =>
            if 0 <? total then lseek_call (lseek_set (start_pos + total)) s else (eoff, s)
        | Some _ => (0, s)
        end in
      let err := if (pos =? -1) && (err =? 0) then ioerrno s else err in
      let s := if pos =? -1 then perror_unless false s else s in
      let offset := match offset with None => None | Some _ => Some (eoff + sbytes) end in
      let s := if negb (err =? 0) then set_errno err s else s in
      Ok (sbytes, offset, s).
End bsd.

Definition TRFBUF_LIMIT : Z := 1024 * 10.

(** [transfer] with the static buffer [trf_buf] as an argument and a result;
    [offset] is NULL or the value it points to, [nsendfile] the system's
    zero-copy call. *)
Definition transfer (fuel : nat) (nsendfile : Z → Z → option Z → Z → Z → io W → Z * option Z * io W)
    (out_fd in_fd : Z) (offset : option Z) (count flags : Z) (trf_buf : list Z) (s : io W) :
    res (Z * option Z * list Z * io W) :=
  if has flags FDIO_SENDFILE then
    let '(r, offset, s) := nsendfile out_fd in_fd offset count flags s in Ok (r, offset, trf_buf, s)
  else
    let nbytes := if (count =? 0) || (TRFBUF_LIMIT <? count) then TRFBUF_LIMIT else count in
    '(nrd, trf_buf, s) ← match offset with
                         | Some off => npread fuel in_fd trf_buf nbytes off flags s
                         | None => nread fuel in_fd trf_buf nbytes flags s
                         end;
    let err := ioerrno s in
    '(ntotal, s) ←
      (if (nrd <=? 0) || negb (err =? 0) then Ok (0, s)
       else
         '(nwr, s) ← nwrite fuel out_fd trf_buf nrd flags s;
         if nwr =? nrd then Ok (nwr, s)
         else if nwr <? nrd then Ok (nwr, s)
         else Abort);
    let offset := match offset with Some off => Some (off + ntotal) | None => None end in
    let s := if negb (err =? 0) then set_errno err s else s in
    Ok (ntotal, offset, trf_buf, s).
End code.

(** ** Specifications *)

Section spec.
Context {W : Type} `{OL : OsLaws W}.
Implicit Types (s : io W).

(** Everything that can still happen before [n] more bytes have gone through. *)
Definition budget (n : Z) s : nat := (Z.to_nat n + patience (iow s))%nat.

Lemma sub_bytes_ok buf off n :
  0 ≤ off → 0 ≤ n → off + n ≤ zlen buf →
  sub_bytes buf off n = Ok (take (Z.to_nat n) (drop (Z.to_nat off) buf)).
Proof.
  intros H1 H2 H3. unfold sub_bytes.
  by rewrite (proj2 (Z.leb_le 0 off)), (proj2 (Z.leb_le 0 n)), (proj2 (Z.leb_le _ _)) by lia.
Qed.

Lemma length_sub_bytes {A} (buf : list A) off n :
  0 ≤ off → 0 ≤ n → off + n ≤ zlen buf → zlen (take (Z.to_nat n) (drop (Z.to_nat off) buf)) = n.
Proof. intros. rewrite length_take, length_drop. lia. Qed.

(** One write call. *)
Lemma write_call_ok fd b s :
  b ≠ [] →
  (∃ n s', write_call fd b s = (n, s') ∧ 0 < n ≤ zlen b ∧ ioerrno s' = ioerrno s ∧
     sink fd (iow s') = sink fd (iow s) ++ take (Z.to_nat n) b ∧
     (∀ fd, source fd (iow s') = source fd (iow s)) ∧
     (patience (iow s') ≤ patience (iow s))%nat ∧ iolog s' = iolog s) ∨
  (∃ s', write_call fd b s = (-1, s') ∧ 0 < ioerrno s' ∧
     sink fd (iow s') = sink fd (iow s) ∧ (∀ fd, source fd (iow s') = source fd (iow s)) ∧
     (patience (iow s') ≤ patience (iow s))%nat ∧
     (ioerrno s' = EINTR → (patience (iow s') < patience (iow s))%nat)).
Proof.
  intros Hb. unfold write_call. destruct (os_write fd b (iow s)) as [[n|e] w'] eqn:E.
  - left. apply write_ok in E as (Hn & Hpos & Hs & Hsrc & Hp). specialize (Hpos Hb).
    exists n, (MkIo (ioerrno s) (iolog s) w'). split_and!; try done; lia.
  - right. apply write_err in E as (He & Hs & Hsrc & Hp & Hi).
    exists (MkIo e (iolog s) w'). split_and!; done.
Qed.

Lemma iow_perror q s : iow (perror_unless q s) = iow s.
Proof. by destruct q. Qed.
Lemma errno_perror q s : ioerrno (perror_unless q s) = ioerrno s.
Proof. by destruct q. Qed.

(** [errno] is untouched unless an interruption cleared it. *)
Definition kept s s' : Prop :=
  ioerrno s' = ioerrno s ∨ (ioerrno s' = 0 ∧ (patience (iow s') < patience (iow s))%nat).

Lemma kept_next s s1 s2 :
  kept s s1 → ioerrno s2 = ioerrno s1 → (patience (iow s2) ≤ patience (iow s1))%nat → kept s s2.
Proof. unfold kept. lia. Qed.

(** What [nwrite] has done when its loop stops. *)
Definition wrote (fd : Z) (b : list Z) s s' : Prop :=
  sink fd (iow s') = sink fd (iow s) ++ b ∧ (∀ fd, source fd (iow s') = source fd (iow s)) ∧
  (patience (iow s') ≤ patience (iow s))%nat.

Lemma wrote_nil fd s : wrote fd [] s s.
Proof. split_and!; try done. by rewrite app_nil_r. Qed.

Lemma wrote_trans fd b b' s1 s2 s3 : wrote fd b s1 s2 → wrote fd b' s2 s3 → wrote fd (b ++ b') s1 s3.
Proof.
  intros (H1 & H2 & H3) (H1' & H2' & H3'). split_and!; [|intros; by rewrite H2'|lia].
  by rewrite H1', H1, app_assoc.
Qed.

Lemma wrote_iow fd b s s' s'' : iow s'' = iow s' → wrote fd b s s' → wrote fd b s s''.
Proof. intros E. unfold wrote. by rewrite E. Qed.

(** A failed call writes nothing; an interruption clears [errno]. *)
Lemma wrote_idle fd b s s1 s2 s3 :
  wrote fd b s s1 → sink fd (iow s2) = sink fd (iow s1) → (∀ fd, source fd (iow s2) = source fd (iow s1)) →
  (patience (iow s2) ≤ patience (iow s1))%nat → iow s3 = iow s2 → wrote fd b s s3.
Proof.
  intros Hw Hs Hsrc Hp E. rewrite <- (app_nil_r b). eapply wrote_trans; [exact Hw|].
  eapply wrote_iow; [exact E|]. split_and!; [by rewrite app_nil_r|done|done].
Qed.

Lemma kept_interrupted quiet s s1 s2 :
  (patience (iow s1) ≤ patience (iow s))%nat → (patience (iow s2) < patience (iow s1))%nat →
  kept s (set_errno 0 (perror_unless quiet s2)).
Proof. intros H1 H2. right. cbn [set_errno ioerrno iow]. rewrite iow_perror. split; [done|lia]. Qed.

(** The invariant of [nwrite]'s loop, and what holds when it is left. *)
Definition nwriting (fd : Z) (buf : list Z) (count : Z) s (st : Z * Z * Z * io W) : Prop :=
  let '(total, nwr, err, s') := st in
  0 ≤ total ≤ count ∧ err = 0 ∧ (nwr < 0 → total < count) ∧
  wrote fd (take (Z.to_nat total) buf) s s' ∧ kept s s'.
Definition nwritten (fd : Z) (buf : list Z) (count : Z) s (st : Z * Z * Z * io W) : Prop :=
  let '(total, nwr, err, s') := st in
  0 ≤ total ≤ count ∧ wrote fd (take (Z.to_nat total) buf) s s' ∧
  ((total = count ∧ 0 ≤ nwr ∧ err = 0 ∧ kept s s') ∨
   (nwr = -1 ∧ total < count ∧ 0 < err ∧ err ≠ EINTR)).

Lemma nwrite_body_run fd buf count flags s st :
  count ≤ zlen buf → nwriting fd buf count s st →
  ensures (nwrite_body fd buf count flags st) (fun c => match c with
    | Next st' => nwriting fd buf count s st' ∧
        (budget (count - st'.1.1.1) st'.2 < budget (count - st.1.1.1) st.2)%nat
    | Leave st' => nwritten fd buf count s st' end).
Proof.
  destruct st as [[[total nwr] err] s1]. intros Hc (Ht & -> & Hn & Hw & He). unfold nwrite_body.
  destruct (Z.ltb_spec total count) as [Hlt|Hge]; cbn [negb].
  2: { cbn [ensures]. split_and!; try done; try lia. left. split_and!; (done || lia). }
  rewrite sub_bytes_ok, bind_Ok by lia. set (b := take _ _).
  assert (Hzb : zlen b = count - total) by (apply length_sub_bytes; lia).
  assert (Hb : b ≠ []) by (intros E; rewrite E in Hzb; cbn in Hzb; lia).
  destruct (write_call_ok fd b s1 Hb) as
    [(n & s2 & -> & Hnr & He2 & Hs2 & Hsrc & Hp & _)|(s2 & -> & He2 & Hs2 & Hsrc & Hp & Hpi)].
  - rewrite (proj2 (Z.leb_gt n 0)) by lia. cbn [ensures fst snd]. split; [|unfold budget; lia].
    split_and!; [lia|lia|done|lia| |by eapply kept_next].
    replace (Z.to_nat (total + n)) with (Z.to_nat total + Z.to_nat n)%nat by lia.
    rewrite <- take_take_drop. eapply wrote_trans; [done|]. split_and!; try done.
    rewrite Hs2. f_equal. subst b. rewrite take_take. f_equal. lia.
  - cbn [Z.leb Z.compare]. destruct (Z.eqb_spec EINTR (ioerrno s2)) as [Ee|Ee]; cbn [ensures fst snd].
    + specialize (Hpi (eq_sym Ee)). split; [|unfold budget; cbn [set_errno iow]; rewrite iow_perror; lia].
      split_and!; [lia|lia|done|done| |eapply kept_interrupted; [apply Hw|done]].
      eapply wrote_idle; [done..|]. cbn. by rewrite iow_perror.
    + split_and!; [lia|lia| |right; split_and!; try done; congruence].
      eapply wrote_idle; [done..|]. by rewrite iow_perror.
Qed.

Lemma nwrite_run fuel fd buf count flags s :
  0 ≤ count ≤ zlen buf → (budget count s < fuel)%nat →
  ∃ ret k s', nwrite fuel fd buf count flags s = Ok (ret, s') ∧
    0 ≤ k ≤ count ∧ wrote fd (take (Z.to_nat k) buf) s s' ∧
    ((ret = count ∧ k = count ∧ kept s s') ∨
     (ret = -1 ∧ k < count ∧ 0 < ioerrno s' ∧ ioerrno s' ≠ EINTR)).
Proof.
  intros Hc Hf. unfold nwrite.
  assert (H0 : ensures (loop fuel (nwrite_body fd buf count flags) (0, 0, 0, s)) (nwritten fd buf count s)).
  { apply (loop_total (nwriting fd buf count s) (fun st => budget (count - st.1.1.1) st.2));
      [|split_and!; first [lia | apply wrote_nil | by left]|simpl; by rewrite Z.sub_0_r].
    intros st. apply nwrite_body_run. lia. }
  apply ensures_iff in H0 as ([[[total nwr] err] s'] & -> & Ht & Hw & Hq). rewrite bind_Ok.
  eexists _, total, _. split; [done|]. split; [done|].
  destruct Hq as [(-> & Hn & -> & He)|(-> & Hlt & He & Hne)].
  - rewrite (proj2 (Z.ltb_ge nwr 0)) by lia. cbn [negb Z.eqb]. split; [done|]. left. by split_and!.
  - rewrite (proj2 (Z.eqb_neq err 0)) by lia. cbn [negb Z.ltb Z.compare].
    split; [by eapply wrote_iow|]. right. by split_and!.
Qed.

(** ** Reading *)

Lemma put_bytes_patch d d' buf :
  zlen d + zlen d' ≤ zlen buf → put_bytes (patch d buf) (zlen d) d' = Ok (patch (d ++ d') buf).
Proof.
  intros Hl. unfold put_bytes. rewrite length_patch by lia.
  rewrite (proj2 (Z.leb_le 0 _)), (proj2 (Z.leb_le _ _)) by lia. cbn [andb]. f_equal. unfold patch.
  rewrite Nat2Z.id, take_app_length, <- app_assoc. do 2 f_equal.
  rewrite drop_app_ge, drop_drop, length_app by lia. f_equal. lia.
Qed.

(** What a read loop relies on: [avail total w] is what is left to read after
    [total] bytes. *)
Record reads (call : Z → Z → W → rd_result * W) (avail : Z → W → list Z) : Prop := {
  reads_ok n total w d w' : 0 ≤ n → 0 ≤ total → call n total w = (RdOk d, w') →
    zlen d ≤ n ∧ avail total w = d ++ avail (total + zlen d) w' ∧ (0 < n → d = [] → avail total w = []) ∧
    (∀ fd, sink fd w' = sink fd w) ∧ (patience w' ≤ patience w)%nat;
  reads_err n total w e w' : 0 ≤ total → call n total w = (RdErr e, w') →
    0 < e ∧ avail total w' = avail total w ∧ (∀ fd, sink fd w' = sink fd w) ∧
    (patience w' ≤ patience w)%nat ∧ (e = EINTR → (patience w' < patience w)%nat)
}.

Lemma reads_read fd : reads (fun n _ => os_read fd n) (fun _ => source fd).
Proof.
  split.
  - intros n total w d w' Hn Ht E. apply read_ok in E; [naive_solver|done].
  - intros n total w e w' Ht E. apply read_err in E. naive_solver.
Qed.

Lemma reads_pread fd off : 0 ≤ off →
  reads (fun n total => os_pread fd n (off + total))
    (fun total w => drop (Z.to_nat (off + total)) (content fd w)).
Proof.
  intros Hoff. split.
  - intros n total w d w' Hn Ht E.
    apply pread_ok in E as (H1 & [r Hr] & H3 & H4 & H5 & H6); [|lia|lia]. split_and!; try done.
    rewrite H4. rewrite Hr. f_equal.
    replace (Z.to_nat (off + (total + zlen d))) with (Z.to_nat (off + total) + length d)%nat by lia.
    by rewrite <- drop_drop, Hr, drop_app_length.
  - intros n total w e w' Ht E. apply pread_err in E as (H1 & H2 & H3 & H4 & H5). rewrite H2. by split_and!.
Qed.

(** How a read loop ends: complete, at end of file, or with an error. *)
Definition read_end (avail : Z → W → list Z) (count total : Z) s s' : Prop :=
  (total = count ∧ kept s s') ∨
  (total < count ∧ avail total (iow s') = [] ∧ kept s s') ∨
  (total < count ∧ 0 < ioerrno s' ∧ ioerrno s' ≠ EINTR).

(** The invariant of a read loop: [d] has been read since [s]; and how it is left. *)
Definition nread_got (avail : Z → W → list Z) (buf : list Z) (count : Z) s (total : Z) (b : list Z) s' : Prop :=
  ∃ d, b = patch d buf ∧ zlen d = total ∧ total ≤ count ∧ avail 0 (iow s) = d ++ avail total (iow s') ∧
    (∀ fd, sink fd (iow s') = sink fd (iow s)) ∧ (patience (iow s') ≤ patience (iow s))%nat.
Definition nreading avail (buf : list Z) (count : Z) s (st : Z * Z * list Z * io W) : Prop :=
  let '(total, err, b, s') := st in nread_got avail buf count s total b s' ∧ err = 0 ∧ kept s s'.
Definition has_read avail (buf : list Z) (count : Z) s (r : bool * (Z * Z * list Z * io W)) : Prop :=
  let '(eof, (total, err, b, s')) := r in
  nread_got avail buf count s total b s' ∧
  (if eof then total < count ∧ avail total (iow s') = [] ∧ err = 0 ∧ kept s s'
   else (total = count ∧ err = 0 ∧ kept s s') ∨ (total < count ∧ 0 < err ∧ err ≠ EINTR)).

Lemma nread_body_run call avail buf count flags s st :
  reads call avail → count ≤ zlen buf → nreading avail buf count s st →
  ensures (nread_body call count flags st) (fun c => match c with
    | Next st' => nreading avail buf count s st' ∧
        (budget (count - st'.1.1.1) st'.2 < budget (count - st.1.1.1) st.2)%nat
    | Leave r => has_read avail buf count s r end).
Proof.
  destruct st as [[[total err] b] s1]. intros HR Hc (HG & -> & He). unfold nread_body.
  destruct (Z.ltb_spec total count) as [Hlt|Hge]; cbn [negb].
  2: { cbn [ensures]. split; [done|]. left. destruct HG as (d & _ & Hd & Hle & _). split_and!; [lia|done|done]. }
  destruct HG as (d & -> & Hd & Hle & Ha & Hs & Hp). unfold read_call.
  destruct (call (count - total) total (iow s1)) as [[d'|e] w'] eqn:E.
  - apply (reads_ok _ _ HR) in E as (Hn & Hav & Heof & Hs' & Hp'); [|lia|lia].
    destruct (Z.eqb_spec (zlen d') 0) as [E0|E0].
    + cbn [ensures]. assert (d' = []) as -> by (by destruct d').
      cbn [length] in Hav. rewrite Z.add_0_r in Hav. specialize (Heof ltac:(lia) eq_refl).
      split; [|split_and!; [lia|by rewrite <- Heof, Hav|done|by eapply kept_next]].
      exists d. split_and!; try done; [by rewrite Ha, Hav|intros; by rewrite Hs'|cbn; lia].
    + rewrite <- Hd, put_bytes_patch, bind_Ok by lia. cbn [ensures fst snd]. split; [|unfold budget; cbn [iow]; lia].
      split; [|split; [done|by eapply kept_next]]. exists (d ++ d'). rewrite length_app. cbn [iow].
      split_and!; [done|lia|lia| |intros; by rewrite Hs'|lia].
      rewrite Ha, Hav, <- app_assoc. by rewrite ?Hd.
  - apply (reads_err _ _ HR) in E as (He' & Hav & Hs' & Hp' & Hi); [|lia]. cbn [ioerrno].
    assert (HG : ∀ s2, iow s2 = w' → nread_got avail buf count s total (patch d buf) s2).
    { intros s2 Es. exists d. rewrite Es, Hav. split_and!; try done; [intros; by rewrite Hs'|lia]. }
    destruct (Z.eqb_spec EINTR e) as [Ee|Ee]; cbn [ensures fst snd].
    + specialize (Hi (eq_sym Ee)). split; [|unfold budget; cbn [set_errno iow]; rewrite iow_perror; cbn [iow]; lia].
      split_and!; [apply HG; cbn; by rewrite iow_perror|done|by eapply kept_interrupted].
    + split; [apply HG; by rewrite iow_perror|]. right. split_and!; [lia|done|congruence].
Qed.

Lemma nread_run fuel call avail buf count flags s :
  reads call avail → 0 ≤ count ≤ zlen buf → (budget count s < fuel)%nat →
  ∃ d s', nread_loop fuel call buf count flags s = Ok (zlen d, patch d buf, s') ∧
    zlen d ≤ count ∧ avail 0 (iow s) = d ++ avail (zlen d) (iow s') ∧
    (∀ fd, sink fd (iow s') = sink fd (iow s)) ∧ (patience (iow s') ≤ patience (iow s))%nat ∧
    read_end avail count (zlen d) s s'.
Proof.
  intros HR Hc Hf. unfold nread_loop.
  assert (H0 : ensures (loop fuel (nread_body call count flags) (0, 0, buf, s)) (has_read avail buf count s)).
  { apply (loop_total (nreading avail buf count s) (fun st => budget (count - st.1.1.1) st.2));
      [intros st; apply nread_body_run; (done || lia)| |simpl; by rewrite Z.sub_0_r].
    split; [|by split; [|left]]. exists []. split_and!; done || lia. }
  apply ensures_iff in H0 as ([eof [[[total err] b] s']] & -> & (d & -> & Hd & Hle & Ha & Hs & Hp) & Hq).
  rewrite bind_Ok. destruct eof.
  - destruct Hq as (Hlt & Hav & _ & He). exists d, s'. rewrite Hd. split_and!; try done. right. left. by split_and!.
  - destruct Hq as [(-> & -> & He)|(Hlt & He & Hne)].
    + exists d, s'. rewrite Hd. split_and!; try done. by left.
    + exists d, (set_errno err s'). rewrite Hd, (proj2 (Z.eqb_neq err 0)) by lia.
      split_and!; try done. right. right. by split_and!.
Qed.

(** ** Gathered writes *)





(** ** Properties *)

(** C13: [nwrite] offers every byte once and in order, restarts after every
    interruption and always ends.  It returns [count] when all bytes have been
    accepted; otherwise it returns -1 with the error in [errno], although a
    prefix of the buffer (whose length the caller is not told) may have been
    written. *)
Theorem nwrite_spec fuel fd buf count flags s :
  0 ≤ count ≤ zlen buf → (budget count s < fuel)%nat →
  ∃ ret k s', nwrite fuel fd buf count flags s = Ok (ret, s') ∧
    0 ≤ k ≤ count ∧ wrote fd (take (Z.to_nat k) buf) s s' ∧
    ((ret = count ∧ k = count ∧ kept s s') ∨
     (ret = -1 ∧ k < count ∧ 0 < ioerrno s' ∧ ioerrno s' ≠ EINTR)).
Proof. apply nwrite_run. Qed.


(** C32: [nread] and [npread] store the bytes read at the start of the buffer, lose
    none and always end.  Their result is never negative: it is the number of
    bytes read, equal to [count] unless the file ended or the call failed, and
    only [errno] tells these two apart (at end of file it is left as it was). *)
Theorem nread_spec fuel fd buf count off flags s :
  0 ≤ count ≤ zlen buf → (budget count s < fuel)%nat → 0 ≤ off →
  (∃ d s', nread fuel fd buf count flags s = Ok (zlen d, patch d buf, s') ∧
     zlen d ≤ count ∧ source fd (iow s) = d ++ source fd (iow s') ∧
     read_end (fun _ => source fd) count (zlen d) s s') ∧
  (∃ d s', npread fuel fd buf count off flags s = Ok (zlen d, patch d buf, s') ∧
     zlen d ≤ count ∧ d `prefix_of` drop (Z.to_nat off) (content fd (iow s)) ∧
     read_end (fun total w => drop (Z.to_nat (off + total)) (content fd w)) count (zlen d) s s').
Proof.
  intros Hc Hf Hoff. split.
  - destruct (nread_run fuel _ _ buf count flags s (reads_read fd) Hc Hf) as (d & s' & E & Hl & Ha & _ & _ & He).
    by exists d, s'.
  - destruct (nread_run fuel _ _ buf count flags s (reads_pread fd off Hoff) Hc Hf)
      as (d & s' & E & Hl & Ha & _ & _ & He).
    exists d, s'. split_and!; [done|done| |done]. rewrite Z.add_0_r in Ha. eexists. exact Ha.
Qed.

(** What is left to read from the stream, or from the file at an offset. *)
Definition avail_of (fd : Z) (offset : option Z) (total : Z) (w : W) : list Z :=
  match offset with
  | Some off => drop (Z.to_nat (off + total)) (content fd w)
  | None => source fd w
  end.

(** Reading into the transfer buffer, from the stream or from an offset. *)
Lemma transfer_read fuel fd offset flags trf_buf n s :
  0 ≤ n ≤ zlen trf_buf → (budget n s < fuel)%nat → (∀ off, offset = Some off → 0 ≤ off) →
  ∃ d s1,
    (match offset with
     | Some off => npread fuel fd trf_buf n off flags s
     | None => nread fuel fd trf_buf n flags s
     end) = Ok (zlen d, patch d trf_buf, s1) ∧ zlen d ≤ n ∧
    (match offset with
     | Some off => d `prefix_of` drop (Z.to_nat off) (content fd (iow s))
     | None => source fd (iow s) = d ++ source fd (iow s1)
     end) ∧
    (∀ fd, sink fd (iow s1) = sink fd (iow s)) ∧ (patience (iow s1) ≤ patience (iow s))%nat ∧
    read_end (avail_of fd offset) n (zlen d) s s1.
Proof.
  intros Hn Hf Hoff. destruct offset as [off|].
  - destruct (nread_run fuel _ _ trf_buf n flags s (reads_pread fd off (Hoff off eq_refl)) Hn Hf)
      as (d & s1 & E & Hl & Ha & Hs & Hp & He). exists d, s1.
    split_and!; try done. rewrite Z.add_0_r in Ha. eexists. exact Ha.
  - destruct (nread_run fuel _ _ trf_buf n flags s (reads_read fd) Hn Hf)
      as (d & s1 & E & Hl & Ha & Hs & Hp & He). exists d, s1. by split_and!.
Qed.

(** How many bytes [transfer] asks for. *)
Definition wanted (count : Z) : Z := if (count =? 0) || (TRFBUF_LIMIT <? count) then TRFBUF_LIMIT else count.

(** What [transfer] does once the read has stored [d] and left [s1]. *)
Definition transferred (out_fd : Z) (d : list Z) s1 (ret : Z) s' : Prop :=
  if (zlen d =? 0) || negb (ioerrno s1 =? 0) then ret = 0 ∧ ioerrno s' = ioerrno s1 ∧ iow s' = iow s1
  else (ret = zlen d ∧ ioerrno s' = 0 ∧ wrote out_fd d s1 s') ∨
       (ret = -1 ∧ 0 < ioerrno s' ∧ ioerrno s' ≠ EINTR ∧ ∃ k, (k < length d)%nat ∧ wrote out_fd (take k d) s1 s').

Lemma transfer_outcome fuel nsendfile out_fd in_fd offset count flags trf_buf s :
  has flags FDIO_SENDFILE = false → 0 ≤ count → zlen trf_buf = TRFBUF_LIMIT + 1 →
  (budget TRFBUF_LIMIT s < fuel)%nat → (∀ off, offset = Some off → 0 ≤ off) →
  ∃ d s1 ret s',
    (match offset with
     | Some off => npread fuel in_fd trf_buf (wanted count) off flags s
     | None => nread fuel in_fd trf_buf (wanted count) flags s
     end) = Ok (zlen d, patch d trf_buf, s1) ∧
    zlen d ≤ wanted count ∧
    (match offset with
     | Some off => d `prefix_of` drop (Z.to_nat off) (content in_fd (iow s))
     | None => source in_fd (iow s) = d ++ source in_fd (iow s1)
     end) ∧
    (∀ fd, sink fd (iow s1) = sink fd (iow s)) ∧ (patience (iow s1) ≤ patience (iow s))%nat ∧
    read_end (avail_of in_fd offset) (wanted count) (zlen d) s s1 ∧
    transfer fuel nsendfile out_fd in_fd offset count flags trf_buf s =
      Ok (ret, (fun off => off + ret) <$> offset, patch d trf_buf, s') ∧
    (d ≠ [] → ioerrno s1 = 0 → nwrite fuel out_fd (patch d trf_buf) (zlen d) flags s1 = Ok (ret, s')) ∧
    transferred out_fd d s1 ret s'.
Proof.
  intros Hfl Hc Hz Hf Hoff. unfold transfer. rewrite Hfl. fold (wanted count).
  assert (Hn : 0 ≤ wanted count ≤ TRFBUF_LIMIT).
  { unfold wanted. destruct (Z.eqb_spec count 0), (Z.ltb_spec TRFBUF_LIMIT count); unfold TRFBUF_LIMIT in *; cbn [orb]; lia. }
  destruct (transfer_read fuel in_fd offset flags trf_buf (wanted count) s) as (d & s1 & E & Hl & Hsrc & Hs & Hp & He);
    [lia|unfold budget in *; lia|done|].
  rewrite E, bind_Ok. exists d, s1. replace (zlen d <=? 0) with (zlen d =? 0) by
    (destruct (Z.eqb_spec (zlen d) 0), (Z.leb_spec (zlen d) 0); lia).
  unfold transferred. destruct ((zlen d =? 0) || negb (ioerrno s1 =? 0))%bool eqn:Eb.
  - rewrite bind_Ok. exists 0, (if negb (ioerrno s1 =? 0) then set_errno (ioerrno s1) s1 else s1).
    repeat (split; [by destruct offset|]). split.
    + intros Hd He1. rewrite He1 in Eb. by destruct d.
    + by destruct (negb (ioerrno s1 =? 0)).
  - destruct (nwrite_run fuel out_fd (patch d trf_buf) (zlen d) flags s1) as (r & k & s2 & E2 & Hk & Hw & Hr).
    { rewrite length_patch by lia. lia. }
    { unfold budget in *. lia. }
    rewrite E2, bind_Ok. apply orb_false_iff in Eb as [Eb0 Eb].
    assert (Hsr : (if r =? zlen d then Ok (r, s2) else if r <? zlen d then Ok (r, s2) else Abort) = Ok (r, s2)).
    { destruct (Z.eqb_spec r (zlen d)); [done|]. by rewrite (proj2 (Z.ltb_lt r _)) by lia. }
    rewrite Hsr, bind_Ok, Eb. exists r, s2. do 8 (split; [by destruct offset|]).
    assert (Ht : take (Z.to_nat k) (patch d trf_buf) = take (Z.to_nat k) d)
      by (unfold patch; by rewrite take_app_le by lia).
    rewrite Ht in Hw. apply negb_false_iff, Z.eqb_eq in Eb.
    destruct Hr as [(-> & -> & Hkept)|(-> & Hlt & He' & Hne)]; [left|right].
    + rewrite Nat2Z.id, firstn_all in Hw. split_and!; [done| |done..]. destruct Hkept as [->|[-> _]]; done.
    + split_and!; try done. exists (Z.to_nat k). split; [lia|done].
Qed.

Lemma transfer_run fuel nsendfile out_fd in_fd offset count flags trf_buf s :
  has flags FDIO_SENDFILE = false → 0 ≤ count → zlen trf_buf = TRFBUF_LIMIT + 1 →
  (budget TRFBUF_LIMIT s < fuel)%nat → (∀ off, offset = Some off → 0 ≤ off) →
  ∃ ret d k s1 s',
    transfer fuel nsendfile out_fd in_fd offset count flags trf_buf s =
      Ok (ret, (fun off => off + ret) <$> offset, patch d trf_buf, s') ∧
    zlen d ≤ (if (count =? 0) || (TRFBUF_LIMIT <? count) then TRFBUF_LIMIT else count) ∧
    (match offset with
     | Some off => d `prefix_of` drop (Z.to_nat off) (content in_fd (iow s))
     | None => source in_fd (iow s) = d ++ source in_fd (iow s')
     end) ∧
    sink out_fd (iow s') = sink out_fd (iow s) ++ take (Z.to_nat k) d ∧
    (patience (iow s1) ≤ patience (iow s))%nat ∧
    read_end (avail_of in_fd offset) (if (count =? 0) || (TRFBUF_LIMIT <? count) then TRFBUF_LIMIT else count) (zlen d) s s1 ∧
    (if (zlen d =? 0) || negb (ioerrno s1 =? 0) then ret = 0 ∧ k = 0 ∧ ioerrno s' = ioerrno s1 ∧ iow s' = iow s1
     else (ret = zlen d ∧ k = zlen d) ∨ (ret = -1 ∧ 0 ≤ k < zlen d ∧ 0 < ioerrno s')).
Proof.
  intros Hfl Hc Hz Hf Hoff.
  destruct (transfer_outcome fuel nsendfile out_fd in_fd offset count flags trf_buf s Hfl Hc Hz Hf Hoff)
    as (d & s1 & ret & s' & _ & Hl & Hsrc & Hs & Hp & He & E & _ & Ht).
  unfold transferred in Ht. destruct ((zlen d =? 0) || negb (ioerrno s1 =? 0))%bool eqn:Eb.
  - destruct Ht as (-> & He1 & Hw). exists 0, d, 0, s1, s'. rewrite Eb, Hw. split_and!; try done.
    by rewrite app_nil_r, Hs.
  - destruct Ht as [(-> & _ & Hw1 & Hw2 & _)|(-> & He1 & _ & k & Hk & Hw1 & Hw2 & _)].
    + exists (zlen d), d, (zlen d), s1, s'. rewrite Eb. split_and!; try done; [|by rewrite Hw1, Hs, Nat2Z.id, firstn_all|by left].
      destruct offset; [done|]. by rewrite Hsrc, Hw2.
    + exists (-1), d, (Z.of_nat k), s1, s'. rewrite Eb. split_and!; try done; [|by rewrite Hw1, Hs, Nat2Z.id|right; lia].
      destruct offset; [done|]. by rewrite Hsrc, Hw2.
Qed.

(** What the read calls on one descriptor and the write calls on the other keep,
    [transfer] keeps. *)
Section stable.
Variable P : W → Prop.
Variables in_fd out_fd : Z.
Hypothesis P_read : ∀ n w r w', P w → 0 ≤ n → os_read in_fd n w = (r, w') → P w'.
Hypothesis P_write : ∀ b w r w', P w → os_write out_fd b w = (r, w') → P w'.

Lemma nread_stable fuel buf count flags s d buf' s' :
  P (iow s) → nread fuel in_fd buf count flags s = Ok (d, buf', s') → P (iow s').
Proof.
  intros H0. unfold nread, nread_loop. intros E.
  apply bind_ok_inv in E as ([eof [[[total err] b] s1]] & E & E').
  enough (P (iow s1)) by (destruct eof; [|destruct (negb (err =? 0))]; simplify_eq; done).
  revert E. apply (loop_partial (fun st => P (iow st.2)) (fun r => P (iow r.2.2))); [|done].
  intros [[[total1 err1] b1] s2] c HP. unfold nread_body. cbn [snd] in HP.
  destruct (Z.ltb_spec total1 count); cbn [negb]; [|by intros [= <-]].
  unfold read_call. destruct (os_read in_fd (count - total1) (iow s2)) as [[d1|e] w] eqn:Er;
    apply (P_read _ _ _ _ HP) in Er; [|lia| |lia].
  - destruct (zlen d1 =? 0); [by intros [= <-]|]. destruct (put_bytes _ _ _); by intros [= <-].
  - destruct (EINTR =? _); intros [= <-]; cbn; by rewrite iow_perror.
Qed.

Lemma nwrite_stable fuel buf count flags s r s' :
  P (iow s) → nwrite fuel out_fd buf count flags s = Ok (r, s') → P (iow s').
Proof.
  intros H0. unfold nwrite. intros E.
  apply bind_ok_inv in E as ([[[total nwr] err] s1] & E & E').
  enough (P (iow s1)) by (destruct (negb (err =? 0)); simplify_eq; done).
  revert E. apply (loop_partial (fun st => P (iow st.2)) (fun st => P (iow st.2))); [|done].
  intros [[[total1 nwr1] err1] s2] c HP. unfold nwrite_body. cbn [snd] in HP.
  destruct (total1 <? count); cbn [negb]; [|by intros [= <-]].
  destruct (sub_bytes _ _ _) as [b| | |]; try done. rewrite bind_Ok. unfold write_call.
  destruct (os_write out_fd b (iow s2)) as [[n|e] w] eqn:Ew; apply (P_write _ _ _ _ HP) in Ew.
  - destruct (n <=? 0); [|by intros [= <-]].
    destruct (EINTR =? _); intros [= <-]; cbn; by rewrite iow_perror.
  - cbn [Z.leb Z.compare]. destruct (EINTR =? _); intros [= <-]; cbn; by rewrite iow_perror.
Qed.

Lemma transfer_stable fuel nsendfile count flags buf s r buf' s' :
  has flags FDIO_SENDFILE = false → P (iow s) →
  transfer fuel nsendfile out_fd in_fd None count flags buf s = Ok (r, None, buf', s') → P (iow s').
Proof.
  intros Hfl H0. unfold transfer. rewrite Hfl. intros E.
  apply bind_ok_inv in E as ([[nrd b1] s1] & E1 & E). apply nread_stable in E1; [|done].
  apply bind_ok_inv in E as ([nt s2] & E2 & E).
  enough (P (iow s2)) by (destruct (negb (ioerrno s1 =? 0)); simplify_eq; done).
  destruct (_ || _); [by simplify_eq|].
  apply bind_ok_inv in E2 as ([nwr s3] & E3 & E2). apply nwrite_stable in E3; [|done].
  destruct (nwr =? nrd); [|destruct (nwr <? nrd)]; by simplify_eq.
Qed.
End stable.

(** C23: [transfer] without sendfile, in every case.  It reads, from the stream or
    at the offset, the bytes wanted (the count, or 10240 if that is 0 or too
    large).  If nothing was read, or [errno] is set after the read, the result is
    0 and nothing is written: bytes read before an error are dropped, though a
    stream has lost them.  Otherwise everything read is written and the result
    is its length; or the write fails with a positive [errno] and the result
    is -1, a proper prefix having been written.  The offset is advanced by the
    result, so that a failed write moves it back by one. *)
Theorem transfer_spec fuel nsendfile out_fd in_fd offset count flags trf_buf s :
  has flags FDIO_SENDFILE = false → 0 ≤ count → zlen trf_buf = TRFBUF_LIMIT + 1 →
  (budget TRFBUF_LIMIT s < fuel)%nat → (∀ off, offset = Some off → 0 ≤ off) →
  ∃ d s1 ret s',
    (match offset with
     | Some off => npread fuel in_fd trf_buf (wanted count) off flags s
     | None => nread fuel in_fd trf_buf (wanted count) flags s
     end) = Ok (zlen d, patch d trf_buf, s1) ∧
    zlen d ≤ wanted count ∧
    (match offset with
     | Some off => d `prefix_of` drop (Z.to_nat off) (content in_fd (iow s))
     | None => source in_fd (iow s) = d ++ source in_fd (iow s1)
     end) ∧
    (∀ fd, sink fd (iow s1) = sink fd (iow s)) ∧
    read_end (avail_of in_fd offset) (wanted count) (zlen d) s s1 ∧
    transfer fuel nsendfile out_fd in_fd offset count flags trf_buf s =
      Ok (ret, (fun off => off + ret) <$> offset, patch d trf_buf, s') ∧
    (if (zlen d =? 0) || negb (ioerrno s1 =? 0) then ret = 0 ∧ ioerrno s' = ioerrno s1 ∧ iow s' = iow s1
     else
       nwrite fuel out_fd (patch d trf_buf) (zlen d) flags s1 = Ok (ret, s') ∧
       ((ret = zlen d ∧ ioerrno s' = 0 ∧ wrote out_fd d s1 s') ∨
        (ret = -1 ∧ 0 < ioerrno s' ∧ ioerrno s' ≠ EINTR ∧ ∃ k, (k < length d)%nat ∧ wrote out_fd (take k d) s1 s'))).
Proof.
  intros Hfl Hc Hz Hf Hoff.
  destruct (transfer_outcome fuel nsendfile out_fd in_fd offset count flags trf_buf s Hfl Hc Hz Hf Hoff)
    as (d & s1 & ret & s' & Er & Hl & Hsrc & Hs & Hp & He & E & Ew & Ht).
  exists d, s1, ret, s'. split_and!; try done. unfold transferred in Ht.
  destruct ((zlen d =? 0) || negb (ioerrno s1 =? 0))%bool eqn:Eb; [done|].
  apply orb_false_iff in Eb as [Eb0%Z.eqb_neq Eb%negb_false_iff%Z.eqb_eq].
  split; [|done]. apply Ew; [|done]. by intros ->.
Qed.

(** [transfer] entered with [errno] set (nothing in the program clears it)
    and not interrupted takes the leftover for a read error: the result is 0 and
    nothing is written, although it has consumed from the stream the bytes
    wanted, or all up to end of file or a real error. *)
Theorem transfer_stale_errno fuel nsendfile out_fd in_fd count flags trf_buf s :
  has flags FDIO_SENDFILE = false → 0 < count ≤ TRFBUF_LIMIT → zlen trf_buf = TRFBUF_LIMIT + 1 →
  (budget TRFBUF_LIMIT s < fuel)%nat → 0 < ioerrno s → patience (iow s) = 0%nat →
  ∃ d s1 s' buf,
    transfer fuel nsendfile out_fd in_fd None count flags trf_buf s = Ok (0, None, buf, s') ∧
    source in_fd (iow s) = d ++ source in_fd (iow s') ∧
    sink out_fd (iow s') = sink out_fd (iow s) ∧
    read_end (avail_of in_fd None) count (zlen d) s s1.
Proof.
  intros Hfl Hc Hz Hf He0 Hp0.
  destruct (transfer_run fuel nsendfile out_fd in_fd None count flags trf_buf s Hfl ltac:(lia) Hz Hf ltac:(done))
    as (ret & d & k & s1 & s' & E & Hl & Hsrc & Hw & Hp & He & Hr).
  rewrite (proj2 (Z.eqb_neq count 0)), (proj2 (Z.ltb_ge _ _)) in He, Hl by lia. cbn [orb] in He, Hl.
  assert (Hz1 : 0 < ioerrno s1).
  { destruct He as [(_ & [->|[_ ?]])|[(_ & _ & [->|[_ ?]])|(_ & ? & _)]]; lia. }
  rewrite (proj2 (Z.eqb_neq (ioerrno s1) 0)), orb_true_r in Hr by lia.
  destruct Hr as (-> & -> & _). cbn [fmap option_fmap option_map] in E.
  exists d, s1, s', (patch d trf_buf). split_and!; try done. by rewrite Hw, app_nil_r.
Qed.
End spec.

(** ** A concrete system *)

(** Two pipes under a script: the next read and write calls move at most the
    given number of bytes or fail; calls beyond the script move everything. *)
Inductive event := Part (n : Z) | Err (e : Z).
Record pipes := MkPipes { pin : list Z; pout : list Z; rscript : list event; wscript : list event }.

(** Errors have positive numbers, partial transfers move at least one byte. *)
Definition clean (ev : event) : event :=
  match ev with Part n => Part (Z.max 1 n) | Err e => Err (Z.max 1 e) end.

Definition pipes_write (_ : Z) (b : list Z) (w : pipes) : io_result * pipes :=
  match clean <$> head (wscript w) with
  | Some (Err e) => (IoErr e, MkPipes (pin w) (pout w) (rscript w) (tail (wscript w)))
  | Some (Part n) =>
      (IoOk (Z.min n (zlen b)),
       MkPipes (pin w) (pout w ++ take (Z.to_nat (Z.min n (zlen b))) b) (rscript w) (tail (wscript w)))
  | None => (IoOk (zlen b), MkPipes (pin w) (pout w ++ b) (rscript w) [])
  end.

Definition pipes_read (_ n : Z) (w : pipes) : rd_result * pipes :=
  match clean <$> head (rscript w) with
  | Some (Err e) => (RdErr e, MkPipes (pin w) (pout w) (tail (rscript w)) (wscript w))
  | Some (Part k) =>
      let m := Z.to_nat (Z.min n k) in
      (RdOk (take m (pin w)), MkPipes (drop m (pin w)) (pout w) (tail (rscript w)) (wscript w))
  | None =>
      let m := Z.to_nat n in
      (RdOk (take m (pin w)), MkPipes (drop m (pin w)) (pout w) [] (wscript w))
  end.

#[export] Instance pipes_os : Os pipes := {|
  os_write := pipes_write;
  os_read := pipes_read;
  os_pread := fun _ n off w => (RdOk (take (Z.to_nat n) (drop (Z.to_nat off) (pout w))), w)
|}.

(** The parts of a result of the script. *)
Lemma pipes_write_ok fd b w n w' :
  pipes_write fd b w = (IoOk n, w') →
  0 ≤ n ≤ zlen b ∧ (b ≠ [] → 0 < n) ∧ pout w' = pout w ++ take (Z.to_nat n) b ∧ pin w' = pin w ∧
  rscript w' = rscript w ∧ (length (wscript w') ≤ length (wscript w))%nat.
Proof.
  destruct w as [pi po rs [|[k|e] ws]]; unfold pipes_write; cbn; intros [= <- <-]; cbn;
    (assert (Hb : b ≠ [] → 0 < zlen b) by (destruct b; [done|cbn; lia]));
    split_and!; try done; try lia; try (intros Hne; specialize (Hb Hne); lia).
  by rewrite Nat2Z.id, firstn_all.
Qed.

Lemma pipes_write_err fd b w e w' :
  pipes_write fd b w = (IoErr e, w') →
  0 < e ∧ pout w' = pout w ∧ pin w' = pin w ∧
  rscript w' = rscript w ∧ (length (wscript w') < length (wscript w))%nat.
Proof.
  destruct w as [pi po rs [|[k|e'] ws]]; unfold pipes_write; cbn; intros [= <- <-]; cbn.
  split_and!; try done; lia.
Qed.

Lemma pipes_read_ok fd n w d w' :
  pipes_read fd n w = (RdOk d, w') → 0 ≤ n →
  zlen d ≤ n ∧ pin w = d ++ pin w' ∧ (0 < n → d = [] → pin w = []) ∧ pout w' = pout w ∧
  wscript w' = wscript w ∧ (length (rscript w') ≤ length (rscript w))%nat.
Proof.
  destruct w as [pi po [|[k|e] rs] ws]; unfold pipes_read; cbn; intros [= <- <-] Hn; cbn;
    (split_and!; [rewrite length_take; lia|by rewrite take_drop| |done|done|lia]);
    intros Hpos; destruct pi; [done|..|done|];
    intros E; apply (f_equal length) in E; rewrite length_take in E; cbn in E; lia.
Qed.

Lemma pipes_read_err fd n w e w' :
  pipes_read fd n w = (RdErr e, w') →
  0 < e ∧ pin w' = pin w ∧ pout w' = pout w ∧
  wscript w' = wscript w ∧ (length (rscript w') < length (rscript w))%nat.
Proof.
  destruct w as [pi po [|[k|e'] rs] ws]; unfold pipes_read; cbn; intros [= <- <-]; cbn.
  split_and!; try done; lia.
Qed.

#[export] Instance pipes_laws : OsLaws pipes.
Proof.
  refine {|
    sink := fun _ w => pout w;
    source := fun _ w => pin w;
    content := fun _ w => pout w;
    patience := fun w => (length (rscript w) + length (wscript w))%nat
  |}; cbn.
  - intros fd b w n w' E. apply pipes_write_ok in E as (?&?&?&?&->&?). split_and!; (done || lia).
  - intros fd b w e w' E. apply pipes_write_err in E as (?&?&?&->&?). split_and!; (done || lia).
  - intros fd n w d w' E Hn. apply pipes_read_ok in E as (?&?&?&?&->&?); [|done]. split_and!; (done || lia).
  - intros fd n w e w' E. apply pipes_read_err in E as (?&?&?&->&?). split_and!; (done || lia).
  - intros fd n off w d w' [= <- <-] Hn Hoff. split_and!; try done.
    + rewrite length_take. lia.
    + by apply prefix_take.
    + intros Hpos E. destruct (drop _ _); [done|]. apply (f_equal length) in E. cbn in E.
      rewrite length_take in E. cbn in E. lia.
  - done.
Defined.

(** FreeBSD's sendfile sending the given chunks, then nothing (end of file). *)
Definition sf_chunks (off n : Z) (w : list Z) : option Z * Z * list Z :=
  match w with
  | [] => (None, 0, [])
  | c :: w' => (None, Z.min c n, w')
  end.

Lemma bsd_body_done count flags total sb eoff s :
  count ≤ total → bsd_body sf_chunks count flags (total, sb, eoff, 0, s) = Ok (Leave (total, sb, eoff, 0, s)).
Proof. intros Hc. unfold bsd_body. by rewrite (proj2 (Z.ltb_ge total count)) by lia. Qed.

Lemma bsd_body_chunk count flags total sb eoff s c cs :
  iow s = c :: cs → total + c ≤ count → total < count →
  bsd_body sf_chunks count flags (total, sb, eoff, 0, s) =
  Ok (Next (total + c, c, eoff + c, 0, MkIo (ioerrno s) (iolog s) cs)).
Proof.
  intros Hs Hc Hlt. unfold bsd_body. rewrite (proj2 (Z.ltb_lt total count)), Hs by lia.
  cbn [negb sf_chunks]. by rewrite Z.min_l by lia.
Qed.

Lemma bsd_body_eof count flags total sb eoff s :
  iow s = [] → total < count →
  bsd_body sf_chunks count flags (total, sb, eoff, 0, s) =
  Ok (Next (total + 0, 0, eoff + 0, 0, MkIo (ioerrno s) (iolog s) [])).
Proof.
  intros Hs Hlt. unfold bsd_body. by rewrite (proj2 (Z.ltb_lt total count)), Hs by lia.
Qed.

Lemma last_default {A} (l : list A) x d d' : List.last (x :: l) d = List.last (x :: l) d'.
Proof. revert x. induction l as [|y l IH]; intros x; [done|]. exact (IH y). Qed.

Lemma bsd_loop_chunks cs : ∀ fuel count flags total sb eoff s,
  iow s = cs → Forall (fun c => 0 < c) cs → total + foldr Z.add 0 cs = count → (length cs < fuel)%nat →
  ∃ s', loop fuel (bsd_body sf_chunks count flags) (total, sb, eoff, 0, s) =
    Ok (count, List.last cs sb, eoff + foldr Z.add 0 cs, 0, s').
Proof.
  induction cs as [|c cs IH]; intros [|fuel] count flags total sb eoff s Hs Hp Hc Hf;
    cbn [length foldr loop] in *; try lia.
  - exists s. rewrite bsd_body_done, bind_Ok by lia. cbn. replace total with count by lia. by rewrite Z.add_0_r.
  - apply Forall_cons in Hp as [Hc0 Hp].
    assert (Hsum : 0 ≤ foldr Z.add 0 cs).
    { clear - Hp. induction Hp; cbn [foldr]; lia. }
    rewrite (bsd_body_chunk _ _ _ _ _ _ c cs), bind_Ok by (done || lia).
    destruct (IH fuel count flags (total + c) c (eoff + c) (MkIo (ioerrno s) (iolog s) cs)) as [s' E];
      [done|done|lia|lia|].
    exists s'. rewrite E. replace (List.last (c :: cs) sb) with (List.last cs c)
      by (destruct cs as [|x cs']; [done|apply (last_default cs' x)]).
    by rewrite Z.add_assoc.
Qed.

Lemma bsd_loop_eof f : ∀ sb e flags s,
  iow s = [] → loop f (bsd_body sf_chunks 1 flags) (0, sb, e, 0, s) = NoFuel.
Proof.
  induction f as [|f IH]; intros sb e flags s Hs; [done|]. cbn [loop].
  rewrite bsd_body_eof, bind_Ok by (done || lia). by apply IH.
Qed.

(** FreeBSD's [nsendfile] miscounts.  When sendfile delivers the file in
    chunks that add up to [count], the function returns the size of the last
    chunk instead of the total and moves [*offset] past the end by that chunk
    again; when the file is shorter than [count] it never returns. *)
Theorem bsd_nsendfile_miscounts lseek_cur lseek_set cs c flags off log fuel :
  Forall (fun c => 0 < c) (cs ++ [c]) → 0 ≤ off → (S (length cs) < fuel)%nat →
  let total := foldr Z.add 0 (cs ++ [c]) in
  (∃ s', bsd_nsendfile sf_chunks lseek_cur lseek_set fuel (Some off) total flags (MkIo 0 log (cs ++ [c])) =
    Ok (c, Some (off + total + c), s')) ∧
  bsd_nsendfile sf_chunks lseek_cur lseek_set fuel (Some off) 1 flags (MkIo 0 log []) = NoFuel.
Proof.
  intros Hp Hoff Hf total. unfold bsd_nsendfile. cbn [Z.eqb].
  rewrite (proj2 (Z.ltb_ge off 0)) by lia. split.
  - destruct (bsd_loop_chunks (cs ++ [c]) fuel total flags 0 0 off (MkIo 0 log (cs ++ [c]))) as [s' ->];
      [done|done|done|rewrite length_app; cbn; lia|].
    rewrite bind_Ok, last_last. cbn. by exists s'.
  - by rewrite bsd_loop_eof.
Qed.

Lemma bsd_nsendfile_miscounts_witness :
  (∃ s', bsd_nsendfile sf_chunks (fun w => (IoOk 0, w)) (fun p w => (IoOk p, w)) 9 (Some 100) (foldr Z.add 0 ([3; 4] ++ [5]))
      0 (MkIo 0 [] ([3; 4] ++ [5])) =
    Ok (5, Some (100 + foldr Z.add 0 ([3; 4] ++ [5]) + 5), s')) ∧
  bsd_nsendfile sf_chunks (fun w => (IoOk 0, w)) (fun p w => (IoOk p, w)) 9 (Some 100) 1 0 (MkIo 0 [] []) = NoFuel.
Proof.
  apply (bsd_nsendfile_miscounts (fun w => (IoOk 0, w)) (fun p w => (IoOk p, w)) [3; 4] 5 0 100 [] 9);
    [repeat constructor; lia|lia|simpl; lia].
Defined.

(** One interruption, then three bytes, then an error; and a quiet run. *)
Definition pipes_ex : io pipes := MkIo 0 [] (MkPipes [1; 2; 3; 4; 5] [] [] [Err EINTR; Part 3; Err EPIPE]).
Definition pipes_fine : io pipes := MkIo 0 [] (MkPipes [1; 2; 3; 4; 5] [] [Part 2] []).

Lemma nwrite_spec_witness :
  nwrite 20 1 [7; 8; 9; 10] 4 FDIO_QUIET_EPIPE pipes_ex =
    Ok (-1, MkIo EPIPE [EINTR] (MkPipes [1; 2; 3; 4; 5] [7; 8; 9] [] [])) ∧
  ∃ ret k s', nwrite 20 1 [7; 8; 9; 10] 4 FDIO_QUIET_EPIPE pipes_ex = Ok (ret, s') ∧
    0 ≤ k ≤ 4 ∧ wrote 1 (take (Z.to_nat k) [7; 8; 9; 10]) pipes_ex s' ∧
    ((ret = 4 ∧ k = 4 ∧ kept pipes_ex s') ∨
     (ret = -1 ∧ k < 4 ∧ 0 < ioerrno s' ∧ ioerrno s' ≠ EINTR)).
Proof.
  split; [vm_compute; reflexivity|].
  apply (nwrite_spec 20 1 [7; 8; 9; 10] 4 FDIO_QUIET_EPIPE pipes_ex); [cbn; lia|].
  unfold budget. cbn. lia.
Defined.


Lemma nread_spec_witness :
  (∃ d s', nread 20 0 (replicate 8 0) 8 0 pipes_fine = Ok (zlen d, patch d (replicate 8 0), s') ∧
     zlen d ≤ 8 ∧ source 0 (iow pipes_fine) = d ++ source 0 (iow s') ∧
     read_end (fun _ => source 0) 8 (zlen d) pipes_fine s') ∧
  (∃ d s', npread 20 0 (replicate 8 0) 8 0 0 pipes_fine = Ok (zlen d, patch d (replicate 8 0), s') ∧
     zlen d ≤ 8 ∧ d `prefix_of` drop (Z.to_nat 0) (content 0 (iow pipes_fine)) ∧
     read_end (fun total w => drop (Z.to_nat (0 + total)) (content 0 w)) 8 (zlen d) pipes_fine s').
Proof.
  apply (nread_spec 20 0 (replicate 8 0) 8 0 0 pipes_fine); [cbn; lia| |done].
  unfold budget. cbn. lia.
Defined.

Definition no_sendfile : Z → Z → option Z → Z → Z → io pipes → Z * option Z * io pipes :=
  fun _ _ off _ _ s => (-1, off, s).

(** The write takes three bytes and then fails. *)
Definition pipes_broken : io pipes := MkIo 0 [] (MkPipes [1; 2; 3; 4; 5] [] [Part 2] [Part 3; Err EPIPE]).

Lemma transfer_spec_witness :
  let buf := replicate (Z.to_nat (TRFBUF_LIMIT + 1)) 0 in
  ∃ d s1 ret s',
    nread (Z.to_nat 20000) 0 buf (wanted 4) 0 pipes_broken = Ok (zlen d, patch d buf, s1) ∧
    zlen d ≤ wanted 4 ∧ source 0 (iow pipes_broken) = d ++ source 0 (iow s1) ∧
    (∀ fd, sink fd (iow s1) = sink fd (iow pipes_broken)) ∧
    read_end (avail_of 0 None) (wanted 4) (zlen d) pipes_broken s1 ∧
    transfer (Z.to_nat 20000) no_sendfile 1 0 None 4 0 buf pipes_broken =
      Ok (ret, (fun off => off + ret) <$> None, patch d buf, s') ∧
    (if (zlen d =? 0) || negb (ioerrno s1 =? 0) then ret = 0 ∧ ioerrno s' = ioerrno s1 ∧ iow s' = iow s1
     else
       nwrite (Z.to_nat 20000) 1 (patch d buf) (zlen d) 0 s1 = Ok (ret, s') ∧
       ((ret = zlen d ∧ ioerrno s' = 0 ∧ wrote 1 d s1 s') ∨
        (ret = -1 ∧ 0 < ioerrno s' ∧ ioerrno s' ≠ EINTR ∧ ∃ k, (k < length d)%nat ∧ wrote 1 (take k d) s1 s'))).
Proof.
  intros buf.
  apply (transfer_spec (Z.to_nat 20000) no_sendfile 1 0 None 4 0 buf pipes_broken);
    [done|lia| |unfold budget, TRFBUF_LIMIT; cbn [patience pipes_laws pipes_broken iow rscript wscript length]; lia|done].
  subst buf. rewrite length_replicate. unfold TRFBUF_LIMIT. lia.
Defined.

Example transfer_broken :
  let buf := replicate (Z.to_nat (TRFBUF_LIMIT + 1)) 0 in
  match transfer 99 no_sendfile 1 0 (Some 0) 4 0 buf (MkIo 0 [] (MkPipes [] [1; 2; 3; 4; 5] [] [Part 3; Err EPIPE])) with
  | Ok (ret, off, _, s') => ret = -1 ∧ off = Some (-1) ∧ pout (iow s') = [1; 2; 3; 4; 5; 1; 2; 3] ∧ ioerrno s' = EPIPE
  | _ => False
  end.
Proof. vm_compute. by split_and!. Qed.

(** FreeBSD's position cannot be read: -1, with the error reported and kept. *)
Example bsd_nsendfile_no_position :
  bsd_nsendfile sf_chunks (fun w => (IoErr 29, w)) (fun p w => (IoOk p, w)) 9 None 10 0 (MkIo 0 [] [5]) =
    Ok (-1, None, MkIo 29 [29] [5]).
Proof. reflexivity. Qed.

Definition pipes_stale : io pipes := MkIo EAGAIN [] (MkPipes [1; 2; 3; 4; 5] [] [] []).

Lemma transfer_stale_errno_witness :
  let buf := replicate (Z.to_nat (TRFBUF_LIMIT + 1)) 0 in
  ∃ d s1 s' buf',
    transfer (Z.to_nat 20000) no_sendfile 1 0 None 4 0 buf pipes_stale = Ok (0, None, buf', s') ∧
    source 0 (iow pipes_stale) = d ++ source 0 (iow s') ∧
    sink 1 (iow s') = sink 1 (iow pipes_stale) ∧
    read_end (avail_of 0 None) 4 (zlen d) pipes_stale s1.
Proof.
  intros buf.
  apply (transfer_stale_errno (Z.to_nat 20000) no_sendfile 1 0 4 0 buf pipes_stale);
    [done|unfold TRFBUF_LIMIT; lia| |
     unfold budget, TRFBUF_LIMIT; cbn [patience pipes_laws pipes_stale iow rscript wscript length]; lia|
     cbn; unfold EAGAIN; lia|done].
  subst buf. rewrite length_replicate. unfold TRFBUF_LIMIT. lia.
Defined.
