(* ===== verification/Debugsync.v ===== *)
(** * debugsync: named synchronisation points for threads (debugsync.c)

    All operations run under one mutex and wait on one condition variable, so a
    call is one atomic section up to its first [pthread_cond_wait] or its end,
    and one more for each time it wakes up.  The sections are functions on the
    shared state; [sched] runs one section of one thread, and a run of the
    system is any sequence of such steps, spurious wake-ups included.  The mutex
    and condition calls themselves succeed. *)

From stdpp Require Import strings.
From S2P Require Import Prelude Libc.
Local Open Scope Z_scope.

(** ** The shared state *)

Definition DS_MAX_POINT_NAME_LEN : nat := 32.
Definition DS_MAX_POINT_COUNT : Z := 256.
Definition DS_ACTIVE : Z := 1.
Definition DS_GLOBAL : Z := Z.shiftl 1 1.

Record ds_point := MkPoint {
  name : list Z;
  is_enabled : bool;
  in_syncwait : bool;
  nblocked : Z
}.

(** The first [count] entries of the array. *)
Record ds_global := MkDs { activation : Z; point : list ds_point }.

Definition inactive (ds : ds_global) : bool := Z.land (activation ds) DS_ACTIVE =? 0.
Definition local_inactive (ds : ds_global) : bool :=
  Z.land (activation ds) (Z.lor DS_ACTIVE DS_GLOBAL) =? 0.

Definition do_activate (activate : bool) (ds : ds_global) : ds_global :=
  MkDs (if activate then Z.lor (activation ds) DS_ACTIVE
        else Z.land (activation ds) (Z.lnot DS_ACTIVE)) (point ds).

Definition set_enabled (b : bool) (p : ds_point) : ds_point :=
  MkPoint (name p) b (in_syncwait p) (nblocked p).
Definition set_syncwait (b : bool) (p : ds_point) : ds_point :=
  MkPoint (name p) (is_enabled p) b (nblocked p).
Definition set_nblocked (n : Z) (p : ds_point) : ds_point :=
  MkPoint (name p) (is_enabled p) (in_syncwait p) n.

(** The new state, and whether the condition is broadcast. *)
Definition disable_all (ds : ds_global) : ds_global * bool :=
  (MkDs (activation ds) (map (fun p => if is_enabled p then set_enabled false p else p) (point ds)),
   existsb (fun p => is_enabled p && (0 <? nblocked p)) (point ds)).

(** [oom]: [strndup] fails. *)
Definition create_new (oom : bool) (point_name : list Z) (ds : ds_global) : option (nat * ds_global) :=
  if DS_MAX_POINT_COUNT <=? zlen (point ds) then None
  else if oom then None
  else Some (length (point ds),
             MkDs (activation ds)
               (point ds ++ [MkPoint (take DS_MAX_POINT_NAME_LEN point_name) true false 0])).

Fixpoint look_up_from (i : nat) (point_name : list Z) (ps : list ds_point) : option nat :=
  match ps with
  | [] => None
  | p :: ps' => if strcmp_eq point_name (name p) then Some i else look_up_from (S i) point_name ps'
  end.
Definition look_up (point_name : list Z) (ds : ds_global) : option nat :=
  look_up_from 0 point_name (point ds).

Definition acquire (oom : bool) (point_name : list Z) (ds : ds_global) : option (nat * ds_global) :=
  match look_up point_name ds with
  | Some i => Some (i, ds)
  | None => create_new oom point_name ds
  end.

Definition ds_init (activation_flags : Z) : ds_global := MkDs activation_flags [].

(** ** The operations, section by section *)

(** How a section ends: the call returns, the thread waits on the condition
    in the loop of [ds_wait] or of [ds_exec], or an assertion fails. *)
Inductive outcome := ORet (rc : Z) | OWaitOn (i : nat) | OHoldOn (i : nat) | OCrash.

(** The state, whether the condition was broadcast, and the end. *)
Definition section : Type := ds_global * bool * outcome.

Definition on_point (ds : ds_global) (i : nat) (f : ds_point → section) : section :=
  match point ds !! i with Some p => f p | None => (ds, false, OCrash) end.
Definition put_point (ds : ds_global) (i : nat) (p : ds_point) : ds_global :=
  MkDs (activation ds) (<[i := p]> (point ds)).

Definition ds_disable_all_sec (ds : ds_global) : section :=
  if negb (inactive ds) then let '(ds, b) := disable_all ds in (ds, b, ORet 0)
  else (ds, false, ORet 0).

Definition ds_activate_sec (activate : bool) (ds : ds_global) : section :=
  let '(ds, b) := if negb (inactive ds) then disable_all ds else (ds, false) in
  (do_activate activate ds, b, ORet 0).

Definition ds_enable_sec (point_name : list Z) (enable : bool) (ds : ds_global) : section :=
  if inactive ds then (ds, false, ORet (-1))
  else
    match look_up point_name ds with
    | None => (ds, false, ORet (-1))
    | Some i =>
        on_point ds i (fun p =>
          let p := set_enabled enable p in
          (put_point ds i p, negb enable && (0 <? nblocked p), ORet 0))
    end.

(** [while (rc == 0 && pt->in_syncwait && pt->is_enabled) ...] and what follows. *)
Definition exec_loop (i : nat) (ds : ds_global) (b : bool) : section :=
  on_point ds i (fun p =>
    if in_syncwait p && is_enabled p then (ds, b, OHoldOn i)
    else (put_point ds i (set_syncwait false p), b, ORet (if is_enabled p then 0 else -1))).

Definition ds_exec_sec (oom : bool) (point_name : list Z) (ds : ds_global) : section :=
  if inactive ds then (ds, false, ORet (-1))
  else
    match acquire oom point_name ds with
    | None => (ds, false, ORet (-1))
    | Some (i, ds) =>
        on_point ds i (fun p =>
          if is_enabled p && in_syncwait p then (ds, false, ORet (-1))
          else if nblocked p =? 0 then (ds, false, ORet 0)
          else exec_loop i (put_point ds i (set_syncwait true p)) true)
    end.

(** [while (rc == 0 && !pt->in_syncwait && pt->is_enabled) ...] and what follows. *)
Definition wait_loop (i : nat) (ds : ds_global) : section :=
  on_point ds i (fun p =>
    if negb (in_syncwait p) && is_enabled p then (ds, false, OWaitOn i)
    else (ds, false, ORet (if is_enabled p then 0 else -1))).

Definition ds_wait_sec (oom : bool) (point_name : list Z) (ds : ds_global) : section :=
  if inactive ds then (ds, false, ORet (-1))
  else
    match acquire oom point_name ds with
    | None => (ds, false, ORet (-1))
    | Some (i, ds) =>
        on_point ds i (fun p =>
          wait_loop i (put_point ds i (set_nblocked (u64 (nblocked p + 1)) p)))
    end.

Definition ds_unblock_sec (point_name : list Z) (ds : ds_global) : section :=
  if inactive ds then (ds, false, ORet (-1))
  else
    match look_up point_name ds with
    | None => (ds, false, ORet (-1))
    | Some i =>
        on_point ds i (fun p =>
          if 0 <? nblocked p then
            let p := set_nblocked (nblocked p - 1) p in
            if nblocked p =? 0 then (put_point ds i (set_syncwait false p), true, ORet 0)
            else (put_point ds i p, false, ORet 0)
          else (ds, false, OCrash))
    end.

(** ** Threads *)

Inductive op :=
  | DsDisableAll
  | DsActivate (activate : bool)
  | DsEnable (point_name : list Z) (enable : bool)
  | DsExec (point_name : list Z)
  | DsWait (point_name : list Z)
  | DsUnblock (point_name : list Z).

(** Outside any call; past the unlocked test and about to lock; or inside
    [pthread_cond_wait] in one of the loops, signalled or not. *)
Inductive pc := Idle | Lock (o : op) | Waiting (i : nat) (sig : bool) | Holding (i : nat) (sig : bool).

(** [owes]: the points this thread has been let through by [ds_wait] and not yet
    unblocked (bookkeeping of the client, not of the library). *)
Record thread := MkTh { at_ : pc; owes : list nat }.

Record system := MkSys { ds : ds_global; threads : list thread }.

(** The test made before locking: some calls end there. *)
Definition unlocked (o : op) (ds : ds_global) : option (ds_global * Z) :=
  match o with
  | DsActivate activate =>
      if local_inactive ds && activate then Some (do_activate activate ds, 0) else None
  | _ => if local_inactive ds then Some (ds, 0) else None
  end.

Definition locked (oom : bool) (o : op) (ds : ds_global) : section :=
  match o with
  | DsDisableAll => ds_disable_all_sec ds
  | DsActivate a => ds_activate_sec a ds
  | DsEnable n e => ds_enable_sec n e ds
  | DsExec n => ds_exec_sec oom n ds
  | DsWait n => ds_wait_sec oom n ds
  | DsUnblock n => ds_unblock_sec n ds
  end.

(** [pthread_cond_broadcast]: every waiting thread may go on. *)
Definition wake (th : thread) : thread :=
  MkTh (match at_ th with
        | Waiting i _ => Waiting i true
        | Holding i _ => Holding i true
        | p => p
        end) (owes th).
Definition broadcast (b : bool) (ths : list thread) : list thread := if b then map wake ths else ths.

Inductive action := Call (o : op) | Run (oom : bool).

(** What a thread owes after a section: one more for a wait that was let
    through, one less for an unblocking. *)
Fixpoint remove_one (i : nat) (l : list nat) : list nat :=
  match l with
  | [] => []
  | j :: l' => if decide (i = j) then l' else j :: remove_one i l'
  end.

(** The point a pending wait or unblocking is about. *)
Definition subject (th : thread) (ds : ds_global) : option nat :=
  match at_ th with
  | Lock (DsWait n) | Lock (DsUnblock n) => look_up n ds
  | Waiting i _ => Some i
  | _ => None
  end.

Definition owes_after (th : thread) (ds : ds_global) (rc : Z) : list nat :=
  match at_ th with
  | Lock (DsUnblock _) =>
      match subject th ds with Some i => remove_one i (owes th) | None => owes th end
  | Lock (DsWait _) | Waiting _ _ =>
      if rc =? 0 then
        match subject th ds with Some i => i :: owes th | None => owes th end
      else owes th
  | _ => owes th
  end.

Inductive sres := Stuck | Crash | Go (s : system) (ret : option Z).

(** One section of the running thread. *)
Definition run_section (oom : bool) (th : thread) (ds : ds_global) : option section :=
  match at_ th with
  | Idle => None
  | Lock o => Some (locked oom o ds)
  | Waiting i _ => Some (wait_loop i ds)
  | Holding i _ => Some (exec_loop i ds false)
  end.

Definition sched (s : system) (t : nat) (a : action) : sres :=
  match threads s !! t with
  | None => Stuck
  | Some th =>
      match a with
      | Call o =>
          match at_ th with
          | Idle =>
              match unlocked o (ds s) with
              | Some (d, rc) => Go (MkSys d (threads s)) (Some rc)
              | None => Go (MkSys (ds s) (<[t := MkTh (Lock o) (owes th)]> (threads s))) None
              end
          | _ => Stuck
          end
      | Run oom =>
          match run_section oom th (ds s) with
          | None => Stuck
          | Some (d, b, out) =>
              let set p o := <[t := MkTh p o]> (broadcast b (threads s)) in
              match out with
              | ORet rc => Go (MkSys d (set Idle (owes_after th (ds s) rc))) (Some rc)
              | OWaitOn i => Go (MkSys d (set (Waiting i false) (owes th))) None
              | OHoldOn i => Go (MkSys d (set (Holding i false) (owes th))) None
              | OCrash => Crash
              end
          end
      end
  end.

(** [n] threads and a freshly initialised library. *)
Definition start (activation_flags : Z) (n : nat) : system :=
  MkSys (ds_init activation_flags) (replicate n (MkTh Idle [])).

(** ** Looking names up *)

Lemma eqb_list_eq s t : eqb_list s t = true ↔ s = t.
Proof.
  revert t. induction s as [|c s IH]; intros [|d t]; cbn; try done.
  rewrite andb_true_iff, Z.eqb_eq, IH. naive_solver.
Qed.

Lemma look_up_from_Some k n ps i :
  look_up_from k n ps = Some i → ∃ j p, i = (k + j)%nat ∧ ps !! j = Some p ∧ name p = n.
Proof.
  revert k. induction ps as [|p ps IH]; intros k; cbn [look_up_from]; [done|].
  destruct (strcmp_eq n (name p)) eqn:E.
  - intros [= <-]. exists 0%nat, p. apply eqb_list_eq in E. split_and!; [lia|done|done].
  - intros H. destruct (IH (S k) H) as (j & q & -> & Hq & Hn). exists (S j), q. split_and!; [lia|done|done].
Qed.

Lemma look_up_from_names k n ps ps' :
  map name ps = map name ps' → look_up_from k n ps = look_up_from k n ps'.
Proof.
  revert k ps'. induction ps as [|p ps IH]; intros k [|p' ps'] E; try done.
  cbn in E. injection E as En E. cbn [look_up_from]. rewrite En. by rewrite (IH _ _ E).
Qed.

Lemma look_up_from_app k n ps ps' i :
  look_up_from k n ps = Some i → look_up_from k n (ps ++ ps') = Some i.
Proof.
  revert k. induction ps as [|p ps IH]; intros k; cbn [look_up_from app]; [done|].
  destruct (strcmp_eq n (name p)); [done|]. apply IH.
Qed.

Lemma look_up_lt n d i : look_up n d = Some i → (i < length (point d))%nat.
Proof.
  intros H. apply look_up_from_Some in H as (j & p & -> & Hp & _). by apply lookup_lt_Some in Hp.
Qed.

(** ** Threads under a step *)

Definition wk (b : bool) (th : thread) : thread := if b then wake th else th.

Lemma broadcast_lookup b ths u : broadcast b ths !! u = wk b <$> ths !! u.
Proof.
  destruct b; unfold broadcast, wk.
  - apply (list_lookup_fmap wake).
  - by destruct (ths !! u).
Qed.

Lemma step_lookup b ths t th' u x :
  <[t := th']> (broadcast b ths) !! u = Some x →
  (u = t ∧ x = th') ∨ (u ≠ t ∧ ∃ y, ths !! u = Some y ∧ x = wk b y).
Proof.
  destruct (decide (u = t)) as [->|Hne].
  - intros H. left. split; [done|]. pose proof (lookup_lt_Some _ _ _ H) as Hl.
    rewrite length_insert in Hl. rewrite list_lookup_insert_eq in H by done. by injection H.
  - rewrite list_lookup_insert_ne, broadcast_lookup by done. intros H. right. split; [done|].
    destruct (ths !! u) as [y|]; [|done]. exists y. split; [done|]. by injection H as <-.
Qed.

Lemma wk_owes b th : owes (wk b th) = owes th.
Proof. by destruct b. Qed.
Lemma wk_holding b th i sig : at_ (wk b th) = Holding i sig → ∃ sig', at_ th = Holding i sig'.
Proof. destruct b; cbn; destruct (at_ th); try done; intros [= <- <-]; eauto. Qed.
Lemma wk_waiting b th i sig : at_ (wk b th) = Waiting i sig → ∃ sig', at_ th = Waiting i sig'.
Proof. destruct b; cbn; destruct (at_ th); try done; intros [= <- <-]; eauto. Qed.
Lemma wk_holding_false b th i : at_ (wk b th) = Holding i false → b = false ∧ at_ th = Holding i false.
Proof. destruct b; cbn; destruct (at_ th); try done. Qed.
Lemma wk_waiting_false b th i : at_ (wk b th) = Waiting i false → b = false ∧ at_ th = Waiting i false.
Proof. destruct b; cbn; destruct (at_ th); try done. Qed.
Lemma wk_lock b th o : at_ (wk b th) = Lock o → at_ th = Lock o.
Proof. destruct b; cbn; destruct (at_ th); try done. Qed.
Lemma holding_wk b th i sig : at_ th = Holding i sig → ∃ sig', at_ (wk b th) = Holding i sig'.
Proof. intros E. destruct b; cbn; rewrite E; eauto. Qed.

(** The weight of a thread on a point: it waits there, or still owes. *)
Definition w (i : nat) (th : thread) : nat :=
  (match at_ th with Waiting j _ => if decide (i = j) then 1 else 0 | _ => 0 end +
   length (filter (eq i) (owes th)))%nat.
Definition weight (i : nat) (ths : list thread) : nat := sum_list_with (w i) ths.

Lemma w_wk b i th : w i (wk b th) = w i th.
Proof. destruct b; [|done]. unfold w, wk, wake. cbn. by destruct (at_ th). Qed.

Lemma weight_insert i ths t th th' :
  ths !! t = Some th → (weight i (<[t := th']> ths) + w i th = weight i ths + w i th')%nat.
Proof.
  unfold weight. revert t.
  induction ths as [|x ths IH]; intros [|t] H; try done.
  - injection H as ->. cbn. lia.
  - specialize (IH t H). change (<[S t := th']> (x :: ths)) with (x :: <[t := th']> ths).
    cbn [sum_list_with]. lia.
Qed.

Lemma weight_broadcast i b ths : weight i (broadcast b ths) = weight i ths.
Proof.
  destruct b; [|done]. unfold weight, broadcast. induction ths as [|x ths IH]; [done|].
  cbn [map sum_list_with]. rewrite IH. f_equal. apply (w_wk true).
Qed.

Lemma weight_step i b ths t th th' :
  ths !! t = Some th →
  (weight i (<[t := th']> (broadcast b ths)) + w i th = weight i ths + w i th')%nat.
Proof.
  intros H. rewrite <- (weight_broadcast i b ths), <- (w_wk b i th).
  apply weight_insert. by rewrite broadcast_lookup, H.
Qed.

Lemma weight_ge i ths t th : ths !! t = Some th → (w i th ≤ weight i ths)%nat.
Proof.
  unfold weight. revert t.
  induction ths as [|x ths IH]; intros [|t] H; try done; cbn [sum_list_with].
  - injection H as ->. lia.
  - specialize (IH t H). lia.
Qed.

Lemma w_waiting i th sig : at_ th = Waiting i sig → (1 ≤ w i th)%nat.
Proof. intros E. unfold w. rewrite E, decide_True by done. lia. Qed.

(** ** The invariant of every client *)

(** [n] bounds the number of steps made. *)
Record inv (n : Z) (ps : list ds_point) (ths : list thread) : Prop := {
  inv_names i p : ps !! i = Some p → (length (name p) ≤ DS_MAX_POINT_NAME_LEN)%nat;
  inv_blocked i p : ps !! i = Some p → 0 ≤ nblocked p ≤ n ∧ (in_syncwait p = true → 0 < nblocked p);
  inv_holder i p : ps !! i = Some p → in_syncwait p = true →
    ∃ t th sig, ths !! t = Some th ∧ at_ th = Holding i sig;
  inv_at t th i sig : ths !! t = Some th → at_ th = Waiting i sig ∨ at_ th = Holding i sig →
    (i < length ps)%nat;
  inv_hold t th i p : ths !! t = Some th → at_ th = Holding i false → ps !! i = Some p →
    in_syncwait p = true ∧ is_enabled p = true
}.

Lemma inv_mono n n' ps ths : n ≤ n' → inv n ps ths → inv n' ps ths.
Proof.
  intros Hn [H1 H2 H3 H4 H5]. split; try done.
  intros i p Hp. destruct (H2 i p Hp). split; [lia|done].
Qed.

(** A step that changes one point and the running thread. *)
Lemma inv_point n ps ths i p p' t th th' b :
  inv n ps ths → ps !! i = Some p → ths !! t = Some th →
  name p' = name p → 0 ≤ nblocked p' ≤ n → (in_syncwait p' = true → 0 < nblocked p') →
  (in_syncwait p' = true → (∃ sig, at_ th' = Holding i sig) ∨
     (in_syncwait p = true ∧ ∀ sig, at_ th ≠ Holding i sig)) →
  (∀ j sig, at_ th = Holding j sig → j = i) →
  (∀ j sig, at_ th' = Waiting j sig ∨ at_ th' = Holding j sig → j = i) →
  (at_ th' = Holding i false → in_syncwait p' = true ∧ is_enabled p' = true) →
  (b = true ∨ (in_syncwait p = true → is_enabled p = true →
     in_syncwait p' = true ∧ is_enabled p' = true)) →
  inv n (<[i := p']> ps) (<[t := th']> (broadcast b ths)).
Proof.
  intros [H1 H2 H3 H4 H5] Hp Ht Hn Hb Hpos Hs Hth Hth' Hh Hb'.
  pose proof (lookup_lt_Some _ _ _ Hp) as Hi. pose proof (lookup_lt_Some _ _ _ Ht) as Htl.
  assert (Hps : ∀ j q, <[i := p']> ps !! j = Some q → (j = i ∧ q = p') ∨ (j ≠ i ∧ ps !! j = Some q)).
  { intros j q. destruct (decide (j = i)) as [->|].
    - rewrite list_lookup_insert_eq by done. intros [= <-]. by left.
    - rewrite list_lookup_insert_ne by done. by right. }
  split.
  - intros j q [[-> ->]|[_ Hq]]%Hps; [rewrite Hn; eauto|eauto].
  - intros j q [[-> ->]|[_ Hq]]%Hps; [done|eauto].
  - intros j q [[-> ->]|[Hne Hq]]%Hps Hsq.
    + destruct (Hs Hsq) as [[sig Hsig]|[Hsp Hnot]].
      * exists t, th', sig. rewrite list_lookup_insert_eq; [done|].
        destruct b; cbn; by rewrite ?length_map.
      * destruct (H3 i p Hp Hsp) as (u & y & sig & Hu & Hy).
        assert (u ≠ t) by (intros ->; rewrite Ht in Hu; injection Hu as <-; by apply (Hnot sig)).
        destruct (holding_wk b y i sig Hy) as [sig' Hy']. exists u, (wk b y), sig'.
        by rewrite list_lookup_insert_ne, broadcast_lookup, Hu.
    + destruct (H3 j q Hq Hsq) as (u & y & sig & Hu & Hy).
      assert (u ≠ t) by (intros ->; rewrite Ht in Hu; injection Hu as <-; apply Hne; by eapply Hth).
      destruct (holding_wk b y j sig Hy) as [sig' Hy']. exists u, (wk b y), sig'.
      by rewrite list_lookup_insert_ne, broadcast_lookup, Hu.
  - intros u x j sig Hx Hj. rewrite length_insert.
    apply step_lookup in Hx as [[-> ->]|(_ & y & Hy & ->)].
    + by rewrite (Hth' _ _ Hj).
    + destruct Hj as [Hj|Hj]; [apply wk_waiting in Hj as [sig' Hj]|apply wk_holding in Hj as [sig' Hj]]; eauto.
  - intros u x j q Hx Hj Hq. apply step_lookup in Hx as [[-> ->]|(_ & y & Hy & ->)].
    + pose proof (Hth' j false (or_intror Hj)) as ->.
      apply Hps in Hq as [[_ ->]|[? _]]; [by apply Hh|done].
    + apply wk_holding_false in Hj as [-> Hj].
      apply Hps in Hq as [[-> ->]|[_ Hq]]; [|eauto].
      destruct Hb' as [|Hb']; [done|]. destruct (H5 _ _ _ _ Hy Hj Hp). by apply Hb'.
Qed.

(** A step that leaves the points alone. *)
Lemma inv_thread n ps ths t th th' b :
  inv n ps ths → ths !! t = Some th → (∀ j sig, at_ th ≠ Holding j sig) →
  (∀ j sig, at_ th' ≠ Waiting j sig ∧ at_ th' ≠ Holding j sig) →
  inv n ps (<[t := th']> (broadcast b ths)).
Proof.
  intros [H1 H2 H3 H4 H5] Ht Hth Hth'. split; [done|done| | |].
  - intros i p Hp Hs. destruct (H3 i p Hp Hs) as (u & y & sig & Hu & Hy).
    assert (u ≠ t) by (intros ->; rewrite Ht in Hu; injection Hu as <-; by eapply Hth).
    destruct (holding_wk b y i sig Hy) as [sig' Hy']. exists u, (wk b y), sig'.
    by rewrite list_lookup_insert_ne, broadcast_lookup, Hu.
  - intros u x j sig Hx Hj. apply step_lookup in Hx as [[-> ->]|(_ & y & Hy & ->)].
    + destruct (Hth' j sig). by destruct Hj.
    + destruct Hj as [Hj|Hj]; [apply wk_waiting in Hj as [sig' Hj]|apply wk_holding in Hj as [sig' Hj]]; eauto.
  - intros u x j q Hx Hj Hq. apply step_lookup in Hx as [[-> ->]|(_ & y & Hy & ->)].
    + by destruct (Hth' j false).
    + apply wk_holding_false in Hj as [-> Hj]. eauto.
Qed.

(** A new point. *)
Lemma inv_new n ps ths nm :
  inv n ps ths → 0 ≤ n →
  inv n (ps ++ [MkPoint (take DS_MAX_POINT_NAME_LEN nm) true false 0]) ths.
Proof.
  intros [H1 H2 H3 H4 H5] Hn. split.
  - intros i p [Hp|(_ & Hp)]%lookup_app_Some; [eauto|].
    apply list_lookup_singleton_Some in Hp as [_ <-].
    cbn [name]. rewrite length_take. lia.
  - intros i p [Hp|(_ & Hp)]%lookup_app_Some; [eauto|].
    apply list_lookup_singleton_Some in Hp as [_ <-]. done.
  - intros i p [Hp|(_ & Hp)]%lookup_app_Some; [eauto|].
    by apply list_lookup_singleton_Some in Hp as [_ <-].
  - intros t th i sig Ht Hi. rewrite length_app. pose proof (H4 _ _ _ _ Ht Hi). lia.
  - intros t th i p Ht Hi Hp. assert (Hlt : (i < length ps)%nat) by eauto.
    rewrite lookup_app_l in Hp by done. eauto.
Qed.

(** All points disabled. *)
Definition off (p : ds_point) : ds_point := if is_enabled p then set_enabled false p else p.

Lemma off_fields p :
  name (off p) = name p ∧ nblocked (off p) = nblocked p ∧ in_syncwait (off p) = in_syncwait p ∧
  is_enabled (off p) = false.
Proof. unfold off. by destruct p as [? []]. Qed.

Lemma off_lookup ps i q : map off ps !! i = Some q → ∃ p, ps !! i = Some p ∧ q = off p.
Proof.
  intros H. change (map off ps) with (off <$> ps) in H. rewrite list_lookup_fmap in H.
  destruct (ps !! i) as [p|]; [|done]. exists p. by injection H as <-.
Qed.

Lemma off_awake ps i p :
  ps !! i = Some p → is_enabled p = true → 0 < nblocked p →
  existsb (fun p => is_enabled p && (0 <? nblocked p)) ps = true.
Proof.
  intros Hp He Hn. apply existsb_exists. exists p. split.
  - apply list_elem_of_In, list_elem_of_lookup. eauto.
  - rewrite He. cbn. by apply Z.ltb_lt.
Qed.

Lemma inv_off n ps ths t th th' :
  inv n ps ths → ths !! t = Some th → (∀ j sig, at_ th ≠ Holding j sig) →
  (∀ j sig, at_ th' ≠ Waiting j sig ∧ at_ th' ≠ Holding j sig) →
  inv n (map off ps)
    (<[t := th']> (broadcast (existsb (fun p => is_enabled p && (0 <? nblocked p)) ps) ths)).
Proof.
  intros H Ht Hth Hth'. set (b := existsb _ ps).
  destruct (inv_thread n ps ths t th th' b H Ht Hth Hth') as [K1 K2 K3 K4 _]. split.
  - intros i q (p & Hp & ->)%off_lookup. destruct (off_fields p) as (-> & _). eauto.
  - intros i q (p & Hp & ->)%off_lookup. destruct (off_fields p) as (_ & -> & -> & _). eauto.
  - intros i q (p & Hp & ->)%off_lookup. destruct (off_fields p) as (_ & _ & -> & _). eauto.
  - intros u x i sig. rewrite length_map. apply K4.
  - intros u x i q Hx Hi (p & Hp & ->)%off_lookup. exfalso.
    apply step_lookup in Hx as [[-> ->]|(_ & y & Hy & ->)]; [by destruct (Hth' i false)|].
    apply wk_holding_false in Hi as [Hb Hi].
    destruct (inv_hold _ _ _ H _ _ _ _ Hy Hi Hp) as [Hs He].
    destruct (inv_blocked _ _ _ H _ _ Hp) as [_ Hpos].
    unfold b in Hb. by rewrite (off_awake ps i p Hp He (Hpos Hs)) in Hb.
Qed.

(** *** Every section keeps it *)

Definition next_pc (out : outcome) : pc :=
  match out with OWaitOn i => Waiting i false | OHoldOn i => Holding i false | _ => Idle end.

Definition post (n : Z) (ths : list thread) (t : nat) (s : section) : Prop :=
  let '(d, b, out) := s in
  match out with
  | OCrash => True
  | _ => ∀ o, inv n (point d) (<[t := MkTh (next_pc out) o]> (broadcast b ths))
  end.

Section post.
Context (n : Z) (ths : list thread) (t : nat) (th : thread) (Ht : ths !! t = Some th).

Lemma post_ret d rc :
  inv n (point d) ths → (∀ j sig, at_ th ≠ Holding j sig) → post n ths t (d, false, ORet rc).
Proof. intros H Hh o. by eapply inv_thread. Qed.

Lemma post_wait_loop i d :
  inv n (point d) ths → (∀ j sig, at_ th ≠ Holding j sig) → post n ths t (wait_loop i d).
Proof.
  intros H Hh. unfold wait_loop, on_point. destruct (point d !! i) as [p|] eqn:Hp; [|done].
  destruct (_ && _) eqn:E; [|by apply post_ret].
  intros o. cbn [next_pc]. destruct (inv_blocked _ _ _ H _ _ Hp).
  rewrite <- (list_insert_id (point d) i p Hp).
  eapply inv_point; try done.
  - intros Hs. right. done.
  - intros j sig Hj. by destruct (Hh j sig).
  - intros j sig [[= ->]|[=]]. done.
  - by right.
Qed.

Lemma post_exec_loop i d :
  inv n (point d) ths → (∀ j sig, at_ th = Holding j sig → j = i) → post n ths t (exec_loop i d false).
Proof.
  intros H Hh. unfold exec_loop, on_point. destruct (point d !! i) as [p|] eqn:Hp; [|done].
  destruct (inv_blocked _ _ _ H _ _ Hp).
  destruct (_ && _) eqn:E; intros o; cbn [next_pc].
  - apply andb_true_iff in E as [Es Ee]. rewrite <- (list_insert_id (point d) i p Hp).
    eapply inv_point; try done.
    + intros _. left. by exists false.
    + intros j sig [[=]|[= ->]]. done.
    + by right.
  - eapply inv_point; try done.
    + intros j sig [[=]|[=]].
    + right. intros Hs He. by rewrite Hs, He in E.
Qed.

Lemma post_exec_enter i d p :
  inv n (point d) ths → (∀ j sig, at_ th ≠ Holding j sig) → point d !! i = Some p →
  nblocked p ≠ 0 → post n ths t (exec_loop i (put_point d i (set_syncwait true p)) true).
Proof.
  intros H Hh Hp Hnb. unfold exec_loop, on_point. cbn [point put_point].
  pose proof (lookup_lt_Some _ _ _ Hp). rewrite list_lookup_insert_eq by done.
  destruct (inv_blocked _ _ _ H _ _ Hp). cbn [in_syncwait is_enabled set_syncwait andb].
  destruct (is_enabled p) eqn:Ee; intros o; cbn [next_pc point put_point].
  - eapply inv_point; try done.
    + cbn. lia.
    + intros _. left. by exists false.
    + intros j sig Hj. by destruct (Hh j sig).
    + intros j sig [[=]|[= ->]]. done.
    + by left.
  - rewrite list_insert_insert_eq. eapply inv_point; try done.
    + intros j sig Hj. by destruct (Hh j sig).
    + intros j sig [[=]|[=]].
    + by left.
Qed.

(** [acquire] finds a point or adds one. *)
Lemma inv_acquire oom nm d d' i :
  inv n (point d) ths → 0 ≤ n → acquire oom nm d = Some (i, d') →
  inv n (point d') ths ∧ activation d' = activation d.
Proof.
  intros H Hn. unfold acquire, create_new. destruct (look_up nm d); [by intros [= -> ->]|].
  destruct (_ <=? _); [done|]. destruct oom; [done|]. intros [= <- <-].
  split; [by apply inv_new|done].
Qed.
End post.

Lemma inv_count n ps ths i p t th :
  inv n ps ths → ps !! i = Some p → ths !! t = Some th → (∀ j sig, at_ th ≠ Holding j sig) →
  (∀ j sig, at_ th ≠ Waiting j sig) → 0 ≤ n → n + 1 < 2 ^ 64 →
  inv (n + 1) (<[i := set_nblocked (u64 (nblocked p + 1)) p]> ps) ths.
Proof.
  intros H Hp Ht Hh Hw H0 Hn. destruct (inv_blocked _ _ _ H _ _ Hp) as [Hb Hs].
  rewrite <- (list_insert_id ths t th Ht). change ths with (broadcast false ths) at 1.
  assert (Eu : u64 (nblocked p + 1) = nblocked p + 1) by (apply wrap_small; lia).
  eapply (inv_point (n + 1)); try done.
  - eapply inv_mono; [|done]. lia.
  - cbn [nblocked set_nblocked]. lia.
  - cbn [nblocked set_nblocked]. lia.
  - intros E. by right.
  - intros j sig Hj. by destruct (Hh j sig).
  - intros j sig [Hj|Hj]; [by destruct (Hw j sig)|by destruct (Hh j sig)].
  - intros Hj. by destruct (Hh i false).
  - by right.
Qed.

Lemma post_locked n ths t o ow oom d :
  ths !! t = Some (MkTh (Lock o) ow) → inv n (point d) ths → 0 ≤ n → n + 1 < 2 ^ 64 →
  post (n + 1) ths t (locked oom o d).
Proof.
  intros Ht H H0 Hn. assert (H' : inv (n + 1) (point d) ths) by (eapply inv_mono; [|done]; lia).
  assert (Hret : ∀ rc, post (n + 1) ths t (d, false, ORet rc)) by (intros; by eapply post_ret).
  destruct o as [|a|nm e|nm|nm|nm]; cbn [locked].
  - unfold ds_disable_all_sec. destruct (negb _); [|done]. intros o. by eapply inv_off.
  - unfold ds_activate_sec. destruct (negb _); cbn; intros o; [by eapply inv_off|].
    by eapply (inv_thread _ _ _ _ _ _ false).
  - unfold ds_enable_sec. destruct (inactive d); [done|].
    destruct (look_up nm d) as [i|]; [|done]. unfold on_point.
    destruct (point d !! i) as [p|] eqn:Hp; [|done].
    destruct (inv_blocked _ _ _ H' _ _ Hp) as [Hb Hs]. intros o. cbn [next_pc put_point point].
    eapply inv_point; try done.
    + intros E. by right.
    + intros j sig [[=]|[=]].
    + cbn. destruct e; cbn; [by right|].
      destruct (in_syncwait p) eqn:E; [|by right]. left. apply Z.ltb_lt, Hs. done.
  - unfold ds_exec_sec. destruct (inactive d); [done|].
    destruct (acquire oom nm d) as [[i d']|] eqn:Ha; [|done].
    destruct (inv_acquire _ _ _ _ _ _ _ H' ltac:(lia) Ha) as [K _]. unfold on_point.
    destruct (point d' !! i) as [p|] eqn:Hp; [|done].
    destruct (_ && _); [by eapply post_ret|].
    destruct (Z.eqb_spec (nblocked p) 0); [by eapply post_ret|].
    by eapply post_exec_enter.
  - unfold ds_wait_sec. destruct (inactive d); [done|].
    destruct (acquire oom nm d) as [[i d']|] eqn:Ha; [|done].
    destruct (inv_acquire _ _ _ _ _ _ _ H ltac:(lia) Ha) as [K _]. unfold on_point.
    destruct (point d' !! i) as [p|] eqn:Hp; [|done].
    eapply post_wait_loop; [done| |done]. by eapply inv_count.
  - unfold ds_unblock_sec. destruct (inactive d); [done|].
    destruct (look_up nm d) as [i|]; [|done]. unfold on_point.
    destruct (point d !! i) as [p|] eqn:Hp; [|done].
    destruct (inv_blocked _ _ _ H' _ _ Hp) as [Hb Hs].
    destruct (Z.ltb_spec 0 (nblocked p)); [|done]. cbn [nblocked set_nblocked].
    destruct (Z.eqb_spec (nblocked p - 1) 0); intros o; cbn [next_pc put_point point];
      eapply inv_point; try done; try (intros j sig [[=]|[=]]); cbn; try lia; try (by left).
    + intros E. by right.
    + by right.
Qed.

(** What a section leaves of the thread that ran it. *)
Lemma sched_Run s t oom s' r :
  sched s t (Run oom) = Go s' r →
  ∃ th d b out o, threads s !! t = Some th ∧ run_section oom th (ds s) = Some (d, b, out) ∧
    out ≠ OCrash ∧ ds s' = d ∧ threads s' = <[t := MkTh (next_pc out) o]> (broadcast b (threads s)) ∧
    (o = match out with ORet rc => owes_after th (ds s) rc | _ => owes th end) ∧
    r = match out with ORet rc => Some rc | _ => None end.
Proof.
  unfold sched. destruct (threads s !! t) as [th|]; [|done].
  destruct (run_section oom th (ds s)) as [[[d b] out]|] eqn:E; [|done].
  destruct out as [rc|i|i|]; intros [= <- <-]; eexists th, d, b, _, _; by split_and!.
Qed.

Lemma inv_step n s t a s' r :
  inv n (point (ds s)) (threads s) → 0 ≤ n → n + 1 < 2 ^ 64 → sched s t a = Go s' r →
  inv (n + 1) (point (ds s')) (threads s').
Proof.
  intros H H0 Hn E. assert (H' : inv (n + 1) (point (ds s)) (threads s)) by (eapply inv_mono; [|done]; lia).
  destruct a as [o|oom].
  - unfold sched in E. destruct (threads s !! t) as [th|] eqn:Ht; [|done].
    destruct (at_ th) eqn:Ea; try done. destruct (unlocked o (ds s)) as [[d rc]|] eqn:Eu.
    + injection E as <- _. cbn [ds threads]. replace (point d) with (point (ds s)); [done|].
      destruct o; cbn in Eu; repeat case_match; try done; by injection Eu as <- _.
    + injection E as <- _. cbn [ds threads].
      eapply (inv_thread _ _ _ _ th _ false); [exact H'|exact Ht|by intros; rewrite Ea|by intros].
  - apply sched_Run in E as (th & d & b & out & o & Ht & Er & Ho & -> & -> & _ & _).
    assert (P : post (n + 1) (threads s) t (d, b, out)).
    { unfold run_section in Er. destruct th as [[|op|i sig|i sig] ow]; cbn [at_] in Er; [done|..];
        injection Er as <-.
      - by eapply post_locked.
      - by eapply post_wait_loop.
      - eapply post_exec_loop; [done|done|]. cbn. by intros j sig' [= -> _]. }
    destruct out; try done; exact (P o).
Qed.

(** ** Lawful clients *)

(** The invariant of clients that unblock only what they owe. *)
Definition nb (ps : list ds_point) (i : nat) : Z :=
  match ps !! i with Some p => nblocked p | None => 0 end.

Record linv (ps : list ds_point) (ths : list thread) : Prop := {
  linv_weight i : Z.of_nat (weight i ths) ≤ nb ps i;
  linv_wait t th i p : ths !! t = Some th → at_ th = Waiting i false → ps !! i = Some p →
    in_syncwait p = false ∧ is_enabled p = true;
  linv_unblock t th nm : ths !! t = Some th → at_ th = Lock (DsUnblock nm) →
    ∃ i, look_up_from 0 nm ps = Some i ∧ i ∈ owes th
}.

Definition cnt (i : nat) (l : list nat) : nat := length (filter (eq i) l).

Lemma cnt_cons i j l : cnt i (j :: l) = ((if decide (i = j) then 1 else 0) + cnt i l)%nat.
Proof. unfold cnt. rewrite filter_cons. by case_decide. Qed.

Lemma cnt_remove_le i j l : (cnt j (remove_one i l) ≤ cnt j l)%nat.
Proof.
  induction l as [|x l IH]; [done|]. cbn [remove_one]. case_decide; rewrite !cnt_cons; lia.
Qed.

Lemma cnt_remove i l : i ∈ l → (cnt i (remove_one i l) + 1 = cnt i l)%nat.
Proof.
  induction l as [|x l IH]; [by intros ?%not_elem_of_nil|]. cbn [remove_one]. intros Hi.
  case_decide as E; rewrite !cnt_cons.
  - rewrite decide_True by done. lia.
  - rewrite decide_False by done. apply elem_of_cons in Hi as [->|Hi]; [done|]. specialize (IH Hi). lia.
Qed.

Lemma w_eq i p o : w i (MkTh p o) =
  ((match p with Waiting j _ => if decide (i = j) then 1 else 0 | _ => 0 end) + cnt i o)%nat.
Proof. done. Qed.

Lemma linv_point n ps ths i p p' t th th' b :
  inv n ps ths → linv ps ths → ps !! i = Some p → ths !! t = Some th → name p' = name p →
  (∀ j, j ≠ i → (w j th' ≤ w j th)%nat) →
  Z.of_nat (w i th') + nblocked p ≤ Z.of_nat (w i th) + nblocked p' →
  (∀ j, at_ th' = Waiting j false → j = i ∧ in_syncwait p' = false ∧ is_enabled p' = true) →
  (∀ nm, at_ th' ≠ Lock (DsUnblock nm)) →
  (b = true ∨ nblocked p = 0 ∨
   (in_syncwait p = false → is_enabled p = true → in_syncwait p' = false ∧ is_enabled p' = true)) →
  linv (<[i := p']> ps) (<[t := th']> (broadcast b ths)).
Proof.
  intros H [L1 L2 L3] Hp Ht Hn Hw Hwi Hth' Hl Hb.
  pose proof (lookup_lt_Some _ _ _ Hp) as Hi.
  split.
  - intros j. pose proof (weight_step j b ths t th th' Ht) as E. specialize (L1 j).
    unfold nb in *. destruct (decide (j = i)) as [->|Hne].
    + rewrite list_lookup_insert_eq by done. rewrite Hp in L1. lia.
    + rewrite list_lookup_insert_ne by done. specialize (Hw j Hne). lia.
  - intros u x j q Hx Hj Hq. apply step_lookup in Hx as [[-> ->]|(Hu & y & Hy & ->)].
    + destruct (Hth' j Hj) as (-> & K). rewrite list_lookup_insert_eq in Hq by done.
      by injection Hq as <-.
    + apply wk_waiting_false in Hj as [-> Hj].
      destruct (decide (j = i)) as [->|Hne].
      * rewrite list_lookup_insert_eq in Hq by done. injection Hq as <-.
        destruct (L2 _ _ _ _ Hy Hj Hp) as [K1 K2].
        destruct Hb as [|[Hz|Hb]]; [done| |by apply Hb].
        pose proof (weight_ge i ths u y Hy). pose proof (w_waiting i y false Hj).
        specialize (L1 i). unfold nb in L1. rewrite Hp in L1. lia.
      * rewrite list_lookup_insert_ne in Hq by done. eauto.
  - intros u x nm Hx Hu. apply step_lookup in Hx as [[-> ->]|(_ & y & Hy & ->)]; [by destruct (Hl nm)|].
    apply wk_lock in Hu. rewrite wk_owes. destruct (L3 _ _ _ Hy Hu) as (k & Hk & Ho).
    exists k. split; [|done]. rewrite <- Hk. apply look_up_from_names.
    change (name <$> <[i:=p']> ps = name <$> ps). rewrite list_fmap_insert, Hn.
    apply list_insert_id. rewrite list_lookup_fmap, Hp. done.
Qed.

Lemma linv_thread ps ths t th th' b :
  linv ps ths → ths !! t = Some th → (∀ j, (w j th' ≤ w j th)%nat) →
  (∀ j, at_ th' ≠ Waiting j false) →
  (∀ nm, at_ th' = Lock (DsUnblock nm) → ∃ i, look_up_from 0 nm ps = Some i ∧ i ∈ owes th') →
  linv ps (<[t := th']> (broadcast b ths)).
Proof.
  intros [L1 L2 L3] Ht Hw Hj Hl. split.
  - intros j. pose proof (weight_step j b ths t th th' Ht). specialize (L1 j). specialize (Hw j). lia.
  - intros u x j q Hx Ex Hq. apply step_lookup in Hx as [[-> ->]|(_ & y & Hy & ->)]; [by destruct (Hj j)|].
    apply wk_waiting_false in Ex as [_ Ex]. eauto.
  - intros u x nm Hx Ex. apply step_lookup in Hx as [[-> ->]|(_ & y & Hy & ->)]; [eauto|].
    apply wk_lock in Ex. rewrite wk_owes. eauto.
Qed.

Lemma linv_new ps ths nm :
  linv ps ths → (∀ t th i sig, ths !! t = Some th → at_ th = Waiting i sig → (i < length ps)%nat) →
  linv (ps ++ [MkPoint (take DS_MAX_POINT_NAME_LEN nm) true false 0]) ths.
Proof.
  intros [L1 L2 L3] Hlt. split.
  - intros i. specialize (L1 i). unfold nb in *. destruct (decide (i < length ps)%nat).
    + by rewrite lookup_app_l.
    + rewrite lookup_ge_None_2 in L1 by lia. rewrite lookup_app_r by lia.
      destruct (i - length ps)%nat; done.
  - intros t th i p Ht Hi Hp. rewrite lookup_app_l in Hp by eauto. eauto.
  - intros t th m Ht Hm. destruct (L3 _ _ _ Ht Hm) as (i & Hi & Ho). exists i.
    split; [by apply look_up_from_app|done].
Qed.

Lemma linv_off ps ths t th th' :
  linv ps ths → (∀ t th i sig, ths !! t = Some th → at_ th = Waiting i sig → (i < length ps)%nat) →
  ths !! t = Some th → (∀ j, (w j th' ≤ w j th)%nat) → at_ th' = Idle →
  linv (map off ps)
    (<[t := th']> (broadcast (existsb (fun p => is_enabled p && (0 <? nblocked p)) ps) ths)).
Proof.
  intros H Hlt Ht Hw Hi. set (b := existsb _ ps).
  destruct (linv_thread ps ths t th th' b H Ht Hw) as [K1 K2 K3]; [by rewrite Hi|by rewrite Hi|].
  split.
  - intros i. specialize (K1 i). unfold nb in *. change (map off ps) with (off <$> ps).
    rewrite list_lookup_fmap. destruct (ps !! i) as [p|]; [|done]. cbn.
    destruct (off_fields p) as (_ & -> & _). done.
  - intros u x i q Hx Hxi (p & Hp & ->)%off_lookup. exfalso.
    apply step_lookup in Hx as [[-> ->]|(_ & y & Hy & ->)]; [congruence|].
    apply wk_waiting_false in Hxi as [Hb Hyi].
    destruct (linv_wait _ _ H _ _ _ _ Hy Hyi Hp) as [_ He].
    pose proof (weight_ge i ths u y Hy). pose proof (w_waiting i y false Hyi).
    pose proof (linv_weight _ _ H i) as L. unfold nb in L. rewrite Hp in L.
    unfold b in Hb. rewrite (off_awake ps i p Hp He) in Hb; [done|lia].
  - intros u x nm Hx Hu. destruct (K3 _ _ _ Hx Hu) as (i & Hk & Ho). exists i. split; [|done].
    rewrite <- Hk. apply look_up_from_names. rewrite map_map. apply map_ext. intros p.
    by destruct (off_fields p) as (-> & _).
Qed.

Lemma owes_after_le th d0 rc j :
  rc ≠ 0 ∨ (∀ nm, at_ th ≠ Lock (DsWait nm)) ∧ (∀ i sig, at_ th ≠ Waiting i sig) →
  (w j (MkTh Idle (owes_after th d0 rc)) ≤ w j th)%nat.
Proof.
  intros Hrc. rewrite w_eq. unfold w. fold (cnt j (owes th)).
  enough (cnt j (owes_after th d0 rc) ≤ cnt j (owes th))%nat by (cbn; lia).
  unfold owes_after, subject. destruct th as [p o]. cbn [at_ owes] in *.
  assert (E : rc ≠ 0 → (rc =? 0) = false) by apply Z.eqb_neq.
  destruct p as [|[]|i sig|i sig]; try done.
  - destruct Hrc as [Hrc|[K _]]; [by rewrite E|by destruct (K point_name)].
  - destruct (look_up _ _); [apply cnt_remove_le|done].
  - destruct Hrc as [Hrc|[_ K]]; [by rewrite E|by destruct (K i sig)].
Qed.

Definition lpost (ths : list thread) (t : nat) (th : thread) (d0 : ds_global) (s : section) : Prop :=
  let '(d, b, out) := s in
  out ≠ OCrash ∧
  linv (point d)
    (<[t := MkTh (next_pc out) (match out with ORet rc => owes_after th d0 rc | _ => owes th end)]>
       (broadcast b ths)).

Section lpost.
Context (n : Z) (ths : list thread) (t : nat) (th : thread) (Ht : ths !! t = Some th) (d0 : ds_global).

Lemma lpost_ret d rc :
  linv (point d) ths →
  rc ≠ 0 ∨ (∀ nm, at_ th ≠ Lock (DsWait nm)) ∧ (∀ i sig, at_ th ≠ Waiting i sig) →
  lpost ths t th d0 (d, false, ORet rc).
Proof.
  intros L Hrc. split; [done|]. cbn [next_pc]. eapply linv_thread; try done.
  intros j. by apply owes_after_le.
Qed.

(** The end of [ds_wait]: [p] is the point as [ds_wait] found it, its counter
    is [k] higher if this thread has just added itself. *)
Lemma lpost_wait_loop i d p k :
  inv n (point d) ths → linv (point d) ths → point d !! i = Some p →
  (∃ sig, at_ th = Waiting i sig) ∧ k = 0 ∨ (∃ nm, at_ th = Lock (DsWait nm)) ∧ k = 1 →
  subject th d0 = Some i ∨ (k = 1 ∧ in_syncwait p = false ∧ is_enabled p = true) →
  lpost ths t th d0 (wait_loop i (put_point d i (set_nblocked (nblocked p + k) p))).
Proof.
  intros H L Hp Hth Hsub. unfold wait_loop, on_point. cbn [point put_point].
  pose proof (lookup_lt_Some _ _ _ Hp). rewrite list_lookup_insert_eq by done.
  cbn [in_syncwait is_enabled set_nblocked].
  destruct (negb (in_syncwait p) && is_enabled p) eqn:E; (split; [done|]); cbn [next_pc point put_point].
  - apply andb_true_iff in E as [Es Ee]. apply negb_true_iff in Es.
    eapply linv_point; try done.
    + intros j Hj. rewrite w_eq, decide_False by done. unfold w. fold (cnt j (owes th)). lia.
    + rewrite w_eq, decide_True by done. unfold w. fold (cnt i (owes th)).
      destruct Hth as [[[sig ->] ->]|[[nm ->] ->]]; [rewrite decide_True by done|]; cbn; lia.
    + by intros j [= ->].
    + right. right. cbn. done.
  - assert (Hcnt : ∀ j rc, (cnt j (owes_after th d0 rc) ≤ cnt j (owes th) + if decide (j = i) then 1 else 0)%nat).
    { intros j rc. unfold owes_after.
      destruct Hth as [[[sig ->] ->]|[[nm ->] ->]]; (destruct (rc =? 0); [|lia]); (destruct Hsub as [->|(? & Es & Ee)];
        [rewrite cnt_cons; case_decide; subst; rewrite ?decide_True by done; lia|]); try done.
      by rewrite Es, Ee in E. }
    eapply linv_point; try done.
    + intros j Hj. rewrite w_eq. unfold w. fold (cnt j (owes th)).
      match goal with |- context [owes_after th d0 ?rc] => specialize (Hcnt j rc) end.
      rewrite decide_False in Hcnt by done. lia.
    + destruct Hth as [[[sig Ea] ->]|[[nm Ea] ->]].
      * rewrite w_eq. unfold w. rewrite Ea, decide_True by done. fold (cnt i (owes th)).
        match goal with |- context [owes_after th d0 ?rc] => specialize (Hcnt i rc) end.
        rewrite decide_True in Hcnt by done. cbn [nblocked set_nblocked]. lia.
      * rewrite w_eq. unfold w. rewrite Ea. fold (cnt i (owes th)).
        match goal with |- context [owes_after th d0 ?rc] => specialize (Hcnt i rc) end.
        rewrite decide_True in Hcnt by done. cbn [nblocked set_nblocked]. lia.
    + right. right. cbn. done.
Qed.
Lemma lpost_exec_loop i d b p :
  inv n (point d) ths → linv (point d) ths → point d !! i = Some p →
  (∃ nm, at_ th = Lock (DsExec nm)) ∧ b = true ∧ nblocked p ≠ 0 ∨ (∃ sig, at_ th = Holding i sig) ∧ b = false →
  lpost ths t th d0 (exec_loop i (put_point d i (set_syncwait (b || in_syncwait p) p)) b).
Proof.
  intros H L Hp Hth. unfold exec_loop, on_point. cbn [point put_point].
  pose proof (lookup_lt_Some _ _ _ Hp). rewrite list_lookup_insert_eq by done.
  cbn [in_syncwait is_enabled set_syncwait].
  assert (Ho : ∀ rc, owes_after th d0 rc = owes th).
  { intros rc. unfold owes_after. by destruct Hth as [[[nm ->] _]|[[sig ->] _]]. }
  assert (Hw : ∀ j, w j th = cnt j (owes th)).
  { intros j. unfold w. by destruct Hth as [[[nm ->] _]|[[sig ->] _]]. }
  destruct (_ && _) eqn:E; (split; [done|]); cbn [next_pc point put_point].
  - eapply linv_point; try done; rewrite ?Ho.
    + intros j _. by rewrite Hw.
    + by rewrite Hw.
    + destruct b; [by left|]. right; right. cbn. done.
  - rewrite list_insert_insert_eq. eapply linv_point; try done; rewrite ?Ho.
    + intros j _. by rewrite Hw.
    + by rewrite Hw.
    + destruct b; [by left|]. right; right. cbn. done.
Qed.

Lemma lpost_unblock i d p :
  inv n (point d) ths → linv (point d) ths → point d !! i = Some p → i ∈ owes th →
  (∃ nm, at_ th = Lock (DsUnblock nm)) → subject th d0 = Some i →
  lpost ths t th d0 (on_point d i (fun p =>
    if 0 <? nblocked p then
      let p := set_nblocked (nblocked p - 1) p in
      if nblocked p =? 0 then (put_point d i (set_syncwait false p), true, ORet 0)
      else (put_point d i p, false, ORet 0)
    else (d, false, OCrash))).
Proof.
  intros H L Hp Ho [nm Ea] Hsub. unfold on_point. rewrite Hp.
  pose proof (weight_ge i ths t th Ht). pose proof (linv_weight _ _ L i) as Lw.
  unfold nb in Lw. rewrite Hp in Lw.
  pose proof (cnt_remove i _ Ho) as Hc.
  assert (Hw : ∀ j, w j th = cnt j (owes th)) by (intros j; unfold w; by rewrite Ea).
  assert (Hoa : ∀ rc, owes_after th d0 rc = remove_one i (owes th)).
  { intros rc. unfold owes_after. by rewrite Ea, Hsub. }
  pose proof (Hw i). destruct (Z.ltb_spec 0 (nblocked p)); [|lia]. cbn [nblocked set_nblocked].
  destruct (Z.eqb_spec (nblocked p - 1) 0); (split; [done|]); cbn [next_pc point put_point];
    rewrite Hoa; eapply linv_point; try done; try (intros j _; rewrite w_eq, Hw; apply cnt_remove_le);
    try (rewrite w_eq; cbn [nblocked set_nblocked set_syncwait]; lia).
  - by left.
  - right; right. cbn. done.
Qed.
End lpost.

Lemma acquire_Some oom nm d d' i :
  acquire oom nm d = Some (i, d') →
  (look_up nm d = Some i ∧ d' = d) ∨
  (look_up nm d = None ∧ i = length (point d) ∧
   point d' = point d ++ [MkPoint (take DS_MAX_POINT_NAME_LEN nm) true false 0]).
Proof.
  unfold acquire, create_new. destruct (look_up nm d) eqn:E; [intros [= -> ->]; by left|].
  destruct (_ <=? _); [done|]. destruct oom; [done|]. intros [= <- <-]. by right.
Qed.

Lemma linv_acquire n oom nm d d' i ths :
  inv n (point d) ths → linv (point d) ths → acquire oom nm d = Some (i, d') →
  linv (point d') ths ∧ ∃ p, point d' !! i = Some p ∧
    (look_up nm d = Some i ∨ in_syncwait p = false ∧ is_enabled p = true).
Proof.
  intros H L [[E ->]|(_ & -> & ->)]%acquire_Some.
  - split; [done|]. destruct (lookup_lt_is_Some_2 (point d) i) as [p Hp]; [by eapply look_up_lt|]. eauto.
  - split.
    + apply linv_new; [done|]. intros t th j sig Ht Hj. eapply inv_at; eauto.
    + eexists. split; [by apply list_lookup_middle|]. right. done.
Qed.

Lemma lpost_locked n ths t o ow oom d :
  ths !! t = Some (MkTh (Lock o) ow) → inv n (point d) ths → linv (point d) ths →
  0 ≤ n → n + 1 < 2 ^ 64 →
  lpost ths t (MkTh (Lock o) ow) d (locked oom o d).
Proof.
  intros Ht H L H0 Hn. set (th := MkTh (Lock o) ow) in *.
  assert (Hat : ∀ t th i sig, ths !! t = Some th → at_ th = Waiting i sig → (i < length (point d))%nat).
  { intros u x i sig Hu Hx. eapply inv_at; eauto. }
  assert (Hr : ∀ d, linv (point d) ths → lpost ths t th d (d, false, ORet (-1))).
  { intros d' L'. apply lpost_ret; [done|done|by left]. }
  destruct o as [|a|nm e|nm|nm|nm]; cbn [locked].
  - unfold ds_disable_all_sec. destruct (negb _).
    + split; [done|]. by eapply linv_off.
    + apply lpost_ret; [done|done|]. right. done.
  - unfold ds_activate_sec. destruct (negb _); (split; [done|]).
    + by eapply linv_off.
    + by eapply (linv_thread _ _ _ th _ false).
  - unfold ds_enable_sec. destruct (inactive d); [by apply Hr|].
    destruct (look_up nm d) as [i|] eqn:El; [|by apply Hr]. unfold on_point.
    destruct (lookup_lt_is_Some_2 (point d) i) as [p Hp]; [by eapply look_up_lt|]. rewrite Hp.
    destruct (inv_blocked _ _ _ H _ _ Hp) as [Hb _].
    split; [done|]. cbn [next_pc put_point point]. eapply linv_point; try done.
    cbn. destruct e; cbn; [by right; right|].
    destruct (Z.ltb_spec 0 (nblocked p)); [by left|right; left; lia].
  - unfold ds_exec_sec. destruct (inactive d); [by apply Hr|].
    destruct (acquire oom nm d) as [[i d']|] eqn:Ha; [|by apply Hr].
    destruct (linv_acquire _ _ _ _ _ _ _ H L Ha) as (L' & p & Hp & _).
    destruct (inv_acquire _ _ _ _ _ _ _ H H0 Ha) as [H' _]. unfold on_point. rewrite Hp.
    destruct (_ && _); [apply lpost_ret; [done|done|by left]|].
    destruct (Z.eqb_spec (nblocked p) 0).
    + apply lpost_ret; [done|done|]. by right.
    + apply (lpost_exec_loop n ths t th Ht d i d' true p H' L' Hp). left. by split; [exists nm|].
  - unfold ds_wait_sec. destruct (inactive d); [by apply Hr|].
    destruct (acquire oom nm d) as [[i d']|] eqn:Ha; [|by apply Hr].
    destruct (linv_acquire _ _ _ _ _ _ _ H L Ha) as (L' & p & Hp & Hs).
    destruct (inv_acquire _ _ _ _ _ _ _ H H0 Ha) as [H' _]. unfold on_point. rewrite Hp.
    destruct (inv_blocked _ _ _ H' _ _ Hp) as [Hb _].
    unfold wrap. rewrite Z.mod_small by lia.
    apply (lpost_wait_loop n ths t th Ht d i d' p 1 H' L' Hp).
    + right. split; [by exists nm|done].
    + destruct Hs as [Hs|Hs]; [by left|by right].
  - unfold ds_unblock_sec. destruct (inactive d); [by apply Hr|].
    destruct (linv_unblock _ _ L t th nm Ht eq_refl) as (i & Hi & Ho).
    assert (El : look_up nm d = Some i) by exact Hi. rewrite El.
    destruct (lookup_lt_is_Some_2 (point d) i) as [p Hp]; [by eapply look_up_lt|].
    apply (lpost_unblock n ths t th Ht d i d p H L Hp Ho); [by exists nm|done].
Qed.

(** A client unblocks a point only if a wait of its own on that point went through. *)
Definition lawful (s : system) (t : nat) (a : action) : Prop :=
  match a with
  | Call (DsUnblock nm) =>
      ∃ th i, threads s !! t = Some th ∧ look_up nm (ds s) = Some i ∧ i ∈ owes th
  | _ => True
  end.

Lemma lpost_run n s t th oom sec :
  inv n (point (ds s)) (threads s) → linv (point (ds s)) (threads s) → 0 ≤ n → n + 1 < 2 ^ 64 →
  threads s !! t = Some th → run_section oom th (ds s) = Some sec →
  lpost (threads s) t th (ds s) sec.
Proof.
  intros H L H0 Hn Ht Er. destruct th as [[|op|i sig|i sig] ow]; cbn in Er; [done|..]; injection Er as <-.
  - by eapply lpost_locked.
  - destruct (lookup_lt_is_Some_2 (point (ds s)) i) as [p Hp]; [eapply inv_at; eauto|].
    pose proof (lpost_wait_loop n _ t _ Ht (ds s) i (ds s) p 0 H L Hp) as P.
    replace (put_point _ _ _) with (ds s) in P.
    + apply P; [left; split; [by exists sig|done]|by left].
    + unfold put_point. destruct p. unfold set_nblocked. cbn. rewrite Z.add_0_r, list_insert_id by done.
      by destruct (ds s).
  - destruct (lookup_lt_is_Some_2 (point (ds s)) i) as [p Hp]; [eapply inv_at; eauto|].
    pose proof (lpost_exec_loop n _ t _ Ht (ds s) i (ds s) false p H L Hp) as P.
    replace (put_point _ _ _) with (ds s) in P.
    + apply P. right. split; [by exists sig|done].
    + unfold put_point. destruct p. unfold set_syncwait. cbn. rewrite list_insert_id by done.
      by destruct (ds s).
Qed.

Lemma linv_step n s t a s' r :
  inv n (point (ds s)) (threads s) → linv (point (ds s)) (threads s) → 0 ≤ n → n + 1 < 2 ^ 64 →
  lawful s t a → sched s t a = Go s' r → linv (point (ds s')) (threads s').
Proof.
  intros H L H0 Hn Hl E. destruct a as [o|oom].
  - unfold sched in E. destruct (threads s !! t) as [th|] eqn:Ht; [|done].
    destruct (at_ th) eqn:Ea; try done. destruct (unlocked o (ds s)) as [[d rc]|] eqn:Eu.
    + injection E as <- _. cbn [ds threads]. replace (point d) with (point (ds s)); [done|].
      destruct o; cbn in Eu; repeat case_match; try done; by injection Eu as <- _.
    + injection E as <- _. cbn [ds threads].
      eapply (linv_thread _ _ _ th _ false); [done|done| |done|].
      * intros j. rewrite w_eq. unfold w. rewrite Ea. done.
      * intros nm [= ->]. destruct Hl as (x & i & Hx & Hi & Ho). rewrite Ht in Hx. injection Hx as <-.
        eauto.
  - apply sched_Run in E as (th & d & b & out & o & Ht & Er & Ho & -> & -> & -> & _).
    by destruct (lpost_run _ _ _ _ _ _ H L H0 Hn Ht Er).
Qed.

(** ** Runs *)

(** [k] steps from a freshly initialised library, each allowed by [P]. *)
Inductive trace (P : system → nat → action → Prop) : Z → system → Prop :=
  | trace_start flags n : trace P 0 (start flags n)
  | trace_step k s t a s' r :
      trace P k s → P s t a → sched s t a = Go s' r → trace P (k + 1) s'.

Definition anyhow (s : system) (t : nat) (a : action) : Prop := True.

Lemma trace_nonneg P k s : trace P k s → 0 ≤ k.
Proof. induction 1; lia. Qed.

Lemma start_lookup flags n t th : threads (start flags n) !! t = Some th → th = MkTh Idle [].
Proof. cbn. intros [-> _]%lookup_replicate. done. Qed.

Lemma trace_inv P k s : trace P k s → k < 2 ^ 64 → inv k (point (ds s)) (threads s).
Proof.
  induction 1 as [flags n|k s t a s' r Hs IH _ E]; intros Hk.
  - split; try done.
    + intros t th i sig Ht. apply start_lookup in Ht as ->. cbn. by intros [|].
  - pose proof (trace_nonneg _ _ _ Hs). eapply inv_step; [apply IH; lia|lia|lia|done].
Qed.

Lemma trace_linv k s : trace lawful k s → k < 2 ^ 64 → linv (point (ds s)) (threads s).
Proof.
  induction 1 as [flags n|k s t a s' r Hs IH Hl E]; intros Hk.
  - split; try done.
    + intros i. unfold weight, start. cbn [threads]. unfold nb. cbn.
      replace (sum_list_with (w i) (replicate n (MkTh Idle []))) with 0%nat; [done|].
      induction n as [|n IHn]; [done|]. cbn [replicate sum_list_with]. by rewrite <- IHn.
    + intros t th nm Ht. apply start_lookup in Ht as ->. done.
  - pose proof (trace_nonneg _ _ _ Hs). assert (Hk' : k < 2 ^ 64) by lia.
    exact (linv_step k s t a s' r (trace_inv _ _ _ Hs Hk') (IH Hk') ltac:(lia) ltac:(lia) Hl E).
Qed.

(** A run given as a list of steps is a trace. *)
Fixpoint run_to (s : system) (steps : list (nat * action)) : option system :=
  match steps with
  | [] => Some s
  | (t, a) :: steps' =>
      match sched s t a with Go s' _ => run_to s' steps' | _ => None end
  end.

Lemma run_to_trace P steps k s s' :
  trace P k s → run_to s steps = Some s' → Forall (fun ta => ∀ s1, P s1 ta.1 ta.2) steps →
  trace P (k + zlen steps) s'.
Proof.
  revert k s. induction steps as [|[t a] steps IH]; intros k s Hs E HP.
  - injection E as <-. by rewrite Z.add_0_r.
  - cbn [run_to] in E. destruct (sched s t a) as [| |s1 r] eqn:Es; try done.
    replace (k + zlen ((t, a) :: steps)) with (k + 1 + zlen steps) by (cbn [length]; lia).
    apply Forall_cons in HP as [HPa HP]. eapply IH; [|exact E|exact HP].
    eapply trace_step; [done|apply HPa|done].
Qed.

(** ** The properties *)

(** C2: [ds_wait] is a rendezvous.  Whatever the threads do, a [ds_wait] that goes
    through with 0 after waiting or on entry leaves the point enabled and in its
    synchronised state, with some other thread still held inside [ds_exec] on
    that same point. *)
Theorem ds_wait_rendezvous k s t th oom s' :
  trace anyhow k s → k + 1 < 2 ^ 64 → threads s !! t = Some th →
  (∃ nm, at_ th = Lock (DsWait nm)) ∨ (∃ i sig, at_ th = Waiting i sig) →
  sched s t (Run oom) = Go s' (Some 0) →
  ∃ i p u thu sig, subject th (ds s) = Some i ∧ point (ds s') !! i = Some p ∧
    is_enabled p = true ∧ in_syncwait p = true ∧
    u ≠ t ∧ threads s' !! u = Some thu ∧ at_ thu = Holding i sig.
Proof.
  intros Hs Hk Ht Hth E. pose proof (trace_nonneg _ _ _ Hs).
  pose proof (trace_inv _ _ _ Hs ltac:(lia)) as H0.
  pose proof (inv_step _ _ _ _ _ _ H0 ltac:(lia) Hk E) as H1.
  enough (∃ i p, subject th (ds s) = Some i ∧ point (ds s') !! i = Some p ∧
    is_enabled p = true ∧ in_syncwait p = true) as (i & p & Hsub & Hp & He & Hy).
  { destruct (inv_holder _ _ _ H1 _ _ Hp Hy) as (u & y & sig & Hu & Hyh).
    exists i, p, u, y, sig. split_and!; try done. intros ->.
    apply sched_Run in E as (x & d & b & out & o & Hx & Er & Ho & _ & Eth & _ & Hr).
    rewrite Eth, list_lookup_insert_eq in Hu.
    - injection Hu as <-. destruct out; try done.
    - destruct b; cbn; rewrite ?length_map; by eapply lookup_lt_Some. }
  apply sched_Run in E as (x & d & b & out & o & Hx & Er & Ho & -> & _ & _ & Hr).
  rewrite Ht in Hx. injection Hx as <-. destruct out as [rc| | |]; try done. injection Hr as <-.
  assert (Hloop : ∀ i d1, wait_loop i d1 = (d, b, ORet 0) →
    ∃ p, point d !! i = Some p ∧ is_enabled p = true ∧ in_syncwait p = true).
  { intros i d1. unfold wait_loop, on_point. destruct (point d1 !! i) as [p|] eqn:Hp; [|done].
    destruct (is_enabled p) eqn:He, (in_syncwait p) eqn:Hy; cbn; try done.
    intros [= <- _]. eauto. }
  destruct th as [pc0 ow]. cbn [at_] in Hth. destruct Hth as [[nm ->]|(i & sig & ->)]; injection Er as Er.
  - cbn [locked] in Er. unfold ds_wait_sec in Er. destruct (inactive (ds s)); [done|].
    destruct (acquire oom nm (ds s)) as [[i d1]|] eqn:Ha; [|done].
    unfold on_point in Er. destruct (point d1 !! i) as [p1|] eqn:Hp1; [|done].
    pose proof (Hloop _ _ Er) as (p & Hp & He & Hy). exists i, p. split_and!; try done.
    apply acquire_Some in Ha as [[Hl _]|(_ & -> & Hd1)]; [done|].
    pose proof (lookup_lt_Some _ _ _ Hp1) as Hlt.
    rewrite Hd1, list_lookup_middle in Hp1 by done. injection Hp1 as <-.
    unfold wait_loop, on_point in Er. cbn [point put_point] in Er.
    by rewrite list_lookup_insert_eq in Er by done.
  - destruct (Hloop _ _ Er) as (p & Hp & He & Hy). by exists i, p.
Qed.

(** C10: no wake-up is lost.  When clients unblock only what they owe, a thread that
    sleeps unsignalled in [ds_wait] finds its point enabled and not synchronised,
    and one that sleeps unsignalled in [ds_exec] finds its point enabled,
    synchronised and still blocked by someone: nobody sleeps through the event it
    waits for. *)
Theorem ds_no_lost_wakeup k s t th i :
  trace lawful k s → k < 2 ^ 64 → threads s !! t = Some th →
  (at_ th = Waiting i false →
   ∃ p, point (ds s) !! i = Some p ∧ in_syncwait p = false ∧ is_enabled p = true) ∧
  (at_ th = Holding i false →
   ∃ p, point (ds s) !! i = Some p ∧ in_syncwait p = true ∧ is_enabled p = true ∧ 0 < nblocked p).
Proof.
  intros Hs Hk Ht. pose proof (trace_inv _ _ _ Hs Hk) as H. pose proof (trace_linv _ _ Hs Hk) as L.
  split; intros Hi.
  - destruct (lookup_lt_is_Some_2 (point (ds s)) i) as [p Hp]; [eapply inv_at; eauto|].
    exists p. split; [done|]. by eapply linv_wait.
  - destruct (lookup_lt_is_Some_2 (point (ds s)) i) as [p Hp]; [eapply inv_at; eauto|].
    exists p. destruct (inv_hold _ _ _ H _ _ _ _ Ht Hi Hp).
    split_and!; [done|done|done|]. by apply (inv_blocked _ _ _ H _ _ Hp).
Qed.

(** C16: the assertion of [ds_unblock] never fails and no call steps outside the array of
    points, for clients that unblock only what they owe: in every state such
    clients can reach, no step of any thread crashes. *)
Theorem ds_never_crashes k s t a :
  trace lawful k s → k + 1 < 2 ^ 64 → lawful s t a → sched s t a ≠ Crash.
Proof.
  intros Hs Hk Hl E. pose proof (trace_nonneg _ _ _ Hs).
  pose proof (trace_inv _ _ _ Hs ltac:(lia)) as H0. pose proof (trace_linv _ _ Hs ltac:(lia)) as L0.
  unfold sched in E. destruct (threads s !! t) as [th|] eqn:Ht; [|done]. destruct a as [o|oom].
  - destruct (at_ th); try done. by destruct (unlocked o (ds s)) as [[]|].
  - destruct (run_section oom th (ds s)) as [[[d b] out]|] eqn:Er; [|done].
    destruct (lpost_run _ _ _ _ _ _ H0 L0 ltac:(lia) Hk Ht Er) as [Ho _]. by destruct out.
Qed.

(** The name a call may create a point for. *)
Definition asks (o : op) : option (list Z) :=
  match o with DsExec nm | DsWait nm => Some nm | _ => None end.

(** What the updates of the table keep, every step keeps, for clients that ask
    for names in [Q]. *)
Section keeps.
Context (P : ds_global → Prop) (Q : list Z → Prop).
Context (Pput : ∀ d i p q, point d !! i = Some q → name p = name q → P d → P (put_point d i p)).
Context (Pacquire : ∀ oom nm d i d', Q nm → P d → acquire oom nm d = Some (i, d') → P d').
Context (Pdisable : ∀ d, P d → P (disable_all d).1).
Context (Pactivate : ∀ a d, P d → P (do_activate a d)).

Lemma keeps_on_point d i f : P d → (∀ p, point d !! i = Some p → P (f p).1.1) → P (on_point d i f).1.1.
Proof. intros Hd Hf. unfold on_point. destruct (point d !! i); [by apply Hf|done]. Qed.

Lemma keeps_exec_loop i d b : P d → P (exec_loop i d b).1.1.
Proof.
  intros Hd. apply keeps_on_point; [done|]. intros p Hp. destruct (_ && _); [done|]. by eapply Pput.
Qed.

Lemma keeps_wait_loop i d : P d → P (wait_loop i d).1.1.
Proof. intros Hd. apply keeps_on_point; [done|]. intros p _. by destruct (_ && _). Qed.

Lemma keeps_locked oom o d : (∀ nm, asks o = Some nm → Q nm) → P d → P (locked oom o d).1.1.
Proof.
  intros HQ Hd. destruct o as [|a|nm e|nm|nm|nm]; cbn [locked].
  - unfold ds_disable_all_sec. destruct (negb _); [by apply Pdisable|done].
  - unfold ds_activate_sec. destruct (negb _); apply Pactivate; [exact (Pdisable d Hd)|done].
  - unfold ds_enable_sec. destruct (inactive d); [done|]. destruct (look_up nm d); [|done].
    apply keeps_on_point; [done|]. intros p Hp. by eapply Pput.
  - unfold ds_exec_sec. destruct (inactive d); [done|]. destruct (acquire oom nm d) as [[i d']|] eqn:E; [|done].
    apply (Pacquire _ _ _ _ _ (HQ nm eq_refl) Hd) in E. apply keeps_on_point; [done|]. intros p Hp.
    destruct (_ && _); [done|]. destruct (_ =? _); [done|]. apply keeps_exec_loop. by eapply Pput.
  - unfold ds_wait_sec. destruct (inactive d); [done|]. destruct (acquire oom nm d) as [[i d']|] eqn:E; [|done].
    apply (Pacquire _ _ _ _ _ (HQ nm eq_refl) Hd) in E. apply keeps_on_point; [done|]. intros p Hp.
    apply keeps_wait_loop. by eapply Pput.
  - unfold ds_unblock_sec. destruct (inactive d); [done|]. destruct (look_up nm d); [|done].
    apply keeps_on_point; [done|]. intros p Hp. destruct (_ <? _); [|done]. cbv zeta.
    destruct (_ =? _); cbn; by eapply Pput.
Qed.

Lemma keeps_sched s t a s' r :
  (∀ th o nm, threads s !! t = Some th → at_ th = Lock o → asks o = Some nm → Q nm) →
  P (ds s) → sched s t a = Go s' r → P (ds s').
Proof.
  intros HQ Hd. unfold sched. destruct (threads s !! t) as [th|]; [|done]. destruct a as [o|oom].
  - destruct (at_ th); try done. destruct o; cbn [unlocked]; repeat case_match; intros; simplify_eq; try done.
    by apply Pactivate.
  - unfold run_section. destruct (at_ th) as [|o|i sg|i sg] eqn:Ea; [done|..].
    + pose proof (keeps_locked oom o _ (fun nm => HQ th o nm eq_refl Ea) Hd) as Hf. destruct (locked oom o (ds s)) as [[d b] [| | |]]; intros [= <- _]; exact Hf.
    + pose proof (keeps_wait_loop i _ Hd) as Hf. destruct (wait_loop i (ds s)) as [[d b] [| | |]]; intros [= <- _]; exact Hf.
    + pose proof (keeps_exec_loop i _ false Hd) as Hf. destruct (exec_loop i (ds s) false) as [[d b] [| | |]]; intros [= <- _]; exact Hf.
Qed.
End keeps.

(** No step makes the table larger than its array. *)
Definition fits (d : ds_global) : Prop := zlen (point d) ≤ DS_MAX_POINT_COUNT.

Lemma fits_sched s t a s' r : fits (ds s) → sched s t a = Go s' r → fits (ds s').
Proof.
  apply (keeps_sched _ (fun _ => True)); unfold fits; try done.
  - intros d i p q _ _. cbn. by rewrite length_insert.
  - intros oom nm d i d' _ Hd. unfold acquire, create_new. destruct (look_up nm d); [by intros [= _ <-]|].
    destruct (Z.leb_spec DS_MAX_POINT_COUNT (zlen (point d))); [done|]. destruct oom; [done|].
    intros [= _ <-]. cbn. rewrite length_app. cbn. lia.
  - intros d. cbn. by rewrite length_map.
Qed.

(** No step removes a point. *)
Lemma sched_length s t a s' r :
  sched s t a = Go s' r → (length (point (ds s)) ≤ length (point (ds s')))%nat.
Proof.
  apply (keeps_sched (fun d => (length (point (ds s)) ≤ length (point d))%nat) (fun _ => True)); try done.
  - intros d i p q _ _. cbn. by rewrite length_insert.
  - intros oom nm d i d' _ Hd [[_ ->]|(_ & _ & ->)]%acquire_Some; [done|]. rewrite length_app. lia.
  - intros d. cbn. by rewrite length_map.
Qed.

(** C18: the state is well formed whatever the threads do.  The table has at most
    256 points, with names of at most 32 characters and a count of waiting
    threads that has not wrapped around; a point is in its synchronised state
    only while it has waiting threads and some thread is held at it; and a thread
    inside the library refers to a point of the table. *)
Theorem ds_well_formed P k s :
  trace P k s → k < 2 ^ 64 →
  zlen (point (ds s)) ≤ DS_MAX_POINT_COUNT ∧
  (∀ i p, point (ds s) !! i = Some p →
     (length (name p) ≤ DS_MAX_POINT_NAME_LEN)%nat ∧ 0 ≤ nblocked p < 2 ^ 64 ∧
     (in_syncwait p = true → 0 < nblocked p ∧
        ∃ t th sig, threads s !! t = Some th ∧ at_ th = Holding i sig)) ∧
  (∀ t th i sig, threads s !! t = Some th → at_ th = Waiting i sig ∨ at_ th = Holding i sig →
     is_Some (point (ds s) !! i)).
Proof.
  intros Hs Hk. pose proof (trace_inv _ _ _ Hs Hk) as H. split_and!.
  - clear H. induction Hs as [|k s t a s' r Hs IH _ E]; [done|].
    refine (fits_sched _ _ _ _ _ _ E). apply IH. lia.
  - intros i p Hp. destruct (inv_blocked _ _ _ H _ _ Hp) as [Hb Hw].
    split_and!; [by eapply inv_names|lia|lia|]. intros Hsy. split; [by apply Hw|by eapply inv_holder].
  - intros t th i sig Ht Ha. apply lookup_lt_is_Some_2. by eapply inv_at.
Qed.

Lemma off_none_enabled ps i q : map off ps !! i = Some q → is_enabled q = false.
Proof. intros (p & _ & ->)%off_lookup. apply off_fields. Qed.

(** C27: disabling everything releases everyone, if the clients are lawful (they
    unblock only what they owe).  After [ds_disable_all] (or the
    disabling half of [ds_activate]) has run its section on an active framework,
    every thread that sleeps in [ds_wait] or [ds_exec] has been signalled, and
    its next section ends the call with -1. *)
Theorem ds_disable_all_releases k s t th s' oom r :
  trace lawful k s → k + 1 < 2 ^ 64 → threads s !! t = Some th →
  at_ th = Lock DsDisableAll ∨ (∃ a, at_ th = Lock (DsActivate a)) → inactive (ds s) = false → sched s t (Run oom) = Go s' r →
  ∀ u thu i sig, threads s' !! u = Some thu →
    at_ thu = Waiting i sig ∨ at_ thu = Holding i sig →
    sig = true ∧ ∃ s'', sched s' u (Run false) = Go s'' (Some (-1)).
Proof.
  intros Hs Hk Ht Ea Hact E.
  assert (Hs' : trace lawful (k + 1) s') by exact (trace_step _ _ s t (Run oom) _ _ Hs I E).
  pose proof (trace_inv _ _ _ Hs' Hk) as H. pose proof (trace_linv _ _ Hs' Hk) as L.
  assert (Hoff : ∀ i p, point (ds s') !! i = Some p → is_enabled p = false).
  { apply sched_Run in E as (x & d & b & out & o & Hx & Er & _ & -> & _ & _ & _).
    rewrite Ht in Hx. injection Hx as <-. destruct th as [pc0 ow]. cbn [at_] in Ea.
    destruct Ea as [-> | [a ->]]; injection Er as Er; cbn [locked] in Er;
      unfold ds_disable_all_sec, ds_activate_sec in Er; rewrite Hact in Er;
      injection Er as <- _ _; intros i p; apply off_none_enabled. }
  intros u y i sig Hu Hy.
  destruct (lookup_lt_is_Some_2 (point (ds s')) i) as [p Hp]; [eapply inv_at; eauto|].
  pose proof (Hoff i p Hp) as He. split.
  - destruct sig; [done|]. exfalso. destruct Hy as [Hy|Hy].
    + destruct (linv_wait _ _ L _ _ _ _ Hu Hy Hp). congruence.
    + destruct (inv_hold _ _ _ H _ _ _ _ Hu Hy Hp). congruence.
  - unfold sched. rewrite Hu. destruct y as [pc0 ow]. cbn [at_] in *.
    destruct Hy as [-> | ->]; cbn [run_section at_]; unfold wait_loop, exec_loop, on_point;
      rewrite Hp, He, andb_false_r; eauto.
Qed.

(** names are cut at 32 characters when a point is created and compared whole when it
    is looked up: a longer name is never found, in any state any client can
    reach, and each [ds_exec] or [ds_wait] on it takes a new entry of the table. *)
Theorem ds_long_names_never_found k s nm :
  trace anyhow k s → k < 2 ^ 64 → (DS_MAX_POINT_NAME_LEN < length nm)%nat →
  look_up nm (ds s) = None ∧
  (zlen (point (ds s)) < DS_MAX_POINT_COUNT →
   acquire false nm (ds s) =
     Some (length (point (ds s)),
           MkDs (activation (ds s))
             (point (ds s) ++ [MkPoint (take DS_MAX_POINT_NAME_LEN nm) true false 0]))).
Proof.
  intros Hs Hk Hn. pose proof (trace_inv _ _ _ Hs Hk) as H.
  assert (E : look_up nm (ds s) = None).
  { destruct (look_up nm (ds s)) as [i|] eqn:E; [exfalso|done].
    apply look_up_from_Some in E as (j & p & _ & Hp & <-). pose proof (inv_names _ _ _ H _ _ Hp). lia. }
  split; [done|]. intros Hc. unfold acquire, create_new. rewrite E.
  by destruct (Z.leb_spec DS_MAX_POINT_COUNT (zlen (point (ds s)))); [lia|].
Qed.

(** *** The properties at concrete runs *)

Definition pt_name : list Z := zs "point"%string.

(** One thread waits on a point and another arrives there. *)
Definition meeting : list (nat * action) :=
  [(0%nat, Call (DsWait pt_name)); (0%nat, Run false);
   (1%nat, Call (DsExec pt_name)); (1%nat, Run false)].

Definition met : system :=
  MkSys (MkDs DS_ACTIVE [MkPoint pt_name true true 1])
        [MkTh (Waiting 0 true) []; MkTh (Holding 0 false) []].

Lemma met_run : run_to (start DS_ACTIVE 2) meeting = Some met.
Proof. by vm_compute. Qed.

Lemma met_anyhow : trace anyhow 4 met.
Proof.
  apply (run_to_trace anyhow meeting 0 (start DS_ACTIVE 2)); [constructor|apply met_run|].
  repeat constructor.
Qed.

Lemma met_lawful : trace lawful 4 met.
Proof.
  apply (run_to_trace lawful meeting 0 (start DS_ACTIVE 2)); [constructor|apply met_run|].
  repeat constructor.
Qed.

Lemma ds_wait_rendezvous_witness :
  ∃ i p u thu sig, subject (MkTh (Waiting 0 true) []) (ds met) = Some i ∧
    point (MkDs DS_ACTIVE [MkPoint pt_name true true 1]) !! i = Some p ∧
    is_enabled p = true ∧ in_syncwait p = true ∧
    u ≠ 0%nat ∧ [MkTh Idle [0%nat]; MkTh (Holding 0 false) []] !! u = Some thu ∧ at_ thu = Holding i sig.
Proof.
  apply (ds_wait_rendezvous 4 met 0 (MkTh (Waiting 0 true) []) false
    (MkSys (MkDs DS_ACTIVE [MkPoint pt_name true true 1])
       [MkTh Idle [0%nat]; MkTh (Holding 0 false) []])).
  - apply met_anyhow.
  - lia.
  - reflexivity.
  - right. by exists 0%nat, true.
  - by vm_compute.
Defined.

Lemma ds_no_lost_wakeup_witness :
  ∃ p, point (ds met) !! 0%nat = Some p ∧ in_syncwait p = true ∧ is_enabled p = true ∧ 0 < nblocked p.
Proof.
  apply (ds_no_lost_wakeup 4 met 1 (MkTh (Holding 0 false) []) 0); [apply met_lawful|lia|done|done].
Defined.

Lemma ds_never_crashes_witness : sched met 0 (Run false) ≠ Crash.
Proof. apply (ds_never_crashes 4 met 0 (Run false)); [apply met_lawful|lia|exact I]. Defined.

(** A thread held in [ds_exec] and another about to disable everything. *)
Definition halting : list (nat * action) := meeting ++ [(2%nat, Call DsDisableAll)].

Definition halted : system :=
  MkSys (MkDs DS_ACTIVE [MkPoint pt_name true true 1])
        [MkTh (Waiting 0 true) []; MkTh (Holding 0 false) []; MkTh (Lock DsDisableAll) []].

Lemma halted_lawful : trace lawful 5 halted.
Proof.
  apply (run_to_trace lawful halting 0 (start DS_ACTIVE 3)); [constructor|by vm_compute|].
  repeat constructor.
Qed.

Definition released : system :=
  MkSys (MkDs DS_ACTIVE [MkPoint pt_name false true 1])
        [MkTh (Waiting 0 true) []; MkTh (Holding 0 true) []; MkTh Idle []].

Lemma ds_disable_all_releases_witness :
  ∃ s'', sched released 1 (Run false) = Go s'' (Some (-1)).
Proof.
  apply (ds_disable_all_releases 5 halted 2 (MkTh (Lock DsDisableAll) []) released false (Some 0)
           halted_lawful ltac:(lia) eq_refl (or_introl eq_refl) eq_refl eq_refl
           1%nat (MkTh (Holding 0 true) []) 0%nat true eq_refl (or_intror eq_refl)).
Defined.

Lemma ds_long_names_never_found_witness :
  look_up (replicate 33 97) (ds met) = None.
Proof. apply (ds_long_names_never_found 4 met); [apply met_anyhow|lia|unfold DS_MAX_POINT_NAME_LEN; rewrite length_replicate; lia]. Defined.

(** a wait that is broken off by disabling its point stays counted.  Thread 0
    waits; thread 1 disables the point, which ends the wait with -1, and enables
    it again; now a third thread that reaches the point is held in [ds_exec],
    although nobody waits there and nobody owes an unblocking. *)
Theorem ds_aborted_wait_stays_counted :
  run_to (start DS_ACTIVE 3)
    [(0%nat, Call (DsWait pt_name)); (0%nat, Run false);
     (1%nat, Call (DsEnable pt_name false)); (1%nat, Run false); (0%nat, Run false);
     (1%nat, Call (DsEnable pt_name true)); (1%nat, Run false);
     (2%nat, Call (DsExec pt_name)); (2%nat, Run false)]
  = Some (MkSys (MkDs DS_ACTIVE [MkPoint pt_name true true 1])
                [MkTh Idle []; MkTh Idle []; MkTh (Holding 0 false) []]).
Proof. by vm_compute. Qed.

Lemma ds_well_formed_witness :
  zlen (point (ds met)) ≤ DS_MAX_POINT_COUNT ∧
  (∀ i p, point (ds met) !! i = Some p →
     (length (name p) ≤ DS_MAX_POINT_NAME_LEN)%nat ∧ 0 ≤ nblocked p < 2 ^ 64 ∧
     (in_syncwait p = true → 0 < nblocked p ∧
        ∃ t th sig, threads met !! t = Some th ∧ at_ th = Holding i sig)) ∧
  (∀ t th i sig, threads met !! t = Some th → at_ th = Waiting i sig ∨ at_ th = Holding i sig →
     is_Some (point (ds met) !! i)).
Proof. apply (ds_well_formed anyhow 4 met met_anyhow). lia. Defined.
