(* ===== verification/DsProgress.v ===== *)
(** * debugsync.c: threads held at a point can always go on

    While nobody disables points, the counter of a point is exactly the number
    of threads that wait there or owe its unblocking ([einv], a strengthening of
    the invariant [linv] of Debugsync).  So a thread that sleeps in [ds_exec] is
    held by such a thread, and the calls those threads still have to make let it
    go. *)

From stdpp Require Import relations.
From S2P Require Import Prelude Libc Debugsync.
Local Open Scope Z_scope.

(** ** Clients that do not disable anything *)

(** [ds_activate] disables the points too, even when it activates; the framework
    is active. *)
Definition disables (o : op) : bool :=
  match o with DsDisableAll | DsActivate _ | DsEnable _ false => true | _ => false end.

Definition steady (s : system) (t : nat) (a : action) : Prop :=
  inactive (ds s) = false ∧ lawful s t a ∧ match a with Call o => disables o = false | Run _ => True end.

Lemma steady_lawful k s : trace steady k s → trace lawful k s.
Proof. induction 1 as [|k s t a s' r _ IH (_ & Hl & _) E]; [constructor|by eapply trace_step]. Qed.

Record einv (ps : list ds_point) (ths : list thread) : Prop := {
  einv_enabled i p : ps !! i = Some p → is_enabled p = true;
  einv_weight i : nb ps i ≤ Z.of_nat (weight i ths);
  einv_lock t th o : ths !! t = Some th → at_ th = Lock o → disables o = false
}.

Lemma einv_point ps ths i p p' t th th' b :
  einv ps ths → ps !! i = Some p → ths !! t = Some th → is_enabled p' = true →
  (∀ j, j ≠ i → (w j th ≤ w j th')%nat) →
  nblocked p' + Z.of_nat (w i th) ≤ nblocked p + Z.of_nat (w i th') →
  (∀ o, at_ th' ≠ Lock o) →
  einv (<[i := p']> ps) (<[t := th']> (broadcast b ths)).
Proof.
  intros [E W L] Hp Ht He Hw Hwi Hl. pose proof (lookup_lt_Some _ _ _ Hp). split.
  - intros j q. destruct (decide (j = i)) as [->|Hne].
    + rewrite list_lookup_insert_eq by done. by intros [= <-].
    + rewrite list_lookup_insert_ne by done. apply E.
  - intros j. pose proof (weight_step j b ths t th th' Ht). specialize (W j). unfold nb in *.
    destruct (decide (j = i)) as [->|Hne].
    + rewrite list_lookup_insert_eq by done. rewrite Hp in W. lia.
    + rewrite list_lookup_insert_ne by done. specialize (Hw j Hne). lia.
  - intros u x o Hx Ho. apply step_lookup in Hx as [[-> ->]|(_ & y & Hy & ->)]; [by destruct (Hl o)|].
    apply wk_lock in Ho. eauto.
Qed.

Lemma einv_thread ps ths t th th' :
  einv ps ths → ths !! t = Some th → (∀ j, (w j th ≤ w j th')%nat) →
  (∀ o, at_ th' = Lock o → disables o = false) → einv ps (<[t := th']> ths).
Proof.
  intros [E W L] Ht Hw Hl. change (<[t := th']> ths) with (<[t := th']> (broadcast false ths)). split.
  - done.
  - intros j. pose proof (weight_step j false ths t th th' Ht). specialize (W j). specialize (Hw j). lia.
  - intros u x o Hx Ho. apply step_lookup in Hx as [[-> ->]|(_ & y & Hy & ->)]; [by apply Hl|].
    apply wk_lock in Ho. eauto.
Qed.

Lemma einv_new ps ths nm : einv ps ths → einv (ps ++ [MkPoint nm true false 0]) ths.
Proof.
  intros [E W L]. split; [|intros i; specialize (W i); unfold nb in *|done].
  - intros i p [Hp|(_ & [_ <-]%list_lookup_singleton_Some)]%lookup_app_Some; eauto.
  - destruct (decide (i < length ps)%nat).
    + by rewrite lookup_app_l.
    + rewrite lookup_app_r by lia. by destruct (i - length ps)%nat as [|[|k]]; apply Nat2Z.is_nonneg.
Qed.

Lemma einv_acquire oom nm d d' i ths :
  einv (point d) ths → acquire oom nm d = Some (i, d') → einv (point d') ths.
Proof.
  intros S [[_ ->]|(_ & _ & ->)]%acquire_Some; [done|by apply einv_new].
Qed.

(** *** Every section keeps it *)

Definition spost (ths : list thread) (t : nat) (th : thread) (d0 : ds_global) (s : section) : Prop :=
  let '(d, b, out) := s in
  out ≠ OCrash →
  einv (point d)
    (<[t := MkTh (next_pc out) (match out with ORet rc => owes_after th d0 rc | _ => owes th end)]>
       (broadcast b ths)).

Section spost.
Context (ths : list thread) (t : nat) (th : thread) (Ht : ths !! t = Some th) (d0 : ds_global).

(** A section that ends without a change; only waits and unblockings count. *)
Lemma spost_ret d rc :
  einv (point d) ths → rc ≠ 0 ∨ (∀ nm, at_ th ≠ Lock (DsWait nm)) → (∀ nm, at_ th ≠ Lock (DsUnblock nm)) →
  (∀ i sig, at_ th ≠ Waiting i sig) → spost ths t th d0 (d, false, ORet rc).
Proof.
  intros S Hrc Hu Hw _. cbn [next_pc broadcast]. apply (einv_thread _ _ _ th); [done|done| |done].
  intros j. rewrite w_eq. unfold w, owes_after. fold (cnt j (owes th)).
  destruct (at_ th) as [|[]|i sig|i sig] eqn:Ea; try done.
  - destruct Hrc as [Hrc|Hrc]; [|by destruct (Hrc point_name)]. by rewrite (proj2 (Z.eqb_neq _ _) Hrc).
  - by destruct (Hu point_name).
  - by destruct (Hw i sig).
Qed.

Lemma spost_exec_loop i d b p p0 :
  einv (point d) ths → point d !! i = Some p0 → nblocked p = nblocked p0 → is_enabled p = true →
  (∃ nm, at_ th = Lock (DsExec nm)) ∨ (∃ sig, at_ th = Holding i sig) →
  spost ths t th d0 (exec_loop i (put_point d i p) b).
Proof.
  intros S Hp Hn He Hth. unfold exec_loop, on_point. cbn [point put_point].
  pose proof (lookup_lt_Some _ _ _ Hp). rewrite list_lookup_insert_eq by done.
  assert (Ho : ∀ rc, owes_after th d0 rc = owes th).
  { intros rc. unfold owes_after. by destruct Hth as [[nm ->]|[sig ->]]. }
  assert (Hw : ∀ j, w j th = cnt j (owes th)).
  { intros j. unfold w. by destruct Hth as [[nm ->]|[sig ->]]. }
  destruct (_ && _); intros _; cbn [next_pc point put_point]; rewrite ?Ho, ?list_insert_insert_eq;
    (eapply einv_point; [done|done|done|done|intros j _; by rewrite Hw|rewrite Hw, w_eq; cbn [nblocked set_syncwait]; lia|done]).
Qed.

Lemma spost_wait_loop i d p k :
  einv (point d) ths → point d !! i = Some p → 0 ≤ k →
  (∃ sig, at_ th = Waiting i sig) ∧ k = 0 ∨ (∃ nm, at_ th = Lock (DsWait nm)) ∧ k = 1 →
  subject th d0 = Some i ∨ in_syncwait p = false →
  spost ths t th d0 (wait_loop i (put_point d i (set_nblocked (nblocked p + k) p))).
Proof.
  intros S Hp Hk Hth Hsub. unfold wait_loop, on_point. cbn [point put_point].
  pose proof (lookup_lt_Some _ _ _ Hp). rewrite list_lookup_insert_eq by done.
  pose proof (einv_enabled _ _ S _ _ Hp) as He. cbn [in_syncwait is_enabled set_nblocked].
  rewrite He, andb_true_r.
  destruct (in_syncwait p) eqn:Es; cbn [negb]; intros _; cbn [next_pc point put_point].
  - destruct Hsub as [Hsub|]; [|done].
    assert (Ho : owes_after th d0 0 = i :: owes th).
    { unfold owes_after. rewrite Hsub. by destruct Hth as [[[sig ->] _]|[[nm ->] _]]. }
    rewrite Ho. eapply einv_point; try done.
    + intros j Hne. rewrite w_eq, cnt_cons, decide_False by done. unfold w. fold (cnt j (owes th)).
      destruct Hth as [[[sig ->] _]|[[nm ->] _]]; [rewrite decide_False by done|]; lia.
    + rewrite w_eq, cnt_cons, decide_True by done. unfold w. fold (cnt i (owes th)). cbn [nblocked set_nblocked].
      destruct Hth as [[[sig ->] ->]|[[nm ->] ->]]; [rewrite decide_True by done|]; lia.
  - eapply einv_point; try done.
    + intros j Hne. rewrite w_eq, decide_False by done. unfold w. fold (cnt j (owes th)).
      destruct Hth as [[[sig ->] _]|[[nm ->] _]]; [rewrite decide_False by done|]; lia.
    + rewrite w_eq, decide_True by done. unfold w. fold (cnt i (owes th)). cbn [nblocked set_nblocked].
      destruct Hth as [[[sig ->] ->]|[[nm ->] ->]]; [rewrite decide_True by done|]; lia.
Qed.

Lemma spost_unblock i d p nm :
  einv (point d) ths → point d !! i = Some p → i ∈ owes th → at_ th = Lock (DsUnblock nm) →
  subject th d0 = Some i →
  spost ths t th d0 (on_point d i (fun p =>
    if 0 <? nblocked p then
      let p := set_nblocked (nblocked p - 1) p in
      if nblocked p =? 0 then (put_point d i (set_syncwait false p), true, ORet 0)
      else (put_point d i p, false, ORet 0)
    else (d, false, OCrash))).
Proof.
  intros S Hp Ho Ea Hsub. unfold on_point. rewrite Hp. pose proof (cnt_remove i _ Ho) as Hc.
  pose proof (einv_enabled _ _ S _ _ Hp) as He.
  assert (Hw : ∀ j, w j th = cnt j (owes th)) by (intros j; unfold w; by rewrite Ea).
  assert (Hoa : owes_after th d0 0 = remove_one i (owes th)) by (unfold owes_after; by rewrite Ea, Hsub).
  assert (Hne : ∀ j, j ≠ i → cnt j (remove_one i (owes th)) = cnt j (owes th)).
  { intros j Hj. clear -Hj. induction (owes th) as [|x l IH]; [done|]. cbn [remove_one].
    case_decide; rewrite !cnt_cons; [subst; by rewrite decide_False|by rewrite IH]. }
  destruct (_ <? _); [|by intros []]. cbn [nblocked set_nblocked].
  destruct (_ =? 0); intros _; cbn [next_pc point put_point]; rewrite Hoa;
    (eapply einv_point; [done|done|done|done|intros j Hj; by rewrite w_eq, Hw, Hne|
       rewrite w_eq, Hw; cbn [nblocked set_nblocked set_syncwait]; lia|done]).
Qed.
End spost.

Lemma put_point_same d i p q : point d !! i = Some p → q = p → put_point d i q = d.
Proof. intros Hp ->. unfold put_point. rewrite list_insert_id by done. by destruct d. Qed.

Lemma spost_locked n ths t o ow oom d :
  ths !! t = Some (MkTh (Lock o) ow) → inv n (point d) ths → linv (point d) ths → einv (point d) ths →
  inactive d = false → 0 ≤ n → n + 1 < 2 ^ 64 → spost ths t (MkTh (Lock o) ow) d (locked oom o d).
Proof.
  intros Ht H L S Hact H0 Hn. set (th := MkTh (Lock o) ow) in *. pose proof (einv_lock _ _ S _ _ _ Ht eq_refl) as Hd.
  assert (Hr : ∀ d, einv (point d) ths → (∀ nm, o ≠ DsUnblock nm) → spost ths t th d (d, false, ORet (-1))).
  { intros d' S' Hu. apply spost_ret; [done|done|by left|by intros nm [= ?]; by apply (Hu nm)|done]. }
  destruct o as [|a|nm e|nm|nm|nm]; try done; cbn [locked].
  - destruct e; [|done]. unfold ds_enable_sec. rewrite Hact.
    destruct (look_up nm d) as [i|]; [|by apply Hr]. unfold on_point.
    destruct (point d !! i) as [p|] eqn:Hp; [|by intros []]. intros _. by eapply einv_point.
  - unfold ds_exec_sec. rewrite Hact.
    destruct (acquire oom nm d) as [[i d']|] eqn:Ha; [|by apply Hr].
    pose proof (einv_acquire _ _ _ _ _ _ S Ha) as S'. unfold on_point.
    destruct (point d' !! i) as [p|] eqn:Hp; [|by intros []].
    destruct (_ && _); [apply spost_ret; try done; by left|].
    destruct (_ =? _); [apply spost_ret; try done; by right|].
    eapply spost_exec_loop; [done|done|done|done| |by left; exists nm]. by apply (einv_enabled _ _ S' _ _ Hp).
  - unfold ds_wait_sec. rewrite Hact.
    destruct (acquire oom nm d) as [[i d']|] eqn:Ha; [|by apply Hr].
    pose proof (einv_acquire _ _ _ _ _ _ S Ha) as S'.
    destruct (linv_acquire _ _ _ _ _ _ _ H L Ha) as (L' & p & Hp & Hs).
    destruct (inv_acquire _ _ _ _ _ _ _ H H0 Ha) as [H' _]. unfold on_point. rewrite Hp.
    destruct (inv_blocked _ _ _ H' _ _ Hp) as [Hb _]. unfold wrap. rewrite Z.mod_small by lia.
    apply (spost_wait_loop ths t th Ht d i d' p 1 S' Hp); [lia|right; by split; [exists nm|]|].
    destruct Hs as [Hs|[Hs _]]; [by left|by right].
  - destruct (linv_unblock _ _ L t th nm Ht eq_refl) as (i & Hi & Ho). unfold ds_unblock_sec.
    assert (El : look_up nm d = Some i) by exact Hi. rewrite El, Hact.
    destruct (lookup_lt_is_Some_2 (point d) i) as [p Hp]; [by eapply look_up_lt|].
    by apply (spost_unblock ths t th Ht d i d p nm).
Qed.

Lemma spost_run n s t th oom sec :
  inv n (point (ds s)) (threads s) → linv (point (ds s)) (threads s) → einv (point (ds s)) (threads s) →
  inactive (ds s) = false → 0 ≤ n → n + 1 < 2 ^ 64 →
  threads s !! t = Some th → run_section oom th (ds s) = Some sec → spost (threads s) t th (ds s) sec.
Proof.
  intros H L S Hact H0 Hn Ht Er. destruct th as [[|op|i sig|i sig] ow]; cbn in Er; [done|..]; injection Er as <-.
  - by eapply spost_locked.
  - destruct (lookup_lt_is_Some_2 (point (ds s)) i) as [p Hp]; [eapply inv_at; eauto|].
    pose proof (spost_wait_loop _ t _ Ht (ds s) i (ds s) p 0 S Hp ltac:(lia)) as P.
    rewrite (put_point_same (ds s) i p) in P by (rewrite ?Z.add_0_r; by destruct p).
    apply P; [left; split; [by exists sig|done]|by left].
  - destruct (lookup_lt_is_Some_2 (point (ds s)) i) as [p Hp]; [eapply inv_at; eauto|].
    rewrite <- (put_point_same (ds s) i p p Hp eq_refl) at 2.
    eapply spost_exec_loop; try done; [by apply (einv_enabled _ _ S _ _ Hp)|right; by exists sig].
Qed.

Lemma einv_step n s t a s' r :
  inv n (point (ds s)) (threads s) → linv (point (ds s)) (threads s) → einv (point (ds s)) (threads s) →
  0 ≤ n → n + 1 < 2 ^ 64 → steady s t a → sched s t a = Go s' r → einv (point (ds s')) (threads s').
Proof.
  intros H L S H0 Hn (Hact & _ & Hl) E. destruct a as [o|oom].
  - unfold sched in E. destruct (threads s !! t) as [th|] eqn:Ht; [|done].
    destruct (at_ th) eqn:Ea; try done. destruct (unlocked o (ds s)) as [[d rc]|] eqn:Eu.
    + injection E as <- _. cbn [ds threads]. replace (point d) with (point (ds s)); [done|].
      destruct o; cbn in Eu; repeat case_match; try done; by injection Eu as <- _.
    + injection E as <- _. cbn [ds threads]. eapply einv_thread; [done|done| |by intros ? [= <-]].
      intros j. rewrite w_eq. unfold w. by rewrite Ea.
  - apply sched_Run in E as (th & d & b & out & o & Ht & Er & Ho & -> & -> & -> & _).
    by apply (spost_run _ _ _ _ _ _ H L S Hact H0 Hn Ht Er).
Qed.

Lemma trace_einv k s : trace steady k s → k < 2 ^ 64 → einv (point (ds s)) (threads s).
Proof.
  induction 1 as [flags n|k s t a s' r Hs IH Hl E]; intros Hk.
  - split; [done|intros i; apply Nat2Z.is_nonneg|].
    intros t th o Ht. apply start_lookup in Ht as ->. done.
  - pose proof (trace_nonneg _ _ _ Hs). assert (Hk' : k < 2 ^ 64) by lia.
    eapply (einv_step k s t a s' r); eauto; [by eapply trace_inv|eapply trace_linv; [by apply steady_lawful|done]].
Qed.

(** ** Nobody is held without a reason *)

Lemma weight_pos i ths : (0 < weight i ths)%nat → ∃ u th, ths !! u = Some th ∧ (0 < w i th)%nat.
Proof.
  unfold weight. induction ths as [|x ths IH]; cbn [sum_list_with]; [lia|]. intros H.
  destruct (decide (0 < w i x)%nat); [by exists 0%nat, x|].
  destruct IH as (u & th & Hu & Hw); [lia|]. by exists (S u), th.
Qed.

Lemma w_pos i th : (0 < w i th)%nat → (∃ sig, at_ th = Waiting i sig) ∨ i ∈ owes th.
Proof.
  unfold w. fold (cnt i (owes th)). intros H.
  assert (Hc : (0 < cnt i (owes th))%nat → i ∈ owes th).
  { intros Hc. unfold cnt in Hc. destruct (filter (eq i) (owes th)) as [|x l] eqn:E; [cbn in Hc; lia|].
    assert (Hx : x ∈ filter (eq i) (owes th)) by (rewrite E; apply elem_of_cons; auto).
    apply list_elem_of_filter in Hx as [-> Hx]. exact Hx. }
  destruct (at_ th) as [|o|j sig|j sig]; cbn in H; try (right; by apply Hc).
  case_decide; [subst; left; by exists sig|right; by apply Hc].
Qed.

(** A synchronised point has a thread that was woken out of [ds_wait], or one
    that went through and owes the unblocking. *)
Lemma sync_is_owed k s i p :
  trace steady k s → k < 2 ^ 64 → point (ds s) !! i = Some p → in_syncwait p = true →
  ∃ u thu, threads s !! u = Some thu ∧ (at_ thu = Waiting i true ∨ i ∈ owes thu).
Proof.
  intros Hs Hk Hp Hy. pose proof (steady_lawful _ _ Hs) as Hl.
  pose proof (trace_inv _ _ _ Hs Hk) as H. pose proof (trace_linv _ _ Hl Hk) as L.
  pose proof (einv_weight _ _ (trace_einv _ _ Hs Hk) i) as W. unfold nb in W. rewrite Hp in W.
  destruct (inv_blocked _ _ _ H _ _ Hp) as [_ Hb]. specialize (Hb Hy).
  destruct (weight_pos i (threads s)) as (u & thu & Hu & Hw); [lia|]. exists u, thu. split; [done|].
  apply w_pos in Hw as [[sig Hw]|]; [left|by right]. destruct sig; [done|].
  destruct (linv_wait _ _ L _ _ _ _ Hu Hw Hp). congruence.
Qed.

(** nobody is held at a point without a reason.  While clients unblock only
    what they owe and nobody disables points, a thread that sleeps unsignalled
    in [ds_exec] has a partner: a thread that has been woken out of [ds_wait] on
    the same point, or one that has passed it and still owes the unblocking.  So
    if all other threads are outside the library and owe nothing, nobody is held. *)
Theorem ds_held_is_owed k s t th i :
  trace steady k s → k < 2 ^ 64 → threads s !! t = Some th → at_ th = Holding i false →
  ∃ u thu, threads s !! u = Some thu ∧ (at_ thu = Waiting i true ∨ i ∈ owes thu).
Proof.
  intros Hs Hk Ht Ha. pose proof (trace_inv _ _ _ Hs Hk) as H.
  destruct (lookup_lt_is_Some_2 (point (ds s)) i) as [p Hp]; [eapply inv_at; eauto|].
  destruct (inv_hold _ _ _ H _ _ _ _ Ht Ha Hp) as [Hy _]. by eapply sync_is_owed.
Qed.

(** ** Whoever is held can be released *)

(** Steps of the other threads towards the release of [t]: a woken thread goes
    on, or a thread calls [ds_unblock]. *)
Definition helps (nm : list Z) (t : nat) (s s' : system) : Prop :=
  ∃ u a r, u ≠ t ∧ (a = Run false ∨ a = Call (DsUnblock nm)) ∧ steady s u a ∧ sched s u a = Go s' r.

(** The threads that owe the point are outside the library. *)
Definition quiet (i : nat) (s : system) : Prop :=
  ∀ u th, threads s !! u = Some th → i ∈ owes th → at_ th = Idle.

(** The situation of the release: [t] is held at [i], by [n] threads. *)
Record held (nm : list Z) (i t : nat) (n : Z) (s : system) : Prop := {
  held_active : inactive (ds s) = false;
  held_name : look_up nm (ds s) = Some i;
  held_quiet : quiet i s;
  held_thread : ∃ th sig, threads s !! t = Some th ∧ at_ th = Holding i sig;
  held_point : ∃ p, point (ds s) !! i = Some p ∧ is_enabled p = true ∧ nblocked p = n
}.

Lemma active_not_local d : inactive d = false → local_inactive d = false.
Proof.
  unfold inactive, local_inactive. rewrite !Z.eqb_neq. intros H E. apply H.
  rewrite Z.land_lor_distr_r in E. by apply Z.lor_eq_0_iff in E as [E _].
Qed.

(** A step of another thread [u] that changes nothing but the point and [u]. *)
Lemma held_step nm i t n s u p' th' b n' ps' :
  held nm i t n s → u ≠ t → ps' = <[i := p']> (point (ds s)) →
  (∀ p, point (ds s) !! i = Some p → name p' = name p) →
  is_enabled p' = true → nblocked p' = n' → (i ∈ owes th' → at_ th' = Idle) →
  held nm i t n' (MkSys (MkDs (activation (ds s)) ps') (<[u := th']> (broadcast b (threads s)))).
Proof.
  intros [Ha Hn Hq (th & sig & Ht & Hh) (p & Hp & _ & _)] Hu -> Hname He Hb Hth'.
  pose proof (lookup_lt_Some _ _ _ Hp). split; cbn [ds threads point].
  - done.
  - unfold look_up. cbn [point]. rewrite <- Hn. apply look_up_from_names.
    change (name <$> <[i:=p']> (point (ds s)) = name <$> point (ds s)).
    rewrite list_fmap_insert, (Hname p Hp). apply list_insert_id. by rewrite list_lookup_fmap, Hp.
  - intros v x Hx Ho. apply step_lookup in Hx as [[-> ->]|(_ & y & Hy & ->)]; [by apply Hth'|].
    rewrite wk_owes in Ho. pose proof (Hq _ _ Hy Ho) as Hi. destruct b; [|done]. cbn. by rewrite Hi.
  - destruct (holding_wk b th i sig Hh) as [sig' Hh']. exists (wk b th), sig'.
    by rewrite list_lookup_insert_ne, broadcast_lookup, Ht by done.
  - exists p'. by rewrite list_lookup_insert_eq.
Qed.

Lemma helps_trace k nm t s s' : trace steady k s → helps nm t s s' → trace steady (k + 1) s'.
Proof. intros Hs (u & a & r & _ & _ & Hst & E). by eapply trace_step. Qed.

Lemma sched_run_ret s t th d b rc :
  threads s !! t = Some th → run_section false th (ds s) = Some (d, b, ORet rc) →
  sched s t (Run false) =
    Go (MkSys d (<[t := MkTh Idle (owes_after th (ds s) rc)]> (broadcast b (threads s)))) (Some rc).
Proof. intros Ht E. unfold sched. by rewrite Ht, E. Qed.

(** A woken thread passes [ds_wait] and then owes the point. *)
Lemma woken_passes nm i t n s u thu p :
  held nm i t n s → point (ds s) !! i = Some p → in_syncwait p = true →
  threads s !! u = Some thu → at_ thu = Waiting i true →
  ∃ s' thu', helps nm t s s' ∧ held nm i t n s' ∧ threads s' !! u = Some thu' ∧ i ∈ owes thu' ∧
    point (ds s') !! i = Some p.
Proof.
  intros Hd Hp Hy Hu Ha. destruct (held_thread _ _ _ _ _ Hd) as (th & sig & Ht & Hh).
  destruct (held_point _ _ _ _ _ Hd) as (p0 & Hp0 & He & Hn). rewrite Hp in Hp0. injection Hp0 as <-.
  assert (Hut : u ≠ t) by (intros ->; congruence). pose proof (lookup_lt_Some _ _ _ Hu).
  assert (Er : run_section false thu (ds s) = Some (ds s, false, ORet 0)).
  { unfold run_section. rewrite Ha. unfold wait_loop, on_point. by rewrite Hp, Hy, He. }
  assert (Ho : owes_after thu (ds s) 0 = i :: owes thu) by (unfold owes_after, subject; by rewrite Ha).
  eexists _, (MkTh Idle (i :: owes thu)).
  split; [exists u, (Run false), (Some 0); split_and!; [done|by left|by split; [apply (held_active _ _ _ _ _ Hd)|]|]|].
  - rewrite (sched_run_ret s u thu _ _ _ Hu Er), Ho. done.
  - split_and!; [|by apply list_lookup_insert_eq|apply elem_of_cons; by left|done].
    apply (held_step nm i t n s u p (MkTh Idle (i :: owes thu)) false n (point (ds s))) in Hd; [|done|by rewrite list_insert_id|..]; try done.
    + cbn in Hd. destruct (ds s). exact Hd.
    + intros q Hq. by simplify_eq.
Qed.

Lemma run_unblock nm i d p ow :
  inactive d = false → look_up nm d = Some i → point d !! i = Some p → 0 < nblocked p →
  ∃ b p', run_section false (MkTh (Lock (DsUnblock nm)) ow) d = Some (put_point d i p', b, ORet 0) ∧
    name p' = name p ∧ is_enabled p' = is_enabled p ∧ nblocked p' = nblocked p - 1.
Proof.
  intros Ha El Hp Hn. unfold run_section. cbn [at_ locked]. unfold ds_unblock_sec, on_point. rewrite Ha, El, Hp.
  rewrite (proj2 (Z.ltb_lt _ _) Hn). cbn [nblocked set_nblocked].
  destruct (_ =? 0); eexists _, _; (split; [done|]); done.
Qed.

(** A thread that owes the point unblocks it. *)
Lemma ower_unblocks nm i t n s u thu :
  held nm i t n s → 0 < n → threads s !! u = Some thu → i ∈ owes thu →
  ∃ s1 s2, helps nm t s s1 ∧ helps nm t s1 s2 ∧ held nm i t (n - 1) s2.
Proof.
  intros Hd Hn Hu Ho. pose proof (held_quiet _ _ _ _ _ Hd _ _ Hu Ho) as Hi.
  destruct (held_thread _ _ _ _ _ Hd) as (th & sig & Ht & Hh).
  destruct (held_point _ _ _ _ _ Hd) as (p & Hp & He & Hnb).
  pose proof (held_active _ _ _ _ _ Hd) as Ha. pose proof (held_name _ _ _ _ _ Hd) as El.
  assert (Hut : u ≠ t) by (intros ->; congruence). pose proof (lookup_lt_Some _ _ _ Hu) as Hlu.
  destruct (run_unblock nm i (ds s) p (owes thu) Ha El Hp ltac:(lia)) as (b & p' & Er & Hnm & He' & Hnb').
  set (th1 := MkTh (Lock (DsUnblock nm)) (owes thu)).
  set (s1 := MkSys (ds s) (<[u := th1]> (threads s))).
  assert (Hu1 : threads s1 !! u = Some th1) by (by apply list_lookup_insert_eq).
  pose proof (sched_run_ret s1 u th1 _ _ _ Hu1 Er) as Es.
  eexists s1, _. split_and!.
  - exists u, (Call (DsUnblock nm)), None. split_and!; [done|by right| |].
    + split_and!; [done|by exists thu, i|done].
    + unfold sched. rewrite Hu, Hi. cbn [unlocked]. by rewrite (active_not_local _ Ha).
  - exists u, (Run false), (Some 0). split_and!; [done|by left|by split|exact Es].
  - cbn [ds threads s1] in *. unfold s1. cbn [threads ds].
    replace (<[u := _]> (broadcast b (<[u := th1]> (threads s)))) with
      (<[u := MkTh Idle (owes_after th1 (ds s) 0)]> (broadcast b (threads s))).
    + apply (held_step nm i t n s u p'); try done; [intros q Hq; by simplify_eq|by rewrite He'|lia].
    + destruct b; cbn [broadcast]; [|by rewrite list_insert_insert_eq].
      change (map wake) with (fmap (M := list) wake). by rewrite list_fmap_insert, list_insert_insert_eq.
Qed.

(** One round: some thread unblocks the point, after leaving [ds_wait] if it is
    still there. *)
Lemma help_once nm i t n k s p :
  trace steady k s → k < 2 ^ 64 → held nm i t n s → point (ds s) !! i = Some p → in_syncwait p = true →
  0 < n ∧ ∃ k' s', k ≤ k' ≤ k + 3 ∧ trace steady k' s' ∧ rtc (helps nm t) s s' ∧ held nm i t (n - 1) s'.
Proof.
  intros Hs Hk Hd Hp Hy. pose proof (trace_inv _ _ _ Hs Hk) as H.
  assert (Hn : 0 < n).
  { destruct (held_point _ _ _ _ _ Hd) as (q & Hq & _ & <-). simplify_eq. by apply (inv_blocked _ _ _ H _ _ Hp). }
  split; [done|].
  assert (Hower : ∀ k s u thu, trace steady k s → held nm i t n s → threads s !! u = Some thu → i ∈ owes thu →
    ∃ s', trace steady (k + 2) s' ∧ rtc (helps nm t) s s' ∧ held nm i t (n - 1) s').
  { clear -Hn. intros k s u thu Hs Hd Hu Ho. destruct (ower_unblocks nm i t n s u thu) as (s1 & s2 & H1 & H2 & Hd2); try done.
    exists s2. split_and!; [|by eapply rtc_l, rtc_once|done].
    replace (k + 2) with (k + 1 + 1) by lia. by eapply helps_trace, H2; eapply helps_trace. }
  destruct (sync_is_owed k s i p Hs Hk Hp Hy) as (u & thu & Hu & [Hw|Ho]).
  - destruct (woken_passes nm i t n s u thu p) as (s1 & th1 & H1 & Hd1 & Hu1 & Ho1 & _); try done.
    destruct (Hower (k + 1) s1 u th1) as (s' & Ht' & Hr & Hd'); [by eapply helps_trace|done..|].
    exists (k + 1 + 2), s'. split_and!; [lia|lia|done|by eapply rtc_l|done].
  - destruct (Hower k s u thu) as (s' & Ht' & Hr & Hd'); [done..|].
    exists (k + 2), s'. split_and!; try done; lia.
Qed.

(** The section of [ds_exec] after its release. *)
Lemma exec_returns s t th i sig p :
  threads s !! t = Some th → at_ th = Holding i sig → point (ds s) !! i = Some p →
  in_syncwait p = false → is_enabled p = true → ∃ s', sched s t (Run false) = Go s' (Some 0).
Proof.
  intros Ht Hh Hp Hy He. eexists. eapply (sched_run_ret s t th); [done|].
  unfold run_section. rewrite Hh. unfold exec_loop, on_point. by rewrite Hp, Hy, He.
Qed.

Lemma release nm i t m : ∀ n k s,
  n ≤ Z.of_nat m → trace steady k s → k < 2 ^ 64 → k + 3 * n < 2 ^ 64 → held nm i t n s →
  ∃ s' s'', rtc (helps nm t) s s' ∧ sched s' t (Run false) = Go s'' (Some 0).
Proof.
  induction m as [|m IH]; intros n k s Hm Hs Hk Hkn Hd;
    destruct (held_point _ _ _ _ _ Hd) as (p & Hp & He & Hnb);
    destruct (held_thread _ _ _ _ _ Hd) as (th & sig & Ht & Hh);
    (destruct (in_syncwait p) eqn:Hy;
      [|exists s; destruct (exec_returns s t th i sig p) as [s'' E]; try done; by exists s'']);
    destruct (help_once nm i t n k s p) as (Hpos & k' & s1 & Hk' & Hs1 & Hr & Hd1); try done; [lia|].
  destruct (IH (n - 1) k' s1) as (s' & s'' & Hr' & E); [lia|done|lia|lia|done|].
  exists s', s''. split; [by etrans|done].
Qed.

(** C11: whoever is held at a point can be released, by others doing what they
    have to do anyway, if nobody disables points, the threads that owe the point
    are outside the library, and it is found by its name.  Let a thread be inside [ds_exec] in a state reached by
    clients that unblock only what they owe and never disable points, and let
    the threads that owe the point be outside the library.  Then steps in which
    woken threads leave [ds_wait] and threads that passed it call [ds_unblock],
    and no step of the thread itself, lead to a state where its next section
    ends [ds_exec] with 0. *)
Theorem ds_exec_can_finish k s t th i sig p :
  trace steady k s → 4 * k < 2 ^ 64 →
  threads s !! t = Some th → at_ th = Holding i sig →
  point (ds s) !! i = Some p → look_up (name p) (ds s) = Some i → inactive (ds s) = false → quiet i s →
  ∃ s' s'', rtc (helps (name p) t) s s' ∧ sched s' t (Run false) = Go s'' (Some 0).
Proof.
  intros Hs Hk Ht Hh Hp El Ha Hq. pose proof (trace_nonneg _ _ _ Hs). assert (Hk0 : k < 2 ^ 64) by lia.
  destruct (inv_blocked _ _ _ (trace_inv _ _ _ Hs Hk0) _ _ Hp) as [Hb _].
  apply (release (name p) i t (Z.to_nat (nblocked p)) (nblocked p) k s); [lia|done|lia|lia|].
  split; [done|done|done|by exists th, sig|]. exists p. split_and!; try done.
  by apply (einv_enabled _ _ (trace_einv _ _ Hs Hk0) _ _ Hp).
Qed.

(** ** At a concrete run *)

Lemma met_steady : trace steady 4 met.
Proof.
  set (l := MkTh (Lock (DsExec pt_name)) []). set (w0 := MkTh (Waiting 0 false) []).
  set (d := MkDs DS_ACTIVE [MkPoint pt_name true false 1]).
  assert (H1 : trace steady 1 (MkSys (ds_init DS_ACTIVE) [MkTh (Lock (DsWait pt_name)) []; MkTh Idle []])).
  { by apply (trace_step steady 0 (start DS_ACTIVE 2) 0 (Call (DsWait pt_name)) _ None); [constructor|split|]. }
  assert (H2 : trace steady 2 (MkSys d [w0; MkTh Idle []])).
  { by apply (trace_step steady 1 _ 0 (Run false) _ None H1); [split|vm_compute]. }
  assert (H3 : trace steady 3 (MkSys d [w0; l])).
  { by apply (trace_step steady 2 _ 1 (Call (DsExec pt_name)) _ None H2); [split|]. }
  by apply (trace_step steady 3 _ 1 (Run false) _ None H3); [split|vm_compute].
Qed.

Lemma ds_held_is_owed_witness :
  ∃ u thu, threads met !! u = Some thu ∧ (at_ thu = Waiting 0 true ∨ 0%nat ∈ owes thu).
Proof.
  apply (ds_held_is_owed 4 met 1 (MkTh (Holding 0 false) []) 0); [apply met_steady|lia|done|done].
Defined.

Lemma ds_exec_can_finish_witness :
  ∃ s' s'', rtc (helps pt_name 1) met s' ∧ sched s' 1 (Run false) = Go s'' (Some 0).
Proof.
  apply (ds_exec_can_finish 4 met 1 (MkTh (Holding 0 false) []) 0 false (MkPoint pt_name true true 1));
    [apply met_steady|lia|reflexivity|reflexivity|reflexivity|by vm_compute|reflexivity|].
  intros [|[|u]] th Hu Ho; cbn in Hu; [injection Hu as <-|injection Hu as <-|done];
    by apply not_elem_of_nil in Ho.
Defined.

(** A release is not for ever: if the held thread is slow, another round on the
    same point (a new wait, a new [ds_exec]) catches it again, and its section
    ends in the loop although the unblocking it was woken by has happened. *)
Example ds_exec_held_again :
  ∃ s, run_to (start DS_ACTIVE 3)
    (meeting ++ [(0%nat, Run false); (0%nat, Call (DsUnblock pt_name)); (0%nat, Run false);
                 (0%nat, Call (DsWait pt_name)); (0%nat, Run false);
                 (2%nat, Call (DsExec pt_name)); (2%nat, Run false); (1%nat, Run false)]) = Some s ∧
    at_ <$> threads s !! 1%nat = Some (Holding 0 false).
Proof. eexists. split; [by vm_compute|done]. Qed.
