(* ===== verification/DsWindDown.v ===== *)
(** * debugsync.c: when nobody starts anything new, everybody gets home

    Clients are disciplined ([tidy]) if they unblock a point they have passed
    before they call anything else, use names that fit and disable nothing.
    From any state they reach, let the calls under way run on and let the
    threads call only [ds_unblock] ([closing]).  Then every schedule without
    spurious wake-ups ends, after a number of steps that can be read off the
    state ([room]), and at its end no thread is held in [ds_exec]. *)

From stdpp Require Import relations.
From S2P Require Import Prelude Libc Debugsync DsProgress.
Local Open Scope Z_scope.

(** ** Disciplined clients *)

Definition tidy (s : system) (t : nat) (a : action) : Prop :=
  steady s t a ∧
  match a with
  | Call o =>
      (∀ nm, asks o = Some nm → (length nm ≤ DS_MAX_POINT_NAME_LEN)%nat) ∧
      (∀ th, threads s !! t = Some th → owes th = [] ∨ ∃ nm, o = DsUnblock nm)
  | Run _ => True
  end.

Lemma tidy_steady k s : trace tidy k s → trace steady k s.
Proof. induction 1 as [|k s t a s' r _ IH [Hl _] E]; [constructor|by eapply trace_step]. Qed.

(** Different points have different names; who owes is outside the library or
    about to unblock; and the names asked for fit. *)
Record tinv (s : system) : Prop := {
  tinv_names : NoDup (map name (point (ds s)));
  tinv_owes t th : threads s !! t = Some th → owes th ≠ [] → at_ th = Idle ∨ ∃ nm, at_ th = Lock (DsUnblock nm);
  tinv_asks t th o nm : threads s !! t = Some th → at_ th = Lock o → asks o = Some nm →
    (length nm ≤ DS_MAX_POINT_NAME_LEN)%nat
}.

Lemma look_up_from_None k n ps : look_up_from k n ps = None → n ∉ map name ps.
Proof.
  revert k. induction ps as [|p ps IH]; intros k; cbn; [by intros _ ?%not_elem_of_nil|].
  destruct (strcmp_eq n (name p)) eqn:E; [done|]. intros H [->|Hin]%elem_of_cons; [|by apply (IH _ H)].
  assert (strcmp_eq (name p) (name p) = true) by (by apply eqb_list_eq). congruence.
Qed.

Lemma look_up_from_NoDup k ps i p :
  NoDup (map name ps) → ps !! i = Some p → look_up_from k (name p) ps = Some (k + i)%nat.
Proof.
  revert k i. induction ps as [|q ps IH]; intros k [|i] Hd Hp; try done; cbn in Hd; apply NoDup_cons in Hd as [Hq Hd]; cbn.
  - injection Hp as ->. assert (E : strcmp_eq (name p) (name p) = true) by (by apply eqb_list_eq).
    rewrite E. f_equal. lia.
  - destruct (strcmp_eq (name p) (name q)) eqn:E.
    + apply eqb_list_eq in E. exfalso. apply Hq. rewrite <- E. apply list_elem_of_lookup. exists i.
      change (ps !! i = Some p) in Hp. change (map name ps) with (name <$> ps). by rewrite list_lookup_fmap, Hp.
    + rewrite (IH (S k) i Hd Hp). f_equal. lia.
Qed.

Lemma names_sched s t a s' r :
  tinv s → sched s t a = Go s' r → NoDup (map name (point (ds s'))).
Proof.
  intros [Hn _ Ha] E.
  refine (keeps_sched (fun d => NoDup (map name (point d))) (fun nm => (length nm ≤ DS_MAX_POINT_NAME_LEN)%nat)
    _ _ _ _ s t a s' r _ Hn E); [| | |done|by intros; eapply Ha].
  - intros d i p q Hq Hname. cbn. change (map name) with (fmap (M := list) name). rewrite list_fmap_insert, Hname.
    rewrite list_insert_id; [done|]. by rewrite list_lookup_fmap, Hq.
  - intros oom nm d i d' Hnm Hd [[_ ->]|(El & _ & ->)]%acquire_Some; [done|].
    rewrite map_app. cbn. rewrite take_ge by done. apply NoDup_app. split_and!; [done| |apply NoDup_singleton].
    intros x Hx ->%list_elem_of_singleton. by apply look_up_from_None in El.
  - intros d Hd. cbn. rewrite map_map. erewrite map_ext; [exact Hd|]. intros p. by destruct (is_enabled p).
Qed.

(** Which calls can end a section in a wait. *)
Definition out_of (o : op) (out : outcome) : Prop :=
  match out with
  | OWaitOn _ => ∃ nm, o = DsWait nm
  | OHoldOn _ => ∃ nm, o = DsExec nm
  | _ => True
  end.

Lemma on_point_out (Q : outcome → Prop) d i f : Q OCrash → (∀ p, Q (f p).2) → Q (on_point d i f).2.
Proof. intros H Hf. unfold on_point. by destruct (point d !! i). Qed.

Lemma locked_out oom o d : out_of o (locked oom o d).2.
Proof.
  destruct o as [|a|nm e|nm|nm|nm]; cbn [locked].
  - unfold ds_disable_all_sec. by destruct (negb _).
  - unfold ds_activate_sec. by destruct (negb _).
  - unfold ds_enable_sec. destruct (inactive d); [done|]. destruct (look_up nm d); [|done]. by apply (on_point_out (out_of _)).
  - unfold ds_exec_sec. destruct (inactive d); [done|]. destruct (acquire oom nm d) as [[i d']|]; [|done].
    apply (on_point_out (out_of _)); [done|]. intros p. destruct (_ && _); [done|]. destruct (_ =? _); [done|].
    apply (on_point_out (out_of _)); [done|]. intros q. destruct (_ && _); [by exists nm|done].
  - unfold ds_wait_sec. destruct (inactive d); [done|]. destruct (acquire oom nm d) as [[i d']|]; [|done].
    apply (on_point_out (out_of _)); [done|]. intros p. apply (on_point_out (out_of _)); [done|]. intros q. destruct (_ && _); [by exists nm|done].
  - unfold ds_unblock_sec. destruct (inactive d); [done|]. destruct (look_up nm d); [|done].
    apply (on_point_out (out_of _)); [done|]. intros p. destruct (_ <? _); [|done]. cbv zeta. by destruct (_ =? _).
Qed.

Lemma tinv_step s t a s' r : tinv s → tidy s t a → sched s t a = Go s' r → tinv s'.
Proof.
  intros T [_ Ht] E. pose proof (names_sched _ _ _ _ _ T E) as Hn. destruct T as [_ Ho Ha].
  assert (Hw : ∀ b y, (owes (wk b y) ≠ [] → owes y ≠ []) ∧ (at_ y = Idle → at_ (wk b y) = Idle)).
  { intros b y. rewrite wk_owes. split; [done|]. intros Ey. destruct b; [|done]. cbn. by rewrite Ey. }
  assert (Hl : ∀ b y o, at_ y = Lock o → at_ (wk b y) = Lock o).
  { intros b y o Ey. destruct b; [|done]. cbn. by rewrite Ey. }
  destruct a as [o|oom].
  - unfold sched in E. destruct (threads s !! t) as [th|] eqn:Eth; [|done].
    destruct (at_ th) eqn:Ea; try done. destruct (unlocked o (ds s)) as [[d rc]|]; injection E as <- _; [done|].
    destruct Ht as [Hasks Howes].
    change (<[t := _]> (threads s)) with (<[t := MkTh (Lock o) (owes th)]> (broadcast false (threads s))) in *.
    split; [done|..]; intros u x; intros.
    + apply step_lookup in H as [[-> ->]|(_ & y & Hy & ->)]; [|by eapply Ho].
      destruct (Howes th eq_refl) as [|[nm ->]]; [done|]. right. by exists nm.
    + apply step_lookup in H as [[-> ->]|(_ & y & Hy & ->)]; [|by eapply Ha].
      cbn in H0. injection H0 as <-. by apply Hasks.
  - apply sched_Run in E as (th & d & b & out & o & Eth & Er & Hout & Ed & Eths & Eo & _).
    split; [done|..]; rewrite Eths; intros u x; intros.
    + apply step_lookup in H as [[-> ->]|(_ & y & Hy & ->)].
      * cbn [at_]. destruct out as [rc|i|i|]; [by left|..|done]; exfalso; cbn in H0; rewrite Eo in H0;
          (destruct (Ho _ _ Eth H0) as [Ei|[nm Ei]]; unfold run_section in Er; rewrite Ei in Er; [done|];
           injection Er as Er; pose proof (locked_out oom (DsUnblock nm) (ds s)) as Hk; cbn [locked] in Hk; rewrite Er in Hk;
           by destruct Hk as [? ?]).
      * destruct (Ho u y Hy (proj1 (Hw b y) H0)) as [Ey|[nm Ey]]; [left; by apply Hw|right; exists nm; by apply Hl].
    + apply step_lookup in H as [[-> ->]|(_ & y & Hy & ->)]; [by destruct out|].
      apply wk_lock in H0. by eapply Ha.
Qed.

Lemma trace_tinv k s : trace tidy k s → tinv s.
Proof.
  induction 1 as [flags n|k s t a s' r _ IH Ht E]; [|by eapply tinv_step].
  split; [constructor|..]; intros t th; intros; by apply start_lookup in H as ->.
Qed.

(** ** Closing steps *)

(** A thread goes on with a call under way, if it is not asleep, or unblocks. *)
Definition awake (th : thread) (a : action) : Prop :=
  match a, at_ th with
  | Call (DsUnblock _), _ => True
  | Run _, (Lock _ | Waiting _ true | Holding _ true) => True
  | _, _ => False
  end.

Definition closing (s s' : system) : Prop :=
  ∃ t th a r, threads s !! t = Some th ∧ awake th a ∧ tidy s t a ∧ sched s t a = Go s' r.

(** What a thread may still do, not counting being woken again. *)
Definition load (th : thread) : nat :=
  (2 * length (owes th) +
   match at_ th with
   | Idle => 1 | Lock (DsUnblock _) => 0 | Lock (DsWait _) => 5 | Lock (DsExec _) => 3 | Lock _ => 2
   | Waiting _ _ => 4 | Holding _ _ => 2
   end)%nat.

Definition signalled (th : thread) : nat :=
  match at_ th with Waiting _ true | Holding _ true => 1 | _ => 0 end.

(** A bound on the number of closing steps: every step that wakes threads takes
    something off the load, and otherwise a woken thread falls asleep. *)
Definition room (s : system) : nat :=
  (sum_list_with load (threads s) * (length (threads s) + 1) + sum_list_with signalled (threads s))%nat.

Lemma sum_insert (f : thread → nat) ths t th th' :
  ths !! t = Some th → (sum_list_with f (<[t := th']> ths) + f th = sum_list_with f ths + f th')%nat.
Proof.
  revert t. induction ths as [|x ths IH]; intros [|t] H; try done.
  - injection H as ->. cbn; lia.
  - specialize (IH t H). change (<[S t := th']> (x :: ths)) with (x :: <[t := th']> ths). cbn [sum_list_with]. lia.
Qed.

Lemma sum_broadcast b ths : sum_list_with load (broadcast b ths) = sum_list_with load ths.
Proof.
  destruct b; [|done]. induction ths as [|x ths IH]; [done|]. cbn in *. rewrite IH. f_equal.
  unfold load, wake. cbn. by destruct (at_ x).
Qed.

Lemma signalled_bound ths : (sum_list_with signalled ths ≤ length ths)%nat.
Proof.
  induction ths as [|x ths IH]; [done|]. cbn. assert (signalled x ≤ 1)%nat; [|lia].
  unfold signalled. destruct (at_ x) as [| |? []|? []]; lia.
Qed.

(** What the section of an awake thread does to its load. *)
Lemma owes_after_grows th d0 rc : (length (owes_after th d0 rc) ≤ S (length (owes th)))%nat.
Proof.
  assert (Hr : ∀ i l, (length (remove_one i l) ≤ length l)%nat).
  { intros i l. induction l as [|x l IH]; [done|]. cbn. case_decide; cbn; lia. }
  unfold owes_after. destruct (at_ th) as [|[]|i sg|i sg]; try lia.
  - destruct (rc =? 0); [|lia]. destruct (subject _ _); cbn; lia.
  - destruct (subject _ _) as [i|]; [|lia]. specialize (Hr i (owes th)). lia.
  - destruct (rc =? 0); [|lia]. destruct (subject _ _); cbn; lia.
Qed.

Lemma length_remove_one i l : i ∈ l → S (length (remove_one i l)) = length l.
Proof.
  induction l as [|x l IH]; [by intros ?%not_elem_of_nil|]. cbn. intros Hi. case_decide; [done|].
  apply elem_of_cons in Hi as [->|Hi]; [done|]. cbn. by rewrite (IH Hi).
Qed.

(** The section wakes nobody and the thread sleeps again, or its load is less. *)
Definition lighter (b : bool) (th th' : thread) : Prop :=
  (load th' < load th)%nat ∨ (b = false ∧ load th' = load th ∧ signalled th = 1%nat ∧ signalled th' = 0%nat).

Lemma section_lighter s t th oom d b out :
  linv (point (ds s)) (threads s) → threads s !! t = Some th → awake th (Run oom) →
  run_section oom th (ds s) = Some (d, b, out) → out ≠ OCrash →
  lighter b th (MkTh (next_pc out) (match out with ORet rc => owes_after th (ds s) rc | _ => owes th end)).
Proof.
  intros L Ht Haw Er Hout. destruct th as [[|o|i sg|i sg] ow]; cbn in Er, Haw; [done|..].
  - left. injection Er as Er. pose proof (locked_out oom o (ds s)) as Hk. rewrite Er in Hk. cbn [snd] in Hk.
    destruct out as [rc|i|i|]; [|destruct Hk as [nm ->]; cbn; lia..|done].
    unfold load at 1. cbn [next_pc at_ owes].
    pose proof (owes_after_grows (MkTh (Lock o) ow) (ds s) rc) as Hg. cbn [owes] in Hg.
    destruct o as [|a|nm e|nm|nm|nm]; cbn -[owes_after]; cbn [owes_after at_ owes]; try lia.
    + unfold owes_after in *. cbn [at_ owes] in *. lia.
    + destruct (linv_unblock _ _ L t _ nm Ht eq_refl) as (i & Hi & Ho). unfold subject. cbn [at_].
      assert (El : look_up nm (ds s) = Some i) by exact Hi. rewrite El.
      pose proof (length_remove_one i ow Ho). lia.
  - destruct sg; [|done]. injection Er as Er. unfold wait_loop, on_point in Er.
    destruct (point (ds s) !! i) as [p|]; [|by injection Er as _ _ <-].
    destruct (_ && _); injection Er as <- <- <-.
    + by right.
    + left. pose proof (owes_after_grows (MkTh (Waiting i true) ow) (ds s) (if is_enabled p then 0 else -1)) as Hg.
      unfold load. cbn [next_pc at_ owes] in *. lia.
  - destruct sg; [|done]. injection Er as Er. unfold exec_loop, on_point in Er.
    destruct (point (ds s) !! i) as [p|]; [|by injection Er as _ _ <-].
    destruct (_ && _); injection Er as <- <- <-.
    + by right.
    + left. unfold load. cbn. lia.
Qed.

Lemma room_lighter s t th th' b d :
  threads s !! t = Some th → lighter b th th' →
  (room (MkSys d (<[t := th']> (broadcast b (threads s)))) < room s)%nat.
Proof.
  intros Ht Hl. unfold room. cbn [threads].
  assert (Hlen : length (<[t := th']> (broadcast b (threads s))) = length (threads s)).
  { rewrite length_insert. destruct b; cbn; by rewrite ?length_map. }
  rewrite Hlen. pose proof (signalled_bound (<[t := th']> (broadcast b (threads s)))) as Hs. rewrite Hlen in Hs.
  assert (Hb : broadcast b (threads s) !! t = Some (wk b th)) by (by rewrite broadcast_lookup, Ht).
  pose proof (sum_insert load _ t _ th' Hb) as HL. rewrite sum_broadcast in HL.
  assert (E : load (wk b th) = load th) by (destruct b; [|done]; unfold load, wake; cbn; by destruct (at_ th)).
  rewrite E in HL. destruct Hl as [Hl|(-> & El & H1 & H0)].
  - set (L' := sum_list_with load (<[t:=th']> _)) in *. set (L := sum_list_with load (threads s)) in *.
    set (N := length (threads s)) in *. assert (S L' * (N + 1) ≤ L * (N + 1))%nat by (apply Nat.mul_le_mono_r; lia). lia.
  - cbn [broadcast] in *. pose proof (sum_insert signalled _ t _ th' Ht). lia.
Qed.

Lemma closing_room k s s' : trace tidy k s → k < 2 ^ 64 → closing s s' → (room s' < room s)%nat.
Proof.
  intros Hs Hk (t & th & a & r & Ht & Haw & [(Hact & _ & _) _] & E).
  pose proof (trace_linv _ _ (steady_lawful _ _ (tidy_steady _ _ Hs)) Hk) as L. destruct a as [o|oom].
  - destruct o as [| | | | |nm]; try done. unfold sched in E. rewrite Ht in E. destruct (at_ th) eqn:Ea; try done.
    cbn [unlocked] in E. rewrite (active_not_local _ Hact) in E. injection E as <- _.
    apply (room_lighter s t th _ false); [done|]. left. unfold load. rewrite Ea. cbn. lia.
  - apply sched_Run in E as (th0 & d & b & out & o & Ht0 & Er & Hout & Ed & Eths & Eo & _). simplify_eq.
    destruct s' as [d' ths']. cbn [ds threads] in *. subst. apply (room_lighter s t th); [done|].
    by eapply section_lighter.
Qed.

(** ** The end *)

Lemma closing_trace k s s' : trace tidy k s → closing s s' → trace tidy (k + 1) s'.
Proof. intros Hs (t & th & a & r & _ & _ & Ht & E). by eapply trace_step. Qed.

Lemma closing_runs k s s' : trace tidy k s → rtc closing s s' → k + Z.of_nat (room s) + 1 < 2 ^ 64 →
  ∃ k', trace tidy k' s' ∧ k' + 1 < 2 ^ 64.
Proof.
  intros Hs Hr. revert k Hs. induction Hr as [s|s s1 s' H1 _ IH]; intros k Hs Hk; [exists k; split; [done|lia]|].
  pose proof (closing_room _ _ _ Hs ltac:(lia) H1). apply (IH (k + 1)); [by eapply closing_trace|lia].
Qed.

Lemma closing_bounded k n s s' :
  trace tidy k s → nsteps closing n s s' → k + Z.of_nat (room s) < 2 ^ 64 → (n ≤ room s)%nat.
Proof.
  intros Hs Hn. revert k Hs. induction Hn as [s|n s s1 s' H1 _ IH]; intros k Hs Hk; [lia|].
  pose proof (closing_room _ _ _ Hs ltac:(lia) H1).
  specialize (IH (k + 1) ltac:(by eapply closing_trace) ltac:(lia)). lia.
Qed.

(** Only [ds_activate] changes the activation. *)
Lemma activation_on_point d i f (x : Z) :
  activation d = x → (∀ p, activation (f p).1.1 = x) → activation (on_point d i f).1.1 = x.
Proof. intros Hd Hf. unfold on_point. by destruct (point d !! i). Qed.

Lemma activation_acquire oom nm d i d' : acquire oom nm d = Some (i, d') → activation d' = activation d.
Proof.
  unfold acquire, create_new. destruct (look_up nm d); [by intros [= _ <-]|].
  destruct (_ <=? _); [done|]. destruct oom; [done|]. by intros [= _ <-].
Qed.

Lemma activation_locked oom o d :
  disables o = false → activation (locked oom o d).1.1 = activation d.
Proof.
  intros Hd. destruct o as [|a|nm e|nm|nm|nm]; try done; cbn [locked].
  - unfold ds_enable_sec. destruct (inactive d); [done|]. destruct (look_up nm d); [|done].
    by apply activation_on_point.
  - unfold ds_exec_sec. destruct (inactive d); [done|]. destruct (acquire oom nm d) as [[i d']|] eqn:E; [|done].
    apply activation_acquire in E. apply activation_on_point; [done|]. intros p. destruct (_ && _); [done|].
    destruct (_ =? _); [done|]. apply activation_on_point; [done|]. intros q. by destruct (_ && _).
  - unfold ds_wait_sec. destruct (inactive d); [done|]. destruct (acquire oom nm d) as [[i d']|] eqn:E; [|done].
    apply activation_acquire in E. apply activation_on_point; [done|]. intros p.
    apply activation_on_point; [done|]. intros q. by destruct (_ && _).
  - unfold ds_unblock_sec. destruct (inactive d); [done|]. destruct (look_up nm d); [|done].
    apply activation_on_point; [done|]. intros p. destruct (_ <? _); [|done]. cbv zeta. by destruct (_ =? _).
Qed.

Lemma tidy_active s t a s' r :
  einv (point (ds s)) (threads s) → tidy s t a → sched s t a = Go s' r → inactive (ds s') = false.
Proof.
  intros S [(Hact & _ & Hd) _] E. unfold inactive in *. enough (Ea : activation (ds s') = activation (ds s)) by by rewrite Ea.
  destruct a as [o|oom].
  - unfold sched in E. destruct (threads s !! t) as [th|]; [|done]. destruct (at_ th); try done.
    destruct (unlocked o (ds s)) as [[d rc]|] eqn:Eu; injection E as <- _; [|done].
    destruct o; cbn in Eu; repeat case_match; try done; by injection Eu as <- _.
  - apply sched_Run in E as (th & d & b & out & o & Ht & Er & _ & -> & _).
    unfold run_section in Er. destruct (at_ th) as [|op|i sg|i sg] eqn:Eat; [done|..]; injection Er as Er.
    + pose proof (activation_locked oom op (ds s) (einv_lock _ _ S _ _ _ Ht Eat)) as Hl. by rewrite Er in Hl.
    + unfold wait_loop, on_point in Er. destruct (point (ds s) !! i); [|by injection Er as <-].
      destruct (_ && _); by injection Er as <-.
    + unfold exec_loop, on_point in Er. destruct (point (ds s) !! i); [|by injection Er as <-].
      destruct (_ && _); by injection Er as <-.
Qed.

Lemma closing_active k s s' :
  trace tidy k s → rtc closing s s' → k + Z.of_nat (room s) < 2 ^ 64 → inactive (ds s) = false → inactive (ds s') = false.
Proof.
  intros Hs Hr. revert k Hs. induction Hr as [s|s s1 s' H1 _ IH]; intros k Hs Hk Ha; [done|].
  pose proof (closing_room _ _ _ Hs ltac:(lia) H1). apply (IH (k + 1)); [by eapply closing_trace|lia|].
  destruct H1 as (t & th & a & r & _ & _ & Ht & E). eapply tidy_active; [|done|done].
  eapply trace_einv; [by apply tidy_steady|]. lia.
Qed.

(** Every call has ended, or sleeps in [ds_wait], and nothing is owed. *)
Definition at_home (s : system) : Prop :=
  ∀ t th, threads s !! t = Some th → owes th = [] ∧ (at_ th = Idle ∨ ∃ i, at_ th = Waiting i false).

(** A thread that is awake inside the library can go on. *)
Lemma can_run k s t th :
  trace tidy k s → k + 1 < 2 ^ 64 → inactive (ds s) = false → threads s !! t = Some th →
  awake th (Run false) → ∃ s', closing s s'.
Proof.
  intros Hs Hk Ha Ht Haw. pose proof (trace_nonneg _ _ _ Hs). pose proof (steady_lawful _ _ (tidy_steady _ _ Hs)) as Hl.
  pose proof (trace_inv _ _ _ Hl ltac:(lia)) as H0. pose proof (trace_linv _ _ Hl ltac:(lia)) as L.
  assert (Hr : ∃ sec, run_section false th (ds s) = Some sec).
  { unfold run_section. unfold awake in Haw. destruct (at_ th); eauto. done. }
  destruct Hr as [[[d b] out] Er]. destruct (lpost_run _ _ _ _ _ _ H0 L ltac:(lia) Hk Ht Er) as [Hout _].
  assert (E : ∃ s' r, sched s t (Run false) = Go s' r).
  { unfold sched. rewrite Ht, Er. destruct out; eauto. done. }
  destruct E as (s' & r & E). exists s', t, th, (Run false), r. by split_and!.
Qed.

(** A thread outside the library can unblock what it owes. *)
Lemma can_unblock k s t th i :
  trace tidy k s → k < 2 ^ 64 → inactive (ds s) = false → threads s !! t = Some th →
  at_ th = Idle → i ∈ owes th → ∃ s', closing s s'.
Proof.
  intros Hs Hk Ha Ht Hi Ho. pose proof (trace_linv _ _ (steady_lawful _ _ (tidy_steady _ _ Hs)) Hk) as L.
  assert (Hp : ∃ p, point (ds s) !! i = Some p).
  { pose proof (linv_weight _ _ L i) as W. pose proof (weight_ge i _ _ _ Ht) as Hw.
    assert (1 ≤ w i th)%nat.
    { unfold w. fold (cnt i (owes th)). rewrite <- (cnt_remove i _ Ho). lia. }
    unfold nb in W. destruct (point (ds s) !! i) as [p|]; [by exists p|lia]. }
  destruct Hp as [p Hp]. pose proof (look_up_from_NoDup 0 _ _ _ (tinv_names _ (trace_tinv _ _ Hs)) Hp) as El.
  assert (E : ∃ s' r, sched s t (Call (DsUnblock (name p))) = Go s' r).
  { unfold sched. rewrite Ht, Hi. cbn [unlocked]. rewrite (active_not_local _ Ha). eauto. }
  destruct E as (s' & r & E). exists s', t, th, (Call (DsUnblock (name p))), r. split_and!; [done|done| |done].
  split; [split; [done|split; [by exists th, i|done]]|]. split; [done|]. intros x Hx. right. by exists (name p).
Qed.

Lemma ended_at_home k s :
  trace tidy k s → k + 1 < 2 ^ 64 → inactive (ds s) = false → (∀ s', ¬ closing s s') → at_home s.
Proof.
  intros Hs Hk Ha Hend. pose proof (tidy_steady _ _ Hs) as Hst. pose proof (trace_tinv _ _ Hs) as T.
  assert (Hno : ∀ t th, threads s !! t = Some th → ¬ awake th (Run false)).
  { intros t th Ht Haw. destruct (can_run _ _ _ _ Hs Hk Ha Ht Haw) as [s' Hc]. by apply (Hend s'). }
  assert (Hfree : ∀ t th, threads s !! t = Some th → owes th = []).
  { intros t th Ht. destruct (owes th) as [|i l] eqn:Eo; [done|exfalso].
    destruct (tinv_owes _ T t th Ht) as [Ei|[nm Ei]]; [by rewrite Eo| |].
    - destruct (can_unblock k s t th i Hs ltac:(lia) Ha Ht Ei) as [s' Hc]; [rewrite Eo; apply elem_of_cons; by left|].
      by apply (Hend s').
    - apply (Hno t th Ht). unfold awake. by rewrite Ei. }
  intros t th Ht. split; [by eapply Hfree|]. specialize (Hno t th Ht) as Hna. unfold awake in Hna.
  destruct (at_ th) as [|o|i [|]|i [|]] eqn:Ea; [by left|by destruct Hna|by destruct Hna|by right; exists i|by destruct Hna|].
  exfalso. pose proof (trace_inv _ _ _ Hst ltac:(lia)) as H0.
  destruct (lookup_lt_is_Some_2 (point (ds s)) i) as [p Hp]; [eapply inv_at; eauto|].
  destruct (inv_hold _ _ _ H0 _ _ _ _ Ht Ea Hp) as [Hy _].
  destruct (sync_is_owed k s i p Hst ltac:(lia) Hp Hy) as (u & thu & Hu & [Hw|Ho]).
  - apply (Hno u thu Hu). unfold awake. by rewrite Hw.
  - rewrite (Hfree u thu Hu) in Ho. by apply not_elem_of_nil in Ho.
Qed.

(** C4: everybody gets home.  Let disciplined clients (they disable nothing, use
    names of at most 32 characters and unblock a point they have passed before
    they call anything else) have reached a state, and let from now on only
    calls under way go on and only [ds_unblock] be called.  In every schedule,
    spurious wake-ups apart, this ends after at most [room] steps, and at the
    end nobody is held in [ds_exec] or owes anything: all threads are outside
    the library, except those asleep in [ds_wait] for points nobody reached. *)
Theorem ds_winds_down k s :
  trace tidy k s → inactive (ds s) = false → k + Z.of_nat (room s) + 1 < 2 ^ 64 →
  (∀ n s', nsteps closing n s s' → (n ≤ room s)%nat) ∧
  (∀ s', rtc closing s s' → (∀ s'', ¬ closing s' s'') → at_home s').
Proof.
  intros Hs Ha Hk. split.
  - intros n s' Hn. eapply closing_bounded; [done|done|lia].
  - intros s' Hr Hend.
    destruct (closing_runs _ _ _ Hs Hr Hk) as (k' & Hs' & Hk'). apply (ended_at_home k' s' Hs' Hk'); [|done].
    eapply closing_active; [exact Hs|exact Hr|lia|done].
Qed.

(** From the meeting of Debugsync on: at most 19 steps. *)
Lemma met_tidy : trace tidy 4 met.
Proof.
  set (l := MkTh (Lock (DsExec pt_name)) []). set (w0 := MkTh (Waiting 0 false) []).
  set (d := MkDs DS_ACTIVE [MkPoint pt_name true false 1]).
  assert (Hnm : (length pt_name ≤ DS_MAX_POINT_NAME_LEN)%nat) by (apply Nat.leb_le; reflexivity).
  assert (Hcall : ∀ s t o, inactive (ds s) = false → asks o = Some pt_name → disables o = false →
    Forall (fun th => owes th = []) (threads s) → tidy s t (Call o)).
  { intros s t o Ha Ho Hd Hf. split; [split; [done|split; [|done]]|split].
    - by destruct o.
    - intros nm. rewrite Ho. by intros [= <-].
    - intros th Ht. left. by apply (Forall_lookup_1 _ _ _ _ Hf Ht). }
  assert (H1 : trace tidy 1 (MkSys (ds_init DS_ACTIVE) [MkTh (Lock (DsWait pt_name)) []; MkTh Idle []])).
  { by apply (trace_step tidy 0 (start DS_ACTIVE 2) 0 (Call (DsWait pt_name)) _ None); [constructor|apply Hcall; repeat constructor|]. }
  assert (H2 : trace tidy 2 (MkSys d [w0; MkTh Idle []])).
  { by apply (trace_step tidy 1 _ 0 (Run false) _ None H1); [split; [split|]|vm_compute]. }
  assert (H3 : trace tidy 3 (MkSys d [w0; l])).
  { by apply (trace_step tidy 2 _ 1 (Call (DsExec pt_name)) _ None H2); [apply Hcall; repeat constructor|]. }
  by apply (trace_step tidy 3 _ 1 (Run false) _ None H3); [split; [split|]|vm_compute].
Qed.

Lemma ds_winds_down_witness :
  (∀ n s', nsteps closing n met s' → (n ≤ 19)%nat) ∧
  (∀ s', rtc closing met s' → (∀ s'', ¬ closing s' s'') → at_home s').
Proof. apply (ds_winds_down 4 met met_tidy eq_refl). vm_compute. reflexivity. Defined.
