(* ===== verification/DsMemory.v ===== *)
(** * debugsync.c: the memory behind the names

    Debugsync keeps the names themselves in the points; the code keeps pointers
    to blocks obtained from [strndup].  Here a run carries the live blocks and
    the pointers of the table, so that [ds_destroy], which frees them, has a
    meaning. *)

From stdpp Require Import strings gmap.
From S2P Require Import Prelude Libc Debugsync.
Local Open Scope Z_scope.

(** ** Blocks *)

(** The live blocks; those from [next] on have never been handed out. *)
Record heap := MkHeap { live : gset nat; next : nat }.

Definition alloc (h : heap) : nat * heap := (next h, MkHeap ({[ next h ]} ∪ live h) (S (next h))).

Definition free (p : nat) (h : heap) : res heap :=
  if decide (p ∈ live h) then Ok (MkHeap (live h ∖ {[ p ]}) (next h)) else Ub.

(** ** The library with its memory *)

(** [names] is the [name] pointers of the first [count] points. *)
Record process := MkProc { sys : system; names : list nat; mem : heap }.

(** One [strndup] for each point a step adds. *)
Fixpoint strndup_names (n : nat) (names : list nat) (h : heap) : list nat * heap :=
  match n with
  | O => (names, h)
  | S n' => let '(p, h) := alloc h in strndup_names n' (names ++ [p]) h
  end.

Inductive pres := PStuck | PCrash | PGo (p : process) (ret : option Z).

Definition psched (p : process) (t : nat) (a : action) : pres :=
  match sched (sys p) t a with
  | Stuck => PStuck
  | Crash => PCrash
  | Go s' r =>
      let '(ns, h) := strndup_names (length (point (ds s')) - length (point (ds (sys p)))) (names p) (mem p) in
      PGo (MkProc s' ns h) r
  end.

(** [ds_init] clears the table, whatever it pointed to. *)
Definition pinit (activation_flags : Z) (n : nat) (h : heap) : process :=
  MkProc (start activation_flags n) [] h.

(** [for (i = 0; i < ds.count; ++i) free (ds.point[i].name)]: [ds.count] is the
    length of [names]; neither it nor the pointers are reset. *)
Definition ds_destroy (p : process) : res process :=
  h ← for_up (length (names p)) 0 (fun i h => q ← aget (names p) i; free q h) (mem p);
  Ok (MkProc (sys p) (names p) h).

(** [k] steps after [ds_init] in a process with the blocks [h0]. *)
Inductive ptrace (h0 : heap) : Z → process → Prop :=
  | ptrace_start flags n : ptrace h0 0 (pinit flags n h0)
  | ptrace_step k p t a p' r : ptrace h0 k p → psched p t a = PGo p' r → ptrace h0 (k + 1) p'.

(** ** What is live *)

(** The blocks of the caller and those of the names, each name its own. *)
Record owned (h0 : heap) (p : process) : Prop := {
  owned_count : length (names p) = length (point (ds (sys p)));
  owned_nodup : NoDup (names p);
  owned_new q : q ∈ names p → q ∉ live h0;
  owned_next q : q ∈ live (mem p) → (q < next (mem p))%nat;
  owned_live : live (mem p) = live h0 ∪ list_to_set (names p)
}.

Definition heap_wf (h : heap) : Prop := ∀ q, q ∈ live h → (q < next h)%nat.

Lemma strndup_owned n h0 s ns h : ∀ s' ns' h',
  owned h0 (MkProc s ns h) → strndup_names n ns h = (ns', h') →
  length (point (ds s')) = (length (point (ds s)) + n)%nat → owned h0 (MkProc s' ns' h').
Proof.
  revert s ns h. induction n as [|n IH]; intros s ns h s' ns' h' [Hc Hd Hn Hx Hl] E Hlen; cbn [sys names mem] in *.
  - injection E as <- <-. split; cbn [sys names mem]; try done. lia.
  - cbn [strndup_names alloc] in E.
    set (d1 := MkDs 0 (point (ds s) ++ [MkPoint [] true false 0])).
    apply (IH (MkSys d1 []) _ _ s' ns' h') in E; [done| |cbn; rewrite length_app; cbn; lia].
    assert (Hfresh : next h ∉ live h) by (intros Hin; specialize (Hx _ Hin); lia).
    rewrite Hl in Hfresh. split; cbn [sys names mem ds point d1 live next].
    + rewrite !length_app. cbn. lia.
    + apply NoDup_app. split_and!; [done| |apply NoDup_singleton].
      intros q Hq [= ->]%list_elem_of_singleton. set_solver.
    + intros q [Hq|[= ->]%list_elem_of_singleton]%elem_of_app; [by apply Hn|set_solver].
    + intros q [[= ->]%elem_of_singleton|Hq]%elem_of_union; [lia|]. specialize (Hx _ Hq). lia.
    + rewrite Hl, list_to_set_app_L. cbn. set_solver.
Qed.

Lemma ptrace_owned h0 k p : heap_wf h0 → ptrace h0 k p → owned h0 p.
Proof.
  intros Hwf. induction 1 as [flags n|k p t a p' r _ IH E].
  - split; cbn; try done; [constructor|set_solver|set_solver].
  - unfold psched in E. destruct (sched (sys p) t a) as [| |s' r'] eqn:Es; try done.
    pose proof (sched_length _ _ _ _ _ Es). destruct p as [s ns h]. cbn [sys names mem] in *.
    destruct (strndup_names _ _ _) as [ns' h'] eqn:En. injection E as <- _.
    eapply strndup_owned; [done|done|lia].
Qed.

(** ** [ds_destroy] *)

Lemma free_live q h : q ∈ live h → free q h = Ok (MkHeap (live h ∖ {[ q ]}) (next h)).
Proof. intros Hq. unfold free. by rewrite decide_True. Qed.

Lemma free_dead q h : q ∉ live h → free q h = Ub.
Proof. intros Hq. unfold free. by rewrite decide_False. Qed.

Lemma free_names ns l1 l2 L h :
  ns = l1 ++ l2 → NoDup l2 → (∀ q, q ∈ l2 → q ∉ L) → live h = L ∪ list_to_set l2 →
  for_up (length l2) (zlen l1) (fun i h => q ← aget ns i; free q h) h = Ok (MkHeap L (next h)).
Proof.
  revert l1 h. induction l2 as [|q l2 IH]; intros l1 h Hns Hd Hn Hl.
  - cbn in *. rewrite union_empty_r_L in Hl. rewrite <- Hl. by destruct h.
  - apply NoDup_cons in Hd as [Hq Hd]. cbn [for_up length].
    assert (E : aget ns (zlen l1) = Ok q).
    { unfold aget. rewrite (proj2 (Z.leb_le _ _)) by lia. by rewrite Nat2Z.id, Hns, list_lookup_middle. }
    rewrite E, bind_Ok, free_live, bind_Ok by (rewrite Hl; set_solver).
    replace (zlen l1 + 1) with (zlen (l1 ++ [q])) by (rewrite length_app; cbn; lia).
    apply (IH (l1 ++ [q]) (MkHeap (live h ∖ {[q]}) (next h))).
    + by rewrite Hns, <- app_assoc.
    + done.
    + intros r Hr. apply Hn, elem_of_cons. by right.
    + cbn [live]. rewrite Hl, list_to_set_cons. assert (q ∉ L) by (apply Hn, elem_of_cons; by left).
      assert (q ∉ (list_to_set l2 : gset nat)) by (by rewrite elem_of_list_to_set).
      apply set_eq. intros r. set_unfold. naive_solver.
Qed.

(** C28: [ds_destroy] gives back what the library has allocated, no more and no
    less.  After any run of any clients it frees every name exactly once and
    leaves the blocks that were live before [ds_init]; and since it does not
    forget the points, calling it a second time frees a name that is already
    free, unless there is no point. *)
Theorem ds_destroy_frees_names h0 k p :
  heap_wf h0 → ptrace h0 k p →
  ∃ p', ds_destroy p = Ok p' ∧ live (mem p') = live h0 ∧
    ds_destroy p' = if decide (point (ds (sys p)) = []) then Ok p' else Ub.
Proof.
  intros Hwf Hp. destruct (ptrace_owned _ _ _ Hwf Hp) as [Hc Hd Hn _ Hl].
  pose proof (free_names (names p) [] (names p) (live h0) (mem p) eq_refl Hd Hn Hl) as F.
  change (zlen (@nil nat)) with 0 in F. eexists. split_and!.
  - unfold ds_destroy. by rewrite F.
  - done.
  - unfold ds_destroy. cbn [names mem sys]. destruct (names p) as [|q l] eqn:E, (point (ds (sys p))) eqn:Ep; try done.
    assert (Eq : aget (q :: l) 0 = Ok q) by done. cbn [for_up length]. rewrite Eq, bind_Ok, free_dead; [done|].
    apply Hn, elem_of_cons. by left.
Qed.

(** One point is created, then everything is given back. *)
Definition one_point : process :=
  MkProc (MkSys (MkDs DS_ACTIVE [MkPoint (zs "p"%string) true false 0]) [MkTh Idle []]) [7%nat] (MkHeap {[ 7%nat ]} 8).

Lemma one_point_reached : ptrace (MkHeap ∅ 7) 2 one_point.
Proof.
  assert (H1 : ptrace (MkHeap ∅ 7) 1
    (MkProc (MkSys (ds_init DS_ACTIVE) [MkTh (Lock (DsExec (zs "p"%string))) []]) [] (MkHeap ∅ 7))).
  { by apply (ptrace_step _ 0 (pinit DS_ACTIVE 1 (MkHeap ∅ 7)) 0 (Call (DsExec (zs "p"%string))) _ None); [constructor|]. }
  by apply (ptrace_step _ 1 _ 0 (Run false) _ (Some 0) H1).
Qed.

Lemma ds_destroy_frees_names_witness :
  ∃ p', ds_destroy one_point = Ok p' ∧ live (mem p') = ∅ ∧ ds_destroy p' = Ub.
Proof.
  refine (ds_destroy_frees_names (MkHeap ∅ 7) 2 one_point _ one_point_reached). intros q Hq. set_solver.
Defined.

(** [ds_init] without [ds_destroy] loses the names. *)
Example ds_init_leaks : live (mem (pinit DS_ACTIVE 1 (mem one_point))) = {[ 7%nat ]}.
Proof. done. Qed.
