(* ===== verification/DebugsyncDyn.v ===== *)
(** * debugsync_dyn.c: the variant of debugsync with a sorted, growing table

    The points are blocks of memory behind a table of pointers kept in the order
    of their names.  The model keeps the blocks with their sizes, because the
    code does not allocate what it uses.  A call is its section up to the
    first wait or its end, under the mutex. *)

From S2P Require Import Prelude Libc.

(** ** Memory and state *)

Definition DS_MAXLEN : Z := 32.
Definition DS_EXPAND_BY : Z := 8.
Definition sizeof_ptr : Z := 8.

(** [struct ds_point]: [name] is at offset 0, [is_enabled] behind it. *)
Definition off_is_enabled : Z := DS_MAXLEN + 1.

(** A pointer as a slot of the table holds it: not yet written, NULL, or a block;
    [Entry i] is the address of slot [i] itself. *)
Inductive slot := Uninit | Null | Ptr (b : Z) | Entry (i : Z).

(** [point] is NULL or a table of [capacity] slots; [blocks] is the memory
    obtained from [malloc]; [signal] has [DS_MAXLEN + 1] bytes. *)
Record ds_global := MkDs {
  signal : list Z; point : option (list slot); capacity : Z; count : Z; blocks : list (list Z)
}.

(** The static variable before the first call. *)
Definition ds_static : ds_global := MkDs (replicate 33 0) None 0 0 [].

Definition ds_init (ds : ds_global) : ds_global :=
  MkDs (0 :: tail (signal ds)) None (capacity ds) 0 (blocks ds).

(** Reading and writing a slot of the table. *)
Definition get_slot (ds : ds_global) (i : Z) : res slot :=
  match point ds with None => Ub | Some t => aget t i end.
Definition set_slot (ds : ds_global) (i : Z) (p : slot) : res ds_global :=
  match point ds with
  | None => Ub
  | Some t => t ← aset t i p; Ok (MkDs (signal ds) (Some t) (capacity ds) (count ds) (blocks ds))
  end.

(** Storing the bytes [d] at offset [off] of the block a pointer points to; a
    point at the address of a slot would be stored over the table's pointers. *)
Fixpoint store (d : list Z) (off : Z) (blk : list Z) : res (list Z) :=
  match d with
  | [] => Ok blk
  | c :: d' => blk ← aset blk off c; store d' (off + 1) blk
  end.
Definition store_at (ds : ds_global) (p : slot) (off : Z) (d : list Z) : res ds_global :=
  match p with
  | Ptr b =>
      blk ← aget (blocks ds) b;
      blk ← store d off blk;
      bs ← aset (blocks ds) b blk;
      Ok (MkDs (signal ds) (point ds) (capacity ds) (count ds) bs)
  | _ => Ub
  end.

(** What [strncpy (dst, s, n)] stores: the string, and NULs up to [n] bytes. *)
Definition strncpy (n : Z) (s : list Z) : list Z :=
  let t := take (Z.to_nat n) s in t ++ replicate (Z.to_nat n - length t) 0.

(** [strcmp] on two memory areas. *)
Fixpoint strcmp (s t : list Z) : res Z :=
  match s, t with
  | c :: s', d :: t' =>
      if negb (c =? d) then Ok (c - d) else if c =? 0 then Ok 0 else strcmp s' t'
  | _, _ => Ub
  end.

(** ** The operations *)

Definition point_name (ds : ds_global) (p : slot) : res (list Z) :=
  match p with Ptr b => aget (blocks ds) b | _ => Ub end.

(** What [ds_cmp] is given: the address of a slot, or that of a structure with
    the given name. *)
Inductive addr := Slot (i : Z) | Struct (name : list Z).

(** The [struct ds_point *] stored at an address: a structure begins with the
    characters of its name, which are no pointer. *)
Definition load_ptr (ds : ds_global) (p : addr) : res slot :=
  match p with Slot i => get_slot ds i | Struct _ => Ub end.

Definition ds_cmp (ds : ds_global) (p1 p2 : addr) : res Z :=
  a ← load_ptr ds p1; b ← load_ptr ds p2;
  a ← point_name ds a; b ← point_name ds b; strcmp a b.

Definition swap_point (ds : ds_global) (i j : Z) : res ds_global :=
  tmp ← get_slot ds i;
  p ← get_slot ds j;
  ds ← set_slot ds i p;
  set_slot ds j tmp.

(** [while (i > 0 && ds_cmp (...) < 0)], with [i] as the measure. *)
Fixpoint sift (n : nat) (i : Z) (ds : ds_global) : res (Z * ds_global) :=
  match n with
  | O => Ok (i, ds)
  | S n' =>
      if 0 <? i then
        c ← ds_cmp ds (Slot i) (Slot (i - 1));
        if c <? 0 then ds ← swap_point ds i (i - 1); sift n' (i - 1) ds else Ok (i, ds)
      else Ok (i, ds)
  end.

(** [realloc] and [malloc] succeed as [re_ok] and [m_ok] say.  The result is
    NULL or the slot returned. *)
Definition ds_add (re_ok m_ok : bool) (name : list Z) (ds : ds_global) : res (option slot * ds_global) :=
  let grow := capacity ds <=? count ds in
  if grow && negb re_ok then Ok (None, MkDs (signal ds) None (capacity ds) (count ds) (blocks ds))
  else
    let ds :=
      if grow then
        MkDs (signal ds) (Some (default [] (point ds) ++ replicate (Z.to_nat DS_EXPAND_BY) Uninit))
          (capacity ds + DS_EXPAND_BY) (count ds) (blocks ds)
      else ds in
    let i := count ds in
    let ds := MkDs (signal ds) (point ds) (capacity ds) (count ds + 1) (blocks ds) in
    if negb m_ok then ds ← set_slot ds i Null; Ok (None, ds)
    else
      let p := Ptr (zlen (blocks ds)) in
      ds ← set_slot ds i p;
      let ds := MkDs (signal ds) (point ds) (capacity ds) (count ds)
                  (blocks ds ++ [replicate (Z.to_nat sizeof_ptr) 0]) in
      ds ← store_at ds p 0 (strncpy DS_MAXLEN name);
      ds ← store_at ds p DS_MAXLEN [0];
      ds ← store_at ds p off_is_enabled [0];
      '(i, ds) ← sift (Z.to_nat i) i ds;
      p ← get_slot ds i;
      Ok (Some p, ds).

(** [bsearch] among the [n] elements from [lo] on: [cmp] compares the key with an
    element, the one in the middle first. *)
Fixpoint bsearch (fuel : nat) (cmp : Z → res Z) (lo n : Z) : res (option Z) :=
  if n <=? 0 then Ok None
  else
    match fuel with
    | O => NoFuel
    | S f =>
        let m := lo + n / 2 in
        c ← cmp m;
        if c =? 0 then Ok (Some m)
        else if c <? 0 then bsearch f cmp lo (n / 2)
        else bsearch f cmp (m + 1) (n - n / 2 - 1)
    end.

(** The key is a structure, and what is returned is the address of a slot. *)
Definition ds_lookup (name : list Z) (ds : ds_global) : res (option slot) :=
  let key := Struct (strncpy DS_MAXLEN name ++ [0]) in
  r ← bsearch (Z.to_nat (count ds)) (fun i => ds_cmp ds key (Slot i)) 0 (count ds);
  Ok (option_map Entry r).

(** A section ends with the call's result, or waiting, with the pointer that
    [wait_on] was given. *)
Inductive outcome := Ret (rc : Z) | WaitOn (enabled : option slot).

(** [strncmp (ds.signal, name, DS_MAXLEN + 1) != 0] *)
Definition signalled (name : list Z) (ds : ds_global) : bool :=
  eqb_list (c_str (signal ds)) (take (Z.to_nat (DS_MAXLEN + 1)) name).

(** [wait_on] up to the wait; [enabled] is the point whose state the pointer
    refers to, with what it holds, if the pointer is given. *)
Definition wait_on (name : list Z) (enabled : option (slot * bool)) (ds : ds_global) : outcome :=
  if signalled name ds then Ret 0
  else match enabled with Some (_, false) => Ret (-1) | _ => WaitOn (fst <$> enabled) end.

Definition ds_set (re_ok m_ok : bool) (name : list Z) (enable : bool) (ds : ds_global) :
    res (ds_global * outcome) :=
  pt ← ds_lookup name ds;
  '(pt, ds) ← match pt with Some p => Ok (Some p, ds) | None => ds_add re_ok m_ok name ds end;
  match pt with
  | None => Ok (ds, Ret (-1))
  | Some p =>
      ds ← store_at ds p off_is_enabled [Z.b2z enable];
      if enable then
        match wait_on name (Some (p, enable)) ds with
        | WaitOn e => Ok (ds, WaitOn e)
        | out => ds ← store_at ds p off_is_enabled [0]; Ok (ds, out)
        end
      else Ok (ds, Ret 0)
  end.

Definition ds_wait (name : list Z) (ds : ds_global) : outcome := wait_on name None ds.

Definition ds_signal (name : list Z) (ds : ds_global) : ds_global :=
  MkDs (strncpy DS_MAXLEN name ++ [0]) (point ds) (capacity ds) (count ds) (blocks ds).

(** The rest of [ds_set] and of [ds_wait] each time the thread is woken: the
    loop of [wait_on] again, which now reads [is_enabled] from the block. *)
Definition ds_set_woken (name : list Z) (p : slot) (ds : ds_global) : res (ds_global * outcome) :=
  blk ← point_name ds p;
  enabled ← aget blk off_is_enabled;
  match wait_on name (Some (p, negb (enabled =? 0))) ds with
  | WaitOn e => Ok (ds, WaitOn e)
  | out => ds ← store_at ds p off_is_enabled [0]; Ok (ds, out)
  end.
Definition ds_wait_woken (name : list Z) (ds : ds_global) : outcome := wait_on name None ds.

(** [ds_destroy]: the blocks it hands to [free]; neither the table nor its
    capacity is reset.  A slot that was never written is an undefined value. *)
Definition ds_destroy (ds : ds_global) : res (list Z) :=
  for_up (Z.to_nat (count ds)) 0 (fun i freed =>
    p ← get_slot ds i;
    match p with Null => Ok freed | Ptr b => Ok (freed ++ [b]) | Uninit | Entry _ => Ub end) [].

(** ** What they do *)

Lemma store_beyond d off blk :
  0 ≤ off ≤ zlen blk → zlen blk < off + zlen d → store d off blk = Ub.
Proof.
  revert off blk. induction d as [|c d IH]; intros off blk H0 Hl; cbn [length] in *; [lia|]. cbn [store].
  destruct (Z.eq_dec off (zlen blk)).
  - by rewrite aset_Ub by lia.
  - rewrite aset_Ok, bind_Ok by lia. apply IH; rewrite length_insert; lia.
Qed.

Lemma length_strncpy n s : 0 ≤ n → zlen (strncpy n s) = n.
Proof. intros Hn. unfold strncpy. rewrite length_app, length_replicate, length_take. lia. Qed.

(** A new point is a block of the size of a pointer: the name does not fit. *)
Lemma new_point_overflows name ds :
  store_at (MkDs (signal ds) (point ds) (capacity ds) (count ds)
              (blocks ds ++ [replicate (Z.to_nat sizeof_ptr) 0])) (Ptr (zlen (blocks ds))) 0
    (strncpy DS_MAXLEN name) = Ub.
Proof.
  unfold store_at. cbn [blocks]. rewrite aget_Ok by (rewrite length_app; cbn; lia). rewrite bind_Ok.
  rewrite Nat2Z.id, list_lookup_total_middle by done.
  rewrite store_beyond; [done|rewrite length_replicate; unfold sizeof_ptr; lia|].
  rewrite length_strncpy by done. rewrite length_replicate. unfold sizeof_ptr, DS_MAXLEN. lia.
Qed.

Lemma set_slot_count ds i p ds' : set_slot ds i p = Ok ds' → count ds' = count ds ∧ blocks ds' = blocks ds ∧ signal ds' = signal ds.
Proof.
  unfold set_slot. destruct (point ds) as [t|]; [|done]. destruct (aset t i p); try done. by intros [= <-].
Qed.

Lemma ds_add_fails re_ok m_ok name ds :
  ds_add re_ok m_ok name ds = Ub ∨
  (∃ ds', ds_add re_ok m_ok name ds = Ok (None, ds') ∧ re_ok && m_ok = false).
Proof.
  unfold ds_add. destruct ((capacity ds <=? count ds) && negb re_ok) eqn:Eg.
  { right. eexists. split; [done|]. apply andb_true_iff in Eg as [_ E]. by destruct re_ok. }
  set (d1 := if capacity ds <=? count ds then _ else ds). destruct m_ok; cbn [negb].
  - left. unfold set_slot. cbn [point signal capacity count blocks].
    destruct (point d1) as [t|]; [|done]. destruct (aset t (count d1) _) as [t'| | |] eqn:E; try done.
    + rewrite !bind_Ok. cbn [point signal capacity count blocks].
      pose proof (new_point_overflows name (MkDs (signal d1) (Some t') (capacity d1) (count d1 + 1) (blocks d1))) as Ho.
      cbn [point signal capacity count blocks] in Ho. by rewrite Ho.
    + unfold aset in E. by destruct (in_range _ _).
    + unfold aset in E. by destruct (in_range _ _).
  - unfold set_slot. cbn [point signal capacity count blocks].
    destruct (point d1) as [t|]; [|by left]. unfold aset. destruct (in_range t (count d1)); [|by left].
    right. rewrite !bind_Ok. eexists. split; [done|]. by rewrite andb_false_r.
Qed.

(** With a point in the table [bsearch] compares it with the key; without, it
    compares nothing. *)
Lemma ds_lookup_eq name ds : ds_lookup name ds = if 0 <? count ds then Ub else Ok None.
Proof.
  unfold ds_lookup. destruct (Z.ltb_spec 0 (count ds)) as [Hc|Hc].
  - destruct (Z.to_nat (count ds)) as [|f] eqn:Ef; [lia|]. cbn [bsearch]. by rewrite (proj2 (Z.leb_gt _ 0)).
  - replace (Z.to_nat (count ds)) with O by lia. cbn [bsearch]. by rewrite (proj2 (Z.leb_le _ 0)).
Qed.

(** The table a point is added to. *)
Definition add_table (ds : ds_global) : option (list slot) :=
  if capacity ds <=? 0 then Some (default [] (point ds) ++ replicate (Z.to_nat DS_EXPAND_BY) Uninit) else point ds.

(** Adding the first point. *)
Lemma ds_add_first re_ok m_ok name ds :
  count ds = 0 →
  ds_add re_ok m_ok name ds =
    if (capacity ds <=? 0) && negb re_ok then Ok (None, MkDs (signal ds) None (capacity ds) 0 (blocks ds))
    else if m_ok then Ub
    else match add_table ds with
         | Some (_ :: t) => Ok (None, MkDs (signal ds) (Some (Null :: t))
             (if capacity ds <=? 0 then capacity ds + DS_EXPAND_BY else capacity ds) 1 (blocks ds))
         | _ => Ub
         end.
Proof.
  intros Hc. unfold ds_add, add_table. rewrite Hc. destruct (_ && _) eqn:Eg; [done|].
  destruct m_ok; cbn [negb].
  - unfold set_slot, aset. cbn [point signal capacity count blocks].
    match goal with |- context [if capacity ds <=? 0 then ?a else ds] => set (d1 := if capacity ds <=? 0 then a else ds) end.
    destruct (point d1) as [t|]; [|done]. destruct (in_range t _); [|done]. rewrite !bind_Ok.
    cbn [point signal capacity count blocks].
    match goal with |- context [Some ?t'] =>
      pose proof (new_point_overflows name (MkDs (signal d1) (Some t') (capacity d1) (count d1 + 1) (blocks d1))) as Ho end.
    cbn [point signal capacity count blocks] in Ho. by rewrite Ho.
  - unfold set_slot. cbn [point signal capacity count blocks]. destruct (capacity ds <=? 0);
      cbn [point signal capacity count blocks]; rewrite ?Hc.
    + destruct (default [] (point ds) ++ _) as [|x t] eqn:Et; [by destruct (default [] (point ds))|].
      by rewrite aset_Ok by (cbn; lia).
    + destruct (point ds) as [[|x t]|]; [done| |done]. by rewrite aset_Ok by (cbn; lia).
Qed.

Lemma ds_set_fails re_ok m_ok name enable ds :
  ds_set re_ok m_ok name enable ds = Ub ∨
  (∃ ds', ds_set re_ok m_ok name enable ds = Ok (ds', Ret (-1)) ∧ re_ok && m_ok = false ∧ count ds ≤ 0).
Proof.
  unfold ds_set. rewrite ds_lookup_eq. destruct (Z.ltb_spec 0 (count ds)); [by left|]. rewrite bind_Ok.
  destruct (ds_add_fails re_ok m_ok name ds) as [-> | (ds' & -> & Hm)]; [by left|].
  right. exists ds'. split_and!; [done|done|lia].
Qed.

(** C38: no synchronisation point can ever be set.  Whatever state earlier calls left
    ([count] is not negative) and whatever the name, [ds_set] never succeeds and
    never waits.  With a point in the table the lookup takes the key for a
    pointer, which C leaves undefined; without one, [ds_set] returns -1 if the
    table cannot grow, losing the table, or if it has a first slot and the point
    cannot be allocated, leaving NULL in that slot; and it is undefined if the
    point is allocated, because its name does not fit, or if there is
    no table behind the capacity. *)
Theorem ds_set_never_succeeds re_ok m_ok name enable ds :
  0 ≤ count ds →
  ds_set re_ok m_ok name enable ds =
    if 0 <? count ds then Ub
    else if (capacity ds <=? 0) && negb re_ok then
      Ok (MkDs (signal ds) None (capacity ds) 0 (blocks ds), Ret (-1))
    else if m_ok then Ub
    else match add_table ds with
         | Some (_ :: t) => Ok (MkDs (signal ds) (Some (Null :: t))
             (if capacity ds <=? 0 then capacity ds + DS_EXPAND_BY else capacity ds) 1 (blocks ds), Ret (-1))
         | _ => Ub
         end.
Proof.
  intros Hc. unfold ds_set. rewrite ds_lookup_eq. destruct (Z.ltb_spec 0 (count ds)) as [|Hz]; [done|].
  rewrite bind_Ok, ds_add_first by lia. destruct (_ && _); [done|]. destruct m_ok; [done|].
  by destruct (add_table ds) as [[|x t]|].
Qed.

Lemma ds_set_never_succeeds_witness :
  ds_set true false [97] true (ds_init ds_static) =
    Ok (MkDs (replicate 33 0) (Some (Null :: replicate 7 Uninit)) 8 1 [], Ret (-1)).
Proof. refine (ds_set_never_succeeds true false [97] true (ds_init ds_static) _). vm_compute. discriminate. Defined.

(** The first call with memory at hand already goes wrong, and after a failed
    [malloc] every later one does. *)
Example ds_set_first : ds_set true true [97] true (ds_init ds_static) = Ub.
Proof. reflexivity. Qed.
Example ds_set_after_failure :
  ('(ds, _) ← ds_set true false [97] true (ds_init ds_static); ds_set true true [98] false ds) = Ub.
Proof. reflexivity. Qed.

(** [ds_destroy] and [ds_init] forget the table but not its capacity: the next
    addition stores through NULL. *)
Example ds_init_keeps_capacity :
  ('(_, ds) ← ds_add true false [97] (ds_init ds_static); ds_add true false [97] (ds_init ds)) = Ub.
Proof. reflexivity. Qed.

(** A name longer than 32 characters is never signalled. *)
Example ds_long_name_waits :
  ds_wait (replicate 33 97) (ds_signal (replicate 33 97) (ds_init ds_static)) = WaitOn None ∧
  ds_wait (replicate 32 97) (ds_signal (replicate 32 97) (ds_init ds_static)) = Ret 0.
Proof. split; reflexivity. Qed.
