(* ===== verification/Utest.v ===== *)
(** * debugsync/utest.c: the unit test of the variant with a growing table

    Three threads and the main thread make their calls on DebugsyncDyn, in any
    order; the naps fix none.  (The calls pass the name of the caller as a last
    argument, which debugsync_dyn.c does not have; it is dropped.)  Creating and
    joining threads succeeds. *)

From stdpp Require Import strings.
From S2P Require Import Prelude Libc DebugsyncDyn.
Local Open Scope Z_scope.

Definition MAIN_DONE : list Z := zs "MAIN_DONE".
Definition ANNY : list Z := zs "ANNY".
Definition BENNY : list Z := zs "BENNY".
Definition RABBA : list Z := zs "RABBA".

Inductive call := Set_ (name : list Z) (enable : bool) | Wait (name : list Z) | Signal (name : list Z).

Definition t1_start : list call := [Set_ ANNY true; Wait MAIN_DONE].
Definition t2_start : list call := [Set_ BENNY true; Wait MAIN_DONE].
Definition t3_start : list call := [Set_ RABBA false; Signal ANNY; Signal BENNY; Wait MAIN_DONE].

(** A thread: its calls to come; blocked in [ds_set] (with the slot of the point)
    or in [ds_wait], with the calls after that; or ended. *)
Inductive thread :=
  | At (todo : list call)
  | InSet (name : list Z) (p : slot) (todo : list call)
  | InWait (name : list Z) (todo : list call)
  | Ended (rc : Z).

(** [main]: before [ds_init], before [ds_set], before [ds_signal] with the threads
    running, joining, and at the end with its status and what it freed. *)
Inductive main_pc := MInit | MSet | MSignal | MJoin | MEnd (rc : Z) (freed : list Z).

Record test := MkTest { ds : ds_global; mpc : main_pc; threads : list thread }.

(** A call has returned [rc]: [if (rc) break]. *)
Definition go_on (rc : Z) (todo : list call) : thread :=
  if negb (rc =? 0) then Ended rc else match todo with [] => Ended 0 | _ => At todo end.

(** One section of a thread: up to its next wait or the end of its call. *)
Definition thread_step (re_ok m_ok : bool) (d : ds_global) (th : thread) : res (ds_global * thread) :=
  let after (name : list Z) (todo : list call) (out : outcome) : thread :=
    match out with
    | Ret rc => go_on rc todo
    | WaitOn (Some p) => InSet name p todo
    | WaitOn None => InWait name todo
    end in
  match th with
  | At (Set_ name enable :: todo) =>
      '(d, out) ← ds_set re_ok m_ok name enable d; Ok (d, after name todo out)
  | At (Wait name :: todo) => Ok (d, after name todo (ds_wait name d))
  | At (Signal name :: todo) => Ok (ds_signal name d, go_on 0 todo)
  | InSet name p todo => '(d, out) ← ds_set_woken name p d; Ok (d, after name todo out)
  | InWait name todo => Ok (d, after name todo (ds_wait_woken name d))
  | At [] | Ended _ => Ok (d, th)
  end.

(** One step of [main]: it ignores the result of its [ds_set], starts the threads,
    and joins them one by one; its status is that of the last [pthread_join]. *)
Definition main_step (re_ok m_ok : bool) (c : test) : res test :=
  match mpc c with
  | MInit => Ok (MkTest (ds_init (ds c)) MSet (threads c))
  | MSet =>
      '(d, _) ← ds_set re_ok m_ok MAIN_DONE false (ds c);
      Ok (MkTest d MSignal [At t1_start; At t2_start; At t3_start])
  | MSignal => Ok (MkTest (ds_signal MAIN_DONE (ds c)) MJoin (threads c))
  | MJoin =>
      if forallb (fun th => match th with Ended _ => true | _ => false end) (threads c) then
        freed ← ds_destroy (ds c); Ok (MkTest (ds c) (MEnd 0 freed) (threads c))
      else Ok c
  | MEnd _ _ => Ok c
  end.

Definition main : test := MkTest ds_static MInit [].

(** A step of thread [t], or of [main]; [realloc] and [malloc] answer as told. *)
Definition step (t : option nat) (re_ok m_ok : bool) (c : test) : res test :=
  match t with
  | None => main_step re_ok m_ok c
  | Some t =>
      match threads c !! t with
      | None => Ok c
      | Some th =>
          '(d, th) ← thread_step re_ok m_ok (ds c) th;
          Ok (MkTest d (mpc c) (<[t := th]> (threads c)))
      end
  end.

Fixpoint steps (ts : list (option nat * bool * bool)) (c : test) : res test :=
  match ts with
  | [] => Ok c
  | (t, re_ok, m_ok) :: ts' => c ← step t re_ok m_ok c; steps ts' c
  end.

(** ** What it can do *)

(** No thread has got beyond its first [ds_set]. *)
Definition hopeless (c : test) : Prop :=
  Forall (fun th => th = Ended (-1) ∨ ∃ n e todo, th = At (Set_ n e :: todo)) (threads c) ∧
  match mpc c with MEnd rc _ => rc = 0 ∧ Forall (fun th => th = Ended (-1)) (threads c) | _ => True end.

Lemma hopeless_set re_ok m_ok n e d todo d' th' :
  thread_step re_ok m_ok d (At (Set_ n e :: todo)) = Ok (d', th') → th' = Ended (-1) ∧ re_ok && m_ok = false.
Proof.
  cbn [thread_step]. destruct (ds_set_fails re_ok m_ok n e d) as [-> | (d1 & -> & Hm & _)]; [done|].
  by intros [= _ <-].
Qed.

Lemma hopeless_step t re_ok m_ok c c' : hopeless c → step t re_ok m_ok c = Ok c' → hopeless c'.
Proof.
  intros [Hf Hm] E. destruct t as [t|]; cbn [step] in E.
  - destruct (threads c !! t) as [th|] eqn:Et; [|by injection E as <-].
    destruct (Forall_lookup_1 _ _ _ _ Hf Et) as [-> | (n & e & todo & ->)].
    + cbn in E. injection E as <-. split; cbn [threads mpc]; by rewrite list_insert_id.
    + destruct (thread_step re_ok m_ok (ds c) _) as [[d th]| | |] eqn:Es; try done.
      apply hopeless_set in Es as [-> _]. injection E as <-. split; cbn [threads mpc].
      * apply Forall_insert; [done|by left].
      * destruct (mpc c); try done. destruct Hm as [_ Hm].
        by pose proof (Forall_lookup_1 _ _ _ _ Hm Et).
  - unfold main_step in E. destruct (mpc c) eqn:Em.
    + by injection E as <-.
    + destruct (ds_set_fails re_ok m_ok MAIN_DONE false (ds c)) as [Es | (d & Es & _)]; rewrite Es in E; [done|].
      injection E as <-. split; cbn [threads mpc]; [|done].
      rewrite !Forall_cons, Forall_nil. split_and!; try done; right; by eexists _, _, _.
    + by injection E as <-.
    + destruct (forallb _ _) eqn:Ef; [|injection E as <-; split; [done|by rewrite Em]].
      destruct (ds_destroy (ds c)); try done. injection E as <-. split; cbn [threads mpc]; [done|]. split; [done|].
      apply Forall_lookup. intros u th Hu. destruct (Forall_lookup_1 _ _ _ _ Hf Hu) as [| (n & e & todo & ->)]; [done|].
      exfalso. rewrite forallb_forall in Ef. apply list_elem_of_lookup_2, list_elem_of_In in Hu.
      by specialize (Ef _ Hu).
    + injection E as <-. split; [done|by rewrite Em].
Qed.

(** The test synchronises nothing.  In every run in which nothing undefined
    happens, whatever the order of the steps, no thread ever waits or gets
    beyond its first [ds_set]; when the test has ended, all its threads have
    returned -1 and its status is 0 nevertheless. *)
Theorem utest_synchronises_nothing ts c :
  steps ts main = Ok c →
  Forall (fun th => th = Ended (-1) ∨ ∃ n e todo, th = At (Set_ n e :: todo)) (threads c) ∧
  (∀ rc freed, mpc c = MEnd rc freed → rc = 0 ∧ Forall (fun th => th = Ended (-1)) (threads c)).
Proof.
  assert (H : hopeless main) by (split; [constructor|done]). revert H. generalize main.
  induction ts as [|[[t re_ok] m_ok] ts IH]; intros c0 H.
  - intros [= <-]. destruct H as [Hf Hm]. split; [done|]. intros rc freed E. by rewrite E in Hm.
  - cbn [steps]. destruct (step t re_ok m_ok c0) as [c1| | |] eqn:E; try done. apply IH. by eapply hopeless_step.
Qed.

(** With memory at hand the first call of [main] is undefined; without any, the
    test runs to its end. *)
Example utest_runs :
  steps [(None, true, true); (None, true, true)] main = Ub ∧
  ∃ c, steps [(None, false, true); (None, false, true); (Some 1%nat, false, true); (None, true, true);
              (Some 0%nat, false, true); (Some 2%nat, false, true); (None, true, true)] main = Ok c ∧ mpc c = MEnd 0 [].
Proof. split; [done|]. eexists. split; reflexivity. Qed.

Lemma utest_synchronises_nothing_witness :
  ∃ c, steps [(None, false, true); (None, false, true); (Some 1%nat, false, true)] main = Ok c ∧
    Forall (fun th => th = Ended (-1) ∨ ∃ n e todo, th = At (Set_ n e :: todo)) (threads c).
Proof.
  eexists. split; [reflexivity|].
  refine (proj1 (utest_synchronises_nothing [(None, false, true); (None, false, true); (Some 1%nat, false, true)] _ _)).
  reflexivity.
Defined.
