(* ===== verification/Utest2.v ===== *)
(** * debugsync/utest2.c: the unit test of the synchronisation points

    Six threads and the main thread run short sequences of calls on the system of
    Debugsync.  The naps between the calls fix no order, so that a run of
    the test is any interleaving; creating and joining threads succeeds. *)

From stdpp Require Import strings.
From S2P Require Import Prelude Libc Debugsync.
Local Open Scope Z_scope.

Definition hollywood : list Z := zs "hollywood".
Definition dania : list Z := zs "dania".

(** [run] and [syncpt]: the calls up to the first result that is not 0. *)
Definition run (name : list Z) : list op := [DsWait name; DsUnblock name].
Definition syncpt (name : list Z) : list op := [DsExec name].

(** [t1_run] to [t6_run], and [main] after starting them. *)
Definition t1_run : list op := run hollywood.
Definition t2_run : list op := run hollywood.
Definition t3_run : list op := run hollywood.
Definition t4_run : list op := syncpt dania.
Definition t5_run : list op := run dania.
Definition t6_run : list op := run dania.
Definition main_ops : list op := [DsExec hollywood; DsDisableAll].
Definition THR_COUNT : nat := 6.

(** What each thread has still to do, the present call included. *)
Record test := MkTest { sys : system; todo : list (list op) }.

(** [main] with its argument of [ds_init]; the code passes 0. *)
Definition main (activation_flags : Z) : test :=
  MkTest (start activation_flags (S THR_COUNT)) [t1_run; t2_run; t3_run; t4_run; t5_run; t6_run; main_ops].

(** After a call: the threads stop at an error, [main] goes on. *)
Definition after (t : nat) (rc : Z) (rest : list op) : list op :=
  if bool_decide (t < THR_COUNT)%nat && negb (rc =? 0) then [] else rest.

(** One step of thread [t]: none when it has nothing to do. *)
Definition step (t : nat) (oom : bool) (c : test) : option test :=
  match threads (sys c) !! t, todo c !! t with
  | Some th, Some (o :: rest) =>
      match sched (sys c) t (match at_ th with Idle => Call o | _ => Run oom end) with
      | Go s (Some rc) => Some (MkTest s (<[t := after t rc rest]> (todo c)))
      | Go s None => Some (MkTest s (todo c))
      | _ => None
      end
  | _, _ => None
  end.

Fixpoint steps (ts : list (nat * bool)) (c : test) : option test :=
  match ts with
  | [] => Some c
  | (t, oom) :: ts' => c' ← step t oom c; steps ts' c'
  end.

(** The calls still to be made. *)
Definition calls_left (c : test) : nat := length (concat (todo c)).

Lemma length_concat_insert {A} (l : list (list A)) t x y :
  l !! t = Some x → (length (concat (<[t := y]> l)) + length x = length (concat l) + length y)%nat.
Proof.
  revert t. induction l as [|z l IH]; intros [|t] E; try done; simpl in *.
  - injection E as ->. rewrite !length_app. lia.
  - rewrite !length_app. specialize (IH t E). lia.
Qed.

(** Nobody is inside the library, which has not been touched. *)
Definition untouched (c : test) : Prop :=
  ds (sys c) = ds_init 0 ∧ ∀ t th, threads (sys c) !! t = Some th → th = MkTh Idle [].

Lemma untouched_step t oom c c' :
  untouched c → Forall (Forall (fun o => match o with DsActivate _ => False | _ => True end)) (todo c) →
  step t oom c = Some c' →
  untouched c' ∧ Forall (Forall (fun o => match o with DsActivate _ => False | _ => True end)) (todo c') ∧
  S (calls_left c') = calls_left c.
Proof.
  intros [Hd Ht] Ho E. unfold step in E. destruct (threads (sys c) !! t) as [th|] eqn:Eth; [|done].
  pose proof (Ht _ _ Eth) as ->. destruct (todo c !! t) as [[|o rest]|] eqn:Eo; try done. cbn [at_] in E.
  pose proof (Forall_lookup_1 _ _ _ _ Ho Eo) as [Ho1 Ho2]%Forall_cons.
  unfold sched in E. rewrite Eth in E. cbn [at_] in E.
  assert (Hu : unlocked o (ds (sys c)) = Some (ds (sys c), 0)) by (rewrite Hd; by destruct o).
  rewrite Hu in E. injection E as <-. unfold after. cbn [Z.eqb negb]. rewrite andb_false_r. split_and!.
  - by split.
  - cbn. by apply Forall_insert.
  - unfold calls_left. cbn. pose proof (length_concat_insert _ _ _ rest Eo) as Hl. cbn in Hl. lia.
Qed.

Lemma untouched_steps ts : ∀ c c',
  untouched c → Forall (Forall (fun o => match o with DsActivate _ => False | _ => True end)) (todo c) →
  steps ts c = Some c' → untouched c' ∧ (calls_left c' + length ts = calls_left c)%nat.
Proof.
  induction ts as [|[t oom] ts IH]; intros c c' Hc Ho E; cbn in E; [injection E as <-; split; [done|cbn; lia]|].
  destruct (step t oom c) as [c1|] eqn:E1; [|done]. cbn in E.
  destruct (untouched_step _ _ _ _ Hc Ho E1) as (Hc1 & Ho1 & Hl1).
  destruct (IH _ _ Hc1 Ho1 E) as [Hc' Hl]. split; [done|]. cbn. lia.
Qed.

(** the unit test tests nothing.  Since it initialises the library with 0, in
    every interleaving each of its 13 calls returns 0 at its first step, without
    taking the mutex: no point is ever created, no thread ever waits or is held,
    and after 13 steps all threads are done. *)
Theorem utest2_synchronises_nothing ts c :
  steps ts (main 0) = Some c →
  ds (sys c) = ds_init 0 ∧ (∀ t th, threads (sys c) !! t = Some th → at_ th = Idle) ∧
  (calls_left c + length ts = 13)%nat.
Proof.
  intros E. assert (Hm : untouched (main 0)).
  { split; [done|]. intros t th. apply start_lookup. }
  destruct (untouched_steps _ _ _ Hm ltac:(repeat constructor) E) as [[Hd Ht] Hl].
  split_and!; [done| |done]. intros t th Hth. by rewrite (Ht _ _ Hth).
Qed.

(** Everybody in turn. *)
Definition in_turn : list (nat * bool) :=
  [(0, false); (0, false); (1, false); (1, false); (2, false); (2, false); (3, false);
   (4, false); (4, false); (5, false); (5, false); (6, false); (6, false)]%nat.

Lemma utest2_synchronises_nothing_witness :
  let c := MkTest (start 0 7) (replicate 7 []) in
  steps in_turn (main 0) = Some c ∧
  ds (sys c) = ds_init 0 ∧ (∀ t th, threads (sys c) !! t = Some th → at_ th = Idle) ∧
  (calls_left c + length in_turn = 13)%nat.
Proof.
  intros c. assert (E : steps in_turn (main 0) = Some c) by (vm_compute; reflexivity).
  split; [exact E|]. exact (utest2_synchronises_nothing in_turn c E).
Defined.

(** With the library active the same threads do meet: the first one waits, and
    [main] is held until it has been let through and unblocks the point. *)
Example utest2_active :
  (fun c => (at_ <$> threads (sys c) !! 0%nat, at_ <$> threads (sys c) !! 6%nat)) <$>
    steps [(0, false); (0, false); (6, false); (6, false)]%nat (main DS_ACTIVE) =
  Some (Some (Waiting 0 true), Some (Holding 0 false)).
Proof. vm_compute. reflexivity. Qed.
