(* ===== verification/Small.v ===== *)
(** * The smallest programs

    hi/hi.c, pthr_cleanup/pthrc.c with pthrm.c, and bfd/frameaddr.c: a greeting, a
    program that registers a handler for a fork it never makes, and one that
    prints where its stack frame is. *)

From stdpp Require Import strings.
From S2P Require Import Prelude Libc Fdio.
Local Open Scope Z_scope.

(** ** hi/hi.c *)

Module Hi.
Definition HI : list Z := zs "Hi!" ++ [10; 0].

(** [write (1, HI, sizeof(HI)-1)], whatever it answers. *)
Definition main {W : Type} `{Os W} (s : io W) : Z * io W :=
  let '(_, s) := write_call 1 (take (length HI - 1) HI) s in (0, s).

(** The status is 0 even when the greeting is cut short or not written. *)
Lemma hi_main {W : Type} `{OsLaws W} (s : io W) :
  (main s).1 = 0 ∧ ∃ e, e `prefix_of` zs "Hi!" ++ [10] ∧ sink 1 (iow (main s).2) = sink 1 (iow s) ++ e.
Proof.
  unfold main. change (take (length HI - 1) HI) with (zs "Hi!" ++ [10]).
  unfold write_call. destruct (os_write 1 (zs "Hi!" ++ [10]) (iow s)) as [[n|e] w] eqn:E; (split; [done|]); cbn.
  - apply write_ok in E as (_ & _ & Hs & _). eexists. split; [apply prefix_take|exact Hs].
  - apply write_err in E as (_ & Hs & _). exists []. rewrite app_nil_r. split; [apply prefix_nil|done].
Qed.
End Hi.

(** ** pthr_cleanup/pthrc.c and pthrm.c *)

Module Pthr.
Inductive handler := do_something | do_something_else.

(** The static variables of both files and the handlers for the child of a
  [fork], in the order of their registration. *)
Record proc := MkProc { g_exit : Z; m_exit : Z; child : list handler }.
Definition proc0 : proc := MkProc 0 0 [].

Definition call (h : handler) (p : proc) : proc :=
  match h with
  | do_something => MkProc 1 (m_exit p) (child p)
  | do_something_else => MkProc (g_exit p) 1 (child p)
  end.

(** [pthread_atfork (NULL, NULL, h)], which may lack memory, and the child that a
  [fork] would make. *)
Definition atfork (ok : bool) (h : handler) (p : proc) : proc :=
  if ok then MkProc (g_exit p) (m_exit p) (child p ++ [h]) else p.
Definition fork (p : proc) : proc := foldl (flip call) p (child p).

Definition another_ref (ok : bool) (p : proc) : proc := atfork ok do_something_else p.
Definition thr_start {A} (arg : A) : A := arg.

(** [create] is what [pthread_create] returns; the thread has nothing to do. *)
Definition main (ok : bool) (create : Z) (p : proc) : Z * proc :=
  let p := atfork ok do_something p in
  if negb (create =? 0) then (create, p) else (0, p).

(** The handler does not run when the program or its thread ends: it is for the
  child of a fork only. *)
Lemma pthr_main ok create :
  let '(rc, p) := main ok create proc0 in
  rc = create ∧ g_exit p = 0 ∧ m_exit p = 0 ∧ g_exit (fork p) = if ok then 1 else 0.
Proof.
  unfold main. destruct (Z.eqb_spec create 0) as [->|]; cbn [negb]; by destruct ok.
Qed.
End Pthr.

(** ** bfd/frameaddr.c *)

Module Frameaddr.
(** What is printed: text and addresses. *)
Inductive item := Str (t : list Z) | Ptr (a : Z).

(** [frame] is the builtin's answer, [load] the memory: none where nothing can be
  read.  The return address is the second word of the frame. *)
Definition print_frame (func : list Z) (frame : Z) (load : Z → option Z) : res (list item) :=
  let head := [Str func; Str (zs " frame = "); Ptr frame] in
  if frame =? 0 then Ok (head ++ [Str [10]])
  else
    match load (frame + 8) with
    | None => Ub
    | Some ret => Ok (head ++ [Str (zs " return_addr="); Ptr ret; Str [10]])
    end.

Definition print_frameaddr : Z → (Z → option Z) → res (list item) := print_frame (zs "print_frameaddr").

Definition main (frame : Z) (load : Z → option Z) : res (Z * list item) :=
  out ← print_frameaddr frame load; Ok (0, out).

(** A frame whose second word can be read is enough for the program to end well. *)
Lemma frameaddr_main frame load :
  frame = 0 ∨ is_Some (load (frame + 8)) →
  ensures (main frame load) (fun '(rc, out) => rc = 0 ∧ last out = Some (Str [10])).
Proof.
  intros Hf. unfold main, print_frameaddr, print_frame. destruct (Z.eqb_spec frame 0); [done|].
  destruct Hf as [|[ret ->]]; done.
Qed.
End Frameaddr.
