(* ===== verification/Wbuft.v ===== *)
(** * wal/wbuft.c: alternating write techniques, with an optional sync thread

    The first part is the sync thread: one shared record under a mutex, a
    thread that serves it and any sequence of requests from the main thread,
    interleaved in any order.  The second part is the main thread: the two write
    loops, the growing-buffer run, the options and [main]; what it asks of the
    sync thread is recorded as a list; WbuftThreads runs that against the sync
    thread.  Times and progress messages are left out; the mutex and condition
    calls themselves succeed. *)

From Stdlib Require Import Ascii.
From stdpp Require Import strings.
From S2P Require Import Prelude Libc Fdio.
Local Open Scope Z_scope.

Definition MIN_BUFSZ : Z := 1024.
Definition MAX_BUFSZ : Z := 1024 * 1024 * 512.
Definition MIN_INCR : Z := 128.
Definition MIN_NINCR : Z := 1.
Definition MAX_NINCR : Z := 1024 * 1024.

Definition sQUIT : Z := -1.
Definition sWAIT : Z := 0.
Definition sSYNC : Z := 1.

Definition SYNC_TYPE : Z := 3.
Definition SYNC_ALL : Z := 1.
Definition SYNC_DATA : Z := 2.
Definition FALLOC : Z := Z.shiftl 1 2.
Definition FALLOC_SZ : Z := Z.shiftl 1 3.
Definition SYNC_THREAD : Z := Z.shiftl 1 4.
Definition SEQ_WRITE : Z := Z.shiftl 1 5.

(** ** The system calls *)

Class Sys (W : Type) := {
  sys_os :: Os W;
  (** 0, or -1 and [errno] *)
  os_fsync : Z → W → Z * Z * W;
  os_fdatasync : Z → W → Z * Z * W;
  (** [lseek (fd, 0, SEEK_SET)]: an error, if any *)
  os_rewind : Z → W → option Z * W;
  os_open : list Z → Z → W → io_result * W;
  os_close : Z → W → W;
  os_fallocate : Z → Z → Z → W → option Z * W;
  (** whether [malloc] and [calloc] give memory; [rand] *)
  os_malloc : Z → W → bool * W;
  os_rand : W → Z * W;
  (** the error number, or the thread's id; [pthread_join] *)
  os_create : W → Z + Z;
  os_join : Z → Z
}.

Section wbuft.
Context {W : Type} `{Sys W}.

(** The program's state: [errno] and the system, and the calls of
  [toggle_sync_thread] made so far. *)
Record wb := MkWb { wio : io W; toggles : list (Z * Z * Z) }.

Definition with_w (s : wb) (w : W) : wb := MkWb (MkIo (ioerrno (wio s)) (iolog (wio s)) w) (toggles s).
Definition with_errno (s : wb) (e : Z) (w : W) : wb := MkWb (MkIo e (iolog (wio s)) w) (toggles s).
Definition world (s : wb) : W := iow (wio s).

(** [fd_sync] on [errno] and the system. *)
Definition fd_sync (fd flags : Z) (e : Z) (w : W) : res (Z * Z * W) :=
  let t := Z.land flags SYNC_TYPE in
  let ret '(rc, e', w') := Ok (rc, if rc =? 0 then e else e', w') in
  if t =? 0 then Ok (0, e, w)
  else if t =? SYNC_ALL then ret (os_fsync fd w)
  else if t =? SYNC_DATA then ret (os_fdatasync fd w)
  else Abort.

(** ** The sync thread *)

Record sync_state := MkSt { state : Z; sfd : Z; sflags : Z }.
Definition g_st : sync_state := MkSt sWAIT (-1) 0.

(** [state] is passed as [u_int32_t] and kept as [int]. *)
Definition toggle (fd flags st : Z) (g : sync_state) : sync_state := MkSt (s32 (u32 st)) fd flags.

(** Where the sync thread is: about to take the mutex for the first time, inside
  [pthread_cond_wait], signalled or not, or past the loop. *)
Inductive tpc := TStart | TAsleep (sig : bool) | TDone.

(** One pass of the outer loop; the thread's [errno] is its own. *)
Definition thread_pass (st : sync_state * Z * Z * W) :
    res (ctl (sync_state * Z * Z * W) (tpc * (sync_state * Z * Z * W))) :=
  let '(g, nsync, e, w) := st in
  if sWAIT =? state g then Ok (Leave (TAsleep false, st))
  else
    '(rc, nsync, e, w) ←
      (if (sSYNC =? state g) || (sQUIT =? state g) then
         '(rc, e, w) ← fd_sync (sfd g) (sflags g) e w;
         Ok (rc, if rc =? 0 then nsync + 1 else nsync, e, w)
       else Ok (0, nsync, e, w));
    if negb (rc =? 0) then Ok (Leave (TDone, (g, nsync, e, w)))
    else if sQUIT =? state g then Ok (Leave (TDone, (g, nsync, e, w)))
    else Ok (Next (MkSt sWAIT (sfd g) (sflags g), nsync, e, w)).

(** What the thread does with the mutex held, up to the next wait or the end:
  at most two passes, since the first leaves [sWAIT] behind. *)
Definition thread_run (st : sync_state * Z * Z * W) : res (tpc * (sync_state * Z * Z * W)) :=
  loop 2 thread_pass st.

(** Both threads; [asked] records the requests made by the main thread. *)
Record ssys := MkSsys {
  g : sync_state; tp : tpc; nsync : Z; terrno : Z; sw : W; asked : list (Z * Z)
}.

Definition sstart (w : W) : ssys := MkSsys g_st TStart 0 0 w [].

Inductive sact := SSync (fd flags : Z) | SQuit | SRun.

Definition signal (t : tpc) : tpc := match t with TAsleep _ => TAsleep true | t => t end.

Definition sstep (s : ssys) (a : sact) : res ssys :=
  match a with
  | SSync fd flags =>
      Ok (MkSsys (toggle fd flags sSYNC (g s)) (signal (tp s)) (nsync s) (terrno s) (sw s)
            (asked s ++ [(fd, flags)]))
  | SQuit =>
      Ok (MkSsys (toggle (-1) 0 sQUIT (g s)) (signal (tp s)) (nsync s) (terrno s) (sw s) (asked s))
  | SRun =>
      match tp s with
      | TDone => Ok s
      | _ =>
          '(t, (g', n, e, w)) ← thread_run (g s, nsync s, terrno s, sw s);
          Ok (MkSsys g' t n e w (asked s))
      end
  end.

Fixpoint sruns (s : ssys) (acts : list sact) : res ssys :=
  match acts with
  | [] => Ok s
  | a :: acts' => s' ← sstep s a; sruns s' acts'
  end.

(** ** The write loops *)

Record test_spec := MkSpec {
  mode_flags : Z; open_flags : Z; len : Z; niter : Z; incr : Z; nincr : Z; num_chunks : Z
}.

Definition do_sync (fd flags : Z) (s : wb) : res wb :=
  if has flags SYNC_THREAD then Ok (MkWb (wio s) (toggles s ++ [(fd, flags, sSYNC)]))
  else '(_, e, w) ← fd_sync fd flags (ioerrno (wio s)) (world s); Ok (with_errno s e w).

(** [if (0 == (mode_flags & SEQ_WRITE)) if (-1 == lseek (...))]: the error. *)
Definition rewind (fd mode : Z) (s : wb) : option Z * wb :=
  if has mode SEQ_WRITE then (None, s)
  else
    match os_rewind fd (world s) with
    | (None, w) => (None, with_w s w)
    | (Some e, w) => (Some e, MkWb (perror_unless false (MkIo e (iolog (wio s)) w)) (toggles s))
    end.

(** The loop of [write_nbuf], [n] turns from [i] on.  A signed [ntotal] must not
  overflow. *)
Fixpoint write_loop (n : nat) (b : list Z) (fd mode length ntotal : Z) (s : wb) : res (Z * wb) :=
  match n with
  | O => Ok (ntotal, s)
  | S n' =>
      let '(nwr, i) := write_call fd b (wio s) in
      let s := MkWb i (toggles s) in
      if negb (nwr =? length) then
        let err := ioerrno i in Ok (if err =? 0 then ntotal else - err, s)
      else
        s ← (if has mode SYNC_TYPE then do_sync fd mode s else Ok s);
        if ntotal + nwr <? 2 ^ 63 then write_loop n' b fd mode length (ntotal + nwr) s else Ub
  end.

Definition write_nbuf (fd : Z) (buf : list Z) (length : Z) (sp : test_spec) (s : wb) : res (Z * wb) :=
  match rewind fd (mode_flags sp) s with
  | (Some err, s) => Ok (- err, s)
  | (None, s) =>
      b ← sub_bytes buf 0 length;
      write_loop (Z.to_nat (niter sp)) b fd (mode_flags sp) length 0 s
  end.

(** The segments, from [i]; those not reached stay empty. *)
Fixpoint build_iov (n : nat) (i num_chunks chunk_len : Z) (p : Z) (nleft : Z) (buf : list Z) :
    res (list (list Z) * Z) :=
  match n with
  | O => Ok ([], nleft)
  | S n' =>
      if nleft <=? 0 then Ok (replicate n [], nleft)
      else
        let l := if i + 1 <? num_chunks then chunk_len else nleft in
        v ← sub_bytes buf p l;
        '(iov, nleft) ← build_iov n' (i + 1) num_chunks chunk_len (p + l) (nleft - l) buf;
        Ok (v :: iov, nleft)
  end.

(** [writev] refuses a vector of more than [IOV_MAX] segments. *)
Definition IOV_MAX : Z := 1024.
Definition writev_call (fd : Z) (iov : list (list Z)) (i : io W) : Z * io W :=
  if IOV_MAX <? zlen iov then (-1, set_errno EINVAL i) else write_call fd (concat iov) i.

(** The loop of [writev_nbuf]. *)
Fixpoint writev_loop (n : nat) (iov : list (list Z)) (fd mode length ntotal : Z) (s : wb) : res (Z * wb) :=
  match n with
  | O => Ok (ntotal, s)
  | S n' =>
      let '(nwr, i) := writev_call fd iov (wio s) in
      let s := MkWb i (toggles s) in
      if negb (nwr =? length) then
        let err := ioerrno i in Ok (if err =? 0 then ntotal else - err, s)
      else
        s ← (if has mode SYNC_TYPE then do_sync fd mode s else Ok s);
        if ntotal + nwr <? 2 ^ 63 then writev_loop n' iov fd mode length (ntotal + nwr) s else Ub
  end.

Definition writev_nbuf (fd : Z) (buf : list Z) (length : Z) (sp : test_spec) (s : wb) : res (Z * wb) :=
  _ ← c_assert ((1 <? num_chunks sp) && (num_chunks sp <? length));
  let chunk_len := length / num_chunks sp in
  _ ← c_assert (1 <=? chunk_len);
  match rewind fd (mode_flags sp) s with
  | (Some err, s) => Ok (- err, s)
  | (None, s) =>
      let '(mem, w) := os_malloc (num_chunks sp * 16) (world s) in
      let s := with_w s w in
      if negb mem then Ok (-1, s)
      else
        '(iov, nleft) ← build_iov (Z.to_nat (num_chunks sp)) 0 (num_chunks sp) chunk_len 0 length buf;
        _ ← c_assert (nleft =? 0);
        writev_loop (Z.to_nat (niter sp)) iov fd (mode_flags sp) length 0 s
  end.

(** ** The run *)

Definition O_RDWR : Z := 2.
Definition O_CREAT : Z := 0x40.
Definition O_TRUNC : Z := 0x200.
Definition O_APPEND : Z := 0x400.
Definition O_DSYNC : Z := 0x1000.
Definition O_DIRECT : Z := 0x4000.
Definition O_SYNC : Z := 0x101000.
Definition O_FSYNC : Z := O_SYNC.
Definition FALLOC_FL_KEEP_SIZE : Z := 1.

(** [buf[j++] = rand () & 0xFF] *)
Fixpoint fill (n : nat) (w : W) : list Z * W :=
  match n with
  | O => ([], w)
  | S n' =>
      let '(r, w) := os_rand w in
      let '(buf, w) := fill n' w in (Z.land r 0xFF :: buf, w)
  end.

(** [n] is [nincr - ni]. *)
Fixpoint grow_loop (n : nat) (write_data : Z → list Z → Z → test_spec → wb → res (Z * wb))
    (fd length : Z) (sp : test_spec) (s : wb) : res (Z * wb) :=
  match n with
  | O => Ok (0, s)
  | S n' =>
      if negb (length <? MAX_BUFSZ) then Ok (0, s)
      else
        let '(mem, w) := os_malloc length (world s) in
        if negb mem then Ok (ENOMEM, with_w s w)
        else
          let '(buf, w) := fill (Z.to_nat length) w in
          '(nw, s) ← write_data fd buf length sp (with_w s w);
          if nw <=? 0 then Ok (s32 nw, s)
          else grow_loop n' write_data fd (u64 (length + incr sp)) sp s
  end.

Definition start_sync_thread (s : wb) : Z * Z :=
  match os_create (world s) with inl rc => (rc, 0) | inr tid => (0, tid) end.

Definition stop_sync_thread (tid : Z) (s : wb) : res (Z * wb) :=
  _ ← c_assert (negb (tid =? 0));
  Ok (os_join tid, MkWb (wio s) (toggles s ++ [(-1, 0, sQUIT)])).

Definition run_odsync (fname : list Z) (sp : test_spec) (s : wb) : res (Z * wb) :=
  let write_data := if 0 <? num_chunks sp then writev_nbuf else write_nbuf in
  match os_open fname (Z.lor (Z.lor O_CREAT O_RDWR) (open_flags sp)) (world s) with
  | (IoErr e, w) => Ok (e, with_errno s e w)
  | (IoOk fd, w) =>
      let s := with_w s w in
      let '(rc, s) :=
        if has (mode_flags sp) FALLOC then
          let nfalloc := u64 (len sp * niter sp + incr sp * (nincr sp - 1)) in
          match os_fallocate fd (if has (mode_flags sp) FALLOC_SZ then FALLOC_FL_KEEP_SIZE else 0)
                  (s64 nfalloc) (world s) with
          | (None, w) => (0, with_w s w)
          | (Some e, w) => (-1, with_errno s e w)
          end
        else (0, s) in
      let '(rc, tid) :=
        if has (mode_flags sp) SYNC_THREAD && has (mode_flags sp) SYNC_TYPE then start_sync_thread s
        else (rc, 0) in
      '(rc, s) ← (if rc =? 0 then grow_loop (Z.to_nat (nincr sp)) write_data fd (len sp) sp s else Ok (rc, s));
      let s := with_w s (os_close fd (world s)) in
      if negb (tid =? 0) then '(_, s) ← stop_sync_thread tid s; Ok (rc, s) else Ok (rc, s)
  end.

(** ** The command line *)

Definition ch (a : Ascii.ascii) : Z := Z.of_N (Ascii.N_of_ascii a).
Definition optstring : list Z := zs "ktfaidDSI:N:FTU:Q"%string.

Definition add_mode (f : Z) (sp : test_spec) : test_spec :=
  MkSpec (Z.lor (mode_flags sp) f) (open_flags sp) (len sp) (niter sp) (incr sp) (nincr sp) (num_chunks sp).
Definition add_open (f : Z) (sp : test_spec) : test_spec :=
  MkSpec (mode_flags sp) (Z.lor (open_flags sp) f) (len sp) (niter sp) (incr sp) (nincr sp) (num_chunks sp).

Fixpoint read_opt (opts : list (Z * list Z)) (sp : test_spec) : res (Z * test_spec) :=
  match opts with
  | [] => Ok (0, sp)
  | (c, optarg) :: opts' =>
      if c =? ch "Q"%char then read_opt opts' (add_mode SEQ_WRITE sp)
      else if c =? ch "T"%char then read_opt opts' (add_mode SYNC_THREAD sp)
      else if c =? ch "F"%char then read_opt opts' (add_mode FALLOC sp)
      else if c =? ch "k"%char then read_opt opts' (add_mode FALLOC_SZ sp)
      else if c =? ch "t"%char then read_opt opts' (add_open O_TRUNC sp)
      else if c =? ch "a"%char then read_opt opts' (add_open O_APPEND sp)
      else if c =? ch "i"%char then read_opt opts' (add_open O_DIRECT sp)
      else if c =? ch "s"%char then read_opt opts' (add_open O_SYNC sp)
      else if c =? ch "f"%char then read_opt opts' (add_open O_FSYNC sp)
      else if c =? ch "d"%char then read_opt opts' (add_open O_DSYNC sp)
      else if c =? ch "D"%char then read_opt opts' (add_mode SYNC_DATA sp)
      else if c =? ch "S"%char then read_opt opts' (add_mode SYNC_DATA sp)
      else if c =? ch "I"%char then
        lval ← atol optarg;
        if (lval <? MIN_INCR) || (MIN_INCR + MAX_NINCR * MIN_BUFSZ <? lval) then Ok (EINVAL, sp)
        else read_opt opts' (MkSpec (mode_flags sp) (open_flags sp) (len sp) (niter sp) lval (nincr sp) (num_chunks sp))
      else if c =? ch "N"%char then
        lval ← atol optarg;
        if (lval <? MIN_NINCR) || (MAX_NINCR <? lval) then Ok (EINVAL, sp)
        else read_opt opts' (MkSpec (mode_flags sp) (open_flags sp) (len sp) (niter sp) (incr sp) lval (num_chunks sp))
      else if c =? ch "U"%char then
        lval ← atol optarg;
        if lval <? 2 then Ok (EINVAL, sp)
        else read_opt opts' (MkSpec (mode_flags sp) (open_flags sp) (len sp) (niter sp) (incr sp) (nincr sp) lval)
      else Ok (-1, sp)
  end.

Inductive ending := Exit (code : Z) | Return (rc : Z).

(** [argv] past the program's name; a missing third operand is [argv[argc]], a
    null pointer. *)
Definition main (args : list (list Z)) (s : wb) : res (ending * wb) :=
  if 1 + zlen args <? 3 then Ok (Exit 1, s)
  else
    let '(opts, operands) := getopt optstring args in
    '(rc, sp) ← read_opt opts (MkSpec 0 0 0 0 0 0 0);
    if negb (rc =? 0) then Ok (Return EINVAL, s)
    else
      match operands with
      | fname :: size :: rest =>
          bufsz ← atol size;
          if (bufsz <? MIN_BUFSZ) || (MAX_BUFSZ <? bufsz) then Ok (Return EINVAL, s)
          else
            match rest with
            | [] => Ub
            | count :: _ =>
                n ← atol count;
                if n <=? 0 then Ok (Return EINVAL, s)
                else
                  let sp := MkSpec (mode_flags sp) (open_flags sp) (if bufsz =? 0 then MIN_BUFSZ else bufsz) n
                              (if incr sp =? 0 then MIN_INCR else incr sp)
                              (if nincr sp =? 0 then MIN_NINCR else nincr sp) (num_chunks sp) in
                  if len sp <=? num_chunks sp then Ok (Return EINVAL, s)
                  else '(rc, s) ← run_odsync fname sp s; Ok (Return rc, s)
            end
      | _ => Ok (Exit 1, s)
      end.
End wbuft.

(** ** The synchronising calls a system has seen *)

Inductive sync_call := Fsync (fd : Z) | Fdatasync (fd : Z).

(** Every call of [fsync] and [fdatasync] adds itself, whatever its result. *)
Class SyncLog (W : Type) `{Sys W} := {
  syncs : W → list sync_call;
  fsync_log fd w r w' : os_fsync fd w = (r, w') → syncs w' = syncs w ++ [Fsync fd];
  fdatasync_log fd w r w' : os_fdatasync fd w = (r, w') → syncs w' = syncs w ++ [Fdatasync fd];
  write_log fd b w r w' : os_write fd b w = (r, w') → syncs w' = syncs w;
  rewind_log fd w r w' : os_rewind fd w = (r, w') → syncs w' = syncs w
}.

(** The calls that a request, a descriptor and flags, is answered by. *)
Definition calls_of (q : Z * Z) : list sync_call :=
  let t := Z.land q.2 SYNC_TYPE in
  if t =? SYNC_ALL then [Fsync q.1] else if t =? SYNC_DATA then [Fdatasync q.1] else [].
Definition calls_made (made : list (Z * Z)) : list sync_call := concat (map calls_of made).

Lemma calls_made_snoc made q : calls_made (made ++ [q]) = calls_made made ++ calls_of q.
Proof. unfold calls_made. rewrite map_app, concat_app. cbn. by rewrite app_nil_r. Qed.

(** ** What the sync thread does *)

Section sync.
Context {W : Type} `{SyncLog W}.
Implicit Types (s : @ssys W).

Lemma toggle_state fd flags g : state (toggle fd flags sSYNC g) = sSYNC ∧ state (toggle fd flags sQUIT g) = sQUIT.
Proof. done. Qed.

(** The sync types the options can ask for. *)
Definition sync_ok (flags : Z) : Prop := Z.land flags SYNC_TYPE ≠ 3.

Lemma sync_type_range flags : 0 ≤ Z.land flags SYNC_TYPE < 4.
Proof.
  unfold SYNC_TYPE. change 3 with (2 ^ 2 - 1). rewrite land_low by done. apply Z.mod_pos_bound. done.
Qed.

Lemma fd_sync_run fd flags e w :
  sync_ok flags → ensures (fd_sync fd flags e w) (fun '(rc, e', w') => syncs w' = syncs w ++ calls_of (fd, flags)).
Proof.
  intros Hf. unfold fd_sync, calls_of. cbn [fst snd]. pose proof (sync_type_range flags). unfold sync_ok in Hf.
  unfold SYNC_ALL, SYNC_DATA.
  destruct (Z.eqb_spec (Z.land flags SYNC_TYPE) 0) as [->|]; [cbn; by rewrite app_nil_r|].
  destruct (Z.eqb_spec (Z.land flags SYNC_TYPE) 1).
  - destruct (os_fsync fd w) as [[rc e1] w1] eqn:E. by eapply fsync_log.
  - destruct (Z.eqb_spec (Z.land flags SYNC_TYPE) 2); [|lia].
    destruct (os_fdatasync fd w) as [[rc e1] w1] eqn:E. by eapply fdatasync_log.
Qed.

Definition s_known (g : sync_state) : Prop := state g = sWAIT ∨ state g = sSYNC ∨ state g = sQUIT.

(** One pass, and one turn of the thread. *)
Lemma thread_pass_wait g n e w :
  state g = sWAIT → thread_pass (g, n, e, w) = Ok (Leave (TAsleep false, (g, n, e, w))).
Proof. intros E. unfold thread_pass. by rewrite E. Qed.

(** The thread ends on a sync that failed, or on the request to quit, which it
  counts as a sync. *)
Definition ending_count (g : sync_state) (n n' : Z) : Prop :=
  (state g = sSYNC ∧ n' = n) ∨ (state g = sQUIT ∧ (sflags g = 0 → n' = n + 1)).

Lemma thread_pass_spec g n e w :
  s_known g → sync_ok (sflags g) →
  ensures (thread_pass (g, n, e, w)) (fun c =>
    match c with
    | Next (g', n', _, w') => state g = sSYNC ∧ g' = MkSt sWAIT (sfd g) (sflags g) ∧ n' = n + 1 ∧
        syncs w' = syncs w ++ calls_of (sfd g, sflags g)
    | Leave (t, (g', n', _, w')) =>
        (state g = sWAIT ∧ t = TAsleep false ∧ g' = g ∧ n' = n ∧ w' = w) ∨
        (state g ≠ sWAIT ∧ t = TDone ∧ g' = g ∧ ending_count g n n' ∧
         syncs w' = syncs w ++ calls_of (sfd g, sflags g))
    end).
Proof.
  intros Hk Hf. destruct Hk as [Hk|Hk]; [rewrite thread_pass_wait by done; cbn; by left|].
  assert (Hw : (sWAIT =? state g) = false) by (apply Z.eqb_neq; destruct Hk as [-> | ->]; done).
  assert (Hs : (sSYNC =? state g) || (sQUIT =? state g) = true) by (destruct Hk as [-> | ->]; done).
  unfold thread_pass. rewrite Hw, Hs.
  assert (Hz : sflags g = 0 → fd_sync (sfd g) (sflags g) e w = Ok (0, e, w)) by by intros ->.
  assert (Hn : state g ≠ sWAIT) by (intros E; by rewrite E in Hw).
  destruct (proj1 (ensures_iff _ _) (fd_sync_run (sfd g) (sflags g) e w Hf)) as ([[rc e'] w'] & E & Hc).
  rewrite E in *. cbn. destruct (Z.eqb_spec rc 0) as [->|]; cbn.
  - destruct Hk as [Hk|Hk]; rewrite Hk; cbn; [done|]. right. split_and!; try done. by right.
  - right. split_and!; try done. destruct Hk as [Hk|Hk]; [by left|right].
    split; [done|]. intros Hf0. by specialize (Hz Hf0) as [= -> _ _].
Qed.

Lemma thread_run_spec g n e w :
  s_known g → sync_ok (sflags g) →
  ensures (thread_run (g, n, e, w)) (fun r =>
    let '(t, (g', n', _, w')) := r in
    (state g = sWAIT ∧ t = TAsleep false ∧ g' = g ∧ n' = n ∧ w' = w) ∨
    (syncs w' = syncs w ++ calls_of (sfd g, sflags g) ∧
     ((state g = sSYNC ∧ t = TAsleep false ∧ g' = MkSt sWAIT (sfd g) (sflags g) ∧ n' = n + 1) ∨
      (state g ≠ sWAIT ∧ t = TDone ∧ g' = g ∧ ending_count g n n')))).
Proof.
  intros Hk Hf. unfold thread_run. cbn [loop]. apply ensures_bind.
  eapply ensures_mono; [by apply thread_pass_spec|].
  intros [[[[g' n'] e'] w']|[t [[[g' n'] e'] w']]]; cbn beta iota.
  - intros (E & -> & -> & Hc). rewrite thread_pass_wait by done. right. split; [done|]. by left.
  - intros [?|(? & ? & ? & ? & ?)]; [by left|right]. split; [done|]. by right.
Qed.

(** [made] are the requests the thread has answered since the system was [w]:
  the calls it has made are theirs. *)
Record sinv (w : W) (made : list (Z * Z)) (s : @ssys W) : Prop := {
  si_known : s_known (g s);
  si_flags : sync_ok (sflags (g s));
  si_quit : state (g s) = sQUIT → sflags (g s) = 0;
  si_calls : syncs (sw s) = syncs w ++ calls_made made;
  si_sub : made `sublist_of` asked s;
  si_asleep : tp s = TAsleep false → state (g s) = sWAIT;
  si_wait : state (g s) = sWAIT → last made = last (asked s);
  si_sync : state (g s) = sSYNC →
    ∃ l, asked s = l ++ [(sfd (g s), sflags (g s))] ∧ (tp s ≠ TDone → made `sublist_of` l)
}.

Definition request (a : sact) : list (Z * Z) := match a with SSync fd flags => [(fd, flags)] | _ => [] end.
Definition requests (acts : list sact) : list (Z * Z) := concat (map request acts).
Definition act_ok (a : sact) : Prop := match a with SSync _ flags => sync_ok flags | _ => True end.

(** The request a step answers. *)
Definition answered s (a : sact) : list (Z * Z) :=
  match a, tp s with
  | SRun, (TStart | TAsleep _) => if state (g s) =? sSYNC then [(sfd (g s), sflags (g s))] else []
  | _, _ => []
  end.

Lemma signal_awake t : signal t ≠ TAsleep false.
Proof. by destruct t. Qed.
Lemma signal_done t : signal t = TDone → t = TDone.
Proof. by destruct t. Qed.

Lemma sinv_turn w made s :
  sinv w made s → tp s ≠ TDone →
  ensures (thread_run (g s, nsync s, terrno s, sw s)) (fun '(t, (g', n, e, w')) =>
    sinv w (made ++ if state (g s) =? sSYNC then [(sfd (g s), sflags (g s))] else [])
      (MkSsys g' t n e w' (asked s))).
Proof.
  intros [H1 H2 H7 HC H3 H4 H5 H6] Ht. eapply ensures_mono; [by apply thread_run_spec|].
  intros [t [[[g' n] e] w1]] Hr. destruct Hr as [(E & -> & -> & -> & ->)|[Hc [(E & -> & -> & ->)|(E & -> & -> & _)]]].
  - rewrite E. cbn [Z.eqb sWAIT sSYNC]. rewrite app_nil_r. split; cbn; try done. by rewrite E.
  - rewrite E. cbn [Z.eqb sSYNC Pos.eqb]. destruct (H6 E) as (l & Hl & Hs).
    split; cbn; try done.
    + by left.
    + by rewrite Hc, HC, calls_made_snoc, app_assoc.
    + rewrite Hl. apply sublist_app; [by apply Hs|done].
    + intros _. by rewrite Hl, !last_snoc.
  - destruct H1 as [H1|[H1|H1]]; [done| |]; rewrite H1; cbn [Z.eqb sSYNC sQUIT Pos.eqb].
    + destruct (H6 H1) as (l & Hl & Hs). split; cbn; try done.
      * by right; left.
      * by rewrite Hc, HC, calls_made_snoc, app_assoc.
      * rewrite Hl. apply sublist_app; [by apply Hs|done].
      * intros _. exists l. split; [done|]. intros []. done.
    + rewrite app_nil_r. split; cbn; try done; try (by rewrite H1).
      * by right; right.
      * rewrite Hc, (H7 H1). cbn. by rewrite app_nil_r.
Qed.

Lemma sinv_step w made s a :
  sinv w made s → act_ok a →
  ensures (sstep s a) (fun s' => sinv w (made ++ answered s a) s' ∧ asked s' = asked s ++ request a).
Proof.
  intros Hi Ha. destruct a as [fd flags| |]; cbn [sstep answered].
  - destruct Hi as [H1 H2 H7 HC H3 H4 H5 H6]. split; [|done]. rewrite app_nil_r. split; cbn [g tp sw asked].
    + by right; left.
    + done.
    + done.
    + done.
    + by apply sublist_inserts_r.
    + intros E. by apply signal_awake in E.
    + done.
    + intros _. exists (asked s). split; [done|]. done.
  - destruct Hi as [H1 H2 H7 HC H3 H4 H5 H6]. split; [|cbn; by rewrite app_nil_r]. rewrite app_nil_r.
    split; cbn [g tp sw asked]; try done.
    + by right; right.
    + intros E. by apply signal_awake in E.
  - assert (Hrun : tp s ≠ TDone → ensures ('(t, (g', n, e, w)) ← thread_run (g s, nsync s, terrno s, sw s);
        Ok (MkSsys g' t n e w (asked s)))
      (fun s' => sinv w (made ++ if state (g s) =? sSYNC then [(sfd (g s), sflags (g s))] else []) s' ∧
                 asked s' = asked s ++ request SRun)).
    { intros Ht. apply ensures_bind. eapply ensures_mono; [by apply sinv_turn|].
      intros [t [[[g' n] e] w1]] Hr. split; [exact Hr|cbn; by rewrite app_nil_r]. }
    destruct (tp s) eqn:Et; [by apply Hrun|by apply Hrun|]. cbn. by rewrite !app_nil_r.
Qed.

Lemma sinv_start w : sinv w [] (sstart w).
Proof. split; try done; [by left|]. cbn. by rewrite app_nil_r. Qed.

Lemma sinv_runs w acts made s :
  sinv w made s → Forall act_ok acts →
  ensures (sruns s acts) (fun s' => (∃ made', sinv w made' s') ∧ asked s' = asked s ++ requests acts).
Proof.
  revert made s. induction acts as [|a acts IH]; intros made s Hs Ha; cbn [sruns].
  - split; [by eexists|]. cbn. by rewrite app_nil_r.
  - apply Forall_cons in Ha as [Ha Has]. apply ensures_bind.
    eapply ensures_mono; [by apply sinv_step|]. intros s1 [H1 E1].
    eapply ensures_mono; [by eapply IH|]. intros s2 [H2 E2]. split; [done|].
    rewrite E2, E1, <- app_assoc. done.
Qed.
End sync.

(** ** The write loops *)

(** What the system calls promise besides [OsLaws]: none of them writes. *)
Class SysLaws (W : Type) `{Sys W, !OsLaws W} := {
  fsync_sink fd0 fd w r w' : os_fsync fd w = (r, w') → sink fd0 w' = sink fd0 w;
  fdatasync_sink fd0 fd w r w' : os_fdatasync fd w = (r, w') → sink fd0 w' = sink fd0 w;
  rewind_sink fd0 fd w r w' : os_rewind fd w = (r, w') → sink fd0 w' = sink fd0 w;
  rewind_err fd w e w' : os_rewind fd w = (Some e, w') → 0 < e
}.

Section writers.
Context {W : Type} `{SysLaws W, !SyncLog W}.
Implicit Types (s : @wb W) (sp : test_spec).

(** The segments cover the buffer. *)
Lemma build_iov_ok n i m c p nleft buf :
  (1 ≤ n)%nat → i + Z.of_nat n = m → 1 ≤ c → Z.of_nat n * c ≤ nleft → 0 ≤ p → p + nleft ≤ zlen buf →
  ∃ iov, build_iov n i m c p nleft buf = Ok (iov, 0) ∧ length iov = n ∧
    concat iov = take (Z.to_nat nleft) (drop (Z.to_nat p) buf).
Proof.
  revert i p nleft. induction n as [|n IH]; intros i p nleft Hn Hi Hc Hl Hp Hb; [lia|].
  cbn [build_iov]. assert (0 < nleft) by nia.
  destruct (Z.leb_spec nleft 0); [lia|]. destruct (Z.ltb_spec (i + 1) m).
  - rewrite sub_bytes_ok, bind_Ok by nia.
    destruct (IH (i + 1) (p + c) (nleft - c)) as (iov & -> & Hlen & Hcat); [lia|lia|lia|nia|lia|lia|].
    eexists. split; [done|]. split; [cbn; lia|]. cbn [concat]. rewrite Hcat.
    replace (Z.to_nat (p + c)) with (Z.to_nat p + Z.to_nat c)%nat by lia.
    rewrite <- (drop_drop _ (Z.to_nat c) (Z.to_nat p)).
    replace (Z.to_nat nleft) with (Z.to_nat c + Z.to_nat (nleft - c))%nat by nia.
    by rewrite take_take_drop.
  - assert (n = 0)%nat as -> by lia. rewrite sub_bytes_ok by lia. cbn.
    eexists. split; [by rewrite Z.sub_diag|]. split; [done|]. cbn. by rewrite app_nil_r.
Qed.

(** What follows each whole write: a request to the sync thread, or a call. *)
Definition told (fd mode : Z) : list (Z * Z * Z) :=
  if has mode SYNC_TYPE && has mode SYNC_THREAD then [(fd, mode, sSYNC)] else [].
Definition synced (fd mode : Z) : list sync_call :=
  if has mode SYNC_TYPE && negb (has mode SYNC_THREAD) then calls_of (fd, mode) else [].

Lemma sync_step_ok fd mode s :
  sync_ok mode →
  ensures (if has mode SYNC_TYPE then do_sync fd mode s else Ok s)
    (fun s' => (∀ fd0, sink fd0 (world s') = sink fd0 (world s)) ∧ toggles s' = toggles s ++ told fd mode ∧
       syncs (world s') = syncs (world s) ++ synced fd mode).
Proof.
  intros Hm. unfold told, synced. destruct (has mode SYNC_TYPE); [|cbn; by rewrite !app_nil_r].
  unfold do_sync. destruct (has mode SYNC_THREAD); [cbn; by rewrite app_nil_r|].
  apply ensures_bind. cbn [andb negb].
  assert (Hf : ensures (fd_sync fd mode (ioerrno (wio s)) (world s))
    (fun r => ∀ fd0, sink fd0 r.2 = sink fd0 (world s))).
  { unfold fd_sync. pose proof (sync_type_range mode). unfold sync_ok in Hm.
    destruct (Z.eqb_spec (Z.land mode SYNC_TYPE) 0); [done|].
    unfold SYNC_ALL, SYNC_DATA. destruct (Z.eqb_spec (Z.land mode SYNC_TYPE) 1).
    - destruct (os_fsync fd (world s)) as [[rc e1] w1] eqn:E. cbn. intros fd0. by eapply fsync_sink.
    - destruct (Z.eqb_spec (Z.land mode SYNC_TYPE) 2); [|lia].
      destruct (os_fdatasync fd (world s)) as [[rc e1] w1] eqn:E. cbn. intros fd0. by eapply fdatasync_sink. }
  pose proof (fd_sync_run fd mode (ioerrno (wio s)) (world s) Hm) as Hc.
  apply ensures_iff in Hf as ([[rc e1] w1] & E & Hs). rewrite E in *. cbn in *. by rewrite app_nil_r.
Qed.

(** [k] whole buffers and a proper prefix of one more have been written. *)
Definition written (fd mode : Z) (b : list Z) (k : nat) (part : list Z) s s' : Prop :=
  part `prefix_of` b ∧ (length part < length b)%nat ∧
  sink fd (world s') = sink fd (world s) ++ concat (replicate k b) ++ part ∧
  toggles s' = toggles s ++ concat (replicate k (told fd mode)) ∧
  syncs (world s') = syncs (world s) ++ concat (replicate k (synced fd mode)).

Lemma write_call_log fd b i m i' : write_call fd b i = (m, i') → syncs (iow i') = syncs (iow i).
Proof.
  unfold write_call. destruct (os_write fd b (iow i)) as [[n|e] w] eqn:E; intros [= <- <-]; by eapply write_log.
Qed.

Lemma write_loop_ok n fd mode b nt s :
  sync_ok mode → b ≠ [] → 0 ≤ nt → nt + Z.of_nat n * zlen b < 2 ^ 63 →
  ensures (write_loop n b fd mode (zlen b) nt s) (fun '(r, s') =>
    ∃ k part, (k ≤ n)%nat ∧ written fd mode b k part s s' ∧
      ((r = nt + Z.of_nat n * zlen b ∧ k = n ∧ part = []) ∨
       ((k < n)%nat ∧ r = if ioerrno (wio s') =? 0 then nt + Z.of_nat k * zlen b else - ioerrno (wio s')))).
Proof.
  intros Hm Hb. assert (Hlb : (0 < length b)%nat) by (destruct b; [done|cbn; lia]).
  revert nt s. induction n as [|n IH]; intros nt s Hnt Hmax; cbn [write_loop].
  - exists 0%nat, []. split; [lia|]. split.
    + split_and!; [apply prefix_nil|done|by rewrite app_nil_r..].
    + left. split_and!; [lia|done|done].
  - assert (Hshort : ∀ m i part, write_call fd b (wio s) = (m, i) → m ≠ zlen b → part `prefix_of` b →
      (length part < length b)%nat → sink fd (iow i) = sink fd (world s) ++ part →
      ∃ k part, (k ≤ S n)%nat ∧ written fd mode b k part s (MkWb i (toggles s)) ∧
        ((if ioerrno i =? 0 then nt else - ioerrno i) = nt + Z.of_nat (S n) * zlen b ∧ k = S n ∧ part = [] ∨
         (k < S n)%nat ∧ (if ioerrno i =? 0 then nt else - ioerrno i) =
           if ioerrno i =? 0 then nt + Z.of_nat k * zlen b else - ioerrno i)).
    { intros m i part E Hne Hpre Hlt Hs. exists 0%nat, part. split; [lia|]. split.
      - split_and!; [done|done|done|cbn; by rewrite app_nil_r|].
        cbn. rewrite app_nil_r. by eapply write_call_log.
      - right. split; [lia|]. destruct (_ =? 0); lia. }
    destruct (write_call_ok fd b (wio s) Hb) as [(m & i & E & Hm' & He & Hs & _)|(i & E & He & Hs & _)]; rewrite E.
    + destruct (Z.eqb_spec m (zlen b)) as [->|Hne]; cbn [negb].
      * apply ensures_bind. eapply ensures_mono; [by apply sync_step_ok|]. intros s1 (Hs1 & Ht1 & Hc1).
        cbn [toggles world wio] in *. destruct (Z.ltb_spec (nt + zlen b) (2 ^ 63)); [|nia].
        eapply ensures_mono; [apply IH; nia|]. intros [r s'] (k & part & Hk & (Hp & Hl & Hsk & Htk & Hck) & Hr).
        exists (S k), part. split; [lia|]. split.
        -- split_and!; [done|done| | |].
           ++ rewrite Hsk, Hs1. unfold world. cbn [wio]. rewrite Hs, Nat2Z.id, take_ge by lia.
              cbn [replicate concat]. by rewrite <- !app_assoc.
           ++ rewrite Htk, Ht1. cbn [replicate concat]. by rewrite <- app_assoc.
           ++ rewrite Hck, Hc1. unfold world. cbn [wio]. rewrite (write_call_log _ _ _ _ _ E).
              cbn [replicate concat]. by rewrite <- app_assoc.
        -- destruct Hr as [(-> & -> & ->)|(Hlt & ->)]; [left; split_and!; try done; lia|right].
           split; [lia|]. destruct (_ =? 0); lia.
      * cbn [ensures]. apply (Hshort m i (take (Z.to_nat m) b)); [done|done|apply prefix_take| |done].
        rewrite length_take. lia.
    + destruct (Z.eqb_spec (-1) (zlen b)); [lia|]. cbn [negb ensures].
      apply (Hshort (-1) i []); [done|done|apply prefix_nil|cbn; lia|by rewrite app_nil_r].
Qed.

Lemma rewind_ok fd mode s r s' :
  rewind fd mode s = (r, s') →
  (∀ fd0, sink fd0 (world s') = sink fd0 (world s)) ∧ toggles s' = toggles s ∧
  syncs (world s') = syncs (world s) ∧
  match r with None => True | Some e => 0 < e ∧ ioerrno (wio s') = e end.
Proof.
  unfold rewind. destruct (has mode SEQ_WRITE); [by intros [= <- <-]|].
  destruct (os_rewind fd (world s)) as [[e1|] w1] eqn:E; intros [= <- <-].
  - split_and!; [intros; by eapply rewind_sink|done|by eapply rewind_log|by eapply rewind_err|done].
  - split_and!; [intros; by eapply rewind_sink|done|by eapply rewind_log|done].
Qed.

(** The outcome of a writer asked for [n] writes of [b]. *)
Definition nbuf_outcome (n : Z) (fd mode : Z) (b : list Z) s (out : Z * wb) : Prop :=
  let '(r, s') := out in
  ∃ k part, Z.of_nat k ≤ n ∧ written fd mode b k part s s' ∧
    ((r = n * zlen b ∧ Z.of_nat k = n ∧ part = []) ∨
     r = if ioerrno (wio s') =? 0 then Z.of_nat k * zlen b else - ioerrno (wio s')).

Lemma written_start fd mode b k part s s1 s2 :
  (∀ fd0, sink fd0 (world s1) = sink fd0 (world s)) → toggles s1 = toggles s → syncs (world s1) = syncs (world s) →
  written fd mode b k part s1 s2 → written fd mode b k part s s2.
Proof.
  intros Hs Ht Hc (H1 & H2 & H3 & H4 & H5).
  split_and!; [done|done|by rewrite H3, Hs|by rewrite H4, Ht|by rewrite H5, Hc].
Qed.

Lemma write_loop_outcome n fd mode b s s1 :
  sync_ok mode → b ≠ [] → 0 ≤ n → n * zlen b < 2 ^ 63 →
  (∀ fd0, sink fd0 (world s1) = sink fd0 (world s)) → toggles s1 = toggles s → syncs (world s1) = syncs (world s) →
  ensures (write_loop (Z.to_nat n) b fd mode (zlen b) 0 s1) (nbuf_outcome n fd mode b s).
Proof.
  intros Hm Hb Hn Hmax Hs Ht Hc. eapply ensures_mono; [apply write_loop_ok; [done|done|lia|lia]|].
  intros [r s'] (k & part & Hk & Hw & Hr). exists k, part. split; [lia|].
  split; [by eapply written_start|].
  destruct Hr as [(-> & -> & ->)|(Hlt & ->)]; [left; split_and!; try done; lia|by right].
Qed.

Lemma write_nbuf_ok fd b sp s :
  sync_ok (mode_flags sp) → b ≠ [] → 0 ≤ niter sp → niter sp * zlen b < 2 ^ 63 →
  ensures (write_nbuf fd b (zlen b) sp s) (nbuf_outcome (niter sp) fd (mode_flags sp) b s).
Proof.
  intros Hm Hb Hn Hmax. unfold write_nbuf.
  destruct (rewind fd (mode_flags sp) s) as [[e1|] s1] eqn:E; apply rewind_ok in E as (Hs & Ht & Hlog & He).
  - exists 0%nat, []. split; [lia|]. split.
    + split_and!; [apply prefix_nil|destruct b; [done|cbn; lia]|by rewrite Hs, app_nil_r|by rewrite Ht, app_nil_r|].
      by rewrite Hlog, app_nil_r.
    + right. destruct He as [He Ee]. rewrite Ee. by destruct (Z.eqb_spec e1 0); [lia|].
  - rewrite sub_bytes_ok, bind_Ok by lia. rewrite drop_0, take_ge by lia. by apply write_loop_outcome.
Qed.


Lemma writev_call_ok fd iov i :
  zlen iov ≤ IOV_MAX → writev_call fd iov i = write_call fd (concat iov) i.
Proof. intros Hl. unfold writev_call. by destruct (Z.ltb_spec IOV_MAX (zlen iov)); [lia|]. Qed.

(** The two loops do the same on a vector that [writev] accepts. *)
Lemma writev_loop_ok n iov fd mode l nt s :
  zlen iov ≤ IOV_MAX → writev_loop n iov fd mode l nt s = write_loop n (concat iov) fd mode l nt s.
Proof.
  intros Hl. revert nt s. induction n as [|n IH]; intros nt s; [done|]. cbn [writev_loop write_loop].
  rewrite writev_call_ok by done. destruct (write_call fd (concat iov) (wio s)) as [nwr i].
  destruct (negb _); [done|]. destruct (if has mode SYNC_TYPE then _ else _); try done.
  rewrite !bind_Ok. by destruct (_ <? _).
Qed.

Lemma writev_loop_refused n iov fd mode l s :
  IOV_MAX < zlen iov → 0 ≤ l →
  writev_loop n iov fd mode l 0 s =
    Ok (if Nat.eqb n 0 then (0, s) else (- EINVAL, MkWb (set_errno EINVAL (wio s)) (toggles s))).
Proof.
  intros Hl Hl0. destruct n as [|n]; [done|]. cbn [writev_loop]. unfold writev_call.
  rewrite (proj2 (Z.ltb_lt _ _)) by done. by destruct (Z.eqb_spec (-1) l); [lia|].
Qed.

(** [writev_nbuf] past its setup. *)
Lemma writev_nbuf_setup fd b sp s :
  1 < num_chunks sp < zlen b →
  ∃ iov, zlen iov = num_chunks sp ∧ concat iov = b ∧
  writev_nbuf fd b (zlen b) sp s =
    match rewind fd (mode_flags sp) s with
    | (Some err, s) => Ok (- err, s)
    | (None, s) =>
        let '(mem, w) := os_malloc (num_chunks sp * 16) (world s) in
        if mem then
          writev_loop (Z.to_nat (niter sp)) iov fd (mode_flags sp) (zlen b) 0 (with_w s w)
        else Ok (-1, with_w s w)
    end.
Proof.
  intros Hc. set (m := num_chunks sp). fold m in Hc.
  assert (1 ≤ zlen b / m) by (apply Z.div_le_lower_bound; lia).
  assert (m * (zlen b / m) ≤ zlen b) by (apply Z.mul_div_le; lia).
  destruct (build_iov_ok (Z.to_nat m) 0 m (zlen b / m) 0 (zlen b) b) as (iov & E & Hl & Hcat);
    [lia|lia|done|rewrite Z2Nat.id by lia; lia|lia|lia|].
  exists iov. split; [lia|]. split; [by rewrite Hcat, drop_0, take_ge by lia|].
  unfold writev_nbuf, c_assert. fold m.
  destruct (Z.ltb_spec 1 m); [|lia]. destruct (Z.ltb_spec m (zlen b)); [|lia].
  cbn [andb]. rewrite bind_Ok. destruct (Z.leb_spec 1 (zlen b / m)); [|lia]. rewrite bind_Ok.
  destruct (rewind fd (mode_flags sp) s) as [[e1|] s1]; [done|].
  destruct (os_malloc (m * 16) (world s1)) as [[] w1]; [|done]. cbn [negb].
  by rewrite E.
Qed.

(** C17: gathering changes nothing.  For two or more chunks, fewer than bytes and no more
    than the system's limit, [writev_nbuf] is [write_nbuf] on the same buffer:
    same result, same state, on every outcome of every system call, provided that
    [calloc] finds memory and leaves the rest of the system alone.  With more
    chunks than [writev] takes, which [-U] allows, the two part: nothing is
    written ([writev_nbuf_too_many]). *)
Theorem writev_nbuf_is_write_nbuf fd b sp s :
  1 < num_chunks sp < zlen b → num_chunks sp ≤ IOV_MAX →
  (∀ w, os_malloc (num_chunks sp * 16) w = (true, w)) →
  writev_nbuf fd b (zlen b) sp s = write_nbuf fd b (zlen b) sp s.
Proof.
  intros Hc Hmax Hmem. destruct (writev_nbuf_setup fd b sp s Hc) as (iov & Hl & Hcat & ->).
  unfold write_nbuf. destruct (rewind fd (mode_flags sp) s) as [[e1|] s1]; [done|].
  rewrite sub_bytes_ok, bind_Ok, drop_0, take_ge by lia. rewrite Hmem.
  replace (with_w s1 (world s1)) with s1 by (by destruct s1 as [[]]).
  rewrite writev_loop_ok by lia. by rewrite Hcat.
Qed.

(** A vector too long: nothing is written. *)
Lemma writev_nbuf_too_many fd b sp s :
  IOV_MAX < num_chunks sp < zlen b → 0 < niter sp → has (mode_flags sp) SEQ_WRITE = true →
  (∀ w, os_malloc (num_chunks sp * 16) w = (true, w)) →
  writev_nbuf fd b (zlen b) sp s = Ok (- EINVAL, MkWb (set_errno EINVAL (wio s)) (toggles s)).
Proof.
  intros Hc Hn Hseq Hmem. destruct (writev_nbuf_setup fd b sp s) as (iov & Hl & Hcat & ->); [unfold IOV_MAX in *; lia|].
  unfold rewind. rewrite Hseq, Hmem, writev_loop_refused by lia.
  destruct (Z.to_nat (niter sp)) as [|n] eqn:E; [lia|]. by destruct s as [[] t].
Qed.

(** ** The whole program *)

(** What a run adds to the requests made of the sync thread. *)
Definition grown (P : Z * Z * Z → Prop) s s' : Prop :=
  ∃ reqs, toggles s' = toggles s ++ reqs ∧ Forall P reqs.

Lemma grown_refl (P : Z * Z * Z → Prop) s s' : toggles s' = toggles s → grown P s s'.
Proof. intros E. exists []. by rewrite app_nil_r. Qed.
Lemma grown_trans (P : Z * Z * Z → Prop) s1 s2 s3 : grown P s1 s2 → grown P s2 s3 → grown P s1 s3.
Proof.
  intros (r1 & E1 & F1) (r2 & E2 & F2). exists (r1 ++ r2). split; [by rewrite E2, E1, app_assoc|].
  by apply Forall_app.
Qed.

(** Requests to sync data, and the one to quit. *)
Definition data_req (q : Z * Z * Z) : Prop := q.2 = sSYNC ∧ Z.land q.1.2 SYNC_TYPE = SYNC_DATA.
Definition quit_req : Z * Z * Z := (-1, 0, sQUIT).
Definition data_or_quit (q : Z * Z * Z) : Prop := data_req q ∨ q = quit_req.

Definition mode_ok (mode : Z) : Prop := Z.testbit mode 0 = false.

Lemma mode_ok_type mode : mode_ok mode → Z.land mode SYNC_TYPE = 0 ∨ Z.land mode SYNC_TYPE = SYNC_DATA.
Proof.
  intros Hm. pose proof (sync_type_range mode).
  assert (Hb : Z.testbit (Z.land mode SYNC_TYPE) 0 = false) by (rewrite Z.land_spec; by rewrite Hm).
  assert (Z.land mode SYNC_TYPE = 0 ∨ Z.land mode SYNC_TYPE = 1 ∨ Z.land mode SYNC_TYPE = 2 ∨
    Z.land mode SYNC_TYPE = 3) as [E|[E|[E|E]]] by lia;
    [by left| |by right|]; by rewrite E in Hb.
Qed.

Lemma mode_ok_sync mode : mode_ok mode → sync_ok mode.
Proof. intros Hm. unfold sync_ok. by destruct (mode_ok_type mode Hm) as [-> | ->]. Qed.

Lemma told_data fd mode : mode_ok mode → Forall data_req (told fd mode).
Proof.
  intros Hm. unfold told, has. destruct (mode_ok_type mode Hm) as [E|E]; rewrite E; [constructor|].
  destruct (_ && _); [|constructor]. constructor; [split; [done|exact E]|constructor].
Qed.

(** Everything asked for is the sync of this descriptor in this mode. *)
Definition only_told (fd mode : Z) : Z * Z * Z → Prop := fun q => q ∈ told fd mode.

Lemma replicate_told fd mode k : Forall (only_told fd mode) (concat (replicate k (told fd mode))).
Proof.
  induction k as [|k IH]; [constructor|]. cbn [replicate concat]. apply Forall_app. split; [|done].
  by apply Forall_forall.
Qed.

Lemma only_told_data fd mode reqs : mode_ok mode → Forall (only_told fd mode) reqs → Forall data_req reqs.
Proof.
  intros Hm Hr. eapply Forall_impl; [exact Hr|]. intros q Hq.
  pose proof (told_data fd mode Hm) as Ht. by eapply Forall_forall in Ht.
Qed.

Lemma nbuf_outcome_grown n fd mode b s r s' :
  nbuf_outcome n fd mode b s (r, s') → grown (only_told fd mode) s s'.
Proof. intros (k & part & _ & (_ & _ & _ & Ht & _) & _). eexists. split; [exact Ht|]. apply replicate_told. Qed.

Lemma writev_nbuf_ok fd b sp s :
  mode_ok (mode_flags sp) → 1 < num_chunks sp < zlen b → 0 ≤ niter sp → niter sp * zlen b < 2 ^ 63 →
  ensures (writev_nbuf fd b (zlen b) sp s) (fun '(r, s') => grown (only_told fd (mode_flags sp)) s s').
Proof.
  intros Hm Hc Hn Hmax. destruct (writev_nbuf_setup fd b sp s Hc) as (iov & Hl & Hcat & ->).
  assert (Hb : b ≠ []) by (intros ->; cbn in Hc; lia).
  destruct (rewind fd (mode_flags sp) s) as [[e1|] s1] eqn:E; apply rewind_ok in E as (Hs & Ht & _ & He);
    [by apply grown_refl|].
  destruct (os_malloc _ _) as [[] w1]; [|by apply grown_refl].
  destruct (Z.le_gt_cases (zlen iov) IOV_MAX).
  - rewrite writev_loop_ok, Hcat by done.
    eapply ensures_mono; [by apply (write_loop_outcome _ _ _ _ (with_w s1 w1)); [apply mode_ok_sync|..]|].
    intros [r s'] Ho. apply nbuf_outcome_grown in Ho.
    eapply grown_trans; [|exact Ho]. by apply grown_refl.
  - rewrite writev_loop_refused by lia. destruct (Z.to_nat (niter sp)); by apply grown_refl.
Qed.

Lemma length_fill n w : length (fill n w).1 = n.
Proof.
  revert w. induction n as [|n IH]; intros w; [done|]. cbn [fill].
  destruct (os_rand w) as [r w1]. specialize (IH w1). destruct (fill n w1). cbn in *. lia.
Qed.

Definition spec_ok sp : Prop :=
  mode_ok (mode_flags sp) ∧ 0 ≤ incr sp < 2 ^ 32 ∧ (num_chunks sp = 0 ∨ 2 ≤ num_chunks sp).

Lemma grow_loop_ok n fd l sp s :
  spec_ok sp → 0 ≤ niter sp ≤ 2 ^ 34 → 1 ≤ l < 2 ^ 63 → num_chunks sp < l →
  ensures (grow_loop n (if 0 <? num_chunks sp then writev_nbuf else write_nbuf) fd l sp s)
    (fun '(r, s') => grown (only_told fd (mode_flags sp)) s s').
Proof.
  intros Hsp Hn. revert l s. induction n as [|n IH]; intros l s Hl Hc; [by apply grown_refl|].
  cbn [grow_loop]. destruct Hsp as (Hm & Hi & Hch).
  destruct (Z.ltb_spec l MAX_BUFSZ) as [Hlt|]; [|by apply grown_refl]. cbn [negb].
  assert (l < 2 ^ 29) by exact Hlt.
  destruct (os_malloc l (world s)) as [mem w1]. destruct (negb mem); [by apply grown_refl|].
  destruct (fill (Z.to_nat l) w1) as [b w2] eqn:Ef.
  assert (Hb : zlen b = l) by (pose proof (length_fill (Z.to_nat l) w1) as Hf; rewrite Ef in Hf; cbn in Hf; lia).
  apply ensures_bind. apply (ensures_mono _ (fun '(r, s') => grown (only_told fd (mode_flags sp)) s s')).
  - rewrite <- Hb. destruct (Z.ltb_spec 0 (num_chunks sp)).
    + eapply ensures_mono; [apply writev_nbuf_ok; [done|lia|lia|nia]|].
      intros [r s'] Hg. exact Hg.
    + eapply ensures_mono; [apply write_nbuf_ok; [by apply mode_ok_sync|intros ->; cbn in Hb; lia|lia|nia]|].
      intros [r s'] Ho. exact (nbuf_outcome_grown _ _ _ _ _ _ _ Ho).
  - intros [r s'] Hg. destruct (r <=? 0); [exact Hg|].
    assert (Eu : u64 (l + incr sp) = l + incr sp) by (apply wrap_small; lia). rewrite Eu.
    eapply ensures_mono; [apply IH; lia|]. intros [r2 s2] Hg2. by eapply grown_trans.
Qed.

(** What a run asks for: syncs of one descriptor, then to quit if there is a
  sync thread.  Without one nothing is asked for, unless the thread was created
  with the number 0, or not created and no error returned. *)
Definition run_asks (mode : Z) s s' : Prop :=
  ∃ fd reqs, Forall (only_told fd mode) reqs ∧
    (toggles s' = toggles s ++ reqs ++ [quit_req] ∨
     (toggles s' = toggles s ++ reqs ∧ (reqs = [] ∨ ∃ w, os_create w = inl 0 ∨ os_create w = inr 0))).

Lemma run_asks_refl mode s s' : toggles s' = toggles s → run_asks mode s s'.
Proof.
  intros E. exists 0, []. split; [constructor|]. right. rewrite app_nil_r. split; [done|by left].
Qed.

Lemma run_asks_grown mode s s' : mode_ok mode → run_asks mode s s' → grown data_or_quit s s'.
Proof.
  intros Hm (fd & reqs & Hr & Ht). apply only_told_data in Hr; [|done].
  assert (Hd : Forall data_or_quit reqs) by (eapply Forall_impl; [exact Hr|]; intros q Hq; by left).
  destruct Ht as [E|[E _]]; eexists; (split; [exact E|]); [|done].
  apply Forall_app. split; [done|]. constructor; [by right|constructor].
Qed.

Lemma run_odsync_ok fname sp s :
  spec_ok sp → 0 ≤ niter sp ≤ 2 ^ 34 → 1 ≤ len sp < 2 ^ 63 → num_chunks sp < len sp →
  ensures (run_odsync fname sp s) (fun '(r, s') => run_asks (mode_flags sp) s s').
Proof.
  intros Hsp Hn Hl Hc. unfold run_odsync.
  destruct (os_open _ _ _) as [[fd|e1] w1]; [|by apply run_asks_refl].
  match goal with |- ensures (let '(rc, s) := ?x in _) _ => destruct x as [rc1 s1] eqn:E1 end.
  assert (Ht : toggles s1 = toggles s).
  { destruct (has _ _); [|by injection E1 as _ <-].
    destruct (os_fallocate _ _ _ _) as [[]]; by injection E1 as _ <-. }
  match goal with |- ensures (let '(rc, tid) := ?x in _) _ => destruct x as [rc2 tid] eqn:E2 end.
  assert (Htid : tid = 0 → told fd (mode_flags sp) = [] ∨ rc2 ≠ 0 ∨ ∃ w, os_create w = inl 0 ∨ os_create w = inr 0).
  { intros ->. unfold told. rewrite andb_comm. destruct (_ && _); [|by left]. right. unfold start_sync_thread in E2.
    destruct (os_create (world s1)) as [e1|] eqn:Ec; injection E2; intros; subst; [|right; exists (world s1); by right].
    destruct (Z.eq_dec rc2 0) as [->|]; [right; exists (world s1); by left|by left]. }
  apply ensures_bind.
  apply (ensures_mono _ (fun '(r, s') => grown (only_told fd (mode_flags sp)) s s' ∧ (rc2 ≠ 0 → toggles s' = toggles s))).
  - destruct (Z.eqb_spec rc2 0) as [->|]; [|split; [by apply grown_refl|done]].
    eapply ensures_mono; [by apply grow_loop_ok|]. intros [r s'] Hg. split; [|done].
    eapply grown_trans; [by apply grown_refl|exact Hg].
  - intros [r s'] [(reqs & E & Hr) Hrc].
    destruct (tid =? 0) eqn:Etid; cbn [negb].
    + apply Z.eqb_eq in Etid. exists fd. destruct (Htid Etid) as [He|[He|He]].
      * exists []. split; [constructor|]. right. split; [|by left]. rewrite app_nil_r. cbn. rewrite E.
        destruct Hr as [|q reqs Hq _]; [by rewrite app_nil_r|]. unfold only_told in Hq. rewrite He in Hq. by apply not_elem_of_nil in Hq.
      * exists []. split; [constructor|]. right. rewrite app_nil_r. split; [by apply Hrc|by left].
      * exists reqs. split; [done|]. right. split; [exact E|by right].
    + unfold stop_sync_thread, c_assert. rewrite Etid. cbn.
      exists fd, reqs. split; [done|]. left. by rewrite E, <- app_assoc.
Qed.

(** The options only ever ask for [fdatasync]. *)
Lemma add_mode_ok f sp : Z.testbit f 0 = false → spec_ok sp → spec_ok (add_mode f sp).
Proof.
  intros Hf (Hm & Hi & Hc). refine (conj _ (conj Hi Hc)). unfold mode_ok in *. cbn [mode_flags add_mode].
  by rewrite Z.lor_spec, Hm, Hf.
Qed.

Lemma read_opt_ok opts sp :
  spec_ok sp → Forall (fun o => atol o.2 ≠ Ub) opts →
  ensures (read_opt opts sp) (fun '(rc, sp') => rc = 0 → spec_ok sp').
Proof.
  intros Hsp Ho. revert sp Hsp. induction Ho as [|[c a] opts Ha Ho IH]; intros sp Hsp; [by intros _|].
  cbn [read_opt]. cbn in Ha.
  assert (Hv : ∃ v, atol a = Ok v) by (unfold ato in *; destruct (_ && _); [eauto|done]).
  destruct Hv as [v ->].
  repeat match goal with
  | |- ensures (if c =? ch ?x then _ else _) _ => destruct (c =? ch x); [try (apply IH; by first [apply add_mode_ok | exact Hsp])|]
  end; try done; rewrite bind_Ok; destruct Hsp as (Hm & Hi & Hc).
  - unfold MIN_INCR, MAX_NINCR, MIN_BUFSZ.
    destruct (Z.ltb_spec v 128); [done|]. destruct (Z.ltb_spec (128 + 1024 * 1024 * 1024) v); [done|].
    cbn [orb]. apply IH. split_and!; cbn [mode_flags incr num_chunks]; (done || lia).
  - destruct (_ || _); [done|]. by apply IH.
  - destruct (Z.ltb_spec v 2); [done|]. apply IH. split_and!; cbn [mode_flags incr num_chunks]; (done || lia).
Qed.

(** [main], for whatever a run is shown to do. *)
Lemma main_runs (Q : @wb W → Prop) args s opts fname size count rest bufsz n :
  getopt optstring args = (opts, fname :: size :: count :: rest) →
  Forall (fun o => atol o.2 ≠ Ub) opts → atol size = Ok bufsz → atol count = Ok n → n ≤ 2 ^ 34 →
  Q s → (∀ mode s', mode_ok mode → run_asks mode s s' → Q s') →
  ensures (main args s) (fun '(_, s') => Q s').
Proof.
  intros Hg Ho Hsz Hcnt Hn Hrefl Hrun. unfold main.
  destruct (_ <? 3); [exact Hrefl|]. rewrite Hg.
  apply ensures_bind. eapply ensures_mono; [apply read_opt_ok; [|done]|].
  { split_and!; [done|done|done|by left]. }
  intros [rc sp] Hsp. destruct (Z.eqb_spec rc 0) as [->|]; cbn [negb]; [|exact Hrefl].
  destruct (Hsp eq_refl) as (Hm & Hi & Hc). rewrite Hsz, bind_Ok.
  unfold MIN_BUFSZ. destruct (Z.ltb_spec bufsz 1024); [exact Hrefl|].
  destruct (Z.ltb_spec MAX_BUFSZ bufsz) as [|Hmax]; cbn [orb]; [exact Hrefl|].
  assert (bufsz ≤ 2 ^ 29) by exact Hmax.
  rewrite Hcnt, bind_Ok. destruct (Z.leb_spec n 0); [exact Hrefl|].
  destruct (Z.eqb_spec bufsz 0); [lia|]. cbn [len num_chunks].
  destruct (Z.leb_spec bufsz (num_chunks sp)); [exact Hrefl|].
  apply ensures_bind. eapply ensures_mono; [apply run_odsync_ok|].
  - split_and!; cbn [mode_flags incr num_chunks]; try done.
    + destruct (incr sp =? 0); [done|]. apply Hi.
    + destruct (incr sp =? 0); [done|]. apply Hi.
  - cbn [niter]. lia.
  - cbn [len]. lia.
  - cbn [num_chunks len]. lia.
  - intros [r s'] Hg'. by eapply Hrun.
Qed.

(** A run of the program whose numbers can be represented, given all three
    operands, ends: no assertion fails, nothing undefined happens and no loop
    runs for ever, whatever the system calls answer.  And every sync it asks of
    the sync thread is an [fdatasync]: no option leads to [fsync], although
    one claims to. *)
Theorem wbuft_main_safe args s opts fname size count rest bufsz n :
  getopt optstring args = (opts, fname :: size :: count :: rest) →
  Forall (fun o => atol o.2 ≠ Ub) opts → atol size = Ok bufsz → atol count = Ok n → n ≤ 2 ^ 34 →
  ensures (main args s) (fun '(_, s') =>
    ∃ reqs, toggles s' = toggles s ++ reqs ∧
      Forall (fun q => (q.2 = sSYNC ∧ Z.land q.1.2 SYNC_TYPE = SYNC_DATA) ∨ q = (-1, 0, sQUIT)) reqs).
Proof.
  intros Hg Ho Hsz Hcnt Hn.
  eapply (main_runs (grown data_or_quit s)); try done; [by apply grown_refl|].
  intros mode s' Hm Hr. by eapply run_asks_grown.
Qed.

(** With two operands the program passes a null pointer to [atol]. *)
Lemma wbuft_main_two_operands args s fname size bufsz :
  getopt optstring args = ([], [fname; size]) → atol size = Ok bufsz →
  MIN_BUFSZ ≤ bufsz ≤ MAX_BUFSZ → (2 ≤ length args)%nat → main args s = Ub.
Proof.
  intros Hg Hsz Hb Hl. unfold main. destruct (Z.ltb_spec (1 + zlen args) 3); [lia|].
  rewrite Hg. cbn. rewrite Hsz. cbn.
  destruct (Z.ltb_spec bufsz MIN_BUFSZ); [lia|]. by destruct (Z.ltb_spec MAX_BUFSZ bufsz); [lia|].
Qed.
End writers.

(** ** The sync thread's properties *)

Section sync_props.
Context {W : Type} `{SyncLog W}.

(** C7: the sync thread under every interleaving with the main thread's requests.  It
    always comes to rest.  The calls of [fsync] and [fdatasync] it has made are
    those for a subsequence of the requests, in order: for each of these one call
    on its descriptor, of the kind its flags name, and no other call.  And when
    the thread sleeps unsignalled the latest request is one of them, so only
    requests that a newer one overtook are skipped. *)
Theorem sync_thread_serves (w : W) acts :
  Forall (fun a => match a with SSync _ flags => Z.land flags SYNC_TYPE ≠ 3 | _ => True end) acts →
  ensures (sruns (sstart w) acts) (fun s => ∃ made,
    asked s = requests acts ∧ made `sublist_of` asked s ∧
    syncs (sw s) = syncs w ++ concat (map (fun '(fd, flags) =>
      if Z.land flags SYNC_TYPE =? SYNC_ALL then [Fsync fd]
      else if Z.land flags SYNC_TYPE =? SYNC_DATA then [Fdatasync fd] else []) made) ∧
    (tp s = TAsleep false → state (g s) = sWAIT ∧ last made = last (asked s))).
Proof.
  intros Ha. eapply ensures_mono; [apply (sinv_runs w acts []); [apply sinv_start|]|].
  - eapply Forall_impl; [exact Ha|]. by intros [].
  - intros s [(made & [H1 H2 H7 HC H3 H4 H5 H6]) Hasked]. exists made. split_and!; [done|done| |].
    + rewrite HC. unfold calls_made. do 2 f_equal. apply map_ext. by intros [].
    + intros E. split; [by apply H4|by apply H5, H4].
Qed.

(** stopping the sync thread throws a pending request away.  Whatever the thread
    has done so far, if it does not get to run between a request and the
    request to quit, the sync is never made: the quit overwrites the
    descriptor and the flags, and the thread ends counting a sync it has not
    made. *)
Theorem stop_drops_request (s : @ssys W) fd flags :
  tp s ≠ TDone →
  ensures (sruns s [SSync fd flags; SQuit; SRun]) (fun s' =>
    tp s' = TDone ∧ sw s' = sw s ∧ syncs (sw s') = syncs (sw s) ∧ asked s' = asked s ++ [(fd, flags)] ∧
    nsync s' = nsync s + 1).
Proof. intros Ht. destruct s as [gs t n e w a]. destruct t; [done|done|by cbn in Ht]. Qed.
End sync_props.

(** ** A concrete system *)

(** The scripted pipes of Fdio with a record of the syncs, everything else
    succeeding. *)
Record syncable := MkSyncable { wpipes : pipes; wsyncs : list sync_call }.

Definition on_pipes {R} (call : pipes → R * pipes) (w : syncable) : R * syncable :=
  let '(r, p) := call (wpipes w) in (r, MkSyncable p (wsyncs w)).
Definition note (c : sync_call) (w : syncable) : Z * Z * syncable :=
  (0, 0, MkSyncable (wpipes w) (wsyncs w ++ [c])).

#[export] Instance syncable_os : Os syncable := {|
  os_write := fun fd b => on_pipes (os_write fd b);
  os_read := fun fd n => on_pipes (os_read fd n);
  os_pread := fun fd n off => on_pipes (os_pread fd n off)
|}.

#[export] Instance syncable_sys : Sys syncable := {|
  sys_os := syncable_os;
  os_fsync := fun fd => note (Fsync fd);
  os_fdatasync := fun fd => note (Fdatasync fd);
  os_rewind := fun _ w => (None, w);
  os_open := fun _ _ w => (IoOk 3, w);
  os_close := fun _ w => w;
  os_fallocate := fun _ _ _ w => (None, w);
  os_malloc := fun _ w => (true, w);
  os_rand := fun w => (7, w);
  os_create := fun _ => inr 1;
  os_join := fun _ => 0
|}.

Lemma on_pipes_inv {R} (call : pipes → R * pipes) w r w' :
  on_pipes call w = (r, w') → call (wpipes w) = (r, wpipes w') ∧ wsyncs w' = wsyncs w.
Proof. unfold on_pipes. destruct (call (wpipes w)) as [r1 p] eqn:E. by intros [= <- <-]. Qed.

#[export] Instance syncable_oslaws : OsLaws syncable.
Proof.
  refine {|
    sink := fun fd w => sink fd (wpipes w);
    source := fun fd w => source fd (wpipes w);
    content := fun fd w => content fd (wpipes w);
    patience := fun w => patience (wpipes w)
  |}.
  - intros fd b w n w' [E _]%on_pipes_inv. by eapply write_ok.
  - intros fd b w n w' [E _]%on_pipes_inv. by eapply write_err.
  - intros fd n w d w' [E _]%on_pipes_inv. by eapply read_ok.
  - intros fd n w e w' [E _]%on_pipes_inv. by eapply read_err.
  - intros fd n off w d w' [E _]%on_pipes_inv. by eapply pread_ok.
  - intros fd n off w e w' [E _]%on_pipes_inv. by eapply pread_err.
Defined.

#[export] Instance syncable_sys_laws : SysLaws syncable.
Proof.
  split.
  - by intros fd0 fd w r w' [= <- <-].
  - by intros fd0 fd w r w' [= <- <-].
  - by intros fd0 fd w r w' [= <- <-].
  - done.
Defined.

#[export] Instance syncable_log : SyncLog syncable.
Proof.
  refine {| syncs := wsyncs |}.
  - by intros fd w r w' [= <- <-].
  - by intros fd w r w' [= <- <-].
  - by intros fd b w r w' [_ E]%on_pipes_inv.
  - by intros fd w r w' [= <- <-].
Defined.

(** The first write takes everything, the second two bytes. *)
Definition wb_short : @wb syncable := MkWb (MkIo 0 [] (MkSyncable (MkPipes [] [] [] [Part 3; Part 2]) [])) [].
Definition quiet_system : syncable := MkSyncable (iow pipes_fine) [].
Definition spec_threaded : test_spec := MkSpec (Z.lor SYNC_DATA SYNC_THREAD) 0 3 4 128 1 2.

Definition demo_buf : list Z := [7; 8; 9].


Lemma writev_nbuf_is_write_nbuf_witness :
  writev_nbuf 5 demo_buf (zlen demo_buf) spec_threaded wb_short =
  write_nbuf 5 demo_buf (zlen demo_buf) spec_threaded wb_short.
Proof.
  apply (writev_nbuf_is_write_nbuf 5 demo_buf spec_threaded wb_short); [cbn; lia|cbn; unfold IOV_MAX; lia|done].
Defined.

(** -S -T -U 4 file 1024 2 *)
Definition wbuft_args : list (list Z) :=
  [zs "-S"; zs "-T"; zs "-U"; zs "4"; zs "file"; zs "1024"; zs "2"]%string.

Lemma wbuft_main_safe_witness :
  ensures (main wbuft_args wb_short) (fun '(_, s') =>
    ∃ reqs, toggles s' = toggles wb_short ++ reqs ∧
      Forall (fun q => (q.2 = sSYNC ∧ Z.land q.1.2 SYNC_TYPE = SYNC_DATA) ∨ q = (-1, 0, sQUIT)) reqs).
Proof.
  refine (wbuft_main_safe wbuft_args wb_short
           [(ch "S"%char, []); (ch "T"%char, []); (ch "U"%char, zs "4"%string)]
           (zs "file"%string) (zs "1024"%string) (zs "2"%string) [] 1024 2 _ _ _ _ _).
  - by vm_compute.
  - repeat constructor; by vm_compute.
  - by vm_compute.
  - by vm_compute.
  - lia.
Defined.

Definition two_syncs : list sact := [SSync 5 SYNC_DATA; SRun; SSync 5 SYNC_DATA; SSync 6 SYNC_ALL; SRun].

Lemma sync_thread_serves_witness :
  (s ← sruns (sstart quiet_system) two_syncs; Ok (wsyncs (sw s))) = Ok [Fdatasync 5; Fsync 6] ∧
  ensures (sruns (sstart quiet_system) two_syncs) (fun s => ∃ made,
    asked s = requests two_syncs ∧ made `sublist_of` asked s ∧
    syncs (sw s) = syncs quiet_system ++ concat (map (fun '(fd, flags) =>
      if Z.land flags SYNC_TYPE =? SYNC_ALL then [Fsync fd]
      else if Z.land flags SYNC_TYPE =? SYNC_DATA then [Fdatasync fd] else []) made) ∧
    (tp s = TAsleep false → state (g s) = sWAIT ∧ last made = last (asked s))).
Proof.
  split; [vm_compute; reflexivity|].
  refine (sync_thread_serves quiet_system two_syncs _). repeat constructor; done.
Defined.

Lemma stop_drops_request_witness :
  ensures (sruns (sstart quiet_system) [SSync 5 SYNC_DATA; SQuit; SRun]) (fun s' =>
    tp s' = TDone ∧ sw s' = quiet_system ∧ syncs (sw s') = [] ∧ asked s' = [(5, SYNC_DATA)] ∧ nsync s' = 0 + 1).
Proof. refine (stop_drops_request (sstart quiet_system) 5 SYNC_DATA _). done. Defined.
