(* ===== verification/WbuftThreads.v ===== *)
(** * wal/wbuft.c: the main thread and the sync thread together

    Wbuft lets the sync thread meet any requests.  Here the main thread is the
    one [run_odsync] has: it asks for syncs, closes the file, asks the thread to
    quit and joins it.  Each step is a critical section, or the [close]; any
    order of the two threads' steps is a schedule, spurious wake-ups included.
    Every schedule ends with the join, however the syncs turn out; and [main] of
    Wbuft only starts such systems.  The threads' system calls share nothing
    but the table of open descriptors. *)

From Stdlib Require Import Ascii.
From stdpp Require Import strings.
From S2P Require Import Prelude Libc Fdio Wbuft.
Local Open Scope Z_scope.

Section threads.
Context {W : Type} `{SyncLog W}.

(** What the main thread does that the sync thread can see. *)
Inductive mact := MToggle (fd flags st : Z) | MClose (fd : Z) | MJoin.

(** The main thread's calls from the first write to the end of the run:
  [toggle_sync_thread] for each of the requests, [close] and
  [stop_sync_thread]. *)
Definition toggle_act (q : Z * Z * Z) : mact := let '(fd, flags, st) := q in MToggle fd flags st.
Definition main_prog (fd : Z) (reqs : list (Z * Z * Z)) : list mact :=
  map toggle_act reqs ++ [MClose fd; toggle_act quit_req; MJoin].

(** Both threads, what the main thread has still to do, the descriptors closed
  and the number of syncs made on one of them. *)
Record tsys := MkT { st : ssys (W := W); prog : list mact; closed : list Z; stale : nat }.

Definition tstart (w : W) (fd : Z) (reqs : list (Z * Z * Z)) : tsys :=
  MkT (sstart w) (main_prog fd reqs) [] 0.

Inductive who := Main | Thread | Spurious.

(** The main thread's next call; [pthread_join] waits. *)
Definition main_step (t : tsys) : res (option tsys) :=
  match prog t with
  | [] => Ok None
  | MToggle fd flags v :: p =>
      s ← sstep (st t) (if v =? sSYNC then SSync fd flags else SQuit);
      Ok (Some (MkT s p (closed t) (stale t)))
  | MClose fd :: p => Ok (Some (MkT (st t) p (fd :: closed t) (stale t)))
  | MJoin :: p =>
      match tp (st t) with
      | TDone => Ok (Some (MkT (st t) p (closed t) (stale t)))
      | _ => Ok None
      end
  end.

(** The sync thread with the mutex, up to its next wait. *)
Definition thread_turn (t : tsys) : res (option tsys) :=
  let g := g (st t) in
  s ← sstep (st t) SRun;
  Ok (Some (MkT s (prog t) (closed t)
    (if (state g =? sSYNC) && bool_decide (sfd g ∈ closed t) then S (stale t) else stale t))).

Definition step (t : tsys) (a : who) : res (option tsys) :=
  match a, tp (st t) with
  | Main, _ => main_step t
  | Thread, (TStart | TAsleep true) => thread_turn t
  | Spurious, TAsleep false => thread_turn t
  | _, _ => Ok None
  end.

(** A schedule; [None] if it calls on a thread that cannot move. *)
Fixpoint run (t : tsys) (sched : list who) : res (option tsys) :=
  match sched with
  | [] => Ok (Some t)
  | a :: sched => o ← step t a; match o with Some t => run t sched | None => Ok None end
  end.

Definition is_step (a : who) : bool := match a with Spurious => false | _ => true end.
Definition steps (sched : list who) : nat := length (List.filter is_step sched).

(** Nobody can move. *)
Definition stuck (t : tsys) : Prop := step t Main = Ok None ∧ step t Thread = Ok None.

(** Every schedule takes at most [n] steps and stops only where [P] holds. *)
Definition settles (n : nat) (P : tsys → Prop) (t : tsys) : Prop :=
  ∀ sched, ensures (run t sched) (fun o =>
    ∀ t', o = Some t' → (steps sched ≤ n)%nat ∧ (stuck t' → P t')).

(** ** The steps left *)

Definition weight (m : mact) : nat := match m with MToggle _ _ _ => 2 | _ => 1 end.
Definition moving (t : tpc) : nat := match t with TStart | TAsleep true => 1 | _ => 0 end.
Definition room (t : tsys) : nat := (sum_list_with weight (prog t) + moving (tp (st t)))%nat.

(** ** The invariant *)

Definition req_ok (q : Z * Z * Z) : Prop := q.2 = sSYNC ∧ sync_ok q.1.2.

(** How far the main thread is; [pending] is what it has still to ask for. *)
Inductive phase (fd : Z) (t : tsys) : list (Z * Z * Z) → Prop :=
| Asking pending :
    prog t = main_prog fd pending → Forall req_ok pending → stale t = 0%nat → closed t = [] →
    phase fd t pending
| Closed :
    prog t = [toggle_act quit_req; MJoin] → phase fd t []
| Joining :
    prog t = [MJoin] → tp (st t) = TDone ∨ (state (g (st t)) = sQUIT ∧ tp (st t) ≠ TAsleep false) →
    phase fd t []
| Joined :
    prog t = [] → tp (st t) = TDone → phase fd t [].

(** The requests [made] that the thread has answered, and its count of them. *)
Record counted (w : W) (made : list (Z * Z)) (s : ssys (W := W)) : Prop := {
  co_sinv : sinv w made s;
  co_live : tp s ≠ TDone → nsync s = zlen made;
  co_done : tp s = TDone → nsync s = zlen made + 1 ∨ nsync s + 1 = zlen made
}.

Record tinv (w : W) (fd : Z) (reqs : list (Z * Z * Z)) (t : tsys) : Prop := {
  ti_made : ∃ made, counted w made (st t);
  ti_phase : ∃ pending, phase fd t pending ∧ asked (st t) ++ map fst pending = map fst reqs;
  ti_stale : (stale t ≤ 1)%nat ∧ (tp (st t) ≠ TDone → state (g (st t)) = sSYNC → stale t = 0%nat)
}.

(** ** The main thread *)

Lemma tstart_inv w fd reqs : Forall req_ok reqs → tinv w fd reqs (tstart w fd reqs).
Proof.
  intros Hr. split.
  - exists []. split; [apply sinv_start|done|done].
  - exists reqs. split; [by apply Asking|done].
  - split; [cbn; lia|done].
Qed.

(** A call of [toggle_sync_thread] and the counts. *)
Lemma toggled_count s a s' :
  sstep s a = Ok s' → a ≠ SRun →
  nsync s' = nsync s ∧ (tp s' = TDone ↔ tp s = TDone) ∧
  (moving (tp s') ≤ 1)%nat ∧ tp s' ≠ TAsleep false.
Proof.
  assert (Hm : (moving (signal (tp s)) ≤ 1)%nat) by (destruct (tp s); cbn; lia).
  assert (Hd : signal (tp s) = TDone ↔ tp s = TDone) by by destruct (tp s).
  pose proof (signal_awake (tp s)).
  destruct a as [fd flags| |]; intros E Ha; [| |done]; by injection E as <-.
Qed.

Lemma tinv_toggled w fd reqs t a s' p :
  tinv w fd reqs t → act_ok a → a ≠ SRun → sstep (st t) a = Ok s' →
  (state (g s') = sSYNC → stale t = 0%nat) →
  (∃ pending, phase fd (MkT s' p (closed t) (stale t)) pending ∧ asked s' ++ map fst pending = map fst reqs) →
  tinv w fd reqs (MkT s' p (closed t) (stale t)).
Proof.
  intros [(made & [H1 H4 H5]) _ [H6 _]] Ha Hn E Hs Hp.
  pose proof (sinv_step w made (st t) a H1 Ha) as Hi. rewrite E in Hi. destruct Hi as [Hi _].
  destruct (toggled_count _ _ _ E Hn) as (En & Hd & _).
  replace (answered (st t) a) with (@nil (Z * Z)) in Hi by by destruct a. rewrite app_nil_r in Hi.
  split; cbn [st stale]; [|done|by split]. exists made. by split; rewrite ?En, ?Hd.
Qed.

Definition moved (w : W) (fd : Z) (reqs : list (Z * Z * Z)) (t : tsys) (n : nat) (o : option tsys) : Prop :=
  match o with Some t' => tinv w fd reqs t' ∧ (n + room t' ≤ room t)%nat | None => True end.

Lemma main_moves w fd reqs t : tinv w fd reqs t → ensures (main_step t) (moved w fd reqs t 1).
Proof.
  intros T. destruct (ti_phase _ _ _ _ T) as (pending & Hp & Ha). unfold main_step, moved, room.
  destruct Hp as [pending Ep Hr Hs Hc|Ep|Ep Hj|Ep Hd]; rewrite Ep.
  - destruct pending as [|[[fd' flags] v] pending]; cbn [main_prog map app toggle_act].
    + cbn. destruct T. split; [|lia]. split; cbn; try done. exists []. split; [by apply Closed|done].
    + apply Forall_cons in Hr as [[Hv Hf] Hr]. cbn in Hv, Hf. subst v.
      change (sSYNC =? sSYNC) with true. cbn iota.
      destruct (toggled_count (st t) (SSync fd' flags) _ eq_refl) as (_ & _ & Hm & _); [done|].
      cbn [sstep]. rewrite bind_Ok. split.
      * refine (tinv_toggled w fd reqs t (SSync fd' flags) _ _ T Hf _ eq_refl _ _); [done|by intros _|].
        exists pending. split; [by apply Asking|]. cbn [asked]. rewrite <- app_assoc. exact Ha.
      * unfold main_prog. cbn [sum_list_with prog st weight tp] in *. lia.
  - destruct (toggled_count (st t) SQuit _ eq_refl) as (_ & _ & Hm & Hw); [done|].
    cbn [toggle_act quit_req]. change (sQUIT =? sSYNC) with false. cbn iota. cbn [sstep]. rewrite bind_Ok. split.
    + refine (tinv_toggled w fd reqs t SQuit _ _ T _ _ eq_refl _ _); [done|done|done|].
      exists []. split; [|exact Ha]. apply Joining; [done|]. right. by split.
    + cbn [sum_list_with prog st weight tp toggle_act quit_req] in *. lia.
  - destruct (tp (st t)) eqn:Et; [done|done|]. cbn. rewrite Et. split; [|cbn; lia].
    destruct T. split; cbn; try done. exists []. split; [by apply Joined|done].
  - done.
Qed.

(** ** The sync thread *)

(** One turn: nothing to do; a sync made; or the end, by a failed sync or by the
  request to quit. *)
Variant turned (s s' : ssys (W := W)) : Prop :=
| Idled : state (g s) = sWAIT → tp s' = TAsleep false → g s' = g s → nsync s' = nsync s → turned s s'
| Synced : state (g s) = sSYNC → tp s' = TAsleep false → state (g s') = sWAIT → nsync s' = nsync s + 1 → turned s s'
| Failed : state (g s) = sSYNC → tp s' = TDone → g s' = g s → nsync s' = nsync s → turned s s'
| Ended : state (g s) = sQUIT → tp s' = TDone → g s' = g s → nsync s' = nsync s + 1 → turned s s'.

Lemma turn_ok w made s :
  sinv w made s → tp s ≠ TDone →
  ensures (sstep s SRun) (fun s' =>
    sinv w (made ++ if state (g s) =? sSYNC then [(sfd (g s), sflags (g s))] else []) s' ∧
    asked s' = asked s ∧ turned s s').
Proof.
  intros Hi Ht.
  assert (E0 : sstep s SRun = ('(t, (g', n, e, w)) ← thread_run (g s, nsync s, terrno s, sw s);
    Ok (MkSsys g' t n e w (asked s)))) by (cbn [sstep]; by destruct (tp s)).
  rewrite E0. pose proof (sinv_turn w made s Hi Ht) as Hs.
  pose proof (thread_run_spec (g s) (nsync s) (terrno s) (sw s) (si_known _ _ _ Hi) (si_flags _ _ _ Hi)) as Hr.
  apply ensures_iff in Hr as ([t [[[g' n] e] w1]] & Er & Hc). rewrite Er in Hs |- *. rewrite bind_Ok. cbn [ensures] in *.
  split; [done|]. split; [done|].
  destruct Hc as [(Eg & -> & -> & -> & _)|[_ [(Eg & -> & -> & ->)|(_ & -> & -> & [[Eg ->]|[Eg Hn]])]]].
  - by apply Idled.
  - by apply Synced.
  - by apply Failed.
  - apply Ended; cbn; try done. by apply Hn, (si_quit _ _ _ Hi).
Qed.

Lemma turned_moving s s' : turned s s' → moving (tp s') = 0%nat.
Proof. by intros [_ -> _ _|_ -> _ _|_ -> _ _|_ -> _ _]. Qed.

(** The counts go with the requests answered. *)
Lemma turned_counted w made s s' made' :
  counted w made s → tp s ≠ TDone → turned s s' → sinv w made' s' →
  made' = made ++ (if state (g s) =? sSYNC then [(sfd (g s), sflags (g s))] else []) → counted w made' s'.
Proof.
  intros [_ H4 _] Ht Hs Hi ->. specialize (H4 Ht). split; [done|..];
    destruct Hs as [E Et _ En|E Et _ En|E Et _ En|E Et _ En]; rewrite Et; intros Hd; try done;
    rewrite En, E; cbn; rewrite ?app_nil_r, ?length_app; cbn; lia.
Qed.

(** The main thread stays where it is, and the thread ends if it is asked to. *)
Lemma turned_phase fd t s' n pending :
  phase fd t pending → tp (st t) ≠ TDone → turned (st t) s' → (closed t = [] → n = stale t) →
  phase fd (MkT s' (prog t) (closed t) n) pending.
Proof.
  intros Hp Ht Hs Hc. destruct Hp as [pending Ep Hr Hz Hcl|Ep|Ep Hj|Ep Hd]; [| | |done].
  - apply Asking; cbn; try done. by rewrite Hc.
  - by apply Closed.
  - destruct Hj as [|[Hq _]]; [done|]. apply Joining; cbn; [done|]. left.
    by destruct Hs as [E|E|E|E]; rewrite Hq in E.
Qed.

Lemma thread_moves w fd reqs t :
  tinv w fd reqs t → tp (st t) ≠ TDone →
  ensures (thread_turn t) (fun o => ∃ t', o = Some t' ∧ tinv w fd reqs t' ∧
    room t = (room t' + moving (tp (st t)))%nat).
Proof.
  intros [(made & HC) (pending & Hp & Ha) [H6 H7]] Ht. unfold thread_turn. apply ensures_bind.
  eapply ensures_mono; [by apply turn_ok; [apply HC|]|]. intros s' (Hi & Has & Hs). cbn [ensures].
  eexists. split; [done|].
  set (n := if (state (g (st t)) =? sSYNC) && bool_decide (sfd (g (st t)) ∈ closed t) then S (stale t) else stale t).
  assert (Hn : (closed t = [] → n = stale t) ∧ (n ≤ 1)%nat).
  { subst n. split.
    - intros ->. by rewrite andb_false_r.
    - destruct (Z.eqb_spec (state (g (st t))) sSYNC) as [E|]; [|done].
      rewrite (H7 Ht E). cbn. by destruct (bool_decide _); lia. }
  destruct Hn as (Hn1 & Hn3). split.
  - split; cbn [st stale].
    + eexists. by eapply turned_counted.
    + exists pending. rewrite Has. split; [by apply turned_phase|done].
    + split; [done|]. destruct Hs as [E Et Eg|E Et Eg|E Et Eg|E Et Eg]; rewrite ?Et, ?Eg; try done; by rewrite E.
  - unfold room. cbn [prog st]. rewrite (turned_moving _ _ Hs). lia.
Qed.

(** ** Schedules *)

Lemma step_moves w fd reqs t a :
  tinv w fd reqs t → ensures (step t a) (moved w fd reqs t (if is_step a then 1 else 0)).
Proof.
  intros T. assert (Hturn : tp (st t) ≠ TDone → (moving (tp (st t)) = if is_step a then 1 else 0)%nat →
    ensures (thread_turn t) (moved w fd reqs t (if is_step a then 1 else 0))).
  { intros Ht Hm. eapply ensures_mono; [by eapply thread_moves|]. intros o (t' & -> & T' & Hr).
    split; [done|]. lia. }
  destruct a; cbn [step is_step]; [by apply main_moves|..];
    destruct (tp (st t)) as [|[]|] eqn:E; try done; by apply Hturn.
Qed.

Lemma run_moves w fd reqs t sched :
  tinv w fd reqs t → ensures (run t sched) (moved w fd reqs t (steps sched)).
Proof.
  revert t. induction sched as [|a sched IH]; intros t T; cbn [run]; [by split|].
  apply ensures_bind. eapply ensures_mono; [by apply (step_moves w fd reqs)|].
  intros [t1|] H1; [|done]. destruct H1 as [T1 R1].
  eapply ensures_mono; [by apply IH|]. intros [t2|] H2; [|done]. destruct H2 as [T2 R2]. split; [done|].
  unfold steps in *. destruct a; cbn [is_step length List.filter] in *; lia.
Qed.

(** Where nobody can move, the main thread has joined the sync thread. *)
Lemma stuck_joined w fd reqs t :
  tinv w fd reqs t → stuck t → prog t = [] ∧ tp (st t) = TDone ∧ asked (st t) = map fst reqs.
Proof.
  intros T [Hm Ht]. destruct (ti_phase _ _ _ _ T) as (pending & Hp & Ha).
  unfold step, main_step in Hm. destruct Hp as [pending Ep Hr Hs Hc|Ep|Ep Hj|Ep Hd]; rewrite Ep in Hm.
  - destruct pending as [|[[fd' flags] v] pending]; cbn in Hm; [done|]. by destruct (v =? sSYNC).
  - done.
  - exfalso. assert (Hn : tp (st t) ≠ TDone) by (intros E; by rewrite E in Hm).
    pose proof (thread_moves _ _ _ _ T Hn) as Hk.
    destruct (proj1 (ensures_iff _ _) Hk) as (o & Eo & t' & -> & _).
    destruct Hj as [|[_ Hw]]; [done|]. unfold step in Ht. by destruct (tp (st t)) as [|[]|]; rewrite ?Eo in Ht.
  - cbn in Ha. by rewrite app_nil_r in Ha.
Qed.

Lemma weight_toggles reqs : sum_list_with weight (map toggle_act reqs) = (2 * length reqs)%nat.
Proof. induction reqs as [|[[fd flags] v] reqs IH]; cbn in *; lia. Qed.

Lemma room_tstart w fd reqs : room (tstart w fd reqs) = (2 * length reqs + 5)%nat.
Proof.
  unfold room, tstart, main_prog. cbn [prog st]. rewrite sum_list_with_app, weight_toggles. cbn. lia.
Qed.

(** What holds when both threads are through. *)
Definition wound_up (w : W) (reqs : list (Z * Z * Z)) (t : tsys) : Prop :=
  prog t = [] ∧ tp (st t) = TDone ∧ asked (st t) = map fst reqs ∧ (stale t ≤ 1)%nat ∧
  ∃ made, made `sublist_of` asked (st t) ∧ syncs (sw (st t)) = syncs w ++ concat (map calls_of made) ∧
    (nsync (st t) = zlen made + 1 ∨ nsync (st t) + 1 = zlen made).

Lemma threads_settle w fd reqs :
  Forall req_ok reqs → settles (2 * length reqs + 5) (wound_up w reqs) (tstart w fd reqs).
Proof.
  intros Hr sched. eapply ensures_mono; [by apply run_moves, tstart_inv|].
  intros o Ho t' ->. destruct Ho as [T Hn]. rewrite room_tstart in Hn. split; [lia|].
  intros Hs. destruct (stuck_joined _ _ _ _ T Hs) as (H1 & H2 & H3).
  split_and!; [done|done|done|apply T|]. destruct (ti_made _ _ _ _ T) as (made & [Hi _ Hd]).
  exists made. split_and!; [apply Hi|apply Hi|by apply Hd].
Qed.

(** C8: the main thread asks for any syncs, closes the file, tells the sync thread to
    quit and joins it.  Whatever the system makes of the syncs and however the
    two are scheduled, spurious wake-ups included: after at most two steps per
    request and five more both have ended.  By then the calls of [fsync] and
    [fdatasync] made are those for a subsequence of the requests, in order; the
    thread has counted one more (the quit) or, if its last sync failed, one less;
    and at most one was made on the closed descriptor. *)
Theorem sync_threads_end (w : W) fd reqs sched :
  Forall (fun q => q.2 = sSYNC ∧ Z.land q.1.2 SYNC_TYPE ≠ 3) reqs →
  ensures (run (tstart w fd reqs) sched) (fun o => ∀ t', o = Some t' →
    (length (List.filter is_step sched) ≤ 2 * length reqs + 5)%nat ∧
    (step t' Main = Ok None ∧ step t' Thread = Ok None →
      prog t' = [] ∧ tp (st t') = TDone ∧ asked (st t') = map fst reqs ∧ (stale t' ≤ 1)%nat ∧
      ∃ made, made `sublist_of` asked (st t') ∧ syncs (sw (st t')) = syncs w ++ concat (map calls_of made) ∧
        (nsync (st t') = zlen made + 1 ∨ nsync (st t') + 1 = zlen made))).
Proof. intros Hr. by apply threads_settle. Qed.
End threads.

(** ** The whole program *)

(** [pthread_create] returns an error number, or a thread's id; neither is 0. *)
Class ThreadLaws (W : Type) `{Sys W} := {
  create_err w rc : os_create w = inl rc → rc ≠ 0;
  create_tid w tid : os_create w = inr tid → tid ≠ 0
}.

Section whole.
Context {W : Type} `{SysLaws W, !SyncLog W, !ThreadLaws W}.

(** What a run leaves behind for the sync thread. *)
Definition thread_asked (reqs : list (Z * Z * Z)) (fd : Z) (s s' : wb (W := W)) : Prop :=
  Forall (fun q => q.1.1 = fd ∧ data_req q) reqs ∧
  (toggles s' = toggles s ∨
   (toggles s' = toggles s ++ reqs ++ [quit_req] ∧
    ∀ w, settles (2 * length reqs + 5) (wound_up w reqs) (tstart w fd reqs))).

Lemma run_asks_threads mode s s' :
  mode_ok mode → run_asks mode s s' → ∃ fd reqs, thread_asked reqs fd s s'.
Proof.
  intros Hm (fd & reqs & Hr & Ht). exists fd. pose proof (only_told_data _ _ _ Hm Hr) as Hd.
  destruct Ht as [E|[E [->|[w [Ew|Ew]]]]].
  - exists reqs. split.
    + apply Forall_and. split; [|done]. eapply Forall_impl; [exact Hr|]. intros q.
      unfold only_told, told. destruct (_ && _); [by intros ->%list_elem_of_singleton|by intros ?%not_elem_of_nil].
    + right. split; [done|]. intros w. apply threads_settle. eapply Forall_impl; [exact Hd|].
      intros q [Hv Hf]. split; [done|]. unfold sync_ok. by rewrite Hf.
  - exists []. split; [constructor|]. left. by rewrite app_nil_r in E.
  - by apply create_err in Ew.
  - by apply create_tid in Ew.
Qed.

(** C31: the program as a whole, given all three operands and numbers that can be
    represented, the count at most 2^34: the main thread comes to its end, having asked nothing of a sync thread, or data syncs of the one file
    and then to quit.  Those calls, against the sync thread in any schedule, come
    to an end within two steps per request and five, with the thread joined. *)
Theorem wbuft_threads_end args (s : wb) opts fname size count rest bufsz n :
  getopt optstring args = (opts, fname :: size :: count :: rest) →
  Forall (fun o => atol o.2 ≠ Ub) opts → atol size = Ok bufsz → atol count = Ok n → n ≤ 2 ^ 34 →
  ensures (main args s) (fun '(_, s') =>
    ∃ fd reqs, Forall (fun q => q.1.1 = fd ∧ q.2 = sSYNC ∧ Z.land q.1.2 SYNC_TYPE = SYNC_DATA) reqs ∧
      (toggles s' = toggles s ∨
       (toggles s' = toggles s ++ reqs ++ [(-1, 0, sQUIT)] ∧
        ∀ w sched, ensures (run (tstart w fd reqs) sched) (fun o => ∀ t', o = Some t' →
          (steps sched ≤ 2 * length reqs + 5)%nat ∧ (stuck t' → wound_up w reqs t'))))).
Proof.
  intros Hg Ho Hsz Hcnt Hn.
  eapply (main_runs (fun s' => ∃ fd reqs, thread_asked reqs fd s s')); try done.
  - exists 0, []. split; [constructor|by left].
  - intros mode s' Hm Hr. by eapply run_asks_threads.
Qed.
End whole.

(** ** Runs *)

#[export] Instance syncable_thread_laws : ThreadLaws syncable.
Proof. split; [done|]. intros w tid [= <-]. done. Defined.

Definition one_sync : list (Z * Z * Z) := [(5, SYNC_DATA, sSYNC)].

(** The request is taken before the quit comes, but after the file is closed. *)
Definition late_turn : list who := [Thread; Main; Main; Thread; Main; Thread; Main].

(** A sync on the closed descriptor; the thread counts two syncs. *)
Lemma late_sync_on_closed_file :
  ∃ t, run (tstart quiet_system 5 one_sync) late_turn = Ok (Some t) ∧
    stuck t ∧ stale t = 1%nat ∧ wsyncs (sw (st t)) = [Fdatasync 5] ∧ nsync (st t) = 2.
Proof. eexists. split; [by vm_compute|]. by vm_compute. Qed.

Lemma sync_threads_end_witness :
  ensures (run (tstart quiet_system 5 one_sync) late_turn) (fun o => ∀ t', o = Some t' →
    (length (List.filter is_step late_turn) ≤ 2 * length one_sync + 5)%nat ∧
    (step t' Main = Ok None ∧ step t' Thread = Ok None →
      prog t' = [] ∧ tp (st t') = TDone ∧ asked (st t') = map fst one_sync ∧ (stale t' ≤ 1)%nat ∧
      ∃ made, made `sublist_of` asked (st t') ∧ syncs (sw (st t')) = syncs quiet_system ++ concat (map calls_of made) ∧
        (nsync (st t') = zlen made + 1 ∨ nsync (st t') + 1 = zlen made))).
Proof.
  refine (sync_threads_end quiet_system 5 one_sync late_turn _).
  constructor; [by split|constructor].
Defined.

Lemma wbuft_threads_end_witness :
  ensures (main wbuft_args wb_short) (fun '(_, s') =>
    ∃ fd reqs, Forall (fun q => q.1.1 = fd ∧ q.2 = sSYNC ∧ Z.land q.1.2 SYNC_TYPE = SYNC_DATA) reqs ∧
      (toggles s' = toggles wb_short ∨
       (toggles s' = toggles wb_short ++ reqs ++ [(-1, 0, sQUIT)] ∧
        ∀ w sched, ensures (run (tstart w fd reqs) sched) (fun o => ∀ t', o = Some t' →
          (steps sched ≤ 2 * length reqs + 5)%nat ∧ (stuck t' → wound_up w reqs t'))))).
Proof.
  refine (wbuft_threads_end wbuft_args wb_short
           [(ch "S"%char, []); (ch "T"%char, []); (ch "U"%char, zs "4"%string)]
           (zs "file"%string) (zs "1024"%string) (zs "2"%string) [] 1024 2 _ _ _ _ _).
  - by vm_compute.
  - repeat constructor; by vm_compute.
  - by vm_compute.
  - by vm_compute.
  - lia.
Defined.
