(* ===== verification/Prof.v ===== *)
(** * prof and tmtest: time arithmetic and the performance probe

    nbsd_time.h, rusage_ops.h, prfm.c, prfm.h, the difference routines of
    tmcmp.c and of tmtest/clkgtm.c.  What the clock and [getrusage] answer is an
    argument of the operations; [long] and [time_t] have 64 bits and must not
    overflow.  The operations' operands may alias: each member of the result is
    stored after the last use of that member of the operands. *)

From S2P Require Import Prelude.

(** ** nbsd_time.h *)

(** [struct timeval] and [struct timespec]: seconds, and micro- or nanoseconds. *)
Record tm := MkTm { tv_sec : Z; tv_sub : Z }.

(** The macros for both structures, with [R] units to the second. *)
Definition tm_clear : tm := MkTm 0 0.
Definition tm_isset (t : tm) : bool := negb (tv_sec t =? 0) || negb (tv_sub t =? 0).
Definition tm_cmp (cmp : Z → Z → bool) (t u : tm) : bool :=
  if tv_sec t =? tv_sec u then cmp (tv_sub t) (tv_sub u) else cmp (tv_sec t) (tv_sec u).
Definition tm_add (R : Z) (t u : tm) : res tm :=
  s ← ck (tv_sec t + tv_sec u);
  x ← ck (tv_sub t + tv_sub u);
  if R <=? x then s ← ck (s + 1); x ← ck (x - R); Ok (MkTm s x) else Ok (MkTm s x).
Definition tm_sub (R : Z) (t u : tm) : res tm :=
  s ← ck (tv_sec t - tv_sec u);
  x ← ck (tv_sub t - tv_sub u);
  if x <? 0 then s ← ck (s - 1); x ← ck (x + R); Ok (MkTm s x) else Ok (MkTm s x).

Definition timerclear : tm := tm_clear.
Definition timerisset : tm → bool := tm_isset.
Definition timercmp : (Z → Z → bool) → tm → tm → bool := tm_cmp.
Definition timeradd : tm → tm → res tm := tm_add 1000000.
Definition timersub : tm → tm → res tm := tm_sub 1000000.
Definition timespecclear : tm := tm_clear.
Definition timespecisset : tm → bool := tm_isset.
Definition timespeccmp : (Z → Z → bool) → tm → tm → bool := tm_cmp.
Definition timespecadd : tm → tm → res tm := tm_add 1000000000.
Definition timespecsub : tm → tm → res tm := tm_sub 1000000000.

Definition TIMEVAL_TO_TIMESPEC (tv : tm) : res tm := x ← ck (tv_sub tv * 1000); Ok (MkTm (tv_sec tv) x).
Definition TIMESPEC_TO_TIMEVAL (ts : tm) : tm := MkTm (tv_sec ts) (Z.quot (tv_sub ts) 1000).

(** ** The difference routines of the test programs *)

(** [timespec_sub] of clkgtm.c. *)
Definition timespec_sub (a b : tm) : res tm :=
  s ← ck (tv_sec a - tv_sec b);
  x ← ck (tv_sub a - tv_sub b);
  if x <? 0 then x ← ck (x + 1000000000); s ← ck (s - 1); Ok (MkTm s x) else Ok (MkTm s x).

(** An integer as a [double]: 53 significant bits, rounding to nearest, ties to
    even.  No integer here is large enough to overflow. *)
Definition dbl (x : Z) : Z :=
  let k := Z.max 0 (Z.log2 (Z.abs x) - 52) in
  let q := Z.abs x / 2 ^ k in
  let rest := 2 * (Z.abs x mod 2 ^ k) in
  let up := (2 ^ k <? rest) || ((rest =? 2 ^ k) && Z.odd q) in
  Z.sgn x * ((if up then q + 1 else q) * 2 ^ k).

(** [gtm_diff] and [ctm_diff] of tmcmp.c: what they print and the [double] they
    return. *)
Definition gtm_diff (tp etp : tm) : res (tm * Z) :=
  s ← ck (tv_sec etp - tv_sec tp);
  x ← ck (tv_sub etp - tv_sub tp);
  '(s, x) ← (if x <? 0 then s ← ck (s - 1); x ← ck (x + 1000000); Ok (s, x) else Ok (s, x));
  Ok (MkTm s x, dbl (dbl (dbl s * 1000000) + dbl x)).
Definition ctm_diff (tp etp : tm) : res (tm * Z) :=
  let BLN := 1000000000 in
  s ← ck (tv_sec etp - tv_sec tp);
  x ← ck (tv_sub etp - tv_sub tp);
  '(s, x) ← (if x <? 0 then s ← ck (s - 1); x ← ck (x + BLN); Ok (s, x) else Ok (s, x));
  Ok (MkTm s x, dbl (dbl (dbl s * dbl BLN) + dbl x)).

(** ** rusage_ops.h *)

Record rusage := MkRu {
  ru_utime : tm; ru_stime : tm;
  ru_maxrss : Z; ru_ixrss : Z; ru_idrss : Z; ru_isrss : Z; ru_minflt : Z; ru_majflt : Z;
  ru_nswap : Z; ru_inblock : Z; ru_oublock : Z; ru_msgsnd : Z; ru_msgrcv : Z; ru_nsignals : Z;
  ru_nvcsw : Z; ru_nivcsw : Z
}.

Definition rusage_clear : rusage := MkRu timerclear timerclear 0 0 0 0 0 0 0 0 0 0 0 0 0 0.

(** Member by member: [t] on the times, [f] on the counters. *)
Definition rusage_op (t : tm → tm → res tm) (f : Z → Z → Z) (a b : rusage) : res rusage :=
  utime ← t (ru_utime a) (ru_utime b);
  stime ← t (ru_stime a) (ru_stime b);
  maxrss ← ck (f (ru_maxrss a) (ru_maxrss b));
  ixrss ← ck (f (ru_ixrss a) (ru_ixrss b));
  idrss ← ck (f (ru_idrss a) (ru_idrss b));
  isrss ← ck (f (ru_isrss a) (ru_isrss b));
  minflt ← ck (f (ru_minflt a) (ru_minflt b));
  majflt ← ck (f (ru_majflt a) (ru_majflt b));
  nswap ← ck (f (ru_nswap a) (ru_nswap b));
  inblock ← ck (f (ru_inblock a) (ru_inblock b));
  oublock ← ck (f (ru_oublock a) (ru_oublock b));
  msgsnd ← ck (f (ru_msgsnd a) (ru_msgsnd b));
  msgrcv ← ck (f (ru_msgrcv a) (ru_msgrcv b));
  nsignals ← ck (f (ru_nsignals a) (ru_nsignals b));
  nvcsw ← ck (f (ru_nvcsw a) (ru_nvcsw b));
  nivcsw ← ck (f (ru_nivcsw a) (ru_nivcsw b));
  Ok (MkRu utime stime maxrss ixrss idrss isrss minflt majflt nswap inblock oublock msgsnd msgrcv
        nsignals nvcsw nivcsw).

Definition rusage_sub : rusage → rusage → res rusage := rusage_op timersub Z.sub.
Definition rusage_add : rusage → rusage → res rusage := rusage_op timeradd Z.add.

(** ** prfm.c *)

Definition prfm_TIME : Z := 1.
Definition prfm_RUSAGE : Z := Z.shiftl 1 1.

Record prfm_metrics := MkMetrics { mtm : tm; mru : rusage }.
Record prfm := MkPrfm { who : Z; flags : Z; start : prfm_metrics; accum : prfm_metrics }.

Definition flag (fl f : Z) : bool := negb (Z.land fl f =? 0).

(** What [clock_gettime] and [getrusage] of the probe's target answer when they
    are called; nothing when they fail. *)
Record reading := MkReading { rd_tm : option tm; rd_ru : option rusage }.

(** Members not asked for keep what the destination holds. *)
Definition capture (t : prfm_metrics) (fl : Z) (rd : reading) : res prfm_metrics :=
  x ← (if flag fl prfm_TIME then match rd_tm rd with Some x => Ok x | None => Abort end else Ok (mtm t));
  u ← (if flag fl prfm_RUSAGE then match rd_ru rd with Some u => Ok u | None => Abort end else Ok (mru t));
  Ok (MkMetrics x u).

Definition reset (r : prfm) : prfm :=
  let clear m :=
    MkMetrics (if flag (flags r) prfm_TIME then timespecclear else mtm m)
              (if flag (flags r) prfm_RUSAGE then rusage_clear else mru m) in
  MkPrfm (who r) (flags r) (clear (start r)) (clear (accum r)).

Definition prfm_xinit (r : prfm) (fl rusage_who : Z) : prfm :=
  let r := reset (MkPrfm (who r) fl (start r) (accum r)) in
  MkPrfm rusage_who (flags r) (start r) (accum r).

Definition prfm_destroy (r : prfm) : prfm :=
  let r := reset r in MkPrfm (who r) 0 (start r) (accum r).

Definition prfm_start (r : prfm) (rd : reading) : res prfm :=
  m ← capture (start r) (flags r) rd; Ok (MkPrfm (who r) (flags r) m (accum r)).

(** [junk] is what the uninitialised [curr] holds. *)
Definition prfm_stop (junk : prfm_metrics) (r : prfm) (rd : reading) : res prfm :=
  curr ← capture junk (flags r) rd;
  x ← (if flag (flags r) prfm_TIME then
         c ← timespecsub (mtm curr) (mtm (start r)); timespecadd c (mtm (accum r))
       else Ok (mtm (accum r)));
  u ← (if flag (flags r) prfm_RUSAGE then
         c ← rusage_sub (mru curr) (mru (start r)); rusage_add c (mru (accum r))
       else Ok (mru (accum r)));
  Ok (MkPrfm (who r) (flags r) (start r) (MkMetrics x u)).

Definition prfm_probe (r : prfm) (rd : reading) : res prfm :=
  m ← capture (accum r) (flags r) rd;
  Ok (MkPrfm (who r) (flags r) (start r) (MkMetrics timespecclear (mru m))).

(** A client that starts and stops the probe around each piece of work. *)
Fixpoint measure (junk : prfm_metrics) (r : prfm) (l : list (reading * reading)) : res prfm :=
  match l with
  | [] => Ok r
  | (s, e) :: l' => r ← prfm_start r s; r ← prfm_stop junk r e; measure junk r l'
  end.

(** ** Times as numbers *)

(** [R] units to the second; [norm] is the usual form. *)
Definition value (R : Z) (t : tm) : Z := tv_sec t * R + tv_sub t.
Definition norm (R : Z) (t : tm) : Prop := 0 ≤ tv_sub t < R.
Definition within (B : Z) (t : tm) : Prop := - B ≤ tv_sec t ≤ B.

Lemma norm_eq R t u : norm R t → norm R u → value R t = value R u → t = u.
Proof.
  destruct t as [s x], u as [s' x']. unfold norm, value. cbn. intros Hx Hx' E.
  assert (s = s') as -> by nia. f_equal. lia.
Qed.

Lemma tm_add_ok R B C t u :
  1 ≤ R ≤ 2 ^ 30 → norm R t → norm R u → within B t → within C u → B + C + 1 < 2 ^ 62 →
  ∃ c, tm_add R t u = Ok c ∧ norm R c ∧ value R c = value R t + value R u ∧ within (B + C + 1) c.
Proof.
  unfold norm, within, value, tm_add. intros HR Ht Hu HB HC Hb.
  rewrite (ck_ok (tv_sec t + _)), bind_Ok, (ck_ok (tv_sub t + _)), bind_Ok by lia.
  destruct (Z.leb_spec R (tv_sub t + tv_sub u)).
  - rewrite !ck_ok, !bind_Ok by lia. eexists. split; [done|]. cbn [tv_sec tv_sub].
    split_and!; nia.
  - eexists. split; [done|]. cbn [tv_sec tv_sub]. split_and!; nia.
Qed.

Lemma tm_sub_ok R B C t u :
  1 ≤ R ≤ 2 ^ 30 → norm R t → norm R u → within B t → within C u → B + C + 1 < 2 ^ 62 →
  ∃ c, tm_sub R t u = Ok c ∧ norm R c ∧ value R c = value R t - value R u ∧ within (B + C + 1) c.
Proof.
  unfold norm, within, value, tm_sub. intros HR Ht Hu HB HC Hb.
  rewrite (ck_ok (tv_sec t - _)), bind_Ok, (ck_ok (tv_sub t - _)), bind_Ok by lia.
  destruct (Z.ltb_spec (tv_sub t - tv_sub u) 0).
  - rewrite !ck_ok, !bind_Ok by lia. eexists. split; [done|]. cbn [tv_sec tv_sub].
    split_and!; nia.
  - eexists. split; [done|]. cbn [tv_sec tv_sub]. split_and!; nia.
Qed.

Lemma tm_cmp_lt R t u : norm R t → norm R u → tm_cmp Z.ltb t u = (value R t <? value R u).
Proof.
  unfold norm, value, tm_cmp. intros Ht Hu. destruct (Z.eqb_spec (tv_sec t) (tv_sec u)) as [->|Hne].
  - destruct (Z.ltb_spec (tv_sub t) (tv_sub u)), (Z.ltb_spec (tv_sec u * R + tv_sub t) (tv_sec u * R + tv_sub u));
      (done || lia).
  - destruct (Z.ltb_spec (tv_sec t) (tv_sec u)),
      (Z.ltb_spec (tv_sec t * R + tv_sub t) (tv_sec u * R + tv_sub u)); (done || nia).
Qed.

(** The other routines are the same computation. *)
Lemma timespec_sub_same a b c : timespecsub a b = Ok c → timespec_sub a b = Ok c.
Proof.
  unfold timespecsub, tm_sub, timespec_sub.
  destruct (ck (tv_sec a - tv_sec b)) as [s| | |]; try done. rewrite !bind_Ok.
  destruct (ck (tv_sub a - tv_sub b)) as [x| | |]; try done. rewrite !bind_Ok.
  destruct (x <? 0); [|done]. destruct (ck (s - 1)) as [s'| | |]; try done.
Qed.

Lemma diff_same (R : Z) (f : Z → Z → Z) (a b c : tm) :
  tm_sub R a b = Ok c →
  (s ← ck (tv_sec a - tv_sec b);
   x ← ck (tv_sub a - tv_sub b);
   '(s, x) ← (if x <? 0 then s ← ck (s - 1); x ← ck (x + R); Ok (s, x) else Ok (s, x));
   Ok (MkTm s x, f s x)) = Ok (c, f (tv_sec c) (tv_sub c)).
Proof.
  unfold tm_sub. destruct (ck (tv_sec a - tv_sec b)) as [s| | |]; try done. rewrite !bind_Ok.
  destruct (ck (tv_sub a - tv_sub b)) as [x| | |]; try done. rewrite !bind_Ok.
  destruct (x <? 0); [|by intros [= <-]]. destruct (ck (s - 1)) as [s'| | |]; try done. rewrite !bind_Ok.
  destruct (ck (x + R)) as [x'| | |]; try done. by intros [= <-].
Qed.

(** Rounding changes nothing up to 2^53, and beyond by a factor of at most 2^-53. *)
Lemma dbl_exact x : Z.abs x ≤ 2 ^ 53 → dbl x = x.
Proof.
  intros Hx. destruct (Z.eq_dec (Z.abs x) (2 ^ 53)) as [E|Hne].
  - by assert (x = 2 ^ 53 ∨ x = - 2 ^ 53) as [->| ->] by lia.
  - unfold dbl. assert (Hk : Z.log2 (Z.abs x) < 53).
    { destruct (Z.eq_dec (Z.abs x) 0) as [->|]; [done|]. apply Z.log2_lt_pow2; lia. }
    rewrite Z.max_l by lia. change (2 ^ 0) with 1. rewrite Z.div_1_r, Z.mod_1_r. change (Z.sgn x * (Z.abs x * 1) = x). lia.
Qed.

Lemma dbl_error x : 2 ^ 53 * Z.abs (dbl x - x) ≤ Z.abs x.
Proof.
  destruct (Z.le_gt_cases (Z.abs x) (2 ^ 53)) as [Hx|Hx]; [rewrite dbl_exact by done; lia|]. unfold dbl.
  assert (Hlog : 53 ≤ Z.log2 (Z.abs x)) by (apply Z.log2_le_pow2; lia).
  rewrite Z.max_r by lia. set (k := Z.log2 (Z.abs x) - 52).
  assert (HA : 2 ^ 52 * 2 ^ k ≤ Z.abs x).
  { rewrite <- Z.pow_add_r by lia. replace (52 + k) with (Z.log2 (Z.abs x)) by lia. apply Z.log2_spec. lia. }
  assert (HP : 2 ^ k = 2 * 2 ^ (k - 1)) by (rewrite <- Z.pow_succ_r by lia; f_equal; lia).
  pose proof (Z.div_mod (Z.abs x) (2 ^ k) ltac:(lia)) as Hdm. pose proof (Z.mod_pos_bound (Z.abs x) (2 ^ k) ltac:(lia)) as Hm.
  set (q := Z.abs x / 2 ^ k) in *. set (m := Z.abs x mod 2 ^ k) in *. set (P := 2 ^ k) in *. set (h := 2 ^ (k - 1)) in *.
  match goal with |- context [if ?b then q + 1 else q] => set (y := if b then q + 1 else q) end.
  assert (Hy : Z.abs (y * P - Z.abs x) ≤ h).
  { subst y. destruct (Z.ltb_spec P (2 * m)); cbn [orb]; [lia|].
    destruct (Z.eqb_spec (2 * m) P); cbn [andb]; [destruct (Z.odd q); lia|lia]. }
  assert (Hsg : Z.abs (Z.sgn x * (y * P) - x) = Z.abs (y * P - Z.abs x)) by (destruct x; cbn [Z.sgn Z.abs]; lia).
  rewrite Hsg. lia.
Qed.

(** A double keeps an even number of 54 bits. *)
Lemma dbl_even x : Z.abs x < 2 ^ 54 → (2 | x) → dbl x = x.
Proof.
  intros Hx [y ->]. destruct (Z.le_gt_cases (Z.abs (y * 2)) (2 ^ 53)) as [H|H]; [by apply dbl_exact|]. unfold dbl.
  assert (Hl : Z.log2 (Z.abs (y * 2)) = 53) by (apply Z.log2_unique; lia).
  rewrite Hl. change (Z.max 0 (53 - 52)) with 1. cbv zeta.
  rewrite Z.abs_mul. change (Z.abs 2) with (2 ^ 1). rewrite Z.mod_mul, Z.div_mul by lia. cbn [Z.ltb Z.eqb].
  change (2 ^ 1 <? 2 * 0) with false. change (2 * 0 =? 2 ^ 1) with false. cbn [orb andb].
  pose proof (Z.sgn_abs y). rewrite Z.sgn_mul. change (Z.sgn 2) with 1. change (2 ^ 1) with 2. lia.
Qed.

(** The double a difference is returned as: exact up to 2^53 units, and in error by
    a factor of at most 2^-51. *)
Definition as_double (R : Z) (c : tm) (d : Z) : Prop :=
  (Z.abs (value R c) ≤ 2 ^ 53 → d = value R c) ∧
  2 ^ 51 * Z.abs (d - value R c) ≤ Z.abs (value R c).

Lemma dbl_value R c : 0 < R ≤ 2 ^ 30 → (2 | R) → norm R c →
  as_double R c (dbl (dbl (dbl (tv_sec c) * R) + dbl (tv_sub c))).
Proof.
  unfold norm, as_double, value. intros HR H2 Hn. rewrite (dbl_exact (tv_sub c)) by lia.
  set (s := tv_sec c) in *. set (x := tv_sub c) in *.
  assert (Hex : Z.abs (s * R + x) ≤ 2 ^ 53 → dbl (dbl (dbl s * R) + x) = s * R + x).
  { intros Hs. assert (Hsr : Z.abs (s * R) < 2 ^ 54) by lia. rewrite Z.abs_mul, (Z.abs_eq R) in Hsr by lia.
    assert (2 ≤ R) by (destruct H2 as [r ->]; lia).
    rewrite (dbl_exact s) by nia. rewrite (dbl_even (s * R)), dbl_exact; [done|done| |by apply Z.divide_mul_r].
    rewrite Z.abs_mul, (Z.abs_eq R); lia. }
  split; [done|]. destruct (Z.le_gt_cases (Z.abs (s * R + x)) (2 ^ 53)) as [Hs|Hs]; [rewrite Hex by done; lia|].
  pose proof (dbl_error s) as H1. pose proof (dbl_error (dbl s * R)) as H3.
  set (p := dbl (dbl s * R)) in *. pose proof (dbl_error (p + x)) as H4.
  set (a := dbl s) in *. set (d := dbl (p + x)) in *.
  assert (H1' : 2 ^ 53 * Z.abs (a * R - s * R) ≤ Z.abs s * R).
  { replace (a * R - s * R) with ((a - s) * R) by lia. rewrite Z.abs_mul, (Z.abs_eq R) by lia. nia. }
  assert (H5 : Z.abs (s * R) = Z.abs s * R) by (rewrite Z.abs_mul, (Z.abs_eq R); lia).
  clear H1 Hex. lia.
Qed.

(** C37: time differences, exact and as doubles.  For two times in the usual form and of less
    than 2^60 seconds, the subtraction macro, the routines of clkgtm.c and
    tmcmp.c find the same normal time, whose value is the difference of the
    values; adding the subtrahend back gives the minuend; and the comparison
    macro orders times as their values.  The double returned by the routines of
    tmcmp.c is exact if the difference has at most 2^53 nanoseconds or
    microseconds; a larger one is rounded three times, with a relative error of
    at most 2^-51 in all. *)
Theorem time_differences_exact a b :
  within (2 ^ 60) a → within (2 ^ 60) b →
  (norm 1000000000 a → norm 1000000000 b →
   ∃ c, timespecsub a b = Ok c ∧ timespec_sub a b = Ok c ∧ (∃ d, ctm_diff b a = Ok (c, d) ∧ as_double 1000000000 c d) ∧
     norm 1000000000 c ∧ value 1000000000 c = value 1000000000 a - value 1000000000 b ∧
     timespecadd c b = Ok a ∧
     timespeccmp Z.ltb a b = (value 1000000000 a <? value 1000000000 b)) ∧
  (norm 1000000 a → norm 1000000 b →
   ∃ c, timersub a b = Ok c ∧ (∃ d, gtm_diff b a = Ok (c, d) ∧ as_double 1000000 c d) ∧
     norm 1000000 c ∧ value 1000000 c = value 1000000 a - value 1000000 b ∧
     timeradd c b = Ok a ∧
     timercmp Z.ltb a b = (value 1000000 a <? value 1000000 b)).
Proof.
  intros Ha Hb.
  assert (Hback : ∀ R c, 1 ≤ R ≤ 2 ^ 30 → norm R a → norm R b → norm R c → within (2 ^ 60 + 2 ^ 60 + 1) c →
    value R c = value R a - value R b → tm_add R c b = Ok a).
  { intros R c HR Na Nb Nc Wc Vc. destruct (tm_add_ok R _ _ c b HR Nc Nb Wc Hb) as (d & -> & Nd & Vd & _); [done|].
    f_equal. apply (norm_eq R); [done|done|lia]. }
  split; intros Na Nb.
  - destruct (tm_sub_ok 1000000000 _ _ a b ltac:(lia) Na Nb Ha Hb) as (c & E & Nc & Vc & Wc); [done|].
    exists c. split_and!; [done|by apply timespec_sub_same|eexists; split; [by apply (diff_same _ (fun s x => dbl (dbl (dbl s * dbl 1000000000) + dbl x)))|apply (dbl_value 1000000000); [lia|by exists 500000000|done]]|done|done| |].
    + by apply Hback.
    + by apply tm_cmp_lt.
  - destruct (tm_sub_ok 1000000 _ _ a b ltac:(lia) Na Nb Ha Hb) as (c & E & Nc & Vc & Wc); [done|].
    exists c. split_and!; [done|eexists; split; [by apply (diff_same _ (fun s x => dbl (dbl (dbl s * 1000000) + dbl x)))|apply (dbl_value 1000000); [lia|by exists 500000|done]]|done|done| |].
    + by apply Hback.
    + by apply tm_cmp_lt.
Qed.

Lemma time_differences_exact_witness :
  ∃ c, timespecsub (MkTm 7 5) (MkTm 3 999999999) = Ok c ∧ timespec_sub (MkTm 7 5) (MkTm 3 999999999) = Ok c ∧
     (∃ d, ctm_diff (MkTm 3 999999999) (MkTm 7 5) = Ok (c, d) ∧ as_double 1000000000 c d) ∧
     norm 1000000000 c ∧ value 1000000000 c = value 1000000000 (MkTm 7 5) - value 1000000000 (MkTm 3 999999999) ∧
     timespecadd c (MkTm 3 999999999) = Ok (MkTm 7 5) ∧
     timespeccmp Z.ltb (MkTm 7 5) (MkTm 3 999999999) =
       (value 1000000000 (MkTm 7 5) <? value 1000000000 (MkTm 3 999999999)).
Proof.
  apply (time_differences_exact (MkTm 7 5) (MkTm 3 999999999)); unfold within, norm; cbn; lia.
Defined.

(** 104 days and a quarter: the returned nanoseconds are one too few. *)
Example ctm_diff_rounds :
  ctm_diff tm_clear (MkTm 9007199 254740993) = Ok (MkTm 9007199 254740993, 2 ^ 53) ∧
  value 1000000000 (MkTm 9007199 254740993) = 2 ^ 53 + 1.
Proof. split; reflexivity. Qed.

(** ** Resource usage *)

Definition ru_fields : list (rusage → Z) :=
  [ru_maxrss; ru_ixrss; ru_idrss; ru_isrss; ru_minflt; ru_majflt; ru_nswap; ru_inblock; ru_oublock;
   ru_msgsnd; ru_msgrcv; ru_nsignals; ru_nvcsw; ru_nivcsw].

Definition tm_ok (R B : Z) (t : tm) : Prop := norm R t ∧ within B t.
Definition ru_ok (B : Z) (u : rusage) : Prop :=
  tm_ok 1000000 B (ru_utime u) ∧ tm_ok 1000000 B (ru_stime u) ∧
  Forall (fun g => - B ≤ g u ≤ B) ru_fields.

(** [c] is [a] and [b] combined by [f], member by member. *)
Definition ru_rel (f : Z → Z → Z) (a b c : rusage) : Prop :=
  value 1000000 (ru_utime c) = f (value 1000000 (ru_utime a)) (value 1000000 (ru_utime b)) ∧
  value 1000000 (ru_stime c) = f (value 1000000 (ru_stime a)) (value 1000000 (ru_stime b)) ∧
  Forall (fun g => g c = f (g a) (g b)) ru_fields.

Lemma rusage_op_ok t f B C a b :
  (∀ x y, tm_ok 1000000 B x → tm_ok 1000000 C y →
     ∃ c, t x y = Ok c ∧ tm_ok 1000000 (B + C + 1) c ∧ value 1000000 c = f (value 1000000 x) (value 1000000 y)) →
  (∀ x y, - B ≤ x ≤ B → - C ≤ y ≤ C → - (B + C) ≤ f x y ≤ B + C) →
  B + C + 1 < 2 ^ 62 → ru_ok B a → ru_ok C b →
  ∃ c, rusage_op t f a b = Ok c ∧ ru_ok (B + C + 1) c ∧ ru_rel f a b c.
Proof.
  intros Ht Hf HB (Ua & Sa & Fa) (Ub' & Sb & Fb).
  destruct (Ht _ _ Ua Ub') as (ut & Eu & Ou & Vu). destruct (Ht _ _ Sa Sb) as (st & Es & Os & Vs).
  assert (Hall : Forall (fun g => - (B + C) ≤ f (g a) (g b) ≤ B + C) ru_fields).
  { rewrite Forall_forall in *. intros g Hg. apply Hf; auto. }
  assert (Hck : Forall (fun g => ck (f (g a) (g b)) = Ok (f (g a) (g b))) ru_fields).
  { eapply Forall_impl; [exact Hall|]. cbn. intros g Hg. apply ck_ok. lia. }
  assert (E : ∃ c, rusage_op t f a b = Ok c ∧ ru_utime c = ut ∧ ru_stime c = st ∧
    Forall (fun g => g c = f (g a) (g b)) ru_fields).
  { unfold ru_fields in *. rewrite !Forall_cons in Hck. destruct_and! Hck.
    unfold rusage_op. rewrite Eu, bind_Ok, Es, bind_Ok.
    repeat match goal with E : ck _ = Ok _ |- _ => rewrite E, bind_Ok; clear E end.
    eexists. split; [done|]. split; [done|]. split; [done|]. repeat constructor. }
  destruct E as (c & -> & Ec1 & Ec2 & Fc). exists c. split; [done|]. unfold ru_ok, ru_rel. rewrite Ec1, Ec2.
  split; [split; [done|split; [done|]]|by split].
  rewrite Forall_forall in *. intros g Hg. rewrite (Fc g Hg). specialize (Hall g Hg). cbn in Hall. lia.
Qed.

Lemma rusage_sub_ok B C a b :
  B + C + 1 < 2 ^ 62 → ru_ok B a → ru_ok C b →
  ∃ c, rusage_sub a b = Ok c ∧ ru_ok (B + C + 1) c ∧ ru_rel Z.sub a b c.
Proof.
  intros HB Ha Hb. apply rusage_op_ok; [|lia|done|done|done]. intros x y [Nx Wx] [Ny Wy].
  destruct (tm_sub_ok 1000000 _ _ x y ltac:(lia) Nx Ny Wx Wy HB) as (c & E & Nc & Vc & Wc). by exists c.
Qed.

Lemma rusage_add_ok B C a b :
  B + C + 1 < 2 ^ 62 → ru_ok B a → ru_ok C b →
  ∃ c, rusage_add a b = Ok c ∧ ru_ok (B + C + 1) c ∧ ru_rel Z.add a b c.
Proof.
  intros HB Ha Hb. apply rusage_op_ok; [|lia|done|done|done]. intros x y [Nx Wx] [Ny Wy].
  destruct (tm_add_ok 1000000 _ _ x y ltac:(lia) Nx Ny Wx Wy HB) as (c & E & Nc & Vc & Wc). by exists c.
Qed.

(** ** The probe *)

(** Every number the system reports is below [B], every time in the usual form. *)
Definition reading_ok (B : Z) (rd : reading) : Prop :=
  ∃ x u, rd = MkReading (Some x) (Some u) ∧ tm_ok 1000000000 B x ∧ ru_ok B u.

(** The sum over the pieces of work of what [g] went up by. *)
Definition spent (g : reading → Z) (l : list (reading * reading)) : Z :=
  foldr (fun p acc => (g p.2 - g p.1) + acc) 0 l.

Definition rd_time (rd : reading) : Z := value 1000000000 (default tm_clear (rd_tm rd)).
Definition rd_usage (g : rusage → Z) (rd : reading) : Z := g (default rusage_clear (rd_ru rd)).

(** Everything a [struct rusage] holds, as numbers. *)
Definition ru_numbers : list (rusage → Z) :=
  (fun u => value 1000000 (ru_utime u)) :: (fun u => value 1000000 (ru_stime u)) :: ru_fields.

Lemma ru_rel_numbers f a b c : ru_rel f a b c → Forall (fun g => g c = f (g a) (g b)) ru_numbers.
Proof. intros (H1 & H2 & H3). do 2 (apply Forall_cons_2; [done|]). done. Qed.

(** What an accumulating probe holds after the work [l]: [base] is what it held. *)
Definition accumulated (B : Z) (base : prfm) (l : list (reading * reading)) (r : prfm) : Prop :=
  flags r = flags base ∧
  (if flag (flags base) prfm_TIME then
     tm_ok 1000000000 B (mtm (accum r)) ∧
     value 1000000000 (mtm (accum r)) = value 1000000000 (mtm (accum base)) + spent rd_time l
   else mtm (accum r) = mtm (accum base)) ∧
  (if flag (flags base) prfm_RUSAGE then
     ru_ok B (mru (accum r)) ∧
     Forall (fun g => g (mru (accum r)) = g (mru (accum base)) + spent (rd_usage g) l) ru_numbers
   else mru (accum r) = mru (accum base)).

(** The time and the usage of one piece of work, on readings below [C]. *)
Lemma time_round B C t x y :
  tm_ok 1000000000 B t → tm_ok 1000000000 C x → tm_ok 1000000000 C y → B + 2 * C + 2 < 2 ^ 62 →
  0 ≤ B → 0 ≤ C →
  ∃ d, (c ← timespecsub y x; timespecadd c t) = Ok d ∧ tm_ok 1000000000 (B + 2 * C + 2) d ∧
    value 1000000000 d = value 1000000000 t + (value 1000000000 y - value 1000000000 x).
Proof.
  intros [Nt Wt] [Nx Wx] [Ny Wy] HB H0 HC. unfold timespecsub, timespecadd.
  destruct (tm_sub_ok 1000000000 C C y x) as (c & -> & Nc & Vc & Wc); [lia|done|done|done|done|lia|].
  rewrite bind_Ok.
  destruct (tm_add_ok 1000000000 (C + C + 1) B c t) as (d & -> & Nd & Vd & Wd); [lia|done|done|done|done|lia|].
  exists d. split; [done|]. split; [split; [done|]|lia]. unfold within in *. lia.
Qed.

Lemma usage_round B C t u v :
  ru_ok B t → ru_ok C u → ru_ok C v → B + 2 * C + 2 < 2 ^ 62 → 0 ≤ B → 0 ≤ C →
  ∃ d, (c ← rusage_sub v u; rusage_add c t) = Ok d ∧ ru_ok (B + 2 * C + 2) d ∧
    Forall (fun g => g d = g t + (g v - g u)) ru_numbers.
Proof.
  intros Ht Hu Hv HB H0 HC.
  destruct (rusage_sub_ok C C v u) as (c & -> & Oc & Rc); [lia|done|done|]. rewrite bind_Ok.
  destruct (rusage_add_ok (C + C + 1) B c t) as (d & -> & Od & Rd); [lia|done|done|].
  exists d. split; [done|]. split.
  - by replace (B + 2 * C + 2) with (C + C + 1 + B + 1) by lia.
  - apply ru_rel_numbers in Rc. apply ru_rel_numbers in Rd. rewrite Forall_forall in *.
    intros g Hg. specialize (Rc g Hg). specialize (Rd g Hg). cbn in Rc, Rd. lia.
Qed.

Lemma round_ok B C base l r junk s e :
  accumulated B base l r → reading_ok C s → reading_ok C e → B + 2 * C + 2 < 2 ^ 62 → 0 ≤ B → 0 ≤ C →
  ensures (r ← prfm_start r s; prfm_stop junk r e) (accumulated (B + 2 * C + 2) base (l ++ [(s, e)])).
Proof.
  intros (Hfl & Ht & Hu) (x & u & -> & Hx & Hxu) (y & v & -> & Hy & Hyv) HB H0 HC.
  assert (Hspent : ∀ g, spent g (l ++ [(MkReading (Some x) (Some u), MkReading (Some y) (Some v))]) =
    spent g l + (g (MkReading (Some y) (Some v)) - g (MkReading (Some x) (Some u)))).
  { intros g. unfold spent. clear. induction l as [|p l IH]; cbn [app foldr fst snd] in *; lia. }
  unfold prfm_start, prfm_stop, capture, accumulated. rewrite Hfl. cbn [rd_tm rd_ru].
  assert (Hnum : ∀ d, ru_ok B (mru (accum r)) →
    Forall (fun g => g (mru (accum r)) = g (mru (accum base)) + spent (rd_usage g) l) ru_numbers →
    Forall (fun g => g d = g (mru (accum r)) + (g v - g u)) ru_numbers →
    Forall (fun g => g d = g (mru (accum base)) + spent (rd_usage g)
      (l ++ [(MkReading (Some x) (Some u), MkReading (Some y) (Some v))])) ru_numbers).
  { intros d _ H1 H2. rewrite Forall_forall in *. intros g Hg. rewrite Hspent.
    specialize (H1 g Hg). specialize (H2 g Hg). cbn in H1, H2. unfold rd_usage at 2 3. cbn. lia. }
  assert (Htime : ∀ d, value 1000000000 (mtm (accum r)) = value 1000000000 (mtm (accum base)) + spent rd_time l →
    value 1000000000 d = value 1000000000 (mtm (accum r)) + (value 1000000000 y - value 1000000000 x) →
    value 1000000000 d = value 1000000000 (mtm (accum base)) + spent rd_time
      (l ++ [(MkReading (Some x) (Some u), MkReading (Some y) (Some v))])).
  { intros d H1 H2. rewrite Hspent. unfold rd_time at 2 3. cbn. lia. }
  destruct (flag (flags base) prfm_TIME) eqn:Et, (flag (flags base) prfm_RUSAGE) eqn:Eu;
    rewrite !bind_Ok; cbn [flags start accum mtm mru who]; rewrite ?Et, ?Eu, !bind_Ok; cbn [flags start accum mtm mru who].
  - destruct Ht as [Ot Vt], Hu as [Ou Vu].
    destruct (time_round B C _ x y Ot Hx Hy HB H0 HC) as (d & -> & Od & Vd).
    destruct (usage_round B C _ u v Ou Hxu Hyv HB H0 HC) as (q & -> & Oq & Vq).
    cbn. split_and!; auto.
  - destruct Ht as [Ot Vt].
    destruct (time_round B C _ x y Ot Hx Hy HB H0 HC) as (d & -> & Od & Vd). cbn. split_and!; auto.
  - destruct Hu as [Ou Vu].
    destruct (usage_round B C _ u v Ou Hxu Hyv HB H0 HC) as (q & -> & Oq & Vq). cbn. split_and!; auto.
  - cbn. split_and!; auto.
Qed.

Lemma measure_ok C base junk l B l0 r :
  0 ≤ C → 0 ≤ B → Forall (fun p => reading_ok C p.1 ∧ reading_ok C p.2) l →
  B + (2 * C + 2) * zlen l < 2 ^ 62 → accumulated B base l0 r →
  ensures (measure junk r l) (accumulated (B + (2 * C + 2) * zlen l) base (l0 ++ l)).
Proof.
  intros HC. revert B l0 r. induction l as [|[s e] l IH]; intros B l0 r H0 Hl HB Hr; cbn [measure].
  - rewrite app_nil_r. cbn [ensures length]. by rewrite Z.mul_0_r, Z.add_0_r.
  - apply Forall_cons in Hl as [[Hs He] Hl]. cbn [length] in HB.
    replace (r ← prfm_start r s; r ← prfm_stop junk r e; measure junk r l)
      with ((r ← prfm_start r s; prfm_stop junk r e) ≫= fun r => measure junk r l)
      by (by destruct (prfm_start r s)).
    apply ensures_bind. eapply ensures_mono; [by apply (round_ok B C base l0 r junk s e); [..|nia|lia|lia]|].
    intros r' Hr'.
    replace (l0 ++ (s, e) :: l) with ((l0 ++ [(s, e)]) ++ l) by (by rewrite <- app_assoc).
    replace (B + (2 * C + 2) * zlen ((s, e) :: l)) with (B + 2 * C + 2 + (2 * C + 2) * zlen l)
      by (cbn [length]; lia).
    apply IH; [lia|done|nia|done].
Qed.

(** C29: a probe measures what happens between its starts and stops.  After
    [prfm_xinit] and any number of start-stop pairs, the accumulated time is in
    the usual form and is the sum of the differences of the clock readings, and
    every accumulated time and counter of the resource usage is the sum of the
    differences of its readings; each of the two only if its flag is set, and
    otherwise left as it was.  Readings are below 2^40 and pairs fewer than
    2^20. *)
Theorem prfm_accumulates r0 fl who0 junk l :
  zlen l < 2 ^ 20 → Forall (fun p => reading_ok (2 ^ 40) p.1 ∧ reading_ok (2 ^ 40) p.2) l →
  ensures (measure junk (prfm_xinit r0 fl who0) l) (fun r =>
    flags r = fl ∧
    (if flag fl prfm_TIME then
       norm 1000000000 (mtm (accum r)) ∧ value 1000000000 (mtm (accum r)) = spent rd_time l
     else mtm (accum r) = mtm (accum r0)) ∧
    (if flag fl prfm_RUSAGE then
       Forall (fun g => g (mru (accum r)) = spent (rd_usage g) l) ru_numbers
     else mru (accum r) = mru (accum r0))).
Proof.
  intros Hlen Hl.
  eapply ensures_mono; [apply (measure_ok (2 ^ 40) (prfm_xinit r0 fl who0) junk l 0 []); [lia|lia|done|lia|]|].
  - split; [done|]. unfold prfm_xinit, reset. cbn [flags accum mtm mru].
    destruct (flag fl prfm_TIME), (flag fl prfm_RUSAGE); split; try done.
    all: split; [repeat split; repeat constructor; done|repeat constructor].
  - intros r (Hf & Ht & Hu). cbn [app] in Ht, Hu.
    unfold prfm_xinit, reset in Hf, Ht, Hu. cbn [flags accum mtm mru] in Hf, Ht, Hu.
    split; [done|]. split.
    + destruct (flag fl prfm_TIME); [|done]. destruct Ht as [[Nt _] Vt]. by split.
    + destruct (flag fl prfm_RUSAGE); [|done]. destruct Hu as [_ Vu]. rewrite Forall_forall in *.
      intros g Hg. rewrite (Vu g Hg).
      assert (Hz : Forall (fun g => g rusage_clear = 0) ru_numbers) by (repeat constructor).
      rewrite Forall_forall in Hz. by rewrite (Hz g Hg).
Qed.

(** One measured piece of work: 1.2 seconds on the clock, 40 more page faults. *)
Definition rd_before : reading :=
  MkReading (Some (MkTm 10 900000000)) (Some (MkRu (MkTm 0 999999) tm_clear 5 0 0 0 100 0 0 0 0 0 0 0 0 0)).
Definition rd_after : reading :=
  MkReading (Some (MkTm 12 100000000)) (Some (MkRu (MkTm 1 1) tm_clear 5 0 0 0 140 0 0 0 0 0 0 0 0 0)).
Definition prfm_junk : prfm := MkPrfm 7 7 (MkMetrics (MkTm 1 2) rusage_clear) (MkMetrics (MkTm 3 4) rusage_clear).

Lemma prfm_accumulates_witness :
  ensures (measure (start prfm_junk) (prfm_xinit prfm_junk 3 0) [(rd_before, rd_after)]) (fun r =>
    flags r = 3 ∧
    (if flag 3 prfm_TIME then
       norm 1000000000 (mtm (accum r)) ∧ value 1000000000 (mtm (accum r)) = spent rd_time [(rd_before, rd_after)]
     else mtm (accum r) = mtm (accum prfm_junk)) ∧
    (if flag 3 prfm_RUSAGE then
       Forall (fun g => g (mru (accum r)) = spent (rd_usage g) [(rd_before, rd_after)]) ru_numbers
     else mru (accum r) = mru (accum prfm_junk))).
Proof.
  refine (prfm_accumulates prfm_junk 3 0 (start prfm_junk) [(rd_before, rd_after)] _ _); [done|].
  constructor; [|constructor].
  split; (eexists _, _; split; [reflexivity|]; repeat split; repeat constructor; cbn; lia).
Defined.

Example prfm_measures :
  (r ← measure (start prfm_junk) (prfm_xinit prfm_junk 3 0) [(rd_before, rd_after)];
   Ok (mtm (accum r), ru_utime (mru (accum r)), ru_minflt (mru (accum r)))) =
  Ok (MkTm 1 200000000, MkTm 0 2, 40).
Proof. by vm_compute. Qed.
