(* ===== verification/PrfmTest.v ===== *)
(** * prof/prfm_test.c: measuring writes with the performance probes

    The program writes a buffer of zeros to a temporary file over and over and
    measures the whole run, the writes and a counting loop with three probes of
    Prof.  The clock, the resource usage, the file and the allocator are the
    interface [Prt].  Of the output the numbers given to [prfm_dump] are kept. *)

From stdpp Require Import strings.
From S2P Require Import Prelude Libc Fdio Prof.
Local Open Scope Z_scope.

Class Prt (W : Type) := {
  prt_os :: Os W;
  (** [clock_gettime] and [getrusage (RUSAGE_SELF)] *)
  prt_reading : W → reading * W;
  prt_malloc : Z → W → option (list Z) * W;
  prt_mkstemp : W → io_result * W;
  prt_unlink : W → option Z * W;
  prt_close : Z → W → option Z * W
}.

(** [now] bounds the clock from below; no call turns it back, and readings do
    not fail.  Files are written by [write] alone; a new one is empty. *)
Definition later {W} `{OsLaws W} (now : W → Z) (w w' : W) : Prop :=
  now w ≤ now w' ∧ ∀ fd, sink fd w' = sink fd w.

Class PrtLaws (W : Type) `{Prt W} := {
  prt_oslaws :: OsLaws W;
  now : W → Z;
  now_write fd b w r w' : os_write fd b w = (r, w') → now w ≤ now w';
  reading_law w rd w' : prt_reading w = (rd, w') →
    reading_ok (2 ^ 40) rd ∧ now w ≤ rd_time rd ≤ now w' ∧ ∀ fd, sink fd w' = sink fd w;
  pmalloc_law n w b w' : prt_malloc n w = (b, w') → later now w w' ∧ (∀ d, b = Some d → 0 ≤ n → zlen d = n);
  mkstemp_law w r w' : prt_mkstemp w = (r, w') → now w ≤ now w' ∧
    match r with IoOk fd => 0 ≤ fd ∧ sink fd w' = [] | IoErr e => 0 < e end;
  punlink_law w r w' : prt_unlink w = (r, w') → later now w w';
  pclose_law fd w r w' : prt_close fd w = (r, w') → later now w w'
}.

(** ** The code *)

(** [prfm_dump]: what is printed of a probe. *)
Inductive line := Time (t : tm) | Usage (l : list Z).

Definition tmspec_dump (t : tm) : line := Time t.
Definition rusage_dump (u : rusage) : line :=
  Usage [tv_sec (ru_utime u); tv_sub (ru_utime u); tv_sec (ru_stime u); tv_sub (ru_stime u);
         ru_maxrss u; ru_ixrss u; ru_idrss u; ru_isrss u; ru_minflt u; ru_majflt u; ru_nswap u;
         ru_inblock u; ru_oublock u; ru_msgsnd u; ru_msgrcv u; ru_nsignals u; ru_nvcsw u; ru_nivcsw u].
Definition prfm_dump (r : prfm) : list line :=
  (if flag (flags r) prfm_TIME then [tmspec_dump (mtm (accum r))] else []) ++
  (if flag (flags r) prfm_RUSAGE then [rusage_dump (mru (accum r))] else []).

Definition RUSAGE_SELF : Z := 0.
Definition prfm_init (r : prfm) : prfm := prfm_xinit r (Z.lor prfm_TIME prfm_RUSAGE) RUSAGE_SELF.

Section code.
Context {W : Type} `{Prt W}.
(** What uninitialised memory holds. *)
Variable junk : prfm.

Definition sys {R} (call : W → R * W) (s : io W) : R * io W :=
  let '(r, w) := call (iow s) in (r, MkIo (ioerrno s) (iolog s) w).

(** [prfm_start] and [prfm_stop] with the readings they make. *)
Definition start_probe (r : prfm) (s : io W) : res (prfm * io W) :=
  let '(rd, s) := sys prt_reading s in r ← prfm_start r rd; Ok (r, s).
Definition stop_probe (r : prfm) (s : io W) : res (prfm * io W) :=
  let '(rd, s) := sys prt_reading s in r ← prfm_stop (start junk) r rd; Ok (r, s).

(** [while (--n)]; the state is [n], [perf[1]] and [perf[2]]. *)
Definition write_body (fd : Z) (buf : list Z) (st : Z * prfm * prfm * io W) :
    res (ctl (Z * prfm * prfm * io W) (Z * prfm * prfm * io W)) :=
  let '(n, p1, p2, s) := st in
  let n := u64 (n - 1) in
  if n =? 0 then Ok (Leave (n, p1, p2, s))
  else
    '(p1, s) ← start_probe p1 s;
    let '(r, s) := write_call fd buf s in
    if r <=? 0 then Ok (Leave (n, p1, p2, perror_unless false s))
    else
      '(p1, s) ← stop_probe p1 s;
      '(p2, s) ← start_probe p2 s;
      '(p2, s) ← stop_probe p2 s;
      Ok (Next (n, p1, p2, s)).

(** The value of [n] printed, and the three probes when they are dumped. *)
Definition test_write (fuel : nat) (n len : Z) (s : io W) : res (Z * prfm * prfm * prfm * io W) :=
  '(p0, s) ← start_probe (prfm_init junk) s;
  let '(b, s) := sys (prt_malloc len) s in
  match b with
  | None => Abort (* fatal *)
  | Some b =>
      let buf := replicate (length b) 0 in
      let '(r, s) := sys prt_mkstemp s in
      match r with
      | IoErr _ => Abort (* fatal *)
      | IoOk fd =>
          let '(u, s) := sys prt_unlink s in
          let s := match u with None => s | Some e => perror_unless false (set_errno e s) end in
          '(n, p1, p2, s) ← loop fuel (write_body fd buf) (n, prfm_init junk, prfm_init junk, s);
          let '(_, s) := sys (prt_close fd) s in
          '(p0, s) ← stop_probe p0 s;
          Ok (n, p0, p1, p2, s)
      end
  end.

(** The exit status and the numbers printed; [args] is [argv] without the
    program's name. *)
Definition main (fuel : nat) (args : list (list Z)) (s : io W) : res (Z * option Z * list line * io W) :=
  match args with
  | [] => Ok (0, None, [], s)
  | test_name :: niter :: rest =>
      niter ← atol niter;
      if niter <=? 0 then Ok (EINVAL, None, [], s)
      else if strcmp_eq (zs "write") test_name then
        match rest with
        | [] => Ok (EINVAL, None, [], s)
        | bufsz :: _ =>
            bufsz ← atol bufsz;
            if bufsz <=? 0 then Ok (EINVAL, None, [], s)
            else
              '(n, p0, p1, p2, s) ← test_write fuel (u64 niter) (u64 bufsz) s;
              let '(rd, s) := sys prt_reading s in
              perf ← prfm_probe (prfm_init junk) rd;
              Ok (0, Some n, prfm_dump p0 ++ prfm_dump p1 ++ prfm_dump p2 ++ prfm_dump perf, s)
        end
      else Ok (EINVAL, None, [], s)
  | _ => Ok (EINVAL, None, [], s)
  end.
End code.

(** ** What it measures *)

Notation whole := (2 * 2 ^ 40 + 2).

(** A fresh probe, and one piece of work with the start apart from the stop. *)
Lemma init_accumulated r : accumulated 0 (prfm_init r) [] (prfm_init r).
Proof.
  unfold accumulated, prfm_init, prfm_xinit, reset. cbn [flags accum mtm mru].
  change (flag (Z.lor prfm_TIME prfm_RUSAGE) prfm_TIME) with true.
  change (flag (Z.lor prfm_TIME prfm_RUSAGE) prfm_RUSAGE) with true. cbv iota.
  split; [done|]. split; split; repeat split; repeat constructor; done.
Qed.

Lemma start_then_stop B base l r junk rd :
  accumulated B base l r → reading_ok (2 ^ 40) rd → B + whole < 2 ^ 62 → 0 ≤ B →
  ∃ r', prfm_start r rd = Ok r' ∧ ∀ e, reading_ok (2 ^ 40) e →
    ensures (prfm_stop junk r' e) (accumulated (B + whole) base (l ++ [(rd, e)])).
Proof.
  intros Hr Hs HB H0. assert (E : ∃ r', prfm_start r rd = Ok r').
  { destruct Hs as (x & u & -> & _). unfold prfm_start, capture. cbn [rd_tm rd_ru].
    destruct (flag _ prfm_TIME), (flag _ prfm_RUSAGE); rewrite !bind_Ok; by eexists. }
  destruct E as [r' E]. exists r'. split; [done|]. intros e He.
  pose proof (round_ok B (2 ^ 40) base l r junk rd e Hr Hs He) as Hro. rewrite E, bind_Ok in Hro.
  replace (B + whole) with (B + 2 * 2 ^ 40 + 2) by lia. apply Hro; lia.
Qed.

Lemma spent_snoc g l s e : spent g (l ++ [(s, e)]) = spent g l + (g e - g s).
Proof. unfold spent. induction l as [|p l IH]; cbn [app foldr fst snd] in *; lia. Qed.

Section proofs.
Context {W : Type} `{PL : PrtLaws W}.
Implicit Types (s : io W).

(** A probe that has measured the pieces of work [l]; and one that has been started
    on another piece, with the reading [rd]. *)
Definition measured (junk : prfm) (l : list (reading * reading)) (p : prfm) : Prop :=
  accumulated (whole * zlen l) (prfm_init junk) l p.
Definition started (junk : prfm) (l : list (reading * reading)) (rd : reading) (p : prfm) : Prop :=
  measured junk l p ∧
  ∀ e, reading_ok (2 ^ 40) e → ensures (prfm_stop (start junk) p e) (measured junk (l ++ [(rd, e)])).

Definition probe_time (p : prfm) : Z := value 1000000000 (mtm (accum p)).

Lemma measured_time junk l p : measured junk l p → probe_time p = spent rd_time l.
Proof.
  intros (_ & Ht & _). unfold prfm_init, prfm_xinit, reset in Ht. cbn [flags accum mtm] in Ht.
  change (flag (Z.lor prfm_TIME prfm_RUSAGE) prfm_TIME) with true in Ht. cbv iota in Ht.
  destruct Ht as [_ Ht]. etrans; [exact Ht|]. reflexivity.
Qed.

Lemma init_measured junk : measured junk [] (prfm_init junk) ∧ probe_time (prfm_init junk) = 0.
Proof. assert (Hm : measured junk [] (prfm_init junk)) by apply init_accumulated. split; [done|]. by rewrite (measured_time _ _ _ Hm). Qed.

Lemma start_probe_run junk l p s :
  measured junk l p → zlen l < 2 ^ 20 →
  ∃ p' s' rd, start_probe p s = Ok (p', s') ∧ started junk l rd p' ∧
    now (iow s) ≤ rd_time rd ≤ now (iow s') ∧ (∀ fd, sink fd (iow s') = sink fd (iow s)).
Proof.
  intros Hp Hl. unfold start_probe, sys. destruct (prt_reading (iow s)) as [rd w] eqn:E.
  apply reading_law in E as (Hrd & Hn & Hs).
  destruct (start_then_stop (whole * zlen l) (prfm_init junk) l p (start junk) rd Hp Hrd) as (p' & Es & Hstop); [lia|lia|].
  rewrite Es, bind_Ok. exists p', (MkIo (ioerrno s) (iolog s) w), rd. cbn [iow]. split_and!; [done| |lia|lia|done]. split.
  - unfold prfm_start in Es. destruct (capture _ _ _); try done. injection Es as <-. exact Hp.
  - intros e He. unfold measured. rewrite length_app.
    replace (whole * Z.of_nat (length l + length [(rd, e)])) with (whole * zlen l + whole) by (cbn [length]; lia).
    by apply Hstop.
Qed.

Lemma stop_probe_run junk l rd p s :
  started junk l rd p →
  ensures (stop_probe junk p s) (fun '(p', s') => ∃ e, measured junk (l ++ [(rd, e)]) p' ∧
    now (iow s) ≤ rd_time e ≤ now (iow s') ∧ (∀ fd, sink fd (iow s') = sink fd (iow s))).
Proof.
  intros [_ Hst]. unfold stop_probe, sys. destruct (prt_reading (iow s)) as [rd' w] eqn:E.
  apply reading_law in E as (Hrd & Hn & Hs). apply ensures_bind. eapply ensures_mono; [by apply Hst|].
  intros p' Hp'. cbn [ensures iow]. exists rd'. split_and!; (done || lia).
Qed.

(** The loop after [k] turns: [t0] is the time it began. *)
Definition running (junk : prfm) (fd len n0 t0 : Z) (st : Z * prfm * prfm * io W) : Prop :=
  let '(n, p1, p2, s) := st in
  ∃ l1 l2 m, zlen l1 = n0 - n ∧ zlen l2 = n0 - n ∧ 1 ≤ n ∧ measured junk l1 p1 ∧ measured junk l2 p2 ∧
    sink fd (iow s) = replicate m 0 ∧ n0 - n ≤ Z.of_nat m ≤ (n0 - n) * len ∧
    0 ≤ probe_time p1 ∧ 0 ≤ probe_time p2 ∧ t0 + probe_time p1 + probe_time p2 ≤ now (iow s).

(** How it is left: [k] turns have been completed. *)
Definition finished (junk : prfm) (fd len n0 t0 : Z) (st : Z * prfm * prfm * io W) : Prop :=
  let '(n, p1, p2, s) := st in
  ∃ l1 l2 m, zlen l1 = n0 - 1 - n ∧ zlen l2 = n0 - 1 - n ∧ 0 ≤ n ∧ measured junk l1 p1 ∧ measured junk l2 p2 ∧
    sink fd (iow s) = replicate m 0 ∧ n0 - 1 - n ≤ Z.of_nat m ≤ (n0 - 1 - n) * len ∧
    0 ≤ probe_time p1 ∧ 0 ≤ probe_time p2 ∧ t0 + probe_time p1 + probe_time p2 ≤ now (iow s).

Lemma write_body_run junk fd len n0 t0 st :
  0 < len → n0 < 2 ^ 20 → running junk fd len n0 t0 st →
  ensures (write_body junk fd (replicate (Z.to_nat len) 0) st) (fun c => match c with
    | Next st' => running junk fd len n0 t0 st' ∧ st'.1.1.1 = st.1.1.1 - 1
    | Leave st' => finished junk fd len n0 t0 st' end).
Proof.
  destruct st as [[[n p1] p2] s]. intros Hlen Hn0 (l1 & l2 & m & E1 & E2 & Hn & H1 & H2 & Hk & Hm & T1 & T2 & HT).
  unfold write_body. rewrite wrap_small by lia. destruct (Z.eqb_spec (n - 1) 0) as [E|Hne].
  { cbn [ensures finished]. exists l1, l2, m. split_and!; try done; try lia. }
  destruct (start_probe_run junk l1 p1 s H1) as (p1' & s1 & r1 & -> & Hs1 & Hn1 & Hk1); [lia|]. rewrite bind_Ok.
  set (buf := replicate _ _). assert (Hbuf : buf ≠ []) by (subst buf; destruct (Z.to_nat len) eqn:?; [lia|done]).
  assert (Hbl : zlen buf = len) by (subst buf; rewrite length_replicate; lia).
  destruct (write_call fd buf s1) as [r s2] eqn:Ew.
  assert (Hn2 : now (iow s1) ≤ now (iow s2)).
  { unfold write_call in Ew. destruct (os_write fd buf (iow s1)) as [[q|q] w] eqn:Eo; injection Ew as <- <-; by eapply now_write. }
  destruct (write_call_ok fd buf s1 Hbuf) as [(r' & s' & E & Hr & _ & Hk2 & _)|(s' & E & _ & Hk2 & _)];
    rewrite Ew in E; injection E as -> ->.
  2: { cbn [ensures finished Z.leb Z.compare]. rewrite iow_perror, Hk2, Hk1. exists l1, l2, m.
       assert (Ht : probe_time p1' = probe_time p1) by (rewrite !(measured_time junk l1); [done|done|apply Hs1]).
       rewrite Ht. split_and!; try done; try lia. apply Hs1. }
  rewrite (proj2 (Z.leb_gt r' 0)) by lia. apply ensures_bind. eapply ensures_mono; [by apply (stop_probe_run junk l1 r1)|].
  intros [p1'' s3] (e1 & H1' & Hn3 & Hk3).
  destruct (start_probe_run junk l2 p2 s3 H2) as (p2' & s4 & r2 & -> & Hs4 & Hn4 & Hk4); [lia|]. rewrite bind_Ok.
  apply ensures_bind. eapply ensures_mono; [by apply (stop_probe_run junk l2 r2)|].
  intros [p2'' s5] (e2 & H2' & Hn5 & Hk5). cbn [ensures running].
  pose proof (measured_time _ _ _ H1) as V1. pose proof (measured_time _ _ _ H1') as V1'.
  pose proof (measured_time _ _ _ H2) as V2. pose proof (measured_time _ _ _ H2') as V2'.
  rewrite spent_snoc in V1', V2'. split; [|done].
  exists (l1 ++ [(r1, e1)]), (l2 ++ [(r2, e2)]), (m + Z.to_nat r')%nat.
  rewrite !length_app. cbn [length]. split_and!; try done; try lia; try nia.
  rewrite Hk5, Hk4, Hk3, Hk2, Hk1, Hk, replicate_add. f_equal. subst buf. rewrite take_replicate. f_equal. lia.
Qed.

(** The test measures what it does, except that it does it once too few.
    With [k] the number of turns completed, [n - 1] unless a write fails, the
    number printed is what is left of [n - 1], hence 0 after a run without failures;
    the file holds between [k] and [k * len] zeros, since a short write is taken
    for a whole one; the second and the third probe hold the sums of [k] intervals, none
    negative in sum, and together they do not exceed what the first one has
    measured.  Only the allocation and the temporary file can abort it. *)
Theorem prfm_test_measures junk fuel n len s :
  1 ≤ n < 2 ^ 20 → 0 < len → (Z.to_nat n < fuel)%nat →
  test_write junk fuel n len s = Abort ∨
  ensures (test_write junk fuel n len s) (fun '(n', p0, p1, p2, s') => ∃ fd k m l1 l2,
    n' = n - 1 - k ∧ 0 ≤ k ≤ n - 1 ∧ sink fd (iow s') = replicate m 0 ∧ k ≤ Z.of_nat m ≤ k * len ∧
    measured junk l1 p1 ∧ measured junk l2 p2 ∧ zlen l1 = k ∧ zlen l2 = k ∧
    0 ≤ probe_time p1 ∧ 0 ≤ probe_time p2 ∧ probe_time p1 + probe_time p2 ≤ probe_time p0).
Proof.
  intros Hn Hlen Hf. unfold test_write.
  destruct (start_probe_run junk [] (prfm_init junk) s (proj1 (init_measured junk))) as (p0 & s1 & r0 & -> & Hs0 & Hn0 & _); [done|].
  rewrite bind_Ok. unfold sys. destruct (prt_malloc len (iow s1)) as [b w2] eqn:E2.
  apply pmalloc_law in E2 as [[Hn2 _] Hb]. destruct b as [b|]; [|by left]. specialize (Hb b eq_refl ltac:(lia)). cbn [iow ioerrno iolog].
  destruct (prt_mkstemp w2) as [[fd|e] w3] eqn:E3; apply mkstemp_law in E3 as [Hn3 H3]; [|by left]. cbn [iow ioerrno iolog].
  destruct (prt_unlink w3) as [u w4] eqn:E4; apply punlink_law in E4 as [Hn4 Hk4]. cbn [iow ioerrno iolog].
  right. apply ensures_bind. replace (length b) with (Z.to_nat len) by lia. set (s4 := match u with None => _ | Some e => _ end).
  assert (Hs4 : iow s4 = w4) by (by subst s4; destruct u).
  eapply ensures_mono; [apply (loop_total (running junk fd len n (rd_time r0)) (fun st => Z.to_nat st.1.1.1)
    (finished junk fd len n (rd_time r0)))|].
  - intros st Hst. eapply ensures_mono; [apply (write_body_run _ _ _ n (rd_time r0)); [lia|lia|exact Hst]|].
    intros [st'|st']; [|done]. intros [Hr Hd]. split; [done|].
    destruct st' as [[[n' ?] ?] ?]. destruct Hr as (? & ? & ? & _ & _ & ? & _). cbn in *. lia.
  - exists [], [], 0%nat. destruct (init_measured junk) as [Hi Ht].
    rewrite Hs4, Hk4, (proj2 H3), Ht. cbn [length]. split_and!; (lia || done).
  - cbn. lia.
  - intros [[[n' p1] p2] s5] (l1 & l2 & m & E1 & E2' & Hn' & H1 & H2 & Hk & Hm & T1 & T2 & HT).
    destruct (prt_close fd (iow s5)) as [c w6] eqn:E6; apply pclose_law in E6 as [Hn6 Hk6].
    apply ensures_bind. eapply ensures_mono; [by apply (stop_probe_run junk [] r0)|].
    intros [p0' s7] (e & H0 & Hn7 & Hk7). cbn [ensures iow] in *.
    apply measured_time in H0. rewrite spent_snoc in H0. cbn in H0.
    exists fd, (n - 1 - n'), m, l1, l2. rewrite Hk7, Hk6. split_and!; (done || lia).
Qed.
End proofs.

(** ** A run *)

(** A clock that goes on by 5 with every reading, and pipes for the file. *)
Record bench := MkBench { ticks : Z; bpipes : pipes }.
Definition clamp (t : Z) : Z := Z.max 0 (Z.min t (2 ^ 40)).
Definition on_pipes {R} (call : pipes → R * pipes) (w : bench) : R * bench :=
  let '(r, p) := call (bpipes w) in (r, MkBench (ticks w) p).

Definition bench_os : Os bench := {|
  os_write := fun fd b => on_pipes (os_write fd b);
  os_read := fun fd n => on_pipes (os_read fd n);
  os_pread := fun fd n off => on_pipes (os_pread fd n off)
|}.

Definition bench_oslaws : @OsLaws bench bench_os.
Proof.
  refine {|
    sink := fun fd w => sink fd (bpipes w);
    source := fun fd w => source fd (bpipes w);
    content := fun fd w => content fd (bpipes w);
    patience := fun w => patience (bpipes w)
  |}; unfold os_write, os_read, os_pread, bench_os, on_pipes; intros until w'.
  - destruct (os_write fd b (bpipes w)) as [r p] eqn:E. intros [= -> <-]. exact (write_ok _ _ _ _ _ E).
  - destruct (os_write fd b (bpipes w)) as [r p] eqn:E. intros [= -> <-]. exact (write_err _ _ _ _ _ E).
  - destruct (os_read fd n (bpipes w)) as [r p] eqn:E. intros [= -> <-]. exact (read_ok _ _ _ _ _ E).
  - destruct (os_read fd n (bpipes w)) as [r p] eqn:E. intros [= -> <-]. exact (read_err _ _ _ _ _ E).
  - destruct (os_pread fd n off (bpipes w)) as [r p] eqn:E. intros [= -> <-]. exact (pread_ok _ _ _ _ _ _ E).
  - destruct (os_pread fd n off (bpipes w)) as [r p] eqn:E. intros [= -> <-]. exact (pread_err _ _ _ _ _ _ E).
Defined.

#[export] Instance bench_prt : Prt bench := {|
  prt_os := bench_os;
  prt_reading := fun w =>
    let t := clamp (ticks w) in
    (MkReading (Some (MkTm (t / 1000000000) (t mod 1000000000))) (Some rusage_clear), MkBench (t + 5) (bpipes w));
  prt_malloc := fun n w => (Some (replicate (Z.to_nat n) 205), w);
  prt_mkstemp := fun w => (IoOk 3, MkBench (ticks w) (MkPipes [] [] [] (wscript (bpipes w))));
  prt_unlink := fun w => (None, w);
  prt_close := fun _ w => (None, w)
|}.

Lemma bench_reading t : 0 ≤ t ≤ 2 ^ 40 →
  let rd := MkReading (Some (MkTm (t / 1000000000) (t mod 1000000000))) (Some rusage_clear) in
  reading_ok (2 ^ 40) rd ∧ rd_time rd = t.
Proof.
  intros Ht rd. split.
  - eexists _, _. split; [done|]. repeat split; repeat constructor; cbn; plia.
  - unfold rd_time, value. cbn. plia.
Qed.

#[export] Instance bench_laws : PrtLaws bench.
Proof.
  refine {| prt_oslaws := bench_oslaws : @OsLaws bench prt_os; now := fun w => clamp (ticks w) |}; unfold prt_reading, prt_malloc, prt_mkstemp, prt_unlink, prt_close, bench_prt.
  - intros fd b w r w'. cbn. unfold on_pipes. by destruct (pipes_write fd b (bpipes w)) as [q p]; intros [= <- <-].
  - intros w rd w' [= <- <-]. cbn [ticks]. assert (Ht : 0 ≤ clamp (ticks w) ≤ 2 ^ 40) by (unfold clamp; lia).
    destruct (bench_reading _ Ht) as [H1 H2]. rewrite H2. split; [done|]. split; [|done].
    clear H1 H2. revert Ht. generalize (clamp (ticks w)). intros t Ht. unfold clamp. lia.
  - intros n w b w' [= <- <-]. split; [done|]. intros d [= <-] Hn. rewrite length_replicate. lia.
  - intros w r w' [= <- <-]. done.
  - intros w r w' [= <- <-]. done.
  - intros fd w r w' [= <- <-]. done.
Defined.

Definition bench_ex : io bench := MkIo 0 [] (MkBench 100 (MkPipes [] [] [] [Part 2])).

(** Three turns asked for: two writes, the first of them short, and [n] is 0. *)
Example prfm_test_run :
  match main prfm_junk 9 [zs "write"; zs "3"; zs "4"] bench_ex with
  | Ok (rc, n, lines, s) => rc = 0 ∧ n = Some 0 ∧ pout (bpipes (iow s)) = replicate 6 0 ∧
      head lines = Some (Time (MkTm 0 45)) ∧ lines !! 2%nat = Some (Time (MkTm 0 10))
  | _ => False
  end.
Proof. vm_compute. split_and!; reflexivity. Qed.

Lemma prfm_test_measures_witness :
  let m := test_write prfm_junk 9 3 4 bench_ex in
  m = Abort ∨ ensures m (fun '(n', p0, p1, p2, s') => ∃ fd k m l1 l2,
    n' = 3 - 1 - k ∧ 0 ≤ k ≤ 3 - 1 ∧ sink fd (iow s') = replicate m 0 ∧ k ≤ Z.of_nat m ≤ k * 4 ∧
    measured prfm_junk l1 p1 ∧ measured prfm_junk l2 p2 ∧ zlen l1 = k ∧ zlen l2 = k ∧
    0 ≤ probe_time p1 ∧ 0 ≤ probe_time p2 ∧ probe_time p1 + probe_time p2 ≤ probe_time p0).
Proof. refine (prfm_test_measures prfm_junk 9 3 4 bench_ex _ _ _); lia. Defined.
