(* ===== verification/Timers.v ===== *)
(** * prof/tmcmp.c and tmtest/clkgtm.c: programs that read clocks

    tmcmp.c calls a clock a number of times and prints what the calls took;
    clkgtm.c prints what a sleep took.  The clocks are the interface [Clk]; the
    difference routines are those of Prof.  Of the output the integers are kept;
    the floating-point numbers made of them, the time of libev and the error
    messages are left out. *)

From stdpp Require Import strings.
From S2P Require Import Prelude Libc Fdio Prof.
Local Open Scope Z_scope.

Class Clk (W : Type) := {
  gettimeofday : W → tm * W;
  (** [clock_gettime (CLOCK_MONOTONIC)], if it succeeds *)
  clock_gettime : W → option tm * W;
  (** -1 for failure *)
  clock : W → Z * W;
  (** user and system time *)
  times : W → option (Z * Z) * W;
  time : W → W;
  sysconf_clk_tck : W → io_result * W;
  ev_time : W → W;
  nanosleep : Z → Z → W → option Z * W
}.

(** [wall] in microseconds and [mono] in nanoseconds bound the two clocks from
    below; nobody turns them back.  A sleep that is not refused or
    interrupted takes at least as long as asked for. *)
Definition onward {W} (wall mono : W → Z) (w w' : W) : Prop := wall w ≤ wall w' ∧ mono w ≤ mono w'.

Class ClkLaws (W : Type) `{Clk W} := {
  wall : W → Z;
  mono : W → Z;
  gettimeofday_law w t w' : gettimeofday w = (t, w') →
    tm_ok 1000000 (2 ^ 60) t ∧ wall w ≤ value 1000000 t ≤ wall w' ∧ mono w ≤ mono w';
  clock_gettime_law w t w' : clock_gettime w = (t, w') → onward wall mono w w' ∧
    (∀ x, t = Some x → tm_ok 1000000000 (2 ^ 60) x ∧ mono w ≤ value 1000000000 x ≤ mono w');
  clock_law w c w' : clock w = (c, w') → onward wall mono w w' ∧ -1 ≤ c < 2 ^ 62;
  times_law w t w' : times w = (t, w') → onward wall mono w w' ∧
    (∀ u s, t = Some (u, s) → 0 ≤ u < 2 ^ 62 ∧ 0 ≤ s < 2 ^ 62);
  time_law w : onward wall mono w (time w);
  sysconf_law w r w' : sysconf_clk_tck w = (r, w') → onward wall mono w w' ∧
    match r with IoOk n => 0 < n | IoErr e => 0 < e end;
  ev_time_law w : onward wall mono w (ev_time w);
  nanosleep_law s n w r w' : nanosleep s n w = (r, w') → onward wall mono w w' ∧
    (r = None → mono w + s * 1000000000 + n ≤ mono w') ∧
    (n < 0 ∨ 1000000000 ≤ n → r = Some EINVAL)
}.

Section code.
Context {W : Type} `{Clk W}.
(** What uninitialised variables hold. *)
Variable junk : tm.

Definition sys {R} (call : W → R * W) (s : io W) : R * io W :=
  let '(r, w) := call (iow s) in (r, MkIo (ioerrno s) (iolog s) w).

(** ** tmcmp.c *)

(** The result, [CLK_TICKS], and the numbers printed to [out] if there is one. *)
Definition clk_diff (out : bool) (CLK_TICKS sc ec : Z) (t : option ((Z * Z) * (Z * Z))) (s : io W) :
    res (Z * Z * list Z * io W) :=
  cdiff ← ck (ec - sc);
  let '(CLK_TICKS, s) :=
    if CLK_TICKS =? 0 then
      let '(r, s) := sys sysconf_clk_tck s in
      match r with IoOk n => (n, s) | IoErr e => (-1, set_errno e s) end
    else (CLK_TICKS, s) in
  if CLK_TICKS <? 0 then Ok (ioerrno s, CLK_TICKS, [], s)
  else if negb out then Ok (0, CLK_TICKS, [], s)
  else
    l ← match t with
        | Some ((u, y), (u', y')) => du ← ck (u' - u); dy ← ck (y' - y); Ok [du; dy]
        | None => Ok []
        end;
    Ok (0, CLK_TICKS, cdiff :: l, s).

Inductive mode := m_gtm | m_clk | m_mnt | m_time.

Definition find_mode (arg : list Z) : option mode :=
  if strcasecmp_eq (zs "gtm") arg then Some m_gtm
  else if strcasecmp_eq (zs "clk") arg then Some m_clk
  else if strcasecmp_eq (zs "mnt") arg then Some m_mnt
  else if strcasecmp_eq (zs "time") arg then Some m_time
  else None.

(** One turn of the loop; the state is [tv] and [tsp]. *)
Definition call_clock (m : mode) (st : tm * tm * io W) : tm * tm * io W :=
  let '(tv, tsp, s) := st in
  match m with
  | m_gtm => let '(t, s) := sys gettimeofday s in (t, tsp, s)
  | m_clk => let '(_, s) := sys clock s in (tv, tsp, s)
  | m_mnt => let '(t, s) := sys clock_gettime s in (tv, default tsp t, s)
  | m_time => (tv, tsp, MkIo (ioerrno s) (iolog s) (time (iow s)))
  end.

(** [clock ()] and [times (&t)]: none if one of them fails. *)
Definition read_clocks (s : io W) : option (Z * (Z * Z)) * io W :=
  let '(c, s) := sys clock s in
  if -1 =? c then (None, s)
  else let '(t, s) := sys times s in (match t with Some t => Some (c, t) | None => None end, s).

(** The exit status, the time printed by [gtm_diff] or [ctm_diff], and the
    numbers printed by [clk_diff]; [args] is [argv] without the program's name. *)
Definition tmcmp_main (args : list (list Z)) (s : io W) : res (Z * option tm * list Z * io W) :=
  match args with
  | arg :: n :: _ =>
      match find_mode arg with
      | None => Ok (EINVAL, None, [], s)
      | Some m =>
          niter ← atol n;
          if niter <=? 0 then Ok (EINVAL, None, [], s)
          else
            '(rc, CLK_TICKS, _, s) ← clk_diff false 0 0 0 None s;
            if negb (rc =? 0) then Ok (rc, None, [], s)
            else
              let '(stv, s) := sys gettimeofday s in
              let '(ssp, s) := sys clock_gettime s in
              let '(c0, s) := read_clocks s in
              match c0 with
              | None => Ok (1, None, [], s)
              | Some (clk0, t1) =>
                  '(tv, tsp, s) ← for_up (Z.to_nat niter) 0 (fun _ st => Ok (call_clock m st)) (junk, junk, s);
                  let '(c2, s) := read_clocks s in
                  match c2 with
                  | None => Ok (1, None, [], s)
                  | Some (clk2, t2) =>
                      d ← match m with
                          | m_gtm => '(d, _) ← gtm_diff stv tv; Ok (Some d)
                          | m_mnt => '(d, _) ← ctm_diff (default junk ssp) tsp; Ok (Some d)
                          | _ => Ok None
                          end;
                      '(rc, _, l, s) ← clk_diff true CLK_TICKS clk0 clk2 (Some (t1, t2)) s;
                      Ok (rc, d, l, s)
                  end
              end
      end
  | _ => Ok (EINVAL, None, [], s)
  end.

(** ** clkgtm.c *)

(** The result and the difference printed. *)
Definition measure_sec (nsec : Z) (s : io W) : res (Z * option tm * io W) :=
  let '(before, s) := sys clock_gettime s in
  match before with
  | None => Ok (-1, None, s)
  | Some before =>
      let s := MkIo (ioerrno s) (iolog s) (ev_time (iow s)) in
      let '(r, s) := sys (nanosleep 0 nsec) s in
      let s := match r with Some e => set_errno e s | None => s end in
      let s := MkIo (ioerrno s) (iolog s) (ev_time (iow s)) in
      let '(after, s) := sys clock_gettime s in
      match after with
      | None => Ok (-1, None, s)
      | Some after => delta ← timespec_sub after before; Ok (0, Some delta, s)
      end
  end.

Definition clkgtm_main (args : list (list Z)) (s : io W) : res (Z * option tm * io W) :=
  match args with
  | [] => Ok (1, None, s)
  | a :: _ => nsec ← atol a; if nsec <=? 0 then Ok (2, None, s) else measure_sec nsec s
  end.
End code.

(** ** What they print *)

Section proofs.
Context {W : Type} `{CL : ClkLaws W}.
Implicit Types (s : io W).

Lemma onward_refl w : onward wall mono w w.
Proof. split; lia. Qed.
Lemma onward_trans w1 w2 w3 : onward wall mono w1 w2 → onward wall mono w2 w3 → onward wall mono w1 w3.
Proof. unfold onward. lia. Qed.

(** The three difference routines on times of less than 2^60 seconds. *)
Lemma exact_difference R a b :
  1 ≤ R ≤ 2 ^ 30 → tm_ok R (2 ^ 60) a → tm_ok R (2 ^ 60) b →
  ∃ c, tm_sub R a b = Ok c ∧ norm R c ∧ value R c = value R a - value R b.
Proof.
  intros HR [Na Wa] [Nb Wb]. destruct (tm_sub_ok R _ _ a b HR Na Nb Wa Wb) as (c & E & Nc & Vc & _); [done|]. by exists c.
Qed.

Lemma clk_diff_run out T sc ec t s :
  0 ≤ T → -1 ≤ sc < 2 ^ 62 → -1 ≤ ec < 2 ^ 62 →
  (∀ u y u' y', t = Some ((u, y), (u', y')) → (0 ≤ u < 2 ^ 62 ∧ 0 ≤ y < 2 ^ 62) ∧ 0 ≤ u' < 2 ^ 62 ∧ 0 ≤ y' < 2 ^ 62) →
  ensures (clk_diff out T sc ec t s) (fun '(rc, T', _, s') =>
    onward wall mono (iow s) (iow s') ∧ 0 ≤ rc ∧ (rc = 0 → 0 ≤ T')).
Proof.
  intros HT Hs He Ht. unfold clk_diff. rewrite ck_ok, bind_Ok by lia.
  assert (Hl : ∃ l, match t with
    | Some ((u, y), (u', y')) => du ← ck (u' - u); dy ← ck (y' - y); Ok [du; dy]
    | None => Ok [] end = Ok l).
  { destruct t as [[[u y] [u' y']]|]; [|by eexists]. destruct (Ht _ _ _ _ eq_refl). rewrite !ck_ok, !bind_Ok by lia. by eexists. }
  destruct Hl as [l ->]. unfold sys. destruct (Z.eqb_spec T 0) as [->|HT0].
  - destruct (sysconf_clk_tck (iow s)) as [r w] eqn:E. apply sysconf_law in E as [Ho Hr]. destruct r as [n|e].
    + rewrite (proj2 (Z.ltb_ge n 0)) by lia. destruct out; cbn; split_and!; (done || lia).
    + cbn. split_and!; [done|lia|lia].
  - rewrite (proj2 (Z.ltb_ge T 0)) by lia. destruct out; cbn; split_and!; (apply onward_refl || lia).
Qed.

Lemma read_clocks_run s :
  let '(r, s') := read_clocks s in onward wall mono (iow s) (iow s') ∧
  ∀ c u y, r = Some (c, (u, y)) → -1 ≤ c < 2 ^ 62 ∧ 0 ≤ u < 2 ^ 62 ∧ 0 ≤ y < 2 ^ 62.
Proof.
  unfold read_clocks, sys. destruct (clock (iow s)) as [c w1] eqn:E1. apply clock_law in E1 as [H1 Hc].
  destruct (-1 =? c); [split; [done|]; intros; done|]. cbn [iow].
  destruct (times w1) as [[[u y]|] w2] eqn:E2; apply times_law in E2 as [H2 Ht]; cbn [iow].
  - split; [by eapply onward_trans|]. intros c' u' y' [= <- <- <-]. by specialize (Ht _ _ eq_refl).
  - split; [by eapply onward_trans|]. done.
Qed.

(** A time that one of the clocks has shown since [w]. *)
Definition shown (R : Z) (clk : W → Z) (w : W) (t : tm) s : Prop :=
  tm_ok R (2 ^ 60) t ∧ clk w ≤ value R t ≤ clk (iow s).

(** [j] calls made since [w]. *)
Definition called (m : mode) (w : W) (j : Z) (st : tm * tm * io W) : Prop :=
  let '(tv, tsp, s) := st in onward wall mono w (iow s) ∧
  (0 < j → match m with
           | m_gtm => shown 1000000 wall w tv s
           | m_mnt => shown 1000000000 mono w tsp s
           | _ => True
           end).

Lemma call_clock_run m w j st :
  (∀ w, (clock_gettime w).1 ≠ None) → 0 ≤ j → called m w j st → called m w (j + 1) (call_clock m st).
Proof.
  destruct st as [[tv tsp] s]. intros Hok Hj [Ho _]. unfold call_clock, sys. destruct m.
  - destruct (gettimeofday (iow s)) as [t w1] eqn:E. apply gettimeofday_law in E as (Ht & Hv & Hm).
    cbn. unfold onward in *. split; [lia|]. intros _. split; [done|cbn; lia].
  - destruct (clock (iow s)) as [c w1] eqn:E. apply clock_law in E as [H1 _]. cbn. split; [by eapply onward_trans|done].
  - pose proof (Hok (iow s)) as Hne. destruct (clock_gettime (iow s)) as [[t|] w1] eqn:E; [|done].
    apply clock_gettime_law in E as [H1 Ht]. destruct (Ht _ eq_refl) as [Hx Hv].
    cbn. unfold onward in *. split; [lia|]. intros _. split; [done|cbn; lia].
  - cbn. split; [|done]. eapply onward_trans; [done|apply time_law].
Qed.

(** tmcmp takes its times correctly.  When the monotonic clock can be read, the
    program ends after its [niter] calls without overflow, and if the mode is gtm or mnt
    the difference it prints is normal, not negative, and at most what the clock has
    gone on by meanwhile; status 0 means that it has been printed. *)
Theorem tmcmp_measures junk arg n rest s m k :
  find_mode arg = Some m → atol n = Ok k → 0 < k → (∀ w, (clock_gettime w).1 ≠ None) →
  ensures (tmcmp_main junk (arg :: n :: rest) s) (fun '(rc, d, _, s') =>
    0 ≤ rc ∧ onward wall mono (iow s) (iow s') ∧
    match m, d with
    | m_gtm, Some d => norm 1000000 d ∧ 0 ≤ value 1000000 d ≤ wall (iow s') - wall (iow s)
    | m_mnt, Some d => norm 1000000000 d ∧ 0 ≤ value 1000000000 d ≤ mono (iow s') - mono (iow s)
    | m_gtm, None | m_mnt, None => rc ≠ 0
    | _, d => d = None
    end).
Proof.
  intros Hm Hn Hk Hok. cbn [tmcmp_main]. rewrite Hm, Hn, bind_Ok, (proj2 (Z.leb_gt k 0)) by lia.
  apply ensures_bind. eapply ensures_mono; [by apply clk_diff_run|].
  intros [[[rc T] l] s1] (Ho1 & Hrc & HT).
  destruct (Z.eqb_spec rc 0) as [->|Hne]; cbn [negb]; [|cbn; split_and!; [lia|done|by destruct m]].
  unfold sys at 1 2. destruct (gettimeofday (iow s1)) as [stv w2] eqn:E2.
  apply gettimeofday_law in E2 as (Kt & Hv & Hmo2). cbn [iow ioerrno iolog].
  pose proof (Hok w2) as Hne. destruct (clock_gettime w2) as [[ssp|] w3] eqn:E3; [|done]. clear Hne.
  apply clock_gettime_law in E3 as [Ho3 Hx]. destruct (Hx _ eq_refl) as [Kx Hvx].
  pose proof (read_clocks_run (MkIo (ioerrno s1) (iolog s1) w3)) as Hr. cbn [iow ioerrno iolog].
  destruct (read_clocks _) as [[[clk0 [u0 y0]]|] s4]; destruct Hr as [Ho4 Hc0].
  2: { cbn. unfold onward in *. cbn in *. split_and!; [lia|lia|lia|by destruct m]. }
  destruct (Hc0 _ _ _ eq_refl) as (Hb0 & Hu0 & Hy0). apply ensures_bind. eapply ensures_mono.
  { apply (for_up_inv (called m (iow s4))); [split; [apply onward_refl|lia]|].
    intros j st Hj Hst. by apply call_clock_run; [|lia|]. }
  intros [[tv tsp] s5] [Ho5 Hcall]. specialize (Hcall ltac:(lia)).
  pose proof (read_clocks_run s5) as Hr. destruct (read_clocks s5) as [[[clk2 [u2 y2]]|] s6]; destruct Hr as [Ho6 Hc2].
  2: { cbn. unfold onward in *. cbn in *. split_and!; [lia|lia|lia|by destruct m]. }
  destruct (Hc2 _ _ _ eq_refl) as (Hb2 & Hu2 & Hy2).
  set (last := fun d => '(rc, _, l, s) ← clk_diff true T clk0 clk2 (Some ((u0, y0), (u2, y2))) s6; Ok (rc, d, l, s)).
  assert (Hlast : ∀ d : option tm, ensures (last d) (fun '(rc, d', _, s') => 0 ≤ rc ∧ d' = d ∧ onward wall mono (iow s6) (iow s'))).
  { intros d. subst last. apply ensures_bind. eapply ensures_mono.
    - apply clk_diff_run; [by apply HT|done|done|]. intros u y u' y' [= <- <- <- <-]. done.
    - intros [[[rc' T'] l'] s'] (H1 & H2 & _). by cbn. }
  unfold onward in *. cbn [iow] in *.
  destruct m.
  - destruct Hcall as [Kv Hcall]. destruct (exact_difference 1000000 tv stv) as (d & Ed & Nd & Vd); [lia|done|done|].
    unfold gtm_diff. rewrite (diff_same _ _ _ _ _ Ed), !bind_Ok. eapply ensures_mono; [apply (Hlast (Some d))|].
    intros [[[rc' d'] l'] s'] (H1 & -> & H2). split_and!; (done || lia).
  - rewrite !bind_Ok. eapply ensures_mono; [apply (Hlast None)|].
    intros [[[rc' d'] l'] s'] (H1 & -> & H2). split_and!; (done || lia).
  - destruct Hcall as [Kv Hcall]. destruct (exact_difference 1000000000 tsp ssp) as (d & Ed & Nd & Vd); [lia|done|done|].
    unfold ctm_diff. cbn [default]. unfold id. rewrite (diff_same _ _ _ _ _ Ed), !bind_Ok.
    eapply ensures_mono; [apply (Hlast (Some d))|].
    intros [[[rc' d'] l'] s'] (H1 & -> & H2). split_and!; (done || lia).
  - rewrite !bind_Ok. eapply ensures_mono; [apply (Hlast None)|].
    intros [[[rc' d'] l'] s'] (H1 & -> & H2). split_and!; (done || lia).
Qed.

(** clkgtm prints at least what it was asked to sleep, if the sleep was neither
    refused nor interrupted, which the program does not look at: a second or more,
    given in nanoseconds, is always refused, and the status is 0 all the same. *)
Theorem clkgtm_measures a rest s k :
  atol a = Ok k → 0 < k → (∀ w, (clock_gettime w).1 ≠ None) →
  ensures (clkgtm_main (a :: rest) s) (fun '(rc, d, s') => rc = 0 ∧ ∃ t w1,
    d = Some t ∧ norm 1000000000 t ∧ 0 ≤ value 1000000000 t ≤ mono (iow s') - mono (iow s) ∧
    mono (nanosleep 0 k w1).2 - mono w1 ≤ value 1000000000 t ∧
    ((nanosleep 0 k w1).1 = None → k ≤ value 1000000000 t) ∧
    (1000000000 ≤ k → (nanosleep 0 k w1).1 = Some EINVAL)).
Proof.
  intros Ha Hk Hok. cbn [clkgtm_main]. rewrite Ha, bind_Ok, (proj2 (Z.leb_gt k 0)) by lia.
  unfold measure_sec, sys. pose proof (Hok (iow s)) as Hne.
  destruct (clock_gettime (iow s)) as [[t1|] w1] eqn:E1; [|done]. clear Hne.
  apply clock_gettime_law in E1 as [Ho1 Hx]. destruct (Hx _ eq_refl) as [K1 H1]. cbn [iow ioerrno iolog].
  pose proof (ev_time_law w1) as Ho2.
  destruct (nanosleep 0 k (ev_time w1)) as [r w3] eqn:E3. pose proof (nanosleep_law _ _ _ _ _ E3) as (Ho3 & Hs & Hr).
  replace (iow (match r with Some e => _ | None => _ end)) with w3 by (by destruct r).
  cbn [iow ioerrno iolog]. pose proof (ev_time_law w3) as Ho4.
  pose proof (Hok (ev_time w3)) as Hne. destruct (clock_gettime (ev_time w3)) as [[t2|] w5] eqn:E5; [|done]. clear Hne.
  apply clock_gettime_law in E5 as [Ho5 Hy]. destruct (Hy _ eq_refl) as [K2 H2].
  destruct (exact_difference 1000000000 t2 t1) as (d & Ed & Nd & Vd); [lia|done|done|].
  rewrite (timespec_sub_same _ _ _ Ed), bind_Ok. cbn. split; [done|]. exists d, (ev_time w1). rewrite E3.
  unfold onward in *. cbn. split_and!; try done; try lia.
  - intros ->. specialize (Hs eq_refl). lia.
  - intros Hk9. apply Hr. lia.
Qed.
End proofs.

(** ** Runs *)

(** One clock, in nanoseconds, that goes on by 700 with every call. *)
Definition clamp (t : Z) : Z := Z.max 0 (Z.min t (2 ^ 60)).
Definition tick {R} (f : Z → R) (w : Z) : R * Z := let t := clamp w in (f t, t + 700).

#[export] Instance ticker : Clk Z := {|
  gettimeofday := tick (fun t => MkTm (t / 1000000000) (t mod 1000000000 / 1000));
  clock_gettime := tick (fun t => Some (MkTm (t / 1000000000) (t mod 1000000000)));
  clock := tick (fun t => t / 1000);
  times := tick (fun t => Some (t / 10000000, 0));
  time := fun w => (tick (fun _ => tt) w).2;
  sysconf_clk_tck := tick (fun _ => IoOk 100);
  ev_time := fun w => (tick (fun _ => tt) w).2;
  nanosleep := fun s n w =>
    if (s <? 0) || (n <? 0) || (1000000000 <=? n) then (Some EINVAL, w)
    else if 2 ^ 60 <? clamp w + s * 1000000000 + n then (Some EINTR, w)
    else (None, clamp w + s * 1000000000 + n)
|}.

Lemma tick_law {R} (f : Z → R) w r w' :
  tick f w = (r, w') → ∃ t, 0 ≤ t ≤ 2 ^ 60 ∧ t = clamp w ∧ r = f t ∧ clamp w ≤ clamp w'.
Proof. unfold tick, clamp. intros [= <- <-]. eexists. split_and!; [..|done|done|lia]; lia. Qed.

Lemma tick_onward {R} (f : Z → R) w r w' :
  tick f w = (r, w') → onward (fun w => clamp w / 1000) clamp w w'.
Proof. intros (t & _ & _ & _ & H)%tick_law. split; [by apply Z.div_le_mono|done]. Qed.

#[export] Instance ticker_laws : ClkLaws Z.
Proof.
  refine {| wall := fun w => clamp w / 1000; mono := clamp |}.
  - intros w t w' E. pose proof (tick_onward _ _ _ _ E) as [H1 H2]. apply tick_law in E as (x & Hx & -> & -> & _).
    generalize dependent (clamp w). intros x Hx H1 H2. unfold tm_ok, norm, within, value. cbn. split_and!; plia.
  - intros w t w' E. pose proof (tick_onward _ _ _ _ E) as Ho. split; [done|]. intros y ->. destruct Ho as [_ H2].
    apply tick_law in E as (x & Hx & -> & [= ->] & _).
    generalize dependent (clamp w). intros x Hx H2. unfold tm_ok, norm, within, value. cbn. split_and!; plia.
  - intros w c w' E. split; [exact (tick_onward _ _ _ _ E)|]. apply tick_law in E as (x & Hx & -> & -> & _). plia.
  - intros w t w' E. split; [exact (tick_onward _ _ _ _ E)|]. intros u y ->. apply tick_law in E as (x & Hx & -> & [= -> ->] & _). plia.
  - intros w. exact (tick_onward (fun _ => tt) w tt _ eq_refl).
  - intros w r w' E. split; [exact (tick_onward _ _ _ _ E)|]. by apply tick_law in E as (x & Hx & -> & -> & _).
  - intros w. exact (tick_onward (fun _ => tt) w tt _ eq_refl).
  - intros s n w r w'. cbn. destruct (Z.ltb_spec s 0), (Z.ltb_spec n 0), (Z.leb_spec 1000000000 n); cbn [orb];
      try (intros [= <- <-]; split; [split; lia|split; [done|done]]).
    destruct (Z.ltb_spec (2 ^ 60) (clamp w + s * 1000000000 + n)); intros [= <- <-];
      (split; [|split; [|lia]]); [split; lia|done| |intros _; unfold clamp in *; lia].
    assert (clamp w ≤ clamp (clamp w + s * 1000000000 + n)) by (unfold clamp in *; lia).
    split; [by apply Z.div_le_mono|done].
Defined.

(** Three calls, and half a second; a whole second is refused. *)
Example tmcmp_run :
  match tmcmp_main tm_clear [zs "MNT"; zs "3"] (MkIo 0 [] 999999000) with
  | Ok (rc, d, _, _) => rc = 0 ∧ d = Some (MkTm 0 3500)
  | _ => False
  end.
Proof. vm_compute. split; reflexivity. Qed.

Example clkgtm_run :
  match clkgtm_main [zs "500000000"] (MkIo 0 [] 0), clkgtm_main [zs "1000000000"] (MkIo 0 [] 0) with
  | Ok (rc, d, _), Ok (rc', d', _) => rc = 0 ∧ d = Some (MkTm 0 500002100) ∧ rc' = 0 ∧ d' = Some (MkTm 0 2100)
  | _, _ => False
  end.
Proof. vm_compute. split_and!; reflexivity. Qed.

Lemma clock_never_fails w : (clock_gettime (Clk := ticker) w).1 ≠ None.
Proof. done. Qed.

Lemma tmcmp_measures_witness :
  ensures (tmcmp_main tm_clear [zs "gtm"; zs "3"] (MkIo 0 [] 5)) (fun '(rc, d, _, s') =>
    0 ≤ rc ∧ onward wall mono 5 (iow s') ∧
    match d with
    | Some d => norm 1000000 d ∧ 0 ≤ value 1000000 d ≤ wall (iow s') - wall 5
    | None => rc ≠ 0
    end).
Proof.
  eapply ensures_mono; [apply (tmcmp_measures tm_clear (zs "gtm") (zs "3") [] (MkIo 0 [] 5) m_gtm 3)|by intros [[[rc d] l] s']].
  - vm_compute. reflexivity.
  - vm_compute. reflexivity.
  - lia.
  - exact clock_never_fails.
Defined.

Lemma clkgtm_measures_witness :
  ensures (clkgtm_main [zs "500000000"] (MkIo 0 [] 0)) (fun '(rc, d, s') => rc = 0 ∧ ∃ t w1,
    d = Some t ∧ norm 1000000000 t ∧ 0 ≤ value 1000000000 t ≤ mono (iow s') - mono 0 ∧
    mono (nanosleep 0 500000000 w1).2 - mono w1 ≤ value 1000000000 t ∧
    ((nanosleep 0 500000000 w1).1 = None → 500000000 ≤ value 1000000000 t) ∧
    (1000000000 ≤ 500000000 → (nanosleep 0 500000000 w1).1 = Some EINVAL)).
Proof.
  eapply ensures_mono; [apply (clkgtm_measures (zs "500000000") [] (MkIo 0 [] 0) 500000000)|by intros [[rc d] s']].
  - vm_compute. reflexivity.
  - lia.
  - exact clock_never_fails.
Defined.
