(* ===== verification/Ftmspec.v ===== *)
(** * tmtest/ftmspec.c: a floating-point number of seconds as a timespec

    The arithmetic is that of binary64, as specified in the Standard Library
    (SpecFloat): 53 bits of mantissa, rounding to nearest, ties to even.  What
    [atof] makes of the argument is a parameter, any double. *)

From Stdlib Require Import SpecFloat.
From S2P Require Import Prelude Libc.

Definition prec : Z := 53.
Definition emax : Z := 1024.
Definition dbl_sub : spec_float → spec_float → spec_float := SFsub prec emax.
Definition dbl_mul : spec_float → spec_float → spec_float := SFmul prec emax.

(** [floor] of <math.h>. *)
Definition floor (x : spec_float) : spec_float :=
  match x with
  | S754_finite s m e =>
      if 0 <=? e then x
      else binary_normalize prec emax (Z.shiftr (cond_Zopp s (Zpos m)) (- e)) 0 s
  | _ => x
  end.

(** Conversion to a 64-bit integer: towards zero, undefined if it does not fit. *)
Definition to_long (x : spec_float) : res Z :=
  match x with
  | S754_zero _ => Ok 0
  | S754_finite s m e =>
      ck (cond_Zopp s (if 0 <=? e then Zpos m * 2 ^ e else Z.shiftr (Zpos m) (- e)))
  | _ => Ub
  end.

(** 0.0 and 1000000000.0 *)
Definition zero : spec_float := S754_zero false.
Definition billion : spec_float := S754_finite false 8388608000000000 (-23).

(** The exit status, and [tv_sec] and [tv_nsec] as printed; [args] is [argv]
    without the program's name. *)
Definition main (atof : list Z → spec_float) (args : list (list Z)) : res (Z * option (Z * Z)) :=
  match args with
  | [] => Ok (1, None)
  | a :: _ =>
      let dval := atof a in
      if SFleb dval zero then Ok (1, None)
      else
        tv_sec ← to_long (floor dval);
        tv_nsec ← to_long (dbl_mul (dbl_sub dval (floor dval)) billion);
        Ok (0, Some (tv_sec, tv_nsec))
  end.

(** 2.3, 0.99999999999999989 (all bits set), and 2^-1074. *)
Example ftmspec_run :
  main (fun _ => S754_finite false 5179139571476070 (-51)) [[]] = Ok (0, Some (2, 299999999)) ∧
  main (fun _ => S754_finite false 9007199254740991 (-53)) [[]] = Ok (0, Some (0, 999999999)) ∧
  main (fun _ => S754_finite false 1 (-1074)) [[]] = Ok (0, Some (0, 0)).
Proof. vm_compute. split_and!; reflexivity. Qed.

(** ** Values *)

(** Finite doubles are multiples of 2^-1074. *)
Definition unit : Z := 2 ^ 1074.
Definition scaled (x : spec_float) : Z :=
  match x with
  | S754_finite s m e => cond_Zopp s (Zpos m * 2 ^ (e + 1074))
  | _ => 0
  end.

Lemma digits2_log2 p : Zpos (digits2_pos p) = Z.log2 (Zpos p) + 1.
Proof.
  induction p as [p IH|p IH|]; cbn [digits2_pos]; [..|done]; rewrite Pos2Z.inj_succ, IH.
  - change (Zpos p~1) with (2 * Zpos p + 1). rewrite Z.log2_succ_double by done. lia.
  - change (Zpos p~0) with (2 * Zpos p). rewrite Z.log2_double by done. lia.
Qed.

Lemma digits2_bounds p : 2 ^ (Zpos (digits2_pos p) - 1) ≤ Zpos p < 2 ^ Zpos (digits2_pos p).
Proof.
  rewrite digits2_log2. replace (Z.log2 (Zpos p) + 1 - 1) with (Z.log2 (Zpos p)) by lia.
  pose proof (Z.log2_spec (Zpos p) ltac:(done)) as H. by rewrite Z.add_1_r.
Qed.

Lemma digits2_le p n : 0 ≤ n → Zpos p < 2 ^ n → Zpos (digits2_pos p) ≤ n.
Proof.
  intros Hn Hp. pose proof (digits2_bounds p) as [H _].
  destruct (Z.le_gt_cases (Zpos (digits2_pos p)) n); [done|]. exfalso.
  assert (2 ^ n ≤ 2 ^ (Zpos (digits2_pos p) - 1)) by (apply Z.pow_le_mono_r; lia). lia.
Qed.

Lemma fexp_max k : fexp prec emax k = Z.max (k - 53) (-1074).
Proof. done. Qed.

(** A number of at most 53 bits is not rounded. *)
Lemma round_exact s p e :
  Zpos p < 2 ^ 53 → -1074 ≤ e ≤ 971 → binary_round_aux prec emax s (Zpos p) e loc_Exact = S754_finite s p e.
Proof.
  intros Hp He. apply digits2_le in Hp; [|done].
  assert (E : ∀ r, shr r e (fexp prec emax (Zdigits2 (Zpos p) + e) - e) = (r, e)).
  { intros r. rewrite fexp_max. cbn [Zdigits2]. unfold shr. destruct (_ - e) eqn:E; [done| |done]. lia. }
  unfold binary_round_aux, shr_fexp. rewrite E. cbn [shr_record_of_loc loc_of_shr_record shr_m round_nearest_even].
  rewrite E. cbn [shr_m]. by rewrite (proj2 (Z.leb_le e _)) by (unfold emax, prec; lia).
Qed.

Lemma iter_double d m : Zpos (Pos.iter xO m d) = Zpos m * 2 ^ Zpos d.
Proof.
  induction d as [|d IH] using Pos.peano_ind; [cbn; lia|].
  rewrite Pos.iter_succ. change (Zpos (Pos.iter xO m d)~0) with (2 * Zpos (Pos.iter xO m d)). rewrite IH.
  rewrite Pos2Z.inj_succ, Z.pow_succ_r by lia. lia.
Qed.

(** [binary_normalize] of such a number is exact; the exponent is the least that
    leaves 53 bits. *)
Lemma normalize_exact p e b :
  Zpos p < 2 ^ 53 → -1074 ≤ e ≤ 971 →
  ∃ p', binary_normalize prec emax (Zpos p) e b =
      S754_finite false p' (Z.min e (fexp prec emax (Zpos (digits2_pos p) + e))) ∧
    Zpos p' = Zpos p * 2 ^ (e - Z.min e (fexp prec emax (Zpos (digits2_pos p) + e))).
Proof.
  intros Hp He. cbn [binary_normalize]. unfold binary_round, shl_align.
  pose proof (digits2_bounds p) as [_ Hd]. pose proof (digits2_le p 53 ltac:(done) Hp) as Hd53.
  rewrite fexp_max. set (e' := Z.max _ _). assert (He' : -1074 ≤ e' ≤ 971) by lia.
  destruct (e' - e) as [|d|d] eqn:Ed.
  - rewrite round_exact by done. rewrite Z.min_l by lia. exists p. split; [done|]. by rewrite Z.sub_diag, Z.mul_1_r.
  - rewrite round_exact by done. rewrite Z.min_l by lia. exists p. split; [done|]. by rewrite Z.sub_diag, Z.mul_1_r.
  - rewrite Z.min_r by lia. replace (e - e') with (Zpos d) by lia.
    exists (Pos.iter xO p d). rewrite round_exact; [split; [done|apply iter_double]| |done].
    rewrite iter_double. assert (H53 : 2 ^ Zpos (digits2_pos p) * 2 ^ Zpos d ≤ 2 ^ 53).
    { rewrite <- Z.pow_add_r by lia. apply Z.pow_le_mono_r; lia. }
    assert (0 < 2 ^ Zpos d) by (apply Z.pow_pos_nonneg; lia). nia.
Qed.

(** ** Whole seconds and the rest *)

(** A positive double below 2^53: its mantissa and exponent. *)
Lemma canonical m e :
  valid_binary prec emax (S754_finite false m e) = true →
  e = Z.max (Zpos (digits2_pos m) + e - 53) (-1074) ∧ Zpos m < 2 ^ 53 ∧ -1074 ≤ e ≤ 971.
Proof.
  cbn [valid_binary]. unfold bounded, canonical_mantissa. rewrite fexp_max.
  intros [H1%Z.eqb_eq H2%Z.leb_le]%andb_true_iff. unfold emax, prec in H2.
  pose proof (digits2_bounds m) as [_ Hd]. split; [done|]. split; [|lia].
  eapply Z.lt_le_trans; [exact Hd|]. apply Z.pow_le_mono_r; lia.
Qed.

Lemma scaled_parts m e : -1074 ≤ e < 0 →
  Zpos m * 2 ^ (e + 1074) / unit = Zpos m / 2 ^ (- e) ∧
  (Zpos m * 2 ^ (e + 1074)) mod unit = Zpos m mod 2 ^ (- e) * 2 ^ (e + 1074).
Proof.
  intros He. assert (E : unit = 2 ^ (- e) * 2 ^ (e + 1074)).
  { unfold unit. rewrite <- Z.pow_add_r by lia. f_equal. lia. }
  assert (0 < 2 ^ (e + 1074)) by (apply Z.pow_pos_nonneg; lia). assert (0 < 2 ^ (- e)) by (apply Z.pow_pos_nonneg; lia).
  rewrite E. split; [by rewrite Z.div_mul_cancel_r by lia|by rewrite Z.mul_mod_distr_r by lia].
Qed.

(** Conversion of a positive number. *)
Lemma to_long_finite m e :
  -1074 ≤ e → to_long (S754_finite false m e) = ck (Zpos m * 2 ^ (e + 1074) / unit).
Proof.
  intros He. cbn [to_long cond_Zopp]. f_equal. destruct (Z.leb_spec 0 e) as [H|H].
  - rewrite Z.pow_add_r by lia. fold unit. rewrite Z.mul_assoc, Z.div_mul; [done|]. unfold unit. lia.
  - rewrite Z.shiftr_div_pow2 by lia. by rewrite (proj1 (scaled_parts m e ltac:(lia))).
Qed.

(** A number between 1 and 2^53 keeps its exponent when it is rounded down. *)
Lemma floor_whole m e q :
  valid_binary prec emax (S754_finite false m e) = true → e < 0 → Zpos m / 2 ^ (- e) = Zpos q →
  ∃ p, floor (S754_finite false m e) = S754_finite false p e ∧ Zpos p = Zpos q * 2 ^ (- e).
Proof.
  intros (Hc & Hm & He)%canonical Hneg Hq. unfold floor. rewrite (proj2 (Z.leb_gt 0 e)) by lia.
  cbn [cond_Zopp]. rewrite Z.shiftr_div_pow2, Hq by lia.
  assert (Hl : Zpos (digits2_pos q) = Z.max 0 (Zpos (digits2_pos m) - 1 + e) + 1).
  { rewrite !digits2_log2, <- Hq, <- Z.shiftr_div_pow2, Z.log2_shiftr by lia. lia. }
  assert (Hd : Zpos (digits2_pos q) = 53 + e).
  { assert (Hpos : 2 ^ (- e) ≤ Zpos m).
    { destruct (Z.le_gt_cases (2 ^ (- e)) (Zpos m)); [done|]. rewrite Z.div_small in Hq by lia. done. }
    pose proof (digits2_bounds m) as [_ Hb].
    assert (- e < Zpos (digits2_pos m)) by (apply (Z.pow_lt_mono_r_iff 2); lia). lia. }
  destruct (normalize_exact q 0 false) as (p & Ep & Hp); [|lia|].
  { assert (Zpos q ≤ Zpos m); [|lia]. rewrite <- Hq. apply Z.div_le_upper_bound; [apply Z.pow_pos_nonneg; lia|].
    assert (1 ≤ 2 ^ (- e)) by (pose proof (Z.pow_pos_nonneg 2 (- e)); lia). nia. }
  rewrite fexp_max in Ep, Hp. replace (Z.min 0 _) with e in Ep, Hp by lia.
  exists p. rewrite Ep. split; [done|]. by rewrite Hp, Z.sub_0_l.
Qed.

(** The whole seconds, and the rest without rounding. *)
Lemma floor_rest m e :
  valid_binary prec emax (S754_finite false m e) = true → e < 0 →
  let x := S754_finite false m e in
  let F := Zpos m * 2 ^ (e + 1074) mod unit in
  to_long (floor x) = Ok (Zpos m * 2 ^ (e + 1074) / unit) ∧
  ((F = 0 ∧ dbl_sub x (floor x) = S754_zero false) ∨
   ∃ p e', dbl_sub x (floor x) = S754_finite false p e' ∧ Zpos p * 2 ^ (e' + 1074) = F ∧
     Zpos p < 2 ^ 53 ∧ -1074 ≤ e' ≤ 971).
Proof.
  intros Hv Hneg x F. pose proof (canonical _ _ Hv) as (_ & Hm & He).
  destruct (scaled_parts m e ltac:(lia)) as [Eq Er]. subst F. rewrite Eq, Er. clear Eq Er.
  assert (H2 : 0 < 2 ^ (- e)) by (apply Z.pow_pos_nonneg; lia).
  pose proof (Z.div_mod (Zpos m) (2 ^ (- e)) ltac:(lia)) as Hdm. pose proof (Z.mod_pos_bound (Zpos m) _ H2) as Hr.
  destruct (Zpos m / 2 ^ (- e)) as [|q|q] eqn:Hq.
  - subst x. unfold floor. rewrite (proj2 (Z.leb_gt 0 e)), Z.shiftr_div_pow2 by lia. cbn [cond_Zopp]. rewrite Hq.
    split; [done|]. right. exists m, e. split_and!; try done; try lia.
  - destruct (floor_whole m e q Hv Hneg Hq) as (p & Ep & Hp). subst x. rewrite Ep. split.
    + rewrite to_long_finite by lia. rewrite Hp, ck_ok.
      * f_equal. replace (Zpos q * 2 ^ (- e) * 2 ^ (e + 1074)) with (Zpos q * unit); [by apply Z.div_mul|].
        unfold unit. rewrite <- Z.mul_assoc, <- Z.pow_add_r by lia. do 2 f_equal. lia.
      * replace (Zpos q * 2 ^ (- e) * 2 ^ (e + 1074)) with (Zpos q * unit);
          [|unfold unit; rewrite <- Z.mul_assoc, <- Z.pow_add_r by lia; do 2 f_equal; lia].
        rewrite Z.div_mul by done. assert (Zpos q ≤ Zpos m) by nia. lia.
    + unfold dbl_sub. cbn [SFsub]. rewrite Z.min_id. unfold shl_align. rewrite Z.sub_diag. cbn [fst cond_Zopp].
      replace (Zpos m - Zpos p) with (Zpos m mod 2 ^ (- e)) by lia.
      destruct (Zpos m mod 2 ^ (- e)) as [|r|r] eqn:Er; [by left|right|lia].
      destruct (normalize_exact r e false) as (r' & Er' & Hr'); [nia|lia|]. rewrite Er'. eexists r', _. split; [done|].
      rewrite fexp_max in *. set (e' := Z.min e _) in *. assert (He' : -1074 ≤ e' ≤ e) by lia.
      split_and!; [| |lia|lia].
      * rewrite Hr', <- Z.mul_assoc, <- Z.pow_add_r by lia. do 2 f_equal. lia.
      * rewrite Hr'. pose proof (digits2_bounds r) as [_ Hd].
        assert (H53 : 2 ^ Zpos (digits2_pos r) * 2 ^ (e - e') ≤ 2 ^ 53).
        { rewrite <- Z.pow_add_r by lia. apply Z.pow_le_mono_r; [done|].
          assert (Zpos (digits2_pos r) ≤ 53) by (apply digits2_le; [done|nia]). lia. }
        assert (0 < 2 ^ (e - e')) by (apply Z.pow_pos_nonneg; lia). nia.
  - exfalso. assert (0 ≤ Zpos m / 2 ^ (- e)) by (by apply Z.div_pos). lia.
Qed.

(** ** Rounding *)

(** [T] shifted right by [k] bits: the last bit shifted out and whether any bit
    before it is set. *)
Definition shifted (T k : Z) (r : shr_record) : Prop :=
  shr_m r = T / 2 ^ k ∧
  (if k =? 0 then shr_r r = false ∧ shr_s r = false
   else shr_r r = Z.odd (T / 2 ^ (k - 1)) ∧ shr_s r = negb (T mod 2 ^ (k - 1) =? 0)).

Lemma shr_1_odd m r s : 0 ≤ m →
  shr_1 (Build_shr_record m r s) = Build_shr_record (m / 2) (Z.odd m) (r || s).
Proof.
  intros Hm. destruct m as [|[p|p|]|]; try done; try lia; cbn [shr_1 Z.odd].
  - f_equal. apply (Z.div_unique _ _ _ 1); lia.
  - f_equal. apply (Z.div_unique _ _ _ 0); lia.
Qed.

Lemma pow_half k : 0 < k → 2 ^ k = 2 ^ (k - 1) * 2.
Proof. intros Hk. replace k with (k - 1 + 1) at 1 by lia. by rewrite Z.pow_add_r by lia. Qed.

Lemma low_bits T k : 0 ≤ T → 0 < k →
  Z.odd (T / 2 ^ (k - 1)) || negb (T mod 2 ^ (k - 1) =? 0) = negb (T mod 2 ^ k =? 0).
Proof.
  intros HT Hk. pose proof (pow_half k Hk) as E.
  assert (H2 : 0 < 2 ^ (k - 1)) by (apply Z.pow_pos_nonneg; lia).
  rewrite E, Z.rem_mul_r by lia. rewrite Zmod_odd. pose proof (Z.mod_pos_bound T _ H2).
  destruct (Z.odd (T / 2 ^ (k - 1))); cbn [orb].
  - symmetry. apply negb_true_iff, Z.eqb_neq. nia.
  - by rewrite Z.mul_0_r, Z.add_0_r.
Qed.

Lemma shifted_step T k r : 0 ≤ T → 0 ≤ k → shifted T k r → shifted T (k + 1) (shr_1 r).
Proof.
  intros HT Hk [Hm Hr]. destruct r as [m r s]. cbn [shr_m shr_r shr_s] in *.
  assert (0 ≤ m) by (rewrite Hm; apply Z.div_pos; [done|apply Z.pow_pos_nonneg; lia]).
  rewrite shr_1_odd by done. unfold shifted. cbn [shr_m shr_r shr_s].
  rewrite (proj2 (Z.eqb_neq (k + 1) 0)) by lia. rewrite Z.add_simpl_r, <- Hm. split_and!; [|done|].
  - rewrite Hm, Z.div_div by (try apply Z.pow_nonzero; lia). by rewrite Z.pow_add_r by lia.
  - destruct (Z.eqb_spec k 0) as [->|Hk0]; destruct Hr as [-> ->]; [by rewrite Z.mod_1_r|]. apply low_bits; lia.
Qed.

Lemma shifted_iter T p : ∀ k r,
  0 ≤ T → 0 ≤ k → shifted T k r → shifted T (k + Zpos p) (SpecFloat.iter_pos shr_1 p r).
Proof.
  induction p as [p IH|p IH|]; intros k r HT Hk Hr; cbn [SpecFloat.iter_pos]; [..|by apply shifted_step].
  - replace (k + Zpos p~1) with (k + 1 + Zpos p + Zpos p) by lia. repeat apply IH; try lia. by apply shifted_step.
  - replace (k + Zpos p~0) with (k + Zpos p + Zpos p) by lia. by repeat apply IH; try lia.
Qed.

(** Rounding to nearest is off by at most half a unit. *)
Lemma round_half T k r : 0 ≤ T → 0 < k → shifted T k r →
  let m := round_nearest_even (shr_m r) (loc_of_shr_record r) in
  T / 2 ^ k ≤ m ≤ T / 2 ^ k + 1 ∧ m * 2 ^ k ≤ T + 2 ^ (k - 1) ∧ T ≤ m * 2 ^ k + 2 ^ (k - 1).
Proof.
  intros HT Hk [Hm Hr]. rewrite (proj2 (Z.eqb_neq k 0)) in Hr by lia. destruct r as [m rb s]. cbn [shr_m shr_r shr_s] in *.
  destruct Hr as [Hrb Hs]. pose proof (pow_half k Hk) as E.
  assert (H2 : 0 < 2 ^ (k - 1)) by (apply Z.pow_pos_nonneg; lia).
  assert (Hdm : T = m * 2 ^ k + Z.b2z rb * 2 ^ (k - 1) + T mod 2 ^ (k - 1)).
  { rewrite Hm, Hrb, E, <- Z.div_div by lia. pose proof (Z.div_mod T _ (Z.neq_sym _ _ (Z.lt_neq _ _ H2))) as H1.
    pose proof (Z.div_mod (T / 2 ^ (k - 1)) 2 ltac:(done)) as H3. rewrite Zmod_odd in H3.
    destruct (Z.odd _); cbn [Z.b2z]; nia. }
  pose proof (Z.mod_pos_bound T _ H2) as Hlow. rewrite <- Hm.
  destruct (Z.eqb_spec (T mod 2 ^ (k - 1)) 0) as [Hz|Hz]; cbn [negb] in Hs; subst s; destruct rb;
    cbn [loc_of_shr_record round_nearest_even Z.b2z] in *; try (destruct (Z.even m)); nia.
Qed.

Lemma shifted_0 T : shifted T 0 (shr_record_of_loc T loc_Exact).
Proof. split; [by rewrite Z.div_1_r|done]. Qed.

(** The second rounding of [binary_round_aux]: at most 53 bits, or 2^53 itself. *)
Definition rounded (m e : Z) : spec_float :=
  let '(mrs, e') := shr_fexp prec emax m e loc_Exact in
  match shr_m mrs with
  | Z0 => S754_zero false
  | Zpos p => if e' <=? emax - prec then S754_finite false p e' else S754_infinity false
  | Zneg _ => S754_nan
  end.

Lemma rounded_value m e : 0 ≤ m ≤ 2 ^ 53 → -1074 ≤ e < 900 →
  match m with
  | Zpos p => ∃ p' e', rounded m e = S754_finite false p' e' ∧ -1074 ≤ e' ∧
      Zpos p' * 2 ^ (e' + 1074) = Zpos p * 2 ^ (e + 1074)
  | _ => rounded m e = S754_zero false
  end.
Proof.
  intros Hm He. unfold rounded, shr_fexp. rewrite fexp_max. destruct m as [|p|p]; [| |lia].
  - cbn [Zdigits2]. unfold shr. destruct (_ - _) eqn:E0; [done|lia|done].
  - destruct (Z.eq_dec (Zpos p) (2 ^ 53)) as [Ep|Hlt].
    + assert (p = 9007199254740992%positive) as -> by lia. cbn [Zdigits2].
      change (Zpos (digits2_pos 9007199254740992)) with 54.
      replace (Z.max (54 + e - 53) (-1074) - e) with 1 by lia.
      cbn [shr SpecFloat.iter_pos shr_record_of_loc shr_1 shr_m].
      rewrite (proj2 (Z.leb_le _ (emax - prec))) by (unfold emax, prec; lia). eexists _, _. split; [done|].
      split; [lia|]. replace (e + 1 + 1074) with (1 + (e + 1074)) by lia. rewrite (Z.pow_add_r 2 1) by lia. lia.
    + assert (Hd : Zpos (digits2_pos p) ≤ 53) by (apply digits2_le; lia). cbn [Zdigits2]. unfold shr.
      destruct (Z.max _ _ - _) eqn:E0; [|lia|]; cbn [shr_record_of_loc shr_m];
        rewrite (proj2 (Z.leb_le _ (emax - prec))) by (unfold emax, prec; lia);
        exists p, e; (split_and!; [done|lia|done]).
Qed.

(** Rounding of a number with too many bits, or too low ones. *)
Lemma round_value P E : let n := Z.max (Zpos (digits2_pos P) + E - 53) (-1074) - E in
  0 < n → ∃ m, binary_round_aux prec emax false (Zpos P) E loc_Exact = rounded m (n + E) ∧
    0 ≤ m ≤ 2 ^ 53 ∧ m * 2 ^ n ≤ Zpos P + 2 ^ (n - 1) ∧ Zpos P ≤ m * 2 ^ n + 2 ^ (n - 1).
Proof.
  intros n Hn. assert (Hlow : Zpos (digits2_pos P) - 53 ≤ n) by lia. unfold binary_round_aux.
  unfold shr_fexp at 1. rewrite fexp_max. cbn [Zdigits2]. fold n. clearbody n. unfold shr at 1.
  destruct n as [|k|k]; try lia.
  pose proof (shifted_iter (Zpos P) k 0 _ ltac:(done) ltac:(done) (shifted_0 (Zpos P))) as Hr.
  rewrite Z.add_0_l in Hr. destruct (round_half (Zpos P) _ _ ltac:(done) Hn Hr) as (Hb & H1 & H2).
  exists (round_nearest_even (shr_m (SpecFloat.iter_pos shr_1 k (shr_record_of_loc (Zpos P) loc_Exact)))
    (loc_of_shr_record (SpecFloat.iter_pos shr_1 k (shr_record_of_loc (Zpos P) loc_Exact)))).
  split; [by rewrite Z.add_comm|]. split_and!; [..|done|done].
  - assert (0 ≤ Zpos P / 2 ^ Zpos k) by (apply Z.div_pos; lia). lia.
  - pose proof (digits2_bounds P) as [_ Hd]. assert (Zpos P / 2 ^ Zpos k < 2 ^ 53); [|lia].
    apply Z.div_lt_upper_bound; [lia|]. rewrite <- Z.pow_add_r by lia.
    eapply Z.lt_le_trans; [exact Hd|]. apply Z.pow_le_mono_r; lia.
Qed.

(** The product by 10^9, to within 2^-24. *)
Lemma mul_billion p e :
  Zpos p < 2 ^ 53 → -1074 ≤ e → Zpos p * 2 ^ (e + 1074) < unit →
  ∃ V, (dbl_mul (S754_finite false p e) billion = S754_zero false ∧ V = 0 ∨
        ∃ p' e', dbl_mul (S754_finite false p e) billion = S754_finite false p' e' ∧ -1074 ≤ e' ∧
          V = Zpos p' * 2 ^ (e' + 1074)) ∧
    10 ^ 9 * (Zpos p * 2 ^ (e + 1074)) - 2 ^ 1050 ≤ V ≤ 10 ^ 9 * (Zpos p * 2 ^ (e + 1074)) + 2 ^ 1050.
Proof.
  intros Hp He HF. unfold dbl_mul, billion. cbn [SFmul xorb]. set (P := (p * 8388608000000000)%positive).
  assert (HP : Zpos P = Zpos p * 8388608000000000) by lia.
  replace (e + -23) with (e - 23) by lia. pose proof (round_value P (e - 23)) as Hr.
  set (n := Z.max _ _ - _) in Hr. cbn zeta in Hr.
  assert (HPF : Zpos P * 2 ^ (e + 1074) = 10 ^ 9 * (Zpos p * 2 ^ (e + 1074)) * 2 ^ 23) by nia.
  assert (Hdig : Zpos (digits2_pos P) + e ≤ 53).
  { pose proof (digits2_bounds P) as [Hd _].
    assert (H0 : 2 ^ (Zpos (digits2_pos P) - 1) * 2 ^ (e + 1074) < 2 ^ 1127).
    { assert (0 < 2 ^ (e + 1074)) by (apply Z.pow_pos_nonneg; lia).
      apply Z.le_lt_trans with (Zpos P * 2 ^ (e + 1074)); [nia|]. rewrite HPF.
      change (2 ^ 1127) with (2 ^ 30 * unit * 2 ^ 23). lia. }
    rewrite <- Z.pow_add_r in H0 by lia. apply Z.pow_lt_mono_r_iff in H0; lia. }
  destruct (Z.le_gt_cases n 0) as [Hn|Hn].
  - assert (-1074 ≤ e - 23 ∧ Zpos (digits2_pos P) ≤ 53) as [? Hd] by (subst n; lia).
    assert (Zpos P < 2 ^ 53).
    { pose proof (digits2_bounds P) as [_ Hb]. eapply Z.lt_le_trans; [exact Hb|]. apply Z.pow_le_mono_r; lia. }
    exists (Zpos P * 2 ^ (e - 23 + 1074)). split.
    + right. exists P, (e - 23). split_and!; [|lia|done]. apply round_exact; [done|lia].
    + assert (E : Zpos P * 2 ^ (e - 23 + 1074) = 10 ^ 9 * (Zpos p * 2 ^ (e + 1074))); [|lia].
      replace (e + 1074) with (e - 23 + 1074 + 23) by lia. rewrite (Z.pow_add_r 2 (e - 23 + 1074)) by lia. rewrite HP. lia.
  - destruct (Hr Hn) as (m & -> & Hm & H1 & H2). assert (HnE : -1074 ≤ n + (e - 23) ≤ -23) by (subst n; lia).
    clear Hr. clearbody n. exists (m * 2 ^ (n + (e - 23) + 1074)). split.
    + pose proof (rounded_value m (n + (e - 23)) Hm ltac:(lia)) as Hv. destruct m as [|q|q]; [by left| |lia].
      right. destruct Hv as (p' & e' & -> & ? & Hv). by exists p', e'.
    + assert (HV : m * 2 ^ (n + (e - 23) + 1074) * 2 ^ 23 = m * 2 ^ n * 2 ^ (e + 1074)).
      { rewrite <- !Z.mul_assoc, <- !Z.pow_add_r by lia. do 2 f_equal. lia. }
      assert (Hhalf : 2 ^ (n - 1) * 2 ^ (e + 1074) ≤ 2 ^ 1050 * 2 ^ 23).
      { rewrite <- !Z.pow_add_r by lia. apply Z.pow_le_mono_r; lia. }
      assert (0 < 2 ^ (e + 1074)) by (apply Z.pow_pos_nonneg; lia).
      assert (m * 2 ^ n * 2 ^ (e + 1074) ≤ (Zpos P + 2 ^ (n - 1)) * 2 ^ (e + 1074)) by (apply Z.mul_le_mono_nonneg_r; lia).
      assert (Zpos P * 2 ^ (e + 1074) ≤ (m * 2 ^ n + 2 ^ (n - 1)) * 2 ^ (e + 1074)) by (apply Z.mul_le_mono_nonneg_r; lia).
      lia.
Qed.

(** ** The program *)

(** [nsec] nanoseconds for the fraction [F]: truncated, and rounded before that. *)
Definition nanoseconds (F nsec : Z) : Prop :=
  0 ≤ nsec < 10 ^ 9 ∧ 10 ^ 9 * F - unit - 2 ^ 1050 < nsec * unit ≤ 10 ^ 9 * F + 2 ^ 1050.

Lemma nanoseconds_0 : nanoseconds 0 0.
Proof. done. Qed.

(** The greatest double below 1 is 2^-53 below it. *)
Lemma below_unit p e : Zpos p < 2 ^ 53 → -1074 ≤ e → Zpos p * 2 ^ (e + 1074) < unit →
  Zpos p * 2 ^ (e + 1074) ≤ unit - 2 ^ 1021.
Proof.
  intros Hp He HF. destruct (Z.le_gt_cases (-53) e) as [H|H].
  - replace (e + 1074) with (e + 53 + 1021) in * by lia. rewrite Z.pow_add_r in * by lia.
    change unit with (2 ^ 53 * 2 ^ 1021) in *. assert (Zpos p * 2 ^ (e + 53) < 2 ^ 53) by lia. lia.
  - assert (2 ^ (e + 1074) ≤ 2 ^ 1020) by (apply Z.pow_le_mono_r; lia).
    change unit with (2 ^ 53 * 2 ^ 1021). assert (0 < 2 ^ (e + 1074)) by (apply Z.pow_pos_nonneg; lia). nia.
Qed.

Lemma rest_nanoseconds p e :
  Zpos p < 2 ^ 53 → -1074 ≤ e → Zpos p * 2 ^ (e + 1074) < unit →
  ∃ nsec, to_long (dbl_mul (S754_finite false p e) billion) = Ok nsec ∧
    nanoseconds (Zpos p * 2 ^ (e + 1074)) nsec.
Proof.
  intros Hp He HF. destruct (mul_billion p e Hp He HF) as (V & HV & H1 & H2).
  pose proof (below_unit p e Hp He HF) as HF'. set (F := Zpos p * 2 ^ (e + 1074)) in *. clearbody F.
  assert (HV0 : 0 ≤ V).
  { destruct HV as [[_ ->]|(p' & e' & _ & ? & ->)]; [done|]. apply Z.mul_nonneg_nonneg; [done|]. apply Z.pow_nonneg. lia. }
  assert (HVu : V < 10 ^ 9 * unit).
  { assert (2 ^ 1050 < 10 ^ 9 * 2 ^ 1021) by done. lia. }
  assert (Hu : 0 < unit) by done.
  pose proof (Z.div_mod V unit ltac:(lia)) as Hdm. pose proof (Z.mod_pos_bound V unit Hu) as Hm.
  assert (Hn : 0 ≤ V / unit < 10 ^ 9).
  { split; [by apply Z.div_pos|]. by apply Z.div_lt_upper_bound; [|rewrite Z.mul_comm]. }
  exists (V / unit). split.
  - destruct HV as [[-> ->]|(p' & e' & -> & ? & ->)]; [done|]. rewrite to_long_finite by done. rewrite ck_ok; [done|lia].
  - split; [done|]. lia.
Qed.

Lemma positive_splits m e :
  let x := S754_finite false m e in
  let v := scaled x in
  valid_binary prec emax x = true → v < 2 ^ 63 * unit →
  ∃ nsec, to_long (floor x) = Ok (v / unit) ∧ to_long (dbl_mul (dbl_sub x (floor x)) billion) = Ok nsec ∧
    nanoseconds (v mod unit) nsec.
Proof.
  intros x v Hv Hlt. assert (Hu : 0 < unit) by done. subst v. cbn [x scaled cond_Zopp] in *.
  destruct (Z.le_gt_cases 0 e) as [He|He].
  - assert (Ef : floor x = x) by (cbn [floor x]; by rewrite (proj2 (Z.leb_le 0 e))).
    rewrite Ef. exists 0. assert (E : Zpos m * 2 ^ (e + 1074) = Zpos m * 2 ^ e * unit).
    { rewrite Z.pow_add_r by lia. unfold unit. lia. }
    rewrite E in *. rewrite Z.mod_mul by lia. split_and!; [| |apply nanoseconds_0].
    + unfold x. rewrite to_long_finite by lia. rewrite E, ck_ok; [done|]. rewrite Z.div_mul by lia.
      assert (0 < 2 ^ e) by (apply Z.pow_pos_nonneg; lia). split; [lia|]. by apply (Z.mul_lt_mono_pos_r unit).
    + unfold dbl_sub, x. cbn [SFsub]. rewrite Z.min_id. unfold shl_align. rewrite Z.sub_diag. cbn [fst cond_Zopp].
      done.
  - destruct (floor_rest m e Hv He) as [Es Er]. fold x in Es, Er. rewrite Es.
    pose proof (Z.mod_pos_bound (Zpos m * 2 ^ (e + 1074)) unit Hu) as HF.
    destruct Er as [[-> ->]|(p & e' & -> & EF & Hp & He')].
    + exists 0. split_and!; [done|done|apply nanoseconds_0].
    + rewrite <- EF in *. destruct (rest_nanoseconds p e') as (nsec & En & Hn); [done|lia|lia|]. by exists nsec.
Qed.

Lemma positive_too_large m e :
  let x := S754_finite false m e in
  valid_binary prec emax x = true → 2 ^ 63 * unit ≤ scaled x → to_long (floor x) = Ub.
Proof.
  intros x Hv Hge. assert (Hu : 0 < unit) by done. cbn [x scaled cond_Zopp] in Hge.
  pose proof (canonical m e Hv) as (_ & Hm & He). destruct (Z.le_gt_cases 0 e) as [H0|H0].
  - replace (floor x) with x by (cbn [floor x]; by rewrite (proj2 (Z.leb_le 0 e))).
    unfold x. rewrite to_long_finite by lia. unfold ck. rewrite andb_comm.
    by rewrite (proj2 (Z.ltb_ge _ _)) by (apply Z.div_le_lower_bound; lia).
  - exfalso. assert (E : Zpos m * 2 ^ (e + 1074) ≤ 2 ^ 53 * 2 ^ 1074).
    { apply Z.mul_le_mono_nonneg; [done|lia|apply Z.pow_nonneg; lia|apply Z.pow_le_mono_r; lia]. }
    unfold unit in *. lia.
Qed.

Lemma finite_positive s m e : SFleb (S754_finite s m e) zero = s.
Proof. by destruct s. Qed.

(** C39: [ftmspec] turns down a number that is not positive.  Of any other it
    prints the whole seconds and the nanoseconds of the rest, fewer than 10^9:
    those of the exact fraction, rounded by at most 2^-24 and then cut off.  The
    check lets NaN and numbers from 2^63 on pass, whose conversion is undefined. *)
Theorem ftmspec_splits atof a args :
  valid_binary prec emax (atof a) = true →
  match atof a with
  | S754_nan | S754_infinity false => main atof (a :: args) = Ub
  | S754_zero _ | S754_infinity true | S754_finite true _ _ => main atof (a :: args) = Ok (1, None)
  | x => if 2 ^ 63 * unit <=? scaled x then main atof (a :: args) = Ub
         else ∃ nsec, main atof (a :: args) = Ok (0, Some (scaled x / unit, nsec)) ∧
                nanoseconds (scaled x mod unit) nsec
  end.
Proof.
  unfold main. destruct (atof a) as [s|s| |s m e]; intros Hv; try by destruct s.
  - done.
  - rewrite finite_positive. destruct s; [done|].
    destruct (Z.leb_spec (2 ^ 63 * unit) (scaled (S754_finite false m e))) as [H|H].
    + by rewrite positive_too_large.
    + destruct (positive_splits m e Hv H) as (nsec & -> & E & Hn). exists nsec. by rewrite bind_Ok, E.
Qed.

(** 0.75 seconds. *)
Lemma ftmspec_splits_witness :
  let x := S754_finite false 6755399441055744 (-53) in
  valid_binary prec emax x = true ∧
  ∃ nsec, main (fun _ => x) [[]] = Ok (0, Some (scaled x / unit, nsec)) ∧ nanoseconds (scaled x mod unit) nsec.
Proof.
  split; [reflexivity|]. exact (ftmspec_splits (fun _ => S754_finite false 6755399441055744 (-53)) [] [] eq_refl).
Defined.
