(* ===== verification/Fs.v ===== *)
(** * Files by name: the system calls of the relay programs

    The calls fdwatch/frelay.c and writer.c make besides reading and writing, as
    an extension [Fs] of the interface of Fdio.  [view] is what POSIX calls the
    file hierarchy, the files' data and the open file descriptions; [FsLaws]
    says how each call changes it.  [disk] is a system that obeys the laws and
    fails on request. *)

From stdpp Require Import gmap strings.
From S2P Require Import Prelude Libc Fdio.
Local Open Scope Z_scope.

Definition O_RDONLY : Z := 0.
Definition O_WRONLY : Z := 1.
Definition O_CREAT : Z := 64.
Definition O_TRUNC : Z := 512.

Class Fs (W : Type) := {
  fs_os :: Os W;
  (** [open (path, flags, mode)] *)
  fs_open : list Z → Z → Z → W → io_result * W;
  (** the other calls return an error, if any; [fs_rewind] is
      [lseek (fd, 0, SEEK_SET)], [fs_nanosleep] takes seconds and nanoseconds *)
  fs_close : Z → W → option Z * W;
  fs_rewind : Z → W → option Z * W;
  fs_rename : list Z → list Z → W → option Z * W;
  fs_unlink : list Z → W → option Z * W;
  fs_fsync : Z → W → option Z * W;
  fs_nanosleep : Z → Z → W → option Z * W
}.

(** An open file: its file, the position, whether it is open for reading (or
    else for writing). *)
Record fdesc := MkFd { ino : Z; off : nat; rdable : bool }.
Record fsview := MkFs { dir : gmap (list Z) Z; data : gmap Z (list Z); ofd : gmap Z fdesc }.

Definition set_dir (f : gmap (list Z) Z → gmap (list Z) Z) (v : fsview) : fsview :=
  MkFs (f (dir v)) (data v) (ofd v).
Definition set_ofd (f : gmap Z fdesc → gmap Z fdesc) (v : fsview) : fsview :=
  MkFs (dir v) (data v) (f (ofd v)).

(** The bytes of the file a path names. *)
Definition file (p : list Z) (v : fsview) : option (list Z) := i ← dir v !! p; data v !! i.

(** [open] giving the descriptor [fd]; [new] is the file it creates, if any. *)
Definition open_view (p : list Z) (flags fd new : Z) (v : fsview) : fsview :=
  let rd := negb (has flags O_WRONLY) in
  match dir v !! p with
  | Some i =>
      MkFs (dir v) (if has flags O_TRUNC then <[i := []]> (data v) else data v)
        (<[fd := MkFd i 0 rd]> (ofd v))
  | None => MkFs (<[p := new]> (dir v)) (<[new := []]> (data v)) (<[fd := MkFd new 0 rd]> (ofd v))
  end.

(** Calls that write nothing. *)
Definition calm {W} `{OsLaws W} (w w' : W) : Prop :=
  (∀ fd, sink fd w' = sink fd w) ∧ (patience w' ≤ patience w)%nat.

Class FsLaws (W : Type) `{Fs W} := {
  fs_oslaws :: OsLaws W;
  view : W → fsview;
  view_source fd w i o b : ofd (view w) !! fd = Some (MkFd i o true) → data (view w) !! i = Some b →
    source fd w = drop o b;
  view_read fd n w r w' i o : os_read fd n w = (r, w') → 0 ≤ n →
    ofd (view w) !! fd = Some (MkFd i o true) →
    view w' = match r with
              | RdOk d => set_ofd <[fd := MkFd i (o + length d) true]> (view w)
              | RdErr _ => view w
              end;
  (** writing at the end of a file *)
  view_write fd b w r w' i c : os_write fd b w = (r, w') →
    ofd (view w) !! fd = Some (MkFd i (length c) false) → data (view w) !! i = Some c →
    view w' = match r with
              | IoOk n =>
                  let c' := c ++ take (Z.to_nat n) b in
                  MkFs (dir (view w)) (<[i := c']> (data (view w)))
                    (<[fd := MkFd i (length c') false]> (ofd (view w)))
              | IoErr _ => view w
              end;
  open_law p flags mode w r w' : fs_open p flags mode w = (r, w') →
    (patience w' ≤ patience w)%nat ∧
    match r with
    | IoOk fd => 0 ≤ fd ∧ ofd (view w) !! fd = None ∧
        sink fd w' = [] ∧ (∀ fd', fd' ≠ fd → sink fd' w' = sink fd' w) ∧
        (dir (view w) !! p = None → has flags O_CREAT = true) ∧
        ∃ new, data (view w) !! new = None ∧ (∀ q, dir (view w) !! q ≠ Some new) ∧
          view w' = open_view p flags fd new (view w)
    | IoErr e => 0 < e ∧ view w' = view w ∧ (∀ fd, sink fd w' = sink fd w)
    end;
  (** after an error of [close] the descriptor may be open or not *)
  close_law fd w r w' : fs_close fd w = (r, w') → calm w w' ∧
    match r with
    | None => view w' = set_ofd (delete fd) (view w)
    | Some e => 0 < e ∧ (view w' = view w ∨ view w' = set_ofd (delete fd) (view w))
    end;
  rewind_law fd w r w' : fs_rewind fd w = (r, w') → calm w w' ∧
    match r with
    | None => ∃ f, ofd (view w) !! fd = Some f ∧
        view w' = set_ofd <[fd := MkFd (ino f) 0 (rdable f)]> (view w)
    | Some e => 0 < e ∧ view w' = view w
    end;
  (** nothing happens if both paths name the same file *)
  rename_law p q w r w' : fs_rename p q w = (r, w') → calm w w' ∧
    match r with
    | None => ∃ i, dir (view w) !! p = Some i ∧
        (dir (view w) !! q = Some i → view w' = view w) ∧
        (dir (view w) !! q ≠ Some i → view w' = set_dir (fun d => <[q := i]> (delete p d)) (view w))
    | Some e => 0 < e ∧ view w' = view w
    end;
  unlink_law p w r w' : fs_unlink p w = (r, w') → calm w w' ∧
    match r with
    | None => is_Some (dir (view w) !! p) ∧ view w' = set_dir (delete p) (view w)
    | Some e => 0 < e ∧ view w' = view w
    end;
  fsync_law fd w r w' : fs_fsync fd w = (r, w') → calm w w' ∧ view w' = view w ∧
    ∀ e, r = Some e → 0 < e;
  nanosleep_law sec nsec w r w' : fs_nanosleep sec nsec w = (r, w') → calm w w' ∧ view w' = view w ∧
    ∀ e, r = Some e → 0 < e
}.

(** A call on the program's state: 0, or -1 with [errno] set. *)
Definition sys_call {W} (call : W → option Z * W) (s : io W) : Z * io W :=
  match call (iow s) with
  | (None, w) => (0, MkIo (ioerrno s) (iolog s) w)
  | (Some e, w) => (-1, MkIo e (iolog s) w)
  end.

(** [open] on the program's state. *)
Definition open_call {W} `{Fs W} (p : list Z) (flags mode : Z) (s : io W) : Z * io W :=
  match fs_open p flags mode (iow s) with
  | (IoOk fd, w) => (fd, MkIo (ioerrno s) (iolog s) w)
  | (IoErr e, w) => (-1, MkIo e (iolog s) w)
  end.

Lemma sys_call_cases {W} (call : W → option Z * W) s :
  (∃ w, call (iow s) = (None, w) ∧ sys_call call s = (0, MkIo (ioerrno s) (iolog s) w)) ∨
  (∃ e w, call (iow s) = (Some e, w) ∧ sys_call call s = (-1, MkIo e (iolog s) w)).
Proof.
  unfold sys_call. destruct (call (iow s)) as [[e|] w]; [right; by exists e, w|left; by exists w].
Qed.

Lemma calm_refl {W} `{OsLaws W} (w : W) : calm w w.
Proof. by split. Qed.

(** ** What the relay programs share *)

(** A number in decimal; twenty digits are enough for 64 bits. *)
Fixpoint dec (fuel : nat) (n : Z) (acc : list Z) : list Z :=
  match fuel with
  | O => acc
  | S f => if n <? 10 then 48 + n :: acc else dec f (n / 10) (48 + n mod 10 :: acc)
  end.
Definition fmt_06lu (n : Z) : list Z :=
  let d := dec 20 n [] in replicate (6 - length d) 48 ++ d.

Definition PATH_MAX : Z := 4096.

(** The path a file is moved to: [snprintf (newpath, sizeof(newpath)-1, "%s.%06lu", ...)]
    and the assertion on its result. *)
Definition new_name (fpath : list Z) (counter : Z) : res (list Z) :=
  let full := fpath ++ 46 :: fmt_06lu counter in
  _ ← c_assert (zlen full <? PATH_MAX);
  Ok (take (Z.to_nat (PATH_MAX - 2)) full).

Example new_name_12 : new_name [47; 100] 12 = Ok [47; 100; 46; 48; 48; 48; 48; 49; 50].
Proof. reflexivity. Qed.

Lemma length_dec fuel n acc : (length (dec fuel n acc) ≤ fuel + length acc)%nat.
Proof.
  revert n acc. induction fuel as [|f IH]; intros n acc; cbn; [lia|].
  destruct (n <? 10); cbn; [lia|]. etrans; [apply IH|]. cbn. lia.
Qed.

Lemma new_name_ok fpath counter :
  zlen fpath ≤ 4000 → ∃ q, new_name fpath counter = Ok q ∧ fpath ≠ q.
Proof.
  intros Hl. unfold new_name. set (d := fmt_06lu counter).
  assert (Hd : zlen d ≤ 26).
  { subst d. unfold fmt_06lu. pose proof (length_dec 20 counter []) as Hx. cbn [length] in Hx.
    rewrite length_app, length_replicate. lia. }
  rewrite (proj2 (Z.ltb_lt _ _)) by (unfold PATH_MAX; rewrite length_app; cbn [length]; lia).
  eexists. split; [done|]. unfold PATH_MAX. rewrite take_ge by (rewrite length_app; cbn [length]; lia).
  intros E. apply (f_equal length) in E. rewrite length_app in E. cbn in E. lia.
Qed.

(** The static buffer of [transfer] when a program starts. *)
Definition trf_buf0 : list Z := replicate (Z.to_nat (TRFBUF_LIMIT + 1)) 0.
Lemma length_trf_buf0 : zlen trf_buf0 = TRFBUF_LIMIT + 1.
Proof. unfold trf_buf0. by rewrite length_replicate. Qed.
#[global] Opaque trf_buf0.

Section relaying.
Context {W : Type} `{FL : FsLaws W}.
Implicit Types (s : io W) (w : W).

(** [in_fd] reads a file holding [src]; [out_fd] is at the end of another file,
    named [dst], into which it has written everything there is, [out]. *)
Record pair (src dst : list Z) (in_fd out_fd : Z) (out : list Z) w : Prop := {
  pair_in : ∃ i j, i ≠ j ∧ (∃ o, ofd (view w) !! in_fd = Some (MkFd i o true)) ∧
    data (view w) !! i = Some src ∧ ofd (view w) !! out_fd = Some (MkFd j (length out) false) ∧
    data (view w) !! j = Some out ∧ dir (view w) !! dst = Some j;
  pair_sink : sink out_fd w = out
}.

Lemma pair_file src dst in_fd out_fd out w : pair src dst in_fd out_fd out w → file dst (view w) = Some out.
Proof. intros [(i & j & _ & _ & _ & _ & Hj & Hd) _]. unfold file. by rewrite Hd. Qed.

(** Reading and writing keep such a pair. *)
Lemma pair_read src dst in_fd out_fd out n w r w' :
  pair src dst in_fd out_fd out w → 0 ≤ n → os_read in_fd n w = (r, w') → pair src dst in_fd out_fd out w'.
Proof.
  intros [(i & j & Hne & (o & Hi) & Hs & Ho & Hj & Hd) Hk] Hn E.
  assert (Hv := view_read _ _ _ _ _ _ _ E Hn Hi).
  assert (in_fd ≠ out_fd) by (intros ->; rewrite Hi in Ho; by simplify_eq).
  assert (Hk' : sink out_fd w' = sink out_fd w).
  { destruct r as [d|e]; [apply read_ok in E as (_ & _ & _ & E & _); [|done]|apply read_err in E as (_ & _ & E & _)]; done. }
  constructor; [|by rewrite Hk'].
  exists i, j. destruct r as [d|e]; rewrite Hv; cbn; [|split_and!; try done; by exists o].
  split_and!; try done; [|by rewrite lookup_insert_ne].
  eexists. by rewrite lookup_insert_eq.
Qed.

Lemma pair_write src dst in_fd out_fd out b w r w' :
  pair src dst in_fd out_fd out w → os_write out_fd b w = (r, w') →
  ∃ out', pair src dst in_fd out_fd out' w'.
Proof.
  intros [(i & j & Hne & (o & Hi) & Hs & Ho & Hj & Hd) Hk] E.
  assert (Hv := view_write _ _ _ _ _ _ _ E Ho Hj).
  assert (in_fd ≠ out_fd) by (intros ->; rewrite Hi in Ho; by simplify_eq).
  destruct r as [n|e].
  - apply write_ok in E as (_ & _ & E & _). exists (out ++ take (Z.to_nat n) b).
    constructor; [|by rewrite E, Hk]. exists i, j. rewrite Hv. cbn.
    rewrite !lookup_insert_eq, !lookup_insert_ne by done. split_and!; try done. by exists o.
  - apply write_err in E as (_ & E & _). exists out. constructor; [|by rewrite E, Hk].
    exists i, j. rewrite Hv. split_and!; try done. by exists o.
Qed.

(** What is left to read from the source. *)
Lemma pair_source src dst in_fd out_fd out w :
  pair src dst in_fd out_fd out w → ∃ o, source in_fd w = drop o src.
Proof. intros [(i & j & _ & (o & Hi) & Hs & _) _]. exists o. by apply (view_source _ _ i). Qed.

Lemma pair_same src dst in_fd out_fd out w w' :
  pair src dst in_fd out_fd out w → view w' = view w → calm w w' →
  pair src dst in_fd out_fd out w' ∧ source in_fd w' = source in_fd w.
Proof.
  intros [(i & j & Hne & (o & Hi) & Hs & Ho & Hj & Hd) Hk] Hv [Hk' _]. split.
  - constructor; [|by rewrite Hk']. rewrite Hv. exists i, j. split_and!; try done. by exists o.
  - transitivity (drop o src); [|symmetry]; apply (view_source _ _ i); by rewrite ?Hv.
Qed.

(** Reading the source from the start again. *)
Lemma pair_rewind src dst in_fd out_fd out w w' :
  pair src dst in_fd out_fd out w → fs_rewind in_fd w = (None, w') →
  pair src dst in_fd out_fd out w' ∧ source in_fd w' = src ∧ (patience w' ≤ patience w)%nat.
Proof.
  intros [(i & j & Hne & (o & Hi) & Hs & Ho & Hj & Hd) Hk] E.
  apply rewind_law in E as ([Hk' Hp] & f & Hf & Hv). rewrite Hi in Hf. injection Hf as <-. cbn in Hv.
  assert (in_fd ≠ out_fd) by (intros ->; rewrite Hi in Ho; by simplify_eq).
  split_and!; [constructor| |done].
  - exists i, j. rewrite Hv. cbn. rewrite lookup_insert_eq, lookup_insert_ne by done.
    split_and!; try done. by eexists.
  - by rewrite Hk'.
  - rewrite (view_source _ _ i 0%nat src), drop_0; [done| |]; rewrite Hv; cbn; [by rewrite lookup_insert_eq|done].
Qed.

(** Starting: the source exists, and the destination does not name the same file. *)
Lemma pair_open src_path dst_path src flags mode fl m in_fd out_fd w w1 w2 :
  file src_path (view w) = Some src → dir (view w) !! dst_path ≠ dir (view w) !! src_path →
  has fl O_WRONLY = false → has fl O_TRUNC = false → has flags O_WRONLY = true → has flags O_TRUNC = true →
  fs_open src_path fl m w = (IoOk in_fd, w1) → fs_open dst_path flags mode w1 = (IoOk out_fd, w2) →
  pair src dst_path in_fd out_fd [] w2 ∧ source in_fd w2 = src ∧ 0 ≤ in_fd ∧ 0 ≤ out_fd ∧
  (patience w2 ≤ patience w)%nat.
Proof.
  intros Hsrc Hne Hf1 Hf2 Hf3 Hf4 E1 E2. unfold file in Hsrc.
  destruct (dir (view w) !! src_path) as [i|] eqn:Hi; [|done]. cbn in Hsrc.
  apply open_law in E1 as (Hp1 & Hin & Hfree1 & _ & _ & _ & n1 & _ & _ & Hv1).
  apply open_law in E2 as (Hp2 & Hout & Hfree2 & Hk & _ & _ & n2 & Hn2 & _ & Hv2).
  unfold open_view in Hv1. rewrite Hi, Hf1, Hf2 in Hv1. cbn in Hv1.
  assert (Hio : in_fd ≠ out_fd) by (intros <-; rewrite Hv1 in Hfree2; cbn in Hfree2; by rewrite lookup_insert_eq in Hfree2).
  assert (Hw2 : ∃ j, i ≠ j ∧ dir (view w2) !! dst_path = Some j ∧ data (view w2) = <[j := []]> (data (view w1)) ∧
    ofd (view w2) = <[out_fd := MkFd j 0 false]> (ofd (view w1))).
  { unfold open_view in Hv2. rewrite Hf3, Hf4 in Hv2. cbn in Hv2.
    destruct (dir (view w1) !! dst_path) as [j|] eqn:Hj; rewrite Hv2; cbn.
    - exists j. rewrite Hv1 in Hj. cbn in Hj. split_and!; [congruence|by rewrite Hv1|done|done].
    - exists n2. rewrite Hv1 in Hn2. cbn in Hn2. rewrite lookup_insert_eq. split_and!; [congruence|done..]. }
  destruct Hw2 as (j & Hij & Hd & Hda & Ho).
  assert (Hoi : ofd (view w2) !! in_fd = Some (MkFd i 0 true)) by (by rewrite Ho, lookup_insert_ne, Hv1; cbn; rewrite ?lookup_insert_eq).
  assert (Hdi : data (view w2) !! i = Some src) by (by rewrite Hda, lookup_insert_ne, Hv1).
  split_and!; try done; [| |lia].
  - constructor; [|done]. exists i, j. rewrite Hda, Ho, !lookup_insert_eq, !lookup_insert_ne, Hv1 by done. cbn.
    rewrite lookup_insert_eq. split_and!; try done. by eexists.
  - by rewrite (view_source _ _ i 0%nat src), drop_0.
Qed.

(** The destination closed, moved away and opened again; or closed, and opened
    again to be truncated. *)
Lemma pair_reopen src dst in_fd fd out flags mode fd' w w1 w2 :
  pair src dst in_fd fd out w → data (view w1) = data (view w) → ofd (view w1) = delete fd (ofd (view w)) →
  dir (view w1) !! dst = None ∨ (dir (view w1) !! dst = dir (view w) !! dst ∧ has flags O_TRUNC = true) →
  has flags O_WRONLY = true → fs_open dst flags mode w1 = (IoOk fd', w2) →
  pair src dst in_fd fd' [] w2 ∧ source in_fd w2 = source in_fd w ∧ 0 ≤ fd' ∧ (patience w2 ≤ patience w1)%nat.
Proof.
  intros [(i & j & Hne & (o & Hi) & Hs & Ho & Hj & Hd) _] Hda Hof Hdst Hfl E.
  apply open_law in E as (Hp & Hf0 & Hf1 & Hk & _ & _ & new & Hnew & _ & Hv).
  rewrite Hof in Hf1. rewrite Hda in Hnew.
  assert (in_fd ≠ fd) by (intros ->; rewrite Hi in Ho; by simplify_eq).
  assert (Hne1 : fd' ≠ in_fd) by (intros ->; rewrite lookup_delete_ne in Hf1 by done; congruence).
  assert (Hw2 : ∃ j', i ≠ j' ∧ dir (view w2) !! dst = Some j' ∧ data (view w2) = <[j' := []]> (data (view w)) ∧
    ofd (view w2) = <[fd' := MkFd j' 0 false]> (delete fd (ofd (view w)))).
  { unfold open_view in Hv. rewrite Hfl in Hv. cbn in Hv.
    destruct Hdst as [Hdst|[Hdst Htr]]; rewrite Hdst in Hv; [|rewrite Hd, Htr in Hv]; rewrite Hv; cbn.
    - exists new. rewrite lookup_insert_eq, Hda, Hof. split_and!; try done. congruence.
    - exists j. by rewrite Hdst, Hda, Hof. }
  destruct Hw2 as (j' & Hij & Hd2 & Hda2 & Ho2).
  assert (Hi2 : ofd (view w2) !! in_fd = Some (MkFd i o true)) by (by rewrite Ho2, lookup_insert_ne, lookup_delete_ne).
  assert (Hs2 : data (view w2) !! i = Some src) by (by rewrite Hda2, lookup_insert_ne).
  split_and!; try done.
  - constructor; [|done]. exists i, j'. rewrite Hda2, Ho2, !lookup_insert_eq, !lookup_insert_ne, lookup_delete_ne by done.
    split_and!; try done. by exists o.
  - transitivity (drop o src); [|symmetry]; by apply (view_source _ _ i).
Qed.

Lemma pair_unlink src dst in_fd fd out q w w' :
  pair src dst in_fd fd out w → q ≠ dst → fs_unlink q w = (None, w') →
  pair src dst in_fd fd out w' ∧ source in_fd w' = source in_fd w ∧ (patience w' ≤ patience w)%nat.
Proof.
  intros [(i & j & Hne & (o & Hi) & Hs & Ho & Hj & Hd) Hk] Hq E. apply unlink_law in E as ([Hk' Hp] & _ & Hv).
  split_and!; [|transitivity (drop o src); [|symmetry]; apply (view_source _ _ i); by rewrite ?Hv|done].
  constructor; [|by rewrite Hk']. rewrite Hv. exists i, j. cbn. rewrite lookup_delete_ne by done.
  split_and!; try done. by exists o.
Qed.

(** Moving the destination away: it is gone, unless the new path names it too. *)
Lemma pair_rename src dst in_fd fd out q w w' :
  pair src dst in_fd fd out w → fs_rename dst q w = (None, w') →
  data (view w') = data (view w) ∧ ofd (view w') = ofd (view w) ∧
  ((dir (view w) !! q = dir (view w) !! dst ∧ dir (view w') = dir (view w)) ∨
   ∃ j, dir (view w) !! dst = Some j ∧ dir (view w') = <[q := j]> (delete dst (dir (view w)))).
Proof.
  intros [(i & j & _ & _ & _ & _ & _ & Hd) _] E. apply rename_law in E as (_ & j' & Hj' & Hsame & Hv).
  assert (j' = j) as -> by congruence. destruct (decide (dir (view w) !! q = Some j)) as [Hq|Hq].
  - rewrite (Hsame Hq). split_and!; try done. left. by rewrite Hd.
  - rewrite (Hv Hq). split_and!; try done. right. by exists j.
Qed.

Lemma transfer_pair fuel nsendfile count buf src dst in_fd out_fd out s :
  pair src dst in_fd out_fd out (iow s) →
  0 < count → zlen buf = TRFBUF_LIMIT + 1 → (budget TRFBUF_LIMIT s < fuel)%nat →
  ∃ ret d k s' buf',
    transfer fuel nsendfile out_fd in_fd None count 0 buf s = Ok (ret, None, buf', s') ∧
    zlen buf' = zlen buf ∧ source in_fd (iow s) = d ++ source in_fd (iow s') ∧
    pair src dst in_fd out_fd (out ++ take k d) (iow s') ∧
    zlen d ≤ Z.min TRFBUF_LIMIT count ∧ (patience (iow s') ≤ patience (iow s))%nat ∧
    (ioerrno s' = 0 → ret = zlen d ∧ k = length d ∧ (ret = 0 → source in_fd (iow s') = []) ∧
       d = take (Z.to_nat (Z.min TRFBUF_LIMIT count)) (source in_fd (iow s))).
Proof.
  intros HP Hc Hz Hf.
  destruct (transfer_outcome fuel nsendfile out_fd in_fd None count 0 buf s eq_refl ltac:(lia) Hz Hf ltac:(done))
    as (d & s1 & ret & s' & _ & Hl & Hsrc & Hsk & Hp & He & E & _ & Ht). cbn [fmap option_fmap option_map] in E.
  assert (Hcount : wanted count = Z.min TRFBUF_LIMIT count).
  { unfold wanted. rewrite (proj2 (Z.eqb_neq count 0)) by lia. destruct (Z.ltb_spec TRFBUF_LIMIT count); cbn; lia. }
  rewrite Hcount in Hl, He.
  assert (Hw : ∃ k, sink out_fd (iow s') = sink out_fd (iow s) ++ take k d ∧ source in_fd (iow s') = source in_fd (iow s1) ∧
    (patience (iow s') ≤ patience (iow s))%nat ∧ (ioerrno s' = 0 → ret = zlen d ∧ k = length d ∧ ioerrno s1 = 0)).
  { unfold transferred in Ht. destruct ((zlen d =? 0) || negb (ioerrno s1 =? 0))%bool eqn:Eb.
    - destruct Ht as (-> & He1 & Hw). exists 0%nat. rewrite Hw, take_0, app_nil_r, Hsk, <- He1. split_and!; try done.
      intros Hz1. rewrite He1 in Hz1. rewrite Hz1, orb_false_r in Eb. apply Z.eqb_eq in Eb. split_and!; lia.
    - apply orb_false_iff in Eb as [_ Eb%negb_false_iff%Z.eqb_eq].
      destruct Ht as [(-> & _ & Hw1 & Hw2 & Hw3)|(-> & He1 & _ & k & Hk & Hw1 & Hw2 & Hw3)]; [exists (length d)|exists k].
      + rewrite firstn_all, Hw1, Hsk, Hw2. split_and!; (done || lia).
      + rewrite Hw1, Hsk, Hw2. split_and!; (done || lia). }
  destruct Hw as (k & Hw & Hsrc' & Hp' & Hend). exists ret, d, k, s', (patch d buf).
  split; [done|]. split; [rewrite length_patch; unfold TRFBUF_LIMIT in *; lia|]. split; [by rewrite Hsrc'|].
  split_and!; [|done|done|].
  - destruct (transfer_stable (fun w => ∃ out', pair src dst in_fd out_fd out' w) in_fd out_fd
      ltac:(intros ???? []; eauto using pair_read) ltac:(intros ???? []; eauto using pair_write)
      fuel nsendfile count 0 buf s ret _ s' eq_refl ltac:(by exists out) E) as [out' HP'].
    by rewrite <- (pair_sink _ _ _ _ _ _ HP), <- Hw, (pair_sink _ _ _ _ _ _ HP').
  - intros He0. destruct (Hend He0) as (Hr & Hk & Hs1). rewrite Hsrc'.
    assert (Hfull : zlen d = Z.min TRFBUF_LIMIT count ∨ source in_fd (iow s1) = []).
    { destruct He as [(H1 & _)|[(_ & H2 & _)|(_ & H3 & _)]]; [by left|by right|lia]. }
    split_and!; [done|done| |].
    + intros Hr0. destruct Hfull as [Hfull|]; [|done]. unfold TRFBUF_LIMIT in *. lia.
    + rewrite Hsrc. destruct Hfull as [Hfull|Hnil].
      * rewrite <- Hfull, Nat2Z.id. by rewrite take_app_length.
      * rewrite Hnil, app_nil_r, take_ge; [done|lia].
Qed.
Lemma concat_replicate_S {A} k (l : list A) : concat (replicate (S k) l) = concat (replicate k l) ++ l.
Proof. by rewrite replicate_S_end, concat_app; cbn; rewrite app_nil_r. Qed.

(** At the end of the source the program goes back to its start. *)
Lemma rewind_step src dst in_fd fd out s (d : list Z) :
  pair src dst in_fd fd out (iow s) →
  let '(start, s') := if zlen d =? 0 then sys_call (fs_rewind in_fd) s else (0, s) in
  (patience (iow s') ≤ patience (iow s))%nat ∧ pair src dst in_fd fd out (iow s') ∧
  dir (view (iow s')) = dir (view (iow s)) ∧ data (view (iow s')) = data (view (iow s)) ∧
  ((start = 0 ∧ ioerrno s' = ioerrno s ∧
    source in_fd (iow s') = if zlen d =? 0 then src else source in_fd (iow s)) ∨
   (start = -1 ∧ zlen d = 0 ∧ ioerrno s' ≠ 0)).
Proof.
  intros HP. destruct (Z.eqb_spec (zlen d) 0) as [Hd0|Hd0].
  2: { split_and!; try done. by left. }
  destruct (sys_call_cases (fs_rewind in_fd) s) as [(w & E & ->)|(e & w & E & ->)]; cbn.
  - destruct (pair_rewind _ _ _ _ _ _ _ HP E) as (HP' & Hs & Hp).
    apply rewind_law in E as (_ & f & _ & Hv). split_and!; [done|done|by rewrite Hv..|]. by left.
  - apply rewind_law in E as (Hc & He & Hv). rewrite Hv. split_and!; [apply Hc|by eapply pair_same|done|done|].
    right. split_and!; [done|done|lia].
Qed.

Lemma rewind_run src dst in_fd fd old out k s (d : list Z) :
  pair src dst in_fd fd out (iow s) → (d = [] → source in_fd (iow s) = []) →
  old ++ out ++ source in_fd (iow s) = concat (replicate k src) →
  let '(start, s') := if zlen d =? 0 then sys_call (fs_rewind in_fd) s else (0, s) in
  (patience (iow s') ≤ patience (iow s))%nat ∧
  ((start = 0 ∧ ioerrno s' = ioerrno s ∧ pair src dst in_fd fd out (iow s') ∧
    ∃ k', old ++ out ++ source in_fd (iow s') = concat (replicate k' src)) ∨
   (start = -1 ∧ ioerrno s' ≠ 0 ∧ pair src dst in_fd fd out (iow s'))).
Proof.
  intros HP Hd Hk. pose proof (rewind_step _ _ _ _ _ _ d HP) as H0.
  destruct (if zlen d =? 0 then _ else _) as [start s'].
  destruct H0 as (Hp & HP' & _ & _ & [(-> & He & Hs)|(-> & _ & He)]); (split; [done|]); [left|by right].
  split_and!; [done|done|done|]. rewrite Hs. destruct (Z.eqb_spec (zlen d) 0) as [Hd0|_]; [|by exists k].
  destruct d; [|done]. rewrite (Hd eq_refl), app_nil_r in Hk. exists (S k).
  by rewrite concat_replicate_S, <- Hk, <- app_assoc.
Qed.

(** Closing what is open does not clear [errno]. *)
Lemma close_errno fd s (b : bool) :
  ioerrno s ≠ 0 → ioerrno (if b then (sys_call (fs_close fd) s).2 else s) ≠ 0.
Proof.
  intros He. destruct b; [|done].
  destruct (sys_call_cases (fs_close fd) s) as [(w & E & ->)|(e & w & E & ->)]; cbn; [done|].
  apply close_law in E as (_ & E & _). lia.
Qed.

End relaying.

(** ** A concrete system

    Files can be read and written at the end; nobody writes a file that is being
    read.  The script says how the next calls go: [Err e] makes a call fail,
    [Part n] lets a read or a write move [n] bytes only. *)

Definition EBADF : Z := 9.
Definition ENFILE : Z := 23.

Record disk := MkDisk { dfs : fsview; dsink : gmap Z (list Z); dnext : Z; dscript : list event }.

Definition with_fs (f : fsview → fsview) (w : disk) : disk := MkDisk (f (dfs w)) (dsink w) (dnext w) (dscript w).

(** The next event, and the rest of the script. *)
Definition pop (w : disk) : option event * disk :=
  (clean <$> head (dscript w), MkDisk (dfs w) (dsink w) (dnext w) (tail (dscript w))).

Definition limit (ev : option event) (n : Z) : Z :=
  match ev with Some (Part k) => Z.min n k | _ => n end.

(** A call that fails when the script says so. *)
Definition scripted {R} (err : Z → R) (k : option event → disk → R * disk) (w : disk) : R * disk :=
  match pop w with
  | (Some (Err e), w) => (err e, w)
  | (ev, w) => k ev w
  end.

#[global] Arguments scripted : simpl never.

Definition disk_read (fd n : Z) : disk → rd_result * disk :=
  scripted RdErr (fun ev w =>
    match ofd (dfs w) !! fd with
    | Some (MkFd i o true) =>
        match data (dfs w) !! i with
        | Some b =>
            let d := take (Z.to_nat (limit ev n)) (drop o b) in
            (RdOk d, with_fs (set_ofd <[fd := MkFd i (o + length d) true]>) w)
        | None => (RdErr EBADF, w)
        end
    | _ => (RdErr EBADF, w)
    end).

Definition unread (i : Z) (m : gmap Z fdesc) : Prop :=
  map_Forall (fun _ f => ¬ (ino f = i ∧ rdable f = true)) m.

Definition disk_write (fd : Z) (b : list Z) : disk → io_result * disk :=
  scripted IoErr (fun ev w =>
    match ofd (dfs w) !! fd with
    | Some (MkFd i o false) =>
        match data (dfs w) !! i with
        | Some c =>
            if bool_decide (o = length c) && bool_decide (unread i (ofd (dfs w))) then
              let n := limit ev (zlen b) in
              let c' := c ++ take (Z.to_nat n) b in
              let v := MkFs (dir (dfs w)) (<[i := c']> (data (dfs w)))
                         (<[fd := MkFd i (length c') false]> (ofd (dfs w))) in
              (IoOk n, MkDisk v (<[fd := (dsink w !!! fd) ++ take (Z.to_nat n) b]> (dsink w)) (dnext w) (dscript w))
            else (IoErr EBADF, w)
        | None => (IoErr EBADF, w)
        end
    | _ => (IoErr EBADF, w)
    end).

#[export] Instance disk_os : Os disk := {|
  os_write := disk_write;
  os_read := disk_read;
  os_pread := fun _ _ _ w => (RdErr EBADF, w)
|}.

Definition disk_open (p : list Z) (flags mode : Z) : disk → io_result * disk :=
  scripted IoErr (fun _ w =>
    let fd := dnext w in
    if bool_decide (0 ≤ fd ∧ ofd (dfs w) !! fd = None ∧ data (dfs w) !! fd = None ∧
                    map_Forall (fun _ i => i ≠ fd) (dir (dfs w))) then
      if bool_decide (dir (dfs w) !! p = None) && negb (has flags O_CREAT) then (IoErr ENOENT, w)
      else (IoOk fd, MkDisk (open_view p flags fd fd (dfs w)) (<[fd := []]> (dsink w)) (fd + 1) (dscript w))
    else (IoErr ENFILE, w)).

Definition disk_close (fd : Z) : disk → option Z * disk :=
  scripted Some (fun _ w => (None, with_fs (set_ofd (delete fd)) w)).

Definition disk_rewind (fd : Z) : disk → option Z * disk :=
  scripted Some (fun _ w =>
    match ofd (dfs w) !! fd with
    | Some f => (None, with_fs (set_ofd <[fd := MkFd (ino f) 0 (rdable f)]>) w)
    | None => (Some EBADF, w)
    end).

Definition disk_rename (p q : list Z) : disk → option Z * disk :=
  scripted Some (fun _ w =>
    match dir (dfs w) !! p with
    | Some i => (None, if bool_decide (dir (dfs w) !! q = Some i) then w else with_fs (set_dir (fun d => <[q := i]> (delete p d))) w)
    | None => (Some ENOENT, w)
    end).

Definition disk_unlink (p : list Z) : disk → option Z * disk :=
  scripted Some (fun _ w =>
    match dir (dfs w) !! p with
    | Some _ => (None, with_fs (set_dir (delete p)) w)
    | None => (Some ENOENT, w)
    end).

Definition disk_wait : disk → option Z * disk := scripted Some (fun _ w => (None, w)).

#[export] Instance disk_fs : Fs disk := {|
  fs_open := disk_open;
  fs_close := disk_close;
  fs_rewind := disk_rewind;
  fs_rename := disk_rename;
  fs_unlink := disk_unlink;
  fs_fsync := fun _ => disk_wait;
  fs_nanosleep := fun _ _ => disk_wait
|}.

(** *** The laws *)

Definition disk_source (fd : Z) (w : disk) : list Z :=
  match ofd (dfs w) !! fd with
  | Some (MkFd i o true) => match data (dfs w) !! i with Some b => drop o b | None => [] end
  | _ => []
  end.

Definition disk_content (fd : Z) (w : disk) : list Z :=
  match ofd (dfs w) !! fd with Some f => default [] (data (dfs w) !! ino f) | None => [] end.

(** Either the scripted error, or the call on what is left of the script. *)
Lemma scripted_inv {R} (err : Z → R) k w r w' :
  scripted err k w = (r, w') →
  (∃ e, r = err e ∧ 0 < e ∧ dfs w' = dfs w ∧ dsink w' = dsink w ∧
     (length (dscript w') < length (dscript w))%nat) ∨
  (∃ ev w1, k ev w1 = (r, w') ∧ dfs w1 = dfs w ∧ dsink w1 = dsink w ∧ dnext w1 = dnext w ∧
     (length (dscript w1) ≤ length (dscript w))%nat ∧ ∀ n, 0 ≤ n → 0 ≤ limit ev n ≤ n ∧ (0 < n → 0 < limit ev n)).
Proof.
  unfold scripted, pop. destruct w as [v sk nx [|ev sc]]; cbn; intros E.
  - right. eexists None, _. split; [exact E|]. cbn. split_and!; (done || lia).
  - destruct ev as [k0|e]; cbn in E.
    + right. eexists _, _. split; [exact E|]. cbn. split_and!; try done; [lia|]. intros n Hn. cbn. lia.
    + left. injection E as <- <-. exists (Z.max 1 e). cbn. split_and!; try done; lia.
Qed.

(** The calls that return an error or nothing. *)
Lemma scripted_opt k w r w' (Q : fsview → Prop) :
  scripted Some k w = (r, w') →
  (∀ ev w1, dfs w1 = dfs w → match k ev w1 with
     | (None, w2) => Q (dfs w2) ∧ dsink w2 = dsink w1 ∧ dscript w2 = dscript w1
     | (Some e, w2) => 0 < e ∧ w2 = w1 end) →
  (∀ fd, dsink w' !!! fd = dsink w !!! fd) ∧ (length (dscript w') ≤ length (dscript w))%nat ∧
  match r with None => Q (dfs w') | Some e => 0 < e ∧ dfs w' = dfs w end.
Proof.
  intros E Hk. apply scripted_inv in E as [(e & -> & He & Hv & Hs & Hl)|(ev & w1 & E & Hv & Hs & _ & Hl & _)].
  - rewrite Hs. split_and!; (done || lia).
  - specialize (Hk ev w1 Hv). rewrite E in Hk. destruct r as [e|].
    + destruct Hk as [He ->]. rewrite Hs. by split_and!.
    + destruct Hk as (HQ & Hs2 & Hl2). rewrite Hs2, Hl2, Hs. by split_and!.
Qed.

Lemma disk_read_inv fd n w r w' :
  disk_read fd n w = (r, w') →
  dsink w' = dsink w ∧ (length (dscript w') ≤ length (dscript w))%nat ∧
  match r with
  | RdErr e => 0 < e ∧ dfs w' = dfs w ∧ (e = EINTR → (length (dscript w') < length (dscript w))%nat)
  | RdOk d => 0 ≤ n → ∃ i o b m, ofd (dfs w) !! fd = Some (MkFd i o true) ∧ data (dfs w) !! i = Some b ∧
      d = take (Z.to_nat m) (drop o b) ∧ 0 ≤ m ≤ n ∧ (0 < n → 0 < m) ∧
      dfs w' = set_ofd <[fd := MkFd i (o + length d) true]> (dfs w)
  end.
Proof.
  intros E. apply scripted_inv in E as [(e & -> & He & Hv & Hs & Hl)|(ev & w1 & E & Hv & Hs & _ & Hl & Hm)].
  { split_and!; (done || lia). }
  rewrite Hv in E.
  destruct (ofd (dfs w) !! fd) as [[i o []]|] eqn:Ef;
    [destruct (data (dfs w) !! i) as [b|] eqn:Eb|..]; injection E as <- <-; cbn.
  - rewrite Hv. split_and!; try done. intros Hn. specialize (Hm n Hn).
    exists i, o, b, (limit ev n). split_and!; done || lia.
  - split_and!; done.
  - split_and!; done.
  - split_and!; done.
Qed.

Lemma disk_write_inv fd b w r w' :
  disk_write fd b w = (r, w') →
  (length (dscript w') ≤ length (dscript w))%nat ∧
  match r with
  | IoErr e => 0 < e ∧ dfs w' = dfs w ∧ dsink w' = dsink w ∧ (e = EINTR → (length (dscript w') < length (dscript w))%nat)
  | IoOk n => 0 ≤ n ≤ zlen b ∧ (0 < zlen b → 0 < n) ∧
      dsink w' = <[fd := (dsink w !!! fd) ++ take (Z.to_nat n) b]> (dsink w) ∧
      ∃ i c, ofd (dfs w) !! fd = Some (MkFd i (length c) false) ∧ data (dfs w) !! i = Some c ∧
        unread i (ofd (dfs w)) ∧
        let c' := c ++ take (Z.to_nat n) b in
        dfs w' = MkFs (dir (dfs w)) (<[i := c']> (data (dfs w))) (<[fd := MkFd i (length c') false]> (ofd (dfs w)))
  end.
Proof.
  intros E. apply scripted_inv in E as [(e & -> & He & Hv & Hs & Hl)|(ev & w1 & E & Hv & Hs & _ & Hl & Hm)].
  { split_and!; (done || lia). }
  specialize (Hm (zlen b) ltac:(lia)). rewrite Hv, Hs in E.
  destruct (ofd (dfs w) !! fd) as [[i o []]|] eqn:Ef;
    [|destruct (data (dfs w) !! i) as [c|] eqn:Eb|]; try (injection E as <- <-; by split_and!).
  destruct (bool_decide (o = length c) && _) eqn:Eg; injection E as <- <-; [|by split_and!].
  apply andb_true_iff in Eg as [->%bool_decide_eq_true Hu%bool_decide_eq_true].
  cbn. split_and!; try done; try lia. by exists i, c.
Qed.

#[export] Instance disk_oslaws : OsLaws disk.
Proof.
  refine {|
    sink := fun fd w => dsink w !!! fd;
    source := disk_source;
    content := disk_content;
    patience := fun w => length (dscript w)
  |}; cbn.
  - intros fd b w n w' E. apply disk_write_inv in E as (Hl & Hn & Hp & Hs & i & c & Hf & Hd & Hu & Hv).
    rewrite Hs. split_and!; try done; try lia.
    + intros Hb. apply Hp. destruct b; [done|cbn; lia].
    + by rewrite lookup_total_insert_eq.
    + intros fd'. unfold disk_source. rewrite Hv. cbn. destruct (decide (fd' = fd)) as [->|Hne].
      { by rewrite lookup_insert_eq, Hf. }
      rewrite lookup_insert_ne by done. destruct (ofd (dfs w) !! fd') as [[i' o' []]|] eqn:Ef; try done.
      rewrite lookup_insert_ne; [done|]. intros <-. by apply (Hu _ _ Ef).
  - intros fd b w e w' E. apply disk_write_inv in E as (Hl & He & Hv & Hs & Hi).
    rewrite Hs. split_and!; try done. intros fd'. unfold disk_source. by rewrite Hv.
  - intros fd n w d w' E Hn.
    apply disk_read_inv in E as (Hs & Hl & E). destruct (E Hn) as (i & o & b & m & Hf & Hd & -> & Hm & Hm' & Hv).
    unfold disk_source. rewrite Hv, Hf, Hd, Hs. cbn. rewrite lookup_insert_eq, Hd.
    split_and!; try done.
    + rewrite length_take. lia.
    + rewrite <- drop_drop, length_take, length_drop.
      destruct (Nat.le_ge_cases (Z.to_nat m) (length b - o)).
      * rewrite Nat.min_l by lia. by rewrite take_drop.
      * rewrite Nat.min_r, take_ge by (rewrite ?length_drop; lia). rewrite <- length_drop, drop_all. by rewrite app_nil_r.
    + intros Hpos Hnil. specialize (Hm' Hpos). destruct (drop o b) as [|x l]; [done|].
      apply (f_equal length) in Hnil. rewrite length_take in Hnil. cbn in Hnil. lia.
  - intros fd n w e w' E. apply disk_read_inv in E as (Hs & Hl & He & Hv & Hi).
    unfold disk_source. rewrite Hv, Hs. by split_and!.
  - intros fd n off w d w' E. done.
  - intros fd n off w e w' E. injection E as <- <-. by split_and!.
Defined.

#[export] Instance disk_laws : FsLaws disk.
Proof.
  refine {| fs_oslaws := disk_oslaws; view := dfs |}; cbn.
  - intros fd w i o b Hf Hd. unfold disk_source. by rewrite Hf, Hd.
  - intros fd n w r w' i o E Hn Hf. apply disk_read_inv in E as (_ & _ & E).
    destruct r as [d|e]; [|by destruct E as (_ & ? & _)].
    destruct (E Hn) as (i' & o' & b & m & Hf' & _ & _ & _ & _ & Hv). simplify_eq. done.
  - intros fd b w r w' i c E Hf Hd. apply disk_write_inv in E as (_ & E).
    destruct r as [n|e]; [|by destruct E as (_ & ? & _)].
    destruct E as (_ & _ & _ & i' & c' & Hf' & Hd' & _ & Hv). by simplify_eq.
  - intros p fl mode w r w' E.
    apply scripted_inv in E as [(e & -> & He & Hv & Hs & Hl)|(ev & w1 & E & Hv & Hs & Hx & Hl & _)].
    { rewrite Hs. split_and!; (done || lia). }
    cbv zeta in E. rewrite Hv in E.
    case_bool_decide as H1; [|injection E as <- <-; rewrite Hs; by split_and!]. destruct H1 as (H1 & H2 & H3 & H4).
    destruct (_ && _) eqn:Eb; injection E as <- <-; cbn; [rewrite Hs; by split_and!|].
    split_and!; try done.
    + by rewrite lookup_total_insert_eq.
    + intros fd' Hne. by rewrite lookup_total_insert_ne, Hs.
    + intros Hd. rewrite bool_decide_true in Eb by done. by apply negb_false_iff in Eb.
    + exists (dnext w1). split_and!; try done. intros q Hq. by apply (H4 q _ Hq).
  - intros fd w r w' E.
    apply (scripted_opt _ _ _ _ (fun v => v = set_ofd (delete fd) (dfs w))) in E as (H1 & H2 & H3).
    + split; [by split|]. destruct r; [|done]. destruct H3 as [He Hv]. split; [done|by left].
    + intros ev w1 Hv. cbn. by rewrite Hv.
  - intros fd w r w' E.
    apply (scripted_opt _ _ _ _ (fun v => ∃ f, ofd (dfs w) !! fd = Some f ∧
        v = set_ofd <[fd := MkFd (ino f) 0 (rdable f)]> (dfs w))) in E as (H1 & H2 & H3).
    + split; [by split|done].
    + intros ev w1 Hv. rewrite Hv. destruct (ofd (dfs w) !! fd) as [f|] eqn:Ef; [|done].
      cbn. rewrite Hv. split_and!; [by exists f|done|done].
  - intros p q w r w' E.
    apply (scripted_opt _ _ _ _ (fun v => ∃ i, dir (dfs w) !! p = Some i ∧
        (dir (dfs w) !! q = Some i → v = dfs w) ∧
        (dir (dfs w) !! q ≠ Some i → v = set_dir (fun d => <[q := i]> (delete p d)) (dfs w)))) in E as (H1 & H2 & H3).
    + split; [by split|done].
    + intros ev w1 Hv. rewrite Hv. destruct (dir (dfs w) !! p) as [i|] eqn:Ef; [|done].
      case_bool_decide as Hpq; cbn; rewrite ?Hv; split_and!; try done; exists i; by split_and!.
  - intros p w r w' E.
    apply (scripted_opt _ _ _ _ (fun v => is_Some (dir (dfs w) !! p) ∧
        v = set_dir (delete p) (dfs w))) in E as (H1 & H2 & H3).
    + split; [by split|done].
    + intros ev w1 Hv. rewrite Hv. destruct (dir (dfs w) !! p) as [i|] eqn:Ef; [|done].
      cbn. rewrite Hv. by split_and!.
  - intros _ w r w' E. apply (scripted_opt _ _ _ _ (fun v => v = dfs w)) in E as (H1 & H2 & H3); [|by intros ev w1 ->].
    split; [by split|]. destruct r as [e|]; [|done]. destruct H3 as [He Hv]. split; [done|]. by intros ? [= <-].
  - intros _ _ w r w' E. apply (scripted_opt _ _ _ _ (fun v => v = dfs w)) in E as (H1 & H2 & H3); [|by intros ev w1 ->].
    split; [by split|]. destruct r as [e|]; [|done]. destruct H3 as [He Hv]. split; [done|]. by intros ? [= <-].
Defined.

(** *** A disk to run on *)

Definition a_path : list Z := zs "/a".
Definition b_path : list Z := zs "/b".

(** A disk with one file and the given script. *)
Definition one_file (d : list Z) (sc : list event) : io disk :=
  MkIo 0 [] (MkDisk (MkFs {[ a_path := 1 ]} {[ 1 := d ]} ∅) ∅ 10 sc).

Definition no_zero_copy : Z → Z → option Z → Z → Z → io disk → Z * option Z * io disk :=
  fun _ _ off _ _ s => (-1, off, s).
