(* ===== verification/Frelay.v ===== *)
(** * fdwatch/frelay.c: copying a file over and over

    The program copies its source, again from the start whenever it has come to
    the end, and starts the destination anew before it exceeds a limit.  The
    system is the interface of Fs; messages other than those of [perror] are left
    out, and [g_quit] is never set.  The transfer loop is meant to run for ever:
    [turns] gives the state after any number of its turns. *)

From stdpp Require Import gmap strings.
From S2P Require Import Prelude Libc Fdio Fs.
Local Open Scope Z_scope.

Definition MTU_DEFAULT : Z := 1500.
(** [S_IRUSR|S_IWUSR|S_IRGRP|S_IROTH] *)
Definition DST_MODE : Z := 420.
Definition NSEC_IN_MS : Z := 1000000.

Section code.
Context {W : Type} `{Fs W}.
(** The fuel of one transfer, and the system's zero-copy call, not used here. *)
Variable tf : nat.
Variable nsendfile : Z → Z → option Z → Z → Z → io W → Z * option Z * io W.

Definition perror : io W → io W := perror_unless false.

(** The result, the new descriptor and the state. *)
Definition rollover (fpath : list Z) (fd counter : Z) (s : io W) : res (Z * Z * io W) :=
  _ ← c_assert (negb (counter =? 0));
  newpath ← new_name fpath counter;
  let '(r, s) := sys_call (fs_rename fpath newpath) s in
  if -1 =? r then Ok (-1, fd, perror s)
  else
    let '(r, s) := sys_call (fs_fsync fd) s in
    if -1 =? r then Ok (-1, fd, perror s)
    else
      let '(r, s) := sys_call (fs_close fd) s in
      if -1 =? r then Ok (-1, fd, perror s)
      else
        let '(fd, s) := open_call fpath (Z.lor O_WRONLY O_CREAT) DST_MODE s in
        if -1 =? fd then Ok (-1, fd, perror s)
        else
          let '(r, s) := sys_call (fs_unlink newpath) s in
          if -1 =? r then Ok (-1, fd, perror s) else Ok (0, fd, s).

(** The state of the loop: [out_fd], [err], [ntotal], [nrolls], [trf_buf]. *)
Record relay := MkRelay {
  out_fd : Z; err : Z; ntotal : Z; nrolls : Z; trf_buf : list Z; rio : io W
}.

(** The two calls of [open]: [in_fd], [out_fd], [err]. *)
Definition relay_open (src_path dst_path : list Z) (s : io W) : Z * Z * Z * io W :=
  let '(in_fd, s) := open_call src_path O_RDONLY 0 s in
  if -1 =? in_fd then (in_fd, -1, ioerrno s, perror s)
  else
    let '(out_fd, s) := open_call dst_path (Z.lor (Z.lor O_WRONLY O_CREAT) O_TRUNC) DST_MODE s in
    if -1 =? out_fd then (in_fd, out_fd, ioerrno s, perror s) else (in_fd, out_fd, 0, s).

(** One turn of the loop. *)
Definition relay_body (dst_path : list Z) (in_fd ms_delay max_dst_len : Z) (st : relay) :
    res (ctl relay relay) :=
  let chunk_len := MTU_DEFAULT * 10 in
  if negb ((0 <=? in_fd) && (0 <=? out_fd st)) then Ok (Leave st)
  else
    '(nsent, _, buf, s) ← transfer tf nsendfile (out_fd st) in_fd None chunk_len 0 (trf_buf st) (rio st);
    if negb (ioerrno s =? 0) then
      Ok (Leave (MkRelay (out_fd st) (ioerrno s) (ntotal st) (nrolls st) buf (perror s)))
    else
      let '(start, s) := if nsent =? 0 then sys_call (fs_rewind in_fd) s else (0, s) in
      if -1 =? start then
        Ok (Leave (MkRelay (out_fd st) (ioerrno s) (ntotal st) (nrolls st) buf (perror s)))
      else
        total ← ck (ntotal st + nsent);
        let sleep st :=
          let '(r, s) := sys_call (fs_nanosleep (ms_delay `quot` 1000) ((ms_delay `rem` 1000) * NSEC_IN_MS)) (rio st) in
          Ok (Next (MkRelay (out_fd st) (err st) (ntotal st) (nrolls st) (trf_buf st)
                      (if -1 =? r then perror s else s))) in
        if max_dst_len <=? u64 (total + u64 nsent) then
          let rolls := u64 (nrolls st + 1) in
          '(r, fd, s) ← rollover dst_path (out_fd st) rolls s;
          if -1 =? r then Ok (Leave (MkRelay fd (err st) total rolls buf s))
          else sleep (MkRelay fd (err st) 0 rolls buf s)
        else sleep (MkRelay (out_fd st) (err st) total (nrolls st) buf s).

Definition relay_start (src_path dst_path : list Z) (s : io W) : Z * relay :=
  let '(in_fd, fd, e, s) := relay_open src_path dst_path s in
  (in_fd, MkRelay fd e 0 0 trf_buf0 s).

Definition cyclic_file_relay (fuel : nat) (src_path dst_path : list Z) (ms_delay max_dst_len : Z)
    (s : io W) : res (Z * io W) :=
  let '(in_fd, st) := relay_start src_path dst_path s in
  st ← loop fuel (relay_body dst_path in_fd ms_delay max_dst_len) st;
  let s := rio st in
  let s := if 0 <=? out_fd st then (sys_call (fs_close (out_fd st)) s).2 else s in
  let s := if 0 <=? in_fd then (sys_call (fs_close in_fd) s).2 else s in
  Ok (if negb (err st =? 0) then -1 else 0, s).

Definition MIN_DST_SZ : Z := 1024 * 10.

(** [argv] without the program's name. *)
Definition main (fuel : nat) (argv : list (list Z)) (s : io W) : res (Z * io W) :=
  match argv with
  | src :: dst :: delay :: opt =>
      delay_ms ← atol delay;
      if (delay_ms <=? 0) || (3000 <? delay_ms) then Ok (1, s)
      else
        max_dst_len ← match opt with [] => Ok (1024 * 1024 * 10) | m :: _ => atol m end;
        if negb (bool_decide (opt = [])) && (max_dst_len <=? MIN_DST_SZ) then Ok (1, s)
        else cyclic_file_relay fuel src dst delay_ms max_dst_len s
  | _ => Ok (1, s)
  end.

End code.
Arguments relay : clear implicits.

(** ** What the relay is meant to do *)

(** Copying [src] over and over in pieces of 10240 bytes: the destinations that
    were full and have been put away, the present one, and what is left of this
    pass.  At the end of a pass the next turn only goes back to the start. *)
Definition copy_turn (max : Z) (src : list Z) (c : list (list Z) * list Z * list Z) :
    list (list Z) * list Z * list Z :=
  let '(olds, out, rest) := c in
  let piece := take (Z.to_nat TRFBUF_LIMIT) rest in
  let rest := if zlen piece =? 0 then src else drop (Z.to_nat TRFBUF_LIMIT) rest in
  if max <=? zlen (out ++ piece) + zlen piece then (olds ++ [out ++ piece], [], rest)
  else (olds, out ++ piece, rest).
Definition copies (max : Z) (src : list Z) (n : nat) : list (list Z) * list Z * list Z :=
  Nat.iter n (copy_turn max src) ([], [], src).


(** ** What a turn does *)

Section proofs.
Context {W : Type} `{FL : FsLaws W}.
Implicit Types (s : io W) (st : relay W).





















End proofs.

(** ** Runs on a disk *)

(** Two turns: a copy of the file, then back to the start. *)
Example relay_twice :
  match turns 3 (relay_body (Z.to_nat 20000) no_zero_copy b_path 10 1 20000)
          (relay_start a_path b_path (one_file [1; 2; 3] [])).2 with
  | Ok (Next st) => file b_path (dfs (iow (rio st))) = Some [1; 2; 3; 1; 2; 3]
  | _ => False
  end.
Proof. vm_compute. reflexivity. Qed.

(** The second pass reaches the limit. *)
Example copies_rolled : copies 9 [1; 2; 3] 4 = ([[1; 2; 3; 1; 2; 3]], [], [1; 2; 3]).
Proof. vm_compute. reflexivity. Qed.



