(* ===== verification/Writer.v ===== *)
(** * fdwatch/writer.c: the predecessor of frelay

    The same relay with a fixed limit, another order of the calls in [rollover],
    and a total that no rollover resets.  Two calls of [open] create files
    without a mode: its value is a parameter. *)

From stdpp Require Import gmap strings.
From S2P Require Import Prelude Libc Fdio Fs.
Local Open Scope Z_scope.

Definition MTU_DEFAULT : Z := 1500.
Definition MAX_DST_LENGTH : Z := (1024 * 1024) * 20.
Definition NSEC_IN_MS : Z := 1000000.

Section code.
Context {W : Type} `{Fs W}.
Variable tf : nat.
Variable nsendfile : Z → Z → option Z → Z → Z → io W → Z * option Z * io W.
(** What [open] finds where its mode argument should be. *)
Variable nomode : Z.

Definition perror : io W → io W := perror_unless false.

Definition rollover (fpath : list Z) (fd counter : Z) (s : io W) : res (Z * Z * io W) :=
  _ ← c_assert (negb (counter =? 0));
  newpath ← new_name fpath counter;
  let '(r, s) := sys_call (fs_rename fpath newpath) s in
  if -1 =? r then Ok (-1, fd, perror s)
  else
    let '(r, s) := sys_call (fs_close fd) s in
    if -1 =? r then Ok (-1, fd, perror s)
    else
      let fd := -1 in
      let '(r, s) := sys_call (fs_unlink newpath) s in
      if -1 =? r then Ok (-1, fd, perror s)
      else
        let '(fd, s) := open_call fpath (Z.lor (Z.lor O_WRONLY O_CREAT) O_TRUNC) nomode s in
        if -1 =? fd then Ok (-1, fd, perror s) else Ok (0, fd, s).

Record relay := MkRelay {
  out_fd : Z; err : Z; ntotal : Z; nrolls : Z; trf_buf : list Z; rio : io W
}.

Definition relay_open (src_path dst_path : list Z) (s : io W) : Z * Z * Z * io W :=
  let '(in_fd, s) := open_call src_path O_RDONLY 0 s in
  if -1 =? in_fd then (in_fd, -1, ioerrno s, perror s)
  else
    let '(out_fd, s) := open_call dst_path (Z.lor (Z.lor O_WRONLY O_CREAT) O_TRUNC) nomode s in
    if -1 =? out_fd then (in_fd, out_fd, ioerrno s, perror s) else (in_fd, out_fd, 0, s).

Definition relay_body (dst_path : list Z) (in_fd ms_delay : Z) (st : relay) : res (ctl relay relay) :=
  let chunk_len := MTU_DEFAULT in
  if negb ((0 <=? in_fd) && (0 <=? out_fd st)) then Ok (Leave st)
  else
    '(nsent, _, buf, s) ← transfer tf nsendfile (out_fd st) in_fd None chunk_len 0 (trf_buf st) (rio st);
    if negb (ioerrno s =? 0) then
      Ok (Leave (MkRelay (out_fd st) (ioerrno s) (ntotal st) (nrolls st) buf (perror s)))
    else
      let '(start, s) := if nsent =? 0 then sys_call (fs_rewind in_fd) s else (0, s) in
      if -1 =? start then
        Ok (Leave (MkRelay (out_fd st) (ioerrno s) (ntotal st) (nrolls st) buf (perror s)))
      else
        total ← ck (ntotal st + nsent);
        let sleep st :=
          let '(r, s) := sys_call (fs_nanosleep (ms_delay `quot` 1000) ((ms_delay `rem` 1000) * NSEC_IN_MS)) (rio st) in
          Ok (Next (MkRelay (out_fd st) (err st) (ntotal st) (nrolls st) (trf_buf st)
                      (if -1 =? r then perror s else s))) in
        if MAX_DST_LENGTH <=? u64 (u64 total + chunk_len) then
          let rolls := u64 (nrolls st + 1) in
          '(r, fd, s) ← rollover dst_path (out_fd st) rolls s;
          if -1 =? r then Ok (Leave (MkRelay fd (err st) total rolls buf s))
          else sleep (MkRelay fd (err st) total rolls buf s)
        else sleep (MkRelay (out_fd st) (err st) total (nrolls st) buf s).

Definition relay_start (src_path dst_path : list Z) (s : io W) : Z * relay :=
  let '(in_fd, fd, e, s) := relay_open src_path dst_path s in (in_fd, MkRelay fd e 0 0 trf_buf0 s).

Definition cyclic_file_relay (fuel : nat) (src_path dst_path : list Z) (ms_delay : Z) (s : io W) :
    res (Z * io W) :=
  let '(in_fd, st) := relay_start src_path dst_path s in
  st ← loop fuel (relay_body dst_path in_fd ms_delay) st;
  let s := rio st in
  let s := if 0 <=? out_fd st then (sys_call (fs_close (out_fd st)) s).2 else s in
  let s := if 0 <=? in_fd then (sys_call (fs_close in_fd) s).2 else s in
  Ok (if negb (err st =? 0) then -1 else 0, s).

(** [argv] without the program's name. *)
Definition main (fuel : nat) (argv : list (list Z)) (s : io W) : res (Z * io W) :=
  match argv with
  | src :: dst :: delay :: _ =>
      delay_ms ← atol delay;
      if delay_ms <=? 0 then Ok (1, s) else cyclic_file_relay fuel src dst delay_ms s
  | _ => Ok (1, s)
  end.
End code.
Arguments relay : clear implicits.

Section proofs.
Context {W : Type} `{FL : FsLaws W}.
Implicit Types (s : io W) (st : relay W).

Lemma writer_rollover nomode src dst in_fd fd out counter s :
  pair src dst in_fd fd out (iow s) → counter ≠ 0 → zlen dst ≤ 4000 →
  ∃ r fd' s', rollover nomode dst fd counter s = Ok (r, fd', s') ∧ (patience (iow s') ≤ patience (iow s))%nat ∧
    ((r = 0 ∧ ioerrno s' = ioerrno s ∧ 0 ≤ fd' ∧ pair src dst in_fd fd' [] (iow s') ∧
      source in_fd (iow s') = source in_fd (iow s)) ∨
     (r = -1 ∧ 0 < ioerrno s')).
Proof.
  intros HP Hc Hl. unfold rollover.
  rewrite (proj2 (Z.eqb_neq counter 0)) by done. cbn [negb c_assert]. rewrite bind_Ok.
  destruct (new_name_ok dst counter Hl) as (q & -> & Hq). rewrite bind_Ok.
  destruct (sys_call_cases (fs_rename dst q) s) as [(w1 & E1 & ->)|(e & w1 & E1 & ->)];
    pose proof (rename_law _ _ _ _ _ E1) as ([_ Hp1] & H1); cbn [iow ioerrno iolog].
  2: { destruct H1 as [He _]. eexists _, _, _. split; [done|]. cbn. split; [done|]. right. by split. }
  destruct (pair_rename _ _ _ _ _ _ _ _ HP E1) as (Hd1 & Ho1 & Hn1).
  destruct (sys_call_cases (fs_close fd) (MkIo (ioerrno s) (iolog s) w1)) as [(w2 & E2 & ->)|(e & w2 & E2 & ->)];
    apply close_law in E2 as ([_ Hp2] & H2); cbn [iow ioerrno iolog] in *.
  2: { destruct H2 as [He _]. eexists _, _, _. split; [done|]. cbn. split; [lia|]. by right. }
  destruct (sys_call_cases (fs_unlink q) (MkIo (ioerrno s) (iolog s) w2)) as [(w3 & E3 & ->)|(e & w3 & E3 & ->)];
    apply unlink_law in E3 as ([_ Hp3] & H3); cbn [iow ioerrno iolog] in *.
  2: { destruct H3 as [He _]. eexists _, _, _. split; [done|]. cbn. split; [lia|]. by right. }
  destruct H3 as [_ H3]. unfold open_call. cbn [iow ioerrno iolog].
  destruct (fs_open dst _ _ w3) as [[fd'|e] w4] eqn:E4.
  2: { apply open_law in E4 as (Hp4 & He & _). eexists _, _, _. split; [done|]. cbn. split; [lia|]. by right. }
  destruct (pair_reopen src dst in_fd fd out (Z.lor (Z.lor O_WRONLY O_CREAT) O_TRUNC) nomode fd' (iow s) w3 w4 HP)
    as (HP4 & Hs4 & Hf4 & Hp4);
    [by rewrite H3, H2|by rewrite H3, H2; cbn; rewrite Ho1| |done|exact E4|].
  { rewrite H3, H2. cbn. rewrite lookup_delete_ne by done. destruct Hn1 as [[_ ->]|(j & _ & ->)]; [by right|left].
    by rewrite lookup_insert_ne, lookup_delete_eq. }
  rewrite (proj2 (Z.eqb_neq (-1) fd')) by lia.
  eexists _, _, _. split; [done|]. cbn [iow ioerrno]. split; [lia|]. left. by split_and!.
Qed.

(** [ntotal] is all that has ever been copied, [old] of it into destinations that
    have been removed. *)
Record going (src dst : list Z) (in_fd : Z) (p0 m : nat) st : Prop := {
  going_err : err st = 0;
  going_buf : zlen (trf_buf st) = TRFBUF_LIMIT + 1;
  going_out : 0 ≤ out_fd st;
  going_rolls : 0 ≤ nrolls st ∧ nrolls st + Z.of_nat m < 2 ^ 62;
  going_patience : (patience (iow (rio st)) ≤ p0)%nat;
  going_total : ntotal st + MTU_DEFAULT * Z.of_nat m ≤ 2 ^ 62;
  going_stream : ∃ old out k, pair src dst in_fd (out_fd st) out (iow (rio st)) ∧
    ntotal st = zlen (old ++ out) ∧
    (if ntotal st + MTU_DEFAULT <? MAX_DST_LENGTH then old = [] else out = []) ∧
    old ++ out ++ source in_fd (iow (rio st)) = concat (replicate k src)
}.

Definition left_loop (src dst : list Z) st : Prop :=
  (err st ≠ 0 ∧ ioerrno (rio st) ≠ 0 ∧ ∃ old out rest k, file dst (view (iow (rio st))) = Some out ∧
     old ++ out ++ rest = concat (replicate k src)) ∨
  (err st = 0 ∧ ioerrno (rio st) ≠ 0).

Lemma writer_sleep src dst in_fd p0 m st sec nsec :
  going src dst in_fd p0 m st →
  let '(r, s) := sys_call (fs_nanosleep sec nsec) (rio st) in
  going src dst in_fd p0 m
    (MkRelay (out_fd st) (err st) (ntotal st) (nrolls st) (trf_buf st) (if -1 =? r then perror s else s)).
Proof.
  intros [He Hb Ho Hr Hp Ht (old & out & k & HP & Hl & Hm & Hk)].
  destruct (sys_call_cases (fs_nanosleep sec nsec) (rio st)) as [(w & E & ->)|(e & w & E & ->)];
    apply nanosleep_law in E as (Hc & Hv & _); destruct (pair_same _ _ _ _ _ _ _ HP Hv Hc) as [HP' Hs'];
    destruct Hc as [_ Hc]; constructor; cbn; try done; try lia; exists old, out, k; rewrite Hs'; by split_and!.
Qed.

Lemma writer_turn tf nsendfile nomode src dst in_fd ms p0 m st :
  going src dst in_fd p0 (S m) st → 0 ≤ in_fd → zlen dst ≤ 4000 →
  (Z.to_nat TRFBUF_LIMIT + p0 < tf)%nat →
  ensures (relay_body tf nsendfile nomode dst in_fd ms st) (either (going src dst in_fd p0 m) (left_loop src dst)).
Proof.
  intros [He Hb Ho Hr Hp Ht (old & out & k & HP & Hl & Hm & Hk)] Hin Hdst Hf. unfold relay_body.
  rewrite !(proj2 (Z.leb_le 0 _)) by done. cbn [andb negb].
  destruct (transfer_pair tf nsendfile MTU_DEFAULT (trf_buf st) src dst in_fd (out_fd st) out (rio st) HP)
    as (ret & d & n & s1 & buf & -> & Hbuf & Hsrc & HP1 & Hd & Hp1 & Hz); [done|done|unfold budget; lia|].
  rewrite bind_Ok. assert (Hd' : zlen d ≤ MTU_DEFAULT) by lia.
  destruct (Z.eqb_spec (ioerrno s1) 0) as [He1|He1]; cbn [negb].
  2: { left. cbn. split_and!; [done|done|]. exists old, (out ++ take n d), (drop n d ++ source in_fd (iow s1)), k.
       split; [by eapply pair_file|].
       by rewrite <- Hk, Hsrc, <- app_assoc, (app_assoc (take n d)), take_drop. }
  destruct (Hz He1) as (-> & -> & Hnil). rewrite take_ge in HP1 by done.
  assert (Hk1 : old ++ (out ++ d) ++ source in_fd (iow s1) = concat (replicate k src))
    by (by rewrite <- Hk, Hsrc, <- app_assoc).
  pose proof (rewind_run src dst in_fd (out_fd st) old (out ++ d) k s1 d HP1 ltac:(by intros ->; apply Hnil) Hk1) as Hrw.
  destruct (if zlen d =? 0 then _ else _) as [start s2]. destruct Hrw as [Hp2 [(-> & He2 & HP2 & k' & Hk')|(-> & He2 & HP2)]].
  2: { left. cbn. split_and!; [done|done|]. exists old, (out ++ d), (source in_fd (iow s1)), k.
       split; [by eapply pair_file|done]. }
  assert (Htot : ntotal st + zlen d = zlen (old ++ out ++ d)) by (rewrite Hl, !length_app; lia).
  cbn [Z.eqb]. unfold MTU_DEFAULT, MAX_DST_LENGTH in *. rewrite ck_ok, bind_Ok by lia.
  rewrite (wrap_small 64 (_ + zlen d)), (wrap_small 64 (_ + _)) by lia.
  destruct (Z.leb_spec (1024 * 1024 * 20) (ntotal st + zlen d + 1500)) as [Hroll|Hroll].
  - rewrite wrap_small by lia.
    destruct (writer_rollover nomode src dst in_fd (out_fd st) (out ++ d) (nrolls st + 1) s2 HP2)
      as (r & fd' & s3 & -> & Hp3 & [(-> & He3 & Hfd & HP3 & Hs3)|(-> & He3)]); [lia|done|..]; rewrite bind_Ok.
    2: { right. cbn. split; [done|lia]. }
    assert (HG : going src dst in_fd p0 m (MkRelay fd' (err st) (ntotal st + zlen d) (nrolls st + 1) buf s3)).
    { constructor; cbn; [done|lia|lia|lia|lia|unfold MTU_DEFAULT; lia|]. exists (old ++ out ++ d), [], k'. rewrite Hs3.
      rewrite app_nil_r, (proj2 (Z.ltb_ge _ _)) by (unfold MTU_DEFAULT, MAX_DST_LENGTH; lia).
      split_and!; try done. by rewrite <- Hk', <- !app_assoc. }
    apply (writer_sleep _ _ _ _ _ _ (ms `quot` 1000) (ms `rem` 1000 * NSEC_IN_MS)) in HG.
    cbn [Z.eqb Z.compare Z.opp Pos.compare rio] in *. by destruct (sys_call _ s3).
  - assert (HG : going src dst in_fd p0 m (MkRelay (out_fd st) (err st) (ntotal st + zlen d) (nrolls st) buf s2)).
    { constructor; cbn; [done|lia|lia|lia|lia|unfold MTU_DEFAULT; lia|]. exists old, (out ++ d), k'.
      rewrite (proj2 (Z.ltb_lt (ntotal st + 1500) _)) in Hm by lia.
      rewrite (proj2 (Z.ltb_lt _ _)) by (unfold MTU_DEFAULT, MAX_DST_LENGTH; lia). by split_and!. }
    apply (writer_sleep _ _ _ _ _ _ (ms `quot` 1000) (ms `rem` 1000 * NSEC_IN_MS)) in HG.
    cbn [Z.eqb Z.compare rio] in *. by destruct (sys_call _ s2).
Qed.

(** C36: writer copies its source faithfully only into a file that it destroys.
    The destination holds everything copied so far until the total comes
    within one chunk of the limit.  From then on, since no rollover resets the
    total, every turn ends with a rollover that removes it: the
    destination is empty after every turn, for ever. *)
Theorem writer_keeps_nothing tf nsendfile nomode n src_path dst_path ms src s in_fd st :
  file src_path (view (iow s)) = Some src → dir (view (iow s)) !! dst_path ≠ dir (view (iow s)) !! src_path →
  relay_start nomode src_path dst_path s = (in_fd, st) → 0 ≤ in_fd → 0 ≤ out_fd st →
  zlen dst_path ≤ 4000 → Z.of_nat n < 2 ^ 50 → (budget TRFBUF_LIMIT s < tf)%nat →
  ensures (turns n (relay_body tf nsendfile nomode dst_path in_fd ms) st)
    (either (fun st' => ∃ old out k, file dst_path (view (iow (rio st'))) = Some out ∧
               old ++ out ++ source in_fd (iow (rio st')) = concat (replicate k src) ∧
               ntotal st' = zlen (old ++ out) ∧
               (if ntotal st' + MTU_DEFAULT <? MAX_DST_LENGTH then old = [] else out = []))
            (left_loop src dst_path)).
Proof.
  intros Hsrc Hne E Hin Hout Hdst Hn Hf. unfold relay_start, relay_open, open_call in E.
  destruct (fs_open src_path _ _ _) as [[fd1|e] w1] eqn:E1; [|injection E as <- <-; cbn in Hin; lia].
  pose proof (open_law _ _ _ _ _ _ E1) as [_ [Hfd1 _]].
  cbn [iow ioerrno iolog] in E. rewrite (proj2 (Z.eqb_neq (-1) fd1)) in E by lia.
  destruct (fs_open dst_path _ _ _) as [[fd2|e] w2] eqn:E2; [|injection E as <- <-; cbn in Hout; lia].
  pose proof (open_law _ _ _ _ _ _ E2) as [_ [Hfd2 _]].
  rewrite (proj2 (Z.eqb_neq (-1) fd2)) in E by lia. injection E as <- <-.
  destruct (pair_open _ _ _ (Z.lor (Z.lor O_WRONLY O_CREAT) O_TRUNC) nomode O_RDONLY 0 _ _ _ _ _ Hsrc Hne eq_refl eq_refl eq_refl eq_refl E1 E2)
    as (HP & Hs & _ & _ & Hp).
  eapply ensures_mono; [apply (turns_inv (going src dst_path fd1 (patience (iow s))) (left_loop src dst_path))|].
  - intros m t Ht. by apply writer_turn.
  - constructor; cbn [err trf_buf out_fd nrolls rio iow ntotal]; [done|apply length_trf_buf0|done|lia|lia|unfold MTU_DEFAULT; lia|].
    exists [], [], 1%nat. rewrite Hs. split_and!; try done. cbn. by rewrite app_nil_r.
  - intros [t|r]; cbn; [|done]. intros [_ _ _ _ _ _ (old & out & k & HP' & Hl & Hm & Hk)].
    exists old, out, k. split_and!; [by eapply pair_file|done..].
Qed.
End proofs.

(** ** Runs on a disk *)

(** One turn short of the limit, and the two turns after it: [(ntotal, length of the
    destination)].  The total is set, so as not to copy 20 megabytes. *)
Example writer_at_the_limit :
  let '(in_fd, st) := relay_start 0 a_path b_path (one_file (replicate 4000 7) []) in
  let run n st := turns n (relay_body (Z.to_nat 20000) no_zero_copy 0 b_path in_fd 1) st in
  let seen r := match r with
                | Ok (Next st') => Some (ntotal st', length <$> file b_path (dfs (iow (rio st'))))
                | _ => None
                end in
  let st := MkRelay (out_fd st) 0 (MAX_DST_LENGTH - 3500) 0 (trf_buf st) (rio st) in
  (seen (run 1%nat st), seen (run 2%nat st), seen (run 3%nat st)) =
  (Some (MAX_DST_LENGTH - 2000, Some 1500%nat), Some (MAX_DST_LENGTH - 500, Some 0%nat),
   Some (MAX_DST_LENGTH + 500, Some 0%nat)).
Proof. vm_compute. reflexivity. Qed.

Lemma writer_keeps_nothing_witness :
  let s := one_file [1; 2; 3] [Part 5; Part 5; Part 2; Err EINTR] in
  let '(in_fd, st) := relay_start 0 a_path b_path s in
  ensures (turns 4 (relay_body (Z.to_nat 20000) no_zero_copy 0 b_path in_fd 1) st)
    (either (fun st' => ∃ old out k, file b_path (view (iow (rio st'))) = Some out ∧
               old ++ out ++ source in_fd (iow (rio st')) = concat (replicate k [1; 2; 3]) ∧
               ntotal st' = zlen (old ++ out) ∧
               (if ntotal st' + MTU_DEFAULT <? MAX_DST_LENGTH then old = [] else out = []))
            (left_loop [1; 2; 3] b_path)).
Proof.
  intros s. destruct (relay_start 0 a_path b_path s) as [in_fd st] eqn:E.
  refine (writer_keeps_nothing (Z.to_nat 20000) no_zero_copy 0 4 a_path b_path 1 [1; 2; 3] s in_fd st _ _ _ _ _ _ _ _).
  - vm_compute. reflexivity.
  - vm_compute. discriminate.
  - exact E.
  - apply (f_equal fst) in E. cbn [fst] in E. rewrite <- E. vm_compute. discriminate.
  - apply (f_equal (fun r => out_fd r.2)) in E. cbn [snd] in E. rewrite <- E. vm_compute. discriminate.
  - vm_compute. discriminate.
  - lia.
  - unfold budget, TRFBUF_LIMIT. cbn [patience fs_oslaws disk_laws disk_oslaws iow s one_file dscript length]. lia.
Defined.
