(* ===== verification/Kq.v ===== *)
(** * kqueue: the system calls of the file watchers

    fdwatch/reader.c, evrdr.c and kqfile.c wait for events on files with BSD's
    kqueue.  [Kq] is the interface they use, [KqLaws] its documented behaviour:
    events come from registered descriptors, at most as many as asked for, and
    while the program waits the files it reads can only grow.  [KqTrace] is the
    record of the calls made, with which the watchers' output is compared:
    [reading] and [answered] say which reads serve a batch of events.  [watch] is
    a system with scripted events. *)

From stdpp Require Import gmap strings.
From S2P Require Import Prelude Libc Fdio.
Local Open Scope Z_scope.

(** [struct kevent]; FreeBSD's constants. *)
Record kevent := MkEv { ident : Z; filter : Z; kflags : Z; fflags : Z; kdata : Z; udata : Z }.

Definition EVFILT_READ : Z := -1.
Definition EVFILT_VNODE : Z := -4.
Definition EV_ADD : Z := 1.
Definition EV_CLEAR : Z := 32.
Definition NOTE_DELETE : Z := 1.
Definition NOTE_WRITE : Z := 2.
Definition NOTE_EXTEND : Z := 4.
Definition NOTE_ATTRIB : Z := 8.
Definition NOTE_LINK : Z := 16.
Definition NOTE_RENAME : Z := 32.
Definition NOTE_REVOKE : Z := 64.

Definition O_RDONLY : Z := 0.
Definition O_NONBLOCK : Z := 4.
Definition O_CREAT : Z := 512.

Class Kq (W : Type) := {
  kq_os :: Os W;
  (** [open (path, flags, mode)], [close], [lseek (fd, 0, SEEK_END)] *)
  kq_open : list Z → Z → Z → W → io_result * W;
  kq_close : Z → W → option Z * W;
  kq_seek_end : Z → W → option Z * W;
  kq_kqueue : W → io_result * W;
  (** [kevent (kq, &ke, 1, NULL, 0, NULL)] *)
  kq_change : Z → kevent → W → option Z * W;
  (** [kevent (kq, NULL, 0, ev, n, timeout)]: the events, or an error *)
  kq_wait : Z → Z → option Z → W → (list kevent + Z) * W;
  kq_usleep : Z → W → W
}.

(** The program's reads and writes do not depend on the call. *)
Definition still {W} `{OsLaws W} (w w' : W) : Prop :=
  (∀ fd, source fd w' = source fd w) ∧ (∀ fd, sink fd w' = sink fd w) ∧ (patience w' ≤ patience w)%nat.

Class KqLaws (W : Type) `{Kq W} := {
  kq_oslaws :: OsLaws W;
  (** the descriptors registered with a queue *)
  watched : Z → W → gset Z;
  watched_read fd n w r w' kq : os_read fd n w = (r, w') → watched kq w' = watched kq w;
  watched_write fd b w r w' kq : os_write fd b w = (r, w') → watched kq w' = watched kq w;
  kopen_law p flags mode w r w' : kq_open p flags mode w = (r, w') →
    (∀ kq, watched kq w' = watched kq w) ∧ (∀ fd, sink fd w' = sink fd w) ∧ (patience w' ≤ patience w)%nat ∧
    match r with
    | IoOk fd => 0 ≤ fd < 2 ^ 31 ∧ ∀ fd', fd' ≠ fd → source fd' w' = source fd' w
    | IoErr e => 0 < e ∧ ∀ fd, source fd w' = source fd w
    end;
  kclose_law fd w r w' : kq_close fd w = (r, w') →
    (∀ fd, sink fd w' = sink fd w) ∧ (patience w' ≤ patience w)%nat ∧
    (∀ fd', fd' ≠ fd → source fd' w' = source fd' w) ∧
    match r with
    | None => ∀ kq, watched kq w' = watched kq w ∖ {[ fd ]}
    | Some e => 0 < e ∧ ∀ kq, watched kq w' ⊆ watched kq w
    end;
  kseek_law fd w r w' : kq_seek_end fd w = (r, w') →
    (∀ kq, watched kq w' = watched kq w) ∧ (∀ fd, sink fd w' = sink fd w) ∧ (patience w' ≤ patience w)%nat ∧
    (∀ fd', fd' ≠ fd → source fd' w' = source fd' w) ∧
    match r with None => source fd w' = [] | Some e => 0 < e ∧ source fd w' = source fd w end;
  kqueue_law w r w' : kq_kqueue w = (r, w') → still w w' ∧
    match r with IoOk kq => 0 ≤ kq ∧ watched kq w' = ∅ | IoErr e => 0 < e end;
  change_law kq ke w r w' : kq_change kq ke w = (r, w') → still w w' ∧
    match r with
    | None => watched kq w' = {[ ident ke ]} ∪ watched kq w
    | Some e => 0 < e ∧ watched kq w' = watched kq w
    end;
  wait_law kq n t w r w' : kq_wait kq n t w = (r, w') → 0 ≤ n →
    watched kq w' = watched kq w ∧ (∀ fd, source fd w `prefix_of` source fd w') ∧
    (∀ fd, sink fd w' = sink fd w) ∧ (patience w' ≤ patience w)%nat ∧
    match r with
    | inl evs => zlen evs ≤ n ∧ Forall (fun e => ident e ∈ watched kq w) evs
    | inr e => 0 < e
    end;
  usleep_law n w : still w (kq_usleep n w) ∧ ∀ kq, watched kq (kq_usleep n w) = watched kq w
}.

(** A call with its result; a wait also with the bytes each file has gained
    during it, [close] with what was still to be read, and a successful [open] with
    what there is to read. *)
Inductive call :=
| CRead (fd n : Z) (r : rd_result)
| CQueue (r : io_result)
| CChange (kq : Z) (ke : kevent) (r : option Z)
| CWait (kq n : Z) (t : option Z) (r : list kevent + Z) (more : Z → list Z)
| CClose (fd : Z) (r : option Z) (rest : list Z)
| COpen (path : list Z) (flags mode : Z) (r : io_result) (avail : list Z).

(** The calls made so far. *)
Class KqTrace (W : Type) `{KqLaws W} := {
  trace : W → list call;
  trace_read fd n w r w' : os_read fd n w = (r, w') → trace w' = trace w ++ [CRead fd n r];
  trace_kqueue w r w' : kq_kqueue w = (r, w') → trace w' = trace w ++ [CQueue r];
  trace_change kq ke w r w' : kq_change kq ke w = (r, w') → trace w' = trace w ++ [CChange kq ke r];
  trace_wait kq n t w r w' : kq_wait kq n t w = (r, w') → ∃ more,
    trace w' = trace w ++ [CWait kq n t r more] ∧ ∀ fd, source fd w' = source fd w ++ more fd;
  trace_close fd w r w' : kq_close fd w = (r, w') → trace w' = trace w ++ [CClose fd r (source fd w)];
  trace_open p flags mode w r w' : kq_open p flags mode w = (r, w') →
    trace w' = trace w ++ [COpen p flags mode r (match r with IoOk fd => source fd w' | IoErr _ => [] end)]
}.

(** [perror], and calls with [errno]. *)
Definition perror {W} : io W → io W := perror_unless false.
Definition call0 {W} (call : W → option Z * W) (s : io W) : Z * io W :=
  match call (iow s) with
  | (None, w) => (0, MkIo (ioerrno s) (iolog s) w)
  | (Some e, w) => (-1, MkIo e (iolog s) w)
  end.
Definition call_fd {W} (call : W → io_result * W) (s : io W) : Z * io W :=
  match call (iow s) with
  | (IoOk fd, w) => (fd, MkIo (ioerrno s) (iolog s) w)
  | (IoErr e, w) => (-1, MkIo e (iolog s) w)
  end.
Definition wait_call {W} `{Kq W} (kq n : Z) (t : option Z) (s : io W) : option (list kevent) * io W :=
  match kq_wait kq n t (iow s) with
  | (inl evs, w) => (Some evs, MkIo (ioerrno s) (iolog s) w)
  | (inr e, w) => (None, MkIo e (iolog s) w)
  end.

(** The options of reader.c and evrdr.c. *)
Record cliopt := MkOpt { print : bool; tmout_sec : Z }.
Definition lopts : list (list Z * Z * bool) := [(zs "print", 112, false); (zs "timeout", 116, true)].

(** One turn of the option loop: none for [usage_exit]. *)
Definition set_opt (g : cliopt) (o : Z * list Z) : res (option cliopt) :=
  let '(c, optarg) := o in
  if c =? 112 then Ok (Some (MkOpt true (tmout_sec g)))
  else if c =? 116 then
    lval ← atol optarg;
    Ok (if lval <=? 0 then None else Some (MkOpt (print g) lval))
  else Ok None.

Fixpoint opt_loop (g : cliopt) (opts : list (Z * list Z)) : res (option cliopt) :=
  match opts with
  | [] => Ok (Some g)
  | o :: opts' =>
      g' ← set_opt g o;
      match g' with Some g' => opt_loop g' opts' | None => Ok None end
  end.

(** The options and the file, or none after [usage_exit]. *)
Definition parse_args (args : list (list Z)) : res (option (cliopt * list Z)) :=
  match args with
  | [] => Ok None
  | _ =>
      let '(opts, operands) := getopt_long (zs "pt:") lopts args in
      g ← opt_loop (MkOpt false 0) opts;
      Ok (match g, operands with Some g, fname :: _ => Some (g, fname) | _, _ => None end)
  end.

Example parse_args_both :
  parse_args [zs "file"; zs "--time=7"; zs "-p"] = Ok (Some (MkOpt true 7, zs "file")).
Proof. reflexivity. Qed.
Example parse_args_bad : parse_args [zs "-t"; zs "0"; zs "file"] = Ok None.
Proof. reflexivity. Qed.

(** ** One read into a zeroed buffer *)

Section chunk.
Context {W : Type} `{KL : KqLaws W}.

(** A NUL stored behind a chunk put into the zeroed buffer. *)
Lemma aset_patch_nul d n :
  zlen d < Z.of_nat n →
  ∃ buf, aset (patch d (replicate n 0)) (zlen d) 0 = Ok buf ∧ c_str buf = c_str d.
Proof.
  intros Hl. rewrite aset_patch by (rewrite ?length_replicate; lia). eexists. split; [done|].
  unfold patch. rewrite <- app_assoc. apply c_str_app_nul.
Qed.

Lemma nread_chunk rf n fd len (s : io W) :
  0 < len < Z.of_nat n → (n + patience (iow s) < rf)%nat →
  ∃ d s', nread rf fd (replicate n 0) len 0 s = Ok (zlen d, patch d (replicate n 0), s') ∧
    zlen d ≤ len ∧ source fd (iow s) = d ++ source fd (iow s') ∧
    (patience (iow s') ≤ patience (iow s))%nat ∧
    (∀ kq, watched kq (iow s') = watched kq (iow s)) ∧
    ∃ buf, aset (patch d (replicate n 0)) (zlen d) 0 = Ok buf ∧ c_str buf = c_str d.
Proof.
  intros Hl Hf.
  destruct (nread_run rf _ _ (replicate n 0) len 0 s (reads_read fd))
    as (d & s' & E & Hdl & Hsrc & _ & Hp & _); [rewrite length_replicate; lia|unfold budget; lia|].
  exists d, s'. split_and!; try done; [|apply aset_patch_nul; lia].
  intros kq. refine (nread_stable (fun w => watched kq w = watched kq (iow s)) fd _ rf _ len 0 _ _ _ _ eq_refl E).
  intros k w0 r w' Hx _ Er. by rewrite (watched_read _ _ _ _ _ kq Er).
Qed.
End chunk.

(** ** What the watchers are meant to do *)

(** The reads that fetch up to [n] bytes of [fd]: again after an interruption or a
    short read, until there are [n], the file ends or a read fails. *)
Inductive reading (fd : Z) : Z → list call → list Z → Prop :=
| reading_full : reading fd 0 [] []
| reading_eof n : 0 < n → reading fd n [CRead fd n (RdOk [])] []
| reading_failed n e : 0 < n → e ≠ EINTR → reading fd n [CRead fd n (RdErr e)] []
| reading_again n cs d : 0 < n → reading fd n cs d → reading fd n (CRead fd n (RdErr EINTR) :: cs) d
| reading_some n b cs d : 0 < zlen b ≤ n → reading fd (n - zlen b) cs d →
    reading fd n (CRead fd n (RdOk b) :: cs) (b ++ d).

(** An event that announces data, and how much of it is read. *)
Definition data_event (ke : kevent) : bool := (EVFILT_READ =? filter ke) && (0 <? kdata ke).
Definition amount (ke : kevent) : Z := Z.min 1024 (kdata ke).
(** One of two notes about the file itself. *)
Definition noted (n n' : Z) (ke : kevent) : bool :=
  (EVFILT_VNODE =? filter ke) && (has (fflags ke) n || has (fflags ke) n').

(** A batch of events for [fd] is answered, in order, by one chunk for each that
    announces data; if there is none the answer ends with -1, and at an event
    with one of the notes [stop] it ends with 1. *)
Inductive answered (stop : kevent → bool) (fd : Z) : list kevent → list call → list (list Z) → Z → Prop :=
| answered_all : answered stop fd [] [] [] 0
| answered_data ke evs rs d cs ds rc : data_event ke = true → reading fd (amount ke) rs d → d ≠ [] →
    answered stop fd evs cs ds rc → answered stop fd (ke :: evs) (rs ++ cs) (d :: ds) rc
| answered_none ke evs rs : data_event ke = true → reading fd (amount ke) rs [] →
    answered stop fd (ke :: evs) rs [] (-1)
| answered_stop ke evs : stop ke = true → answered stop fd (ke :: evs) [] [] 1
| answered_other ke evs cs ds rc : data_event ke = false → stop ke = false →
    answered stop fd evs cs ds rc → answered stop fd (ke :: evs) cs ds rc.

(** The files followed, one after the other: all there ever was to read of each. *)
Fixpoint contents (fd : Z) (cur : list Z) (cs : list call) : list (list Z) :=
  match cs with
  | [] => [cur]
  | CWait _ _ _ _ more :: cs => contents fd (cur ++ more fd) cs
  | COpen _ _ _ (IoOk fd') avail :: cs => cur :: contents fd' avail cs
  | _ :: cs => contents fd cur cs
  end.

Lemma contents_reading fd0 cur fd n cs d cs' :
  reading fd n cs d → contents fd0 cur (cs ++ cs') = contents fd0 cur cs'.
Proof. by induction 1. Qed.

Lemma contents_answered stop fd evs cs ds rc fd0 cur cs' :
  answered stop fd evs cs ds rc → contents fd0 cur (cs ++ cs') = contents fd0 cur cs'.
Proof.
  induction 1 as [|ke evs rs d cs ds rc _ Hr _ _ IH|ke evs rs _ Hr| |]; try done.
  - rewrite <- app_assoc. erewrite contents_reading by done. apply IH.
  - by erewrite contents_reading.
Qed.

Lemma contents_app p fd cur cs :
  contents fd (p ++ cur) cs = match contents fd cur cs with [] => [] | c :: l => (p ++ c) :: l end.
Proof.
  revert cur. induction cs as [|c cs IH]; intros cur; [done|].
  destruct c as [| | |kq n t r more| |path fl m [fd'|e] av]; cbn [contents]; try apply IH; [|done].
  by rewrite <- app_assoc, IH.
Qed.

(** What the first event of a batch contributes: nothing more when it ends it. *)
Definition answer_to (stop : kevent → bool) (fd : Z) (ke : kevent) (cs : list call) (ds : list (list Z)) (rc : Z) : Prop :=
  (rc = 0 ∧ ∀ evs cs' ds' rc', answered stop fd evs cs' ds' rc' →
     answered stop fd (ke :: evs) (cs ++ cs') (ds ++ ds') rc') ∨
  (rc ≠ 0 ∧ ∀ evs, answered stop fd (ke :: evs) cs ds rc).

(** A wait with the timeout of the options. *)
Definition timeout (g : cliopt) : option Z := if 0 <? tmout_sec g then Some (tmout_sec g) else None.

Section traced.
Context {W : Type} `{KT : KqTrace W}.

(** What the loop of [nread] has done so far: any reads that fetch the rest
    complete it. *)
Lemma nread_reads rf fd len (buf : list Z) flags (s : io W) r buf' s' :
  0 ≤ len ≤ zlen buf → nread rf fd buf len flags s = Ok (r, buf', s') →
  ∃ cs d, reading fd len cs d ∧ trace (iow s') = trace (iow s) ++ cs ∧ r = zlen d ∧ buf' = patch d buf.
Proof.
  intros Hl E. unfold nread, nread_loop in E.
  apply bind_ok_inv in E as ([eof [[[total err] b] s1]] & E & E').
  enough (HQ : ∃ cs d, reading fd len cs d ∧ trace (iow s1) = trace (iow s) ++ cs ∧ total = zlen d ∧ b = patch d buf).
  { destruct HQ as (cs & d & HQ). exists cs, d. by destruct eof; [|destruct (negb (err =? 0))]; injection E' as <- <- <-. }
  set (I := fun '((total, err, b, s2) : Z * Z * list Z * io W) => ∃ cs d,
    (∀ cs' d', reading fd (len - zlen d) cs' d' → reading fd len (cs ++ cs') (d ++ d')) ∧
    trace (iow s2) = trace (iow s) ++ cs ∧ total = zlen d ∧ b = patch d buf ∧ zlen d ≤ len).
  refine (loop_partial I (fun '(eof, (total, err, b, s2)) => ∃ cs d, reading fd len cs d ∧
    trace (iow s2) = trace (iow s) ++ cs ∧ total = zlen d ∧ b = patch d buf) _ _ _ _ _ _ E).
  2: { exists [], []. cbn. rewrite Z.sub_0_r, app_nil_r. split_and!; (done || lia). }
  clear E E' total err b s1 eof.
  intros [[[total err] b] s1] c (cs & d & HR & Ht & -> & -> & Hd) Eb. unfold nread_body in Eb.
  assert (Hend : ∀ cs', reading fd (len - zlen d) cs' [] → reading fd len (cs ++ cs') d).
  { intros cs' Hcs'. apply HR in Hcs'. by rewrite app_nil_r in Hcs'. }
  destruct (Z.ltb_spec (zlen d) len) as [Hlt|Hge]; cbn [negb] in Eb.
  2: { injection Eb as <-. exists cs, d. split_and!; try done. rewrite <- (app_nil_r cs). apply Hend.
       replace (len - zlen d) with 0 by lia. constructor. }
  unfold read_call in Eb. destruct (os_read fd (len - zlen d) (iow s1)) as [[d1|e] w] eqn:Er;
    pose proof (trace_read _ _ _ _ _ Er) as Htr; rewrite Ht, <- app_assoc in Htr.
  - apply read_ok in Er as (Hn & _); [|lia]. destruct (Z.eqb_spec (zlen d1) 0) as [Hz|Hz].
    + destruct d1; [|cbn in Hz; lia]. injection Eb as <-. eexists _, d. split; [|by split_and!].
      apply Hend. constructor. lia.
    + rewrite put_bytes_patch, bind_Ok in Eb by lia. injection Eb as <-. eexists _, (d ++ d1).
      rewrite length_app. split_and!; try done; try lia.
      intros cs' d' H'. rewrite <- !app_assoc. apply HR. cbn. constructor; [lia|].
      replace (len - zlen d - zlen d1) with (len - Z.of_nat (length d + length d1)) by lia. exact H'.
  - cbn [ioerrno] in Eb. destruct (Z.eqb_spec EINTR e) as [<-|He]; injection Eb as <-; subst I; cbn; rewrite iow_perror.
    + exists (cs ++ [CRead fd (len - zlen d) (RdErr EINTR)]), d. split_and!; try done. intros cs' d' H'. rewrite <- app_assoc. apply HR. cbn. constructor; [lia|done].
    + eexists _, d. cbn [iow]. split; [|by split_and!]. apply Hend. constructor; [lia|done].
Qed.

(** One chunk, with the reads that fetched it. *)
Lemma nread_chunk_reads rf n fd len (s : io W) :
  0 < len < Z.of_nat n → (n + patience (iow s) < rf)%nat →
  ∃ d cs s', nread rf fd (replicate n 0) len 0 s = Ok (zlen d, patch d (replicate n 0), s') ∧
    reading fd len cs d ∧ trace (iow s') = trace (iow s) ++ cs ∧
    zlen d ≤ len ∧ source fd (iow s) = d ++ source fd (iow s') ∧
    (patience (iow s') ≤ patience (iow s))%nat ∧
    (∀ kq, watched kq (iow s') = watched kq (iow s)) ∧
    ∃ buf, aset (patch d (replicate n 0)) (zlen d) 0 = Ok buf ∧ c_str buf = c_str d.
Proof.
  intros Hl Hf. destruct (nread_chunk rf n fd len s Hl Hf) as (d & s' & E & Hd & Hs & Hp & Hw & Hb).
  destruct (nread_reads rf fd len (replicate n 0) 0 s _ _ _ ltac:(rewrite length_replicate; lia) E)
    as (cs & d' & HR & Ht & Hl' & Hb').
  assert (d' = d) as ->.
  { unfold patch in Hb'. apply app_inj_1 in Hb' as [? _]; [done|lia]. }
  by exists d, cs, s'.
Qed.

End traced.

(** ** A concrete system

    Files by name, the descriptors open for reading with what is left to read,
    one output, and the answers to the calls that wait: before each, some files
    may grow.  Events of descriptors that are not registered are not delivered;
    when the answers are used up, waiting times out. *)

Record answer := MkAnswer { grown : list (Z * list Z); got : list kevent + Z }.
Record watch := MkWatch {
  wfiles : gmap (list Z) (list Z); wopen : gmap Z (list Z); wout : list Z; wset : gset Z;
  wnext : Z; wscript : list event; wanswers : list answer; wtrace : list call
}.

Definition wsource (fd : Z) (w : watch) : list Z := default [] (wopen w !! fd).
Definition set_open (o : gmap Z (list Z)) (w : watch) : watch :=
  MkWatch (wfiles w) o (wout w) (wset w) (wnext w) (wscript w) (wanswers w) (wtrace w).
Definition set_watched (x : gset Z) (w : watch) : watch :=
  MkWatch (wfiles w) (wopen w) (wout w) x (wnext w) (wscript w) (wanswers w) (wtrace w).
Definition log_call (c : call) (w : watch) : watch :=
  MkWatch (wfiles w) (wopen w) (wout w) (wset w) (wnext w) (wscript w) (wanswers w) (wtrace w ++ [c]).

Definition watch_read (fd n : Z) (w : watch) : rd_result * watch :=
  let w' m r := MkWatch (wfiles w) (<[fd := drop m (wsource fd w)]> (wopen w)) (wout w) (wset w)
                (wnext w) (tail (wscript w)) (wanswers w) (wtrace w ++ [CRead fd n r]) in
  let ok m := let r := RdOk (take m (wsource fd w)) in (r, w' m r) in
  match clean <$> head (wscript w) with
  | Some (Err e) => (RdErr e, w' O (RdErr e))
  | Some (Part k) => ok (Z.to_nat (Z.min n k))
  | None => ok (Z.to_nat n)
  end.

#[export] Instance watch_os : Os watch := {|
  os_write := fun _ b w =>
    (IoOk (zlen b), MkWatch (wfiles w) (wopen w) (wout w ++ b) (wset w) (wnext w) (wscript w) (wanswers w) (wtrace w));
  os_read := watch_read;
  os_pread := fun _ _ _ w => (RdErr EINVAL, w)
|}.

Definition watch_open (p : list Z) (flags mode : Z) (w : watch) : io_result * watch :=
  match wfiles w !! p with
  | Some d =>
      if bool_decide (0 ≤ wnext w < 2 ^ 31) then
        (IoOk (wnext w), MkWatch (wfiles w) (<[wnext w := d]> (wopen w)) (wout w) (wset w) (wnext w + 1)
                           (wscript w) (wanswers w) (wtrace w ++ [COpen p flags mode (IoOk (wnext w)) d]))
      else (IoErr ENOMEM, log_call (COpen p flags mode (IoErr ENOMEM) []) w)
  | None => (IoErr ENOENT, log_call (COpen p flags mode (IoErr ENOENT) []) w)
  end.

Definition grow (g : list (Z * list Z)) (o : gmap Z (list Z)) : gmap Z (list Z) :=
  foldr (fun '(fd, d) o => <[fd := default [] (o !! fd) ++ d]> o) o g.

Definition watch_wait (kq n : Z) (t : option Z) (w : watch) : (list kevent + Z) * watch :=
  match wanswers w with
  | [] => (inl [], log_call (CWait kq n t (inl []) (fun _ => [])) w)
  | a :: rest =>
      let r := match got a with
               | inl evs => inl (take (Z.to_nat n) (base.filter (fun e => ident e ∈ wset w) evs))
               | inr e => inr (Z.max 1 e)
               end in
      let o := grow (grown a) (wopen w) in
      (r, MkWatch (wfiles w) o (wout w) (wset w) (wnext w) (wscript w) rest
            (wtrace w ++ [CWait kq n t r (fun fd => drop (length (wsource fd w)) (default [] (o !! fd)))]))
  end.

#[export] Instance watch_kq : Kq watch := {|
  kq_open := watch_open;
  kq_close := fun fd w =>
    (None, log_call (CClose fd None (wsource fd w)) (set_watched (wset w ∖ {[ fd ]}) (set_open (delete fd (wopen w)) w)));
  kq_seek_end := fun fd w => (None, set_open (<[fd := []]> (wopen w)) w);
  kq_kqueue := fun w => (IoOk 3, log_call (CQueue (IoOk 3)) (set_watched ∅ w));
  kq_change := fun kq ke w => (None, log_call (CChange kq ke None) (set_watched ({[ ident ke ]} ∪ wset w) w));
  kq_wait := watch_wait;
  kq_usleep := fun _ w => w
|}.

(** *** The laws *)

Lemma wsource_insert fd fd' d w :
  default [] (<[fd := d]> (wopen w) !! fd') = if decide (fd = fd') then d else wsource fd' w.
Proof.
  case_decide as E; [subst; by rewrite lookup_insert_eq|by rewrite lookup_insert_ne].
Qed.

Lemma watch_read_inv fd n w r w' :
  watch_read fd n w = (r, w') →
  wout w' = wout w ∧ wset w' = wset w ∧ (length (wscript w') ≤ length (wscript w))%nat ∧
  wtrace w' = wtrace w ++ [CRead fd n r] ∧
  match r with
  | RdErr e => 0 < e ∧ (length (wscript w') < length (wscript w))%nat ∧ wsource fd w' = wsource fd w
  | RdOk d => ∃ m, d = take m (wsource fd w) ∧ wsource fd w' = drop m (wsource fd w) ∧
      (0 ≤ n → Z.of_nat m ≤ n ∧ (0 < n → (0 < m)%nat))
  end.
Proof.
  unfold watch_read. destruct w as [fi op ou se nx [|[k|e] sc] an tr]; cbn; intros [= <- <-];
    unfold wsource; cbn; rewrite lookup_insert_eq; cbn; split_and!; try done; try lia.
  - exists (Z.to_nat n). split_and!; (done || lia).
  - exists (Z.to_nat (Z.min n (Z.max 1 k))). split_and!; (done || lia).
Qed.

#[export] Instance watch_oslaws : OsLaws watch.
Proof.
  refine {|
    sink := fun _ w => wout w;
    source := wsource;
    content := fun _ _ => [];
    patience := fun w => length (wscript w)
  |}; cbn.
  - intros fd b w n w' [= <- <-]. cbn. rewrite Nat2Z.id, firstn_all. split_and!; try done; try lia.
    intros Hb. destruct b; [done|cbn; lia].
  - done.
  - intros fd n w d w' E Hn. apply watch_read_inv in E as (Ho & _ & Hl & _ & m & -> & Hs & Hm).
    specialize (Hm Hn) as [Hm Hm']. rewrite Hs, Ho. split_and!; try done.
    + rewrite length_take. lia.
    + by rewrite take_drop.
    + intros Hpos E. specialize (Hm' Hpos). destruct (wsource fd w); [done|].
      apply (f_equal length) in E. rewrite length_take in E. cbn in E. lia.
  - intros fd n w e w' E. apply watch_read_inv in E as (Ho & _ & _ & _ & He & Hl & Hs).
    rewrite Ho. split_and!; (done || lia).
  - done.
  - intros fd n off w e w' [= <- <-]. by split_and!.
Defined.

(** Files only grow. *)
Lemma grow_prefix g o fd : default [] (o !! fd) `prefix_of` default [] (grow g o !! fd).
Proof.
  induction g as [|[fd' d] g IH]; [done|]. cbn. destruct (decide (fd' = fd)) as [->|Hne].
  - rewrite lookup_insert_eq. cbn. by apply prefix_app_r.
  - by rewrite lookup_insert_ne.
Qed.

#[export] Instance watch_laws : KqLaws watch.
Proof.
  refine {| kq_oslaws := watch_oslaws; watched := fun _ => wset |}; cbn.
  - intros fd n w r w' kq E. by apply watch_read_inv in E as (_ & Hs & _).
  - by intros fd b w r w' kq [= <- <-].
  - intros p fl mode w r w' E. unfold watch_open in E.
    destruct (wfiles w !! p) as [d|]; [case_bool_decide|]; injection E as <- <-; cbn; split_and!; try done; try lia.
    intros fd' Hne. unfold wsource. cbn. by rewrite lookup_insert_ne.
  - intros fd w r w' [= <- <-]. cbn. split_and!; try done. intros fd' Hne. unfold wsource. cbn. by rewrite lookup_delete_ne.
  - intros fd w r w' [= <- <-]. cbn. split_and!; try done; unfold wsource; cbn.
    + intros fd' Hne. by rewrite lookup_insert_ne.
    + by rewrite lookup_insert_eq.
  - by intros w r w' [= <- <-].
  - by intros kq ke w r w' [= <- <-].
  - intros kq n t w r w' E Hn. unfold watch_wait in E. destruct (wanswers w) as [|a rest] eqn:Ea.
    + injection E as <- <-. by split_and!.
    + injection E as <- <-. cbn. split_and!; try done; [intros fd; apply grow_prefix|].
      destruct (got a) as [evs|e]; [|lia]. split; [rewrite length_take; lia|].
      apply Forall_take, Forall_forall. intros e He. by apply list_elem_of_filter in He as [? _].
  - done.
Defined.

#[export] Instance watch_trace : KqTrace watch.
Proof.
  refine {| trace := wtrace |}; cbn.
  - intros fd n w r w' E. by apply watch_read_inv in E as (_ & _ & _ & ? & _).
  - by intros w r w' [= <- <-].
  - by intros kq ke w r w' [= <- <-].
  - intros kq n t w r w' E. unfold watch_wait in E. destruct (wanswers w) as [|a rest] eqn:Ea; injection E as <- <-;
      (eexists; split; [reflexivity|]); intros fd; cbn.
    + by rewrite app_nil_r.
    + unfold wsource at 1. cbn. destruct (grow_prefix (grown a) (wopen w) fd) as [more Hm].
      rewrite Hm. unfold wsource. by rewrite drop_app_length.
  - by intros fd w r w' [= <- <-].
  - intros p fl mode w r w' E. unfold watch_open in E.
    destruct (wfiles w !! p) as [d|]; [case_bool_decide|]; injection E as <- <-; cbn; try done.
    unfold wsource. cbn. by rewrite lookup_insert_eq.
Defined.

(** Two kinds of events. *)
Definition readable (fd n : Z) : kevent := MkEv fd EVFILT_READ 0 0 n 0.
Definition vnode (fd notes : Z) : kevent := MkEv fd EVFILT_VNODE 0 notes 0 0.
