(* ===== verification/Reader.v ===== *)
(** * fdwatch/reader.c: showing a file as it grows

    The program registers the file with a kqueue, waits for events and reads
    what is announced, at most 1024 bytes per event.  What it prints of the
    file, between BEGIN and END, is recorded as the list of the strings given to
    [printf]; the other messages are left out.  [followed] says what it is to do
    in terms of the calls it makes (Kq). *)

From stdpp Require Import gmap strings.
From S2P Require Import Prelude Libc Fdio Kq.
Local Open Scope Z_scope.

Section code.
Context {W : Type} `{Kq W}.
(** The fuel of one [nread]. *)
Variable rf : nat.

Record reader := MkReader { rio : io W; shown : list (list Z) }.

Definition sizeof_buf : Z := 1024 + 1.

Definition process_event (g : cliopt) (ke : kevent) (s : reader) : res (Z * reader) :=
  if EVFILT_READ =? filter ke then
    let offset := kdata ke in
    let fd := s32 (ident ke) in
    if 0 <? offset then
      let len := if sizeof_buf <=? offset then sizeof_buf - 1 else offset in
      '(nrd, buf, io) ← nread rf fd (replicate (Z.to_nat sizeof_buf) 0) len 0 (rio s);
      if nrd <=? 0 then Ok (-1, MkReader io (shown s))
      else if print g then
        buf ← aset buf nrd 0;
        Ok (0, MkReader io (shown s ++ [c_str buf]))
      else Ok (0, MkReader io (shown s))
    else Ok (0, s)
  else if EVFILT_VNODE =? filter ke then
    let rc := if has (fflags ke) NOTE_DELETE then 1 else 0 in
    let rc := if has (fflags ke) NOTE_REVOKE then 1 else rc in
    Ok (rc, s)
  else Ok (0, s).

(** The loop over the events of one wait, up to the first result that is not 0. *)
Fixpoint process_events (g : cliopt) (rc : Z) (evs : list kevent) (s : reader) : res (Z * reader) :=
  match evs with
  | [] => Ok (rc, s)
  | ke :: evs' =>
      '(rc, s) ← process_event g ke s;
      if negb (rc =? 0) then Ok (rc, s) else process_events g rc evs' s
  end.

(** One turn of the watch loop; the state is [rc] and the program's state. *)
Definition watch_body (g : cliopt) (kq : Z) (st : Z * reader) : res (ctl (Z * reader) (Z * reader)) :=
  let '(rc, s) := st in
  let ptmout := if 0 <? tmout_sec g then Some (tmout_sec g) else None in
  let '(r, io) := wait_call kq 10 ptmout (rio s) in
  match r with
  | None => Ok (Leave (rc, MkReader (perror io) (shown s)))
  | Some [] => Ok (Leave (rc, MkReader io (shown s)))
  | Some evs =>
      '(rc, s) ← process_events g rc evs (MkReader io (shown s));
      if negb (rc =? 0) then Ok (Leave (rc, s)) else Ok (Next (rc, s))
  end.

(** The registrations: the queue, or -1. *)
Definition follow_start (fd : Z) (io : io W) : Z * Fdio.io W :=
  let '(kq, io) := call_fd kq_kqueue io in
  if -1 =? kq then (-1, perror io)
  else
    let ke := MkEv fd EVFILT_VNODE (Z.lor EV_ADD EV_CLEAR)
                (Z.lor (Z.lor (Z.lor NOTE_DELETE NOTE_RENAME) NOTE_EXTEND) NOTE_REVOKE) 0 0 in
    let '(r, io) := call0 (kq_change kq ke) io in
    if -1 =? r then (-1, perror io)
    else
      let ke := MkEv fd EVFILT_READ EV_ADD 0 0 0 in
      let '(r, io) := call0 (kq_change kq ke) io in
      if -1 =? r then (-1, perror io) else (kq, io).

Definition follow (fuel : nat) (g : cliopt) (fd : Z) (s : reader) : res (Z * reader) :=
  let '(kq, io) := follow_start fd (rio s) in
  if -1 =? kq then Ok (-1, MkReader io (shown s))
  else loop fuel (watch_body g kq) (0, MkReader io (shown s)).

(** [args]: [argv] without the program's name; the exit status. *)
Definition main (fuel : nat) (args : list (list Z)) (s : reader) : res (Z * reader) :=
  o ← parse_args args;
  match o with
  | None => Ok (EINVAL, s)
  | Some (g, fname) =>
      let '(fd, io) := call_fd (kq_open fname (Z.lor O_RDONLY O_NONBLOCK) 0) (rio s) in
      if -1 =? fd then Ok (1, MkReader (perror io) (shown s))
      else
        '(rc, s) ← follow fuel g fd (MkReader io (shown s));
        let '(_, io) := call0 (kq_close fd) (rio s) in
        Ok (rc, MkReader io (shown s))
  end.
End code.
Arguments reader : clear implicits.

(** ** What it is meant to do *)

(** A batch with one of these notes ends the program. *)
Definition stops : kevent → bool := noted NOTE_DELETE NOTE_REVOKE.

(** The calls of [n] turns, the chunks they read, and the result if the loop has
    ended: it waits for events and answers them, until a wait fails or times out,
    no data are there, or the file is gone. *)
Inductive followed (g : cliopt) (kq fd : Z) : nat → list call → list (list Z) → option Z → Prop :=
| followed_start : followed g kq fd 0 [] [] None
| followed_idle n r more : (r = inl [] ∨ ∃ e, r = inr e) →
    followed g kq fd (S n) [CWait kq 10 (timeout g) r more] [] (Some 0)
| followed_turn n evs more cs ds cs' ds' st : evs ≠ [] → answered stops fd evs cs ds 0 →
    followed g kq fd n cs' ds' st →
    followed g kq fd (S n) (CWait kq 10 (timeout g) (inl evs) more :: cs ++ cs') (ds ++ ds') st
| followed_end n evs more cs ds rc : evs ≠ [] → answered stops fd evs cs ds rc → rc ≠ 0 →
    followed g kq fd (S n) (CWait kq 10 (timeout g) (inl evs) more :: cs) ds (Some rc).

Section proofs.
Context {W : Type} `{KT : KqTrace W}.
Implicit Types (s : reader W).

(** The calls since [w] are [cs]; the chunks [ds] and what is left to read are all
    there was to read then and all that has been added; the chunks have been
    shown, if so asked. *)
Record showing (g : cliopt) (fd : Z) (w : W) (shown0 : list (list Z)) (cs : list call) (ds : list (list Z)) s : Prop := {
  showing_trace : trace (iow (rio s)) = trace w ++ cs;
  showing_whole : contents fd (source fd w) cs = [concat ds ++ source fd (iow (rio s))];
  showing_shown : shown s = shown0 ++ (if print g then c_str <$> ds else [])
}.

Lemma shown_app g (l : list (list Z)) ds ds' :
  l ++ (if print g then c_str <$> ds ++ ds' else []) =
  (l ++ (if print g then c_str <$> ds else [])) ++ (if print g then c_str <$> ds' else []).
Proof. destruct (print g); [by rewrite fmap_app, app_assoc|by rewrite !app_nil_r]. Qed.

(** One event of the followed file. *)
Lemma process_event_run rf g fd ke s :
  ident ke = fd → 0 ≤ fd < 2 ^ 31 → (Z.to_nat sizeof_buf + patience (iow (rio s)) < rf)%nat →
  ∃ rc s' cs ds, process_event rf g ke s = Ok (rc, s') ∧ answer_to stops fd ke cs ds rc ∧
    trace (iow (rio s')) = trace (iow (rio s)) ++ cs ∧
    source fd (iow (rio s)) = concat ds ++ source fd (iow (rio s')) ∧
    shown s' = shown s ++ (if print g then c_str <$> ds else []) ∧
    (patience (iow (rio s')) ≤ patience (iow (rio s)))%nat ∧
    (∀ kq, watched kq (iow (rio s')) = watched kq (iow (rio s))).
Proof.
  intros Hi Hfd Hf. unfold process_event.
  assert (Hno : ∀ rc, data_event ke = false → stops ke = negb (rc =? 0) → rc = 0 ∨ rc = 1 →
    ∃ rc' s' cs ds, Ok (rc, s) = Ok (rc', s') ∧ answer_to stops fd ke cs ds rc' ∧
    trace (iow (rio s')) = trace (iow (rio s)) ++ cs ∧
    source fd (iow (rio s)) = concat ds ++ source fd (iow (rio s')) ∧
    shown s' = shown s ++ (if print g then c_str <$> ds else []) ∧
    (patience (iow (rio s')) ≤ patience (iow (rio s)))%nat ∧
    (∀ kq, watched kq (iow (rio s')) = watched kq (iow (rio s)))).
  { intros rc Hd Hst Hrc. exists rc, s, [], []. rewrite app_nil_r.
    split_and!; try done; [|by destruct (print g); rewrite app_nil_r].
    destruct Hrc as [->| ->]; [left|right]; split; try done; intros; by constructor. }
  unfold data_event, stops, noted in Hno.
  destruct (Z.eqb_spec EVFILT_READ (filter ke)) as [Hr|Hr].
  2: { destruct (EVFILT_VNODE =? filter ke); [|by apply (Hno 0); [| |left]].
       destruct (has (fflags ke) NOTE_REVOKE), (has (fflags ke) NOTE_DELETE); apply Hno; auto. }
  rewrite <- Hr in Hno. destruct (Z.ltb_spec 0 (kdata ke)) as [Hd|Hd]; [|by apply (Hno 0); [| |left]].
  rewrite Hi, swrap_small by (cbn; lia). set (len := if _ <=? _ then _ else _).
  assert (Hlen : len = amount ke) by (subst len; unfold amount, sizeof_buf; destruct (Z.leb_spec (1024 + 1) (kdata ke)); lia).
  assert (Hda : data_event ke = true) by (unfold data_event; by rewrite <- Hr, (proj2 (Z.ltb_lt _ _) Hd)).
  rewrite Hlen. clear len Hlen.
  destruct (nread_chunk_reads rf (Z.to_nat sizeof_buf) fd (amount ke) (rio s))
    as (d & cs & io & -> & HR & Ht & Hdl & Hsrc & Hp & Hw & b & Eb & Hb); [unfold amount, sizeof_buf; lia|lia|].
  rewrite bind_Ok. destruct (Z.leb_spec (zlen d) 0) as [Hz|Hz].
  { assert (d = []) as -> by (by destruct d; [|cbn in Hz; lia]). exists (-1), (MkReader io (shown s)), cs, [].
    split_and!; try done; [right; split; [done|]; intros evs; by constructor|by destruct (print g); rewrite app_nil_r]. }
  assert (HA : answer_to stops fd ke cs [d] 0).
  { left. split; [done|]. intros evs cs' ds' rc' H'. cbn. constructor; try done. by intros ->. }
  destruct (print g); [rewrite Eb, bind_Ok|]; (eexists 0, _, cs, [d]; split; [done|]); cbn; rewrite !app_nil_r.
  - by rewrite Hb.
  - done.
Qed.

(** All the events of one wait. *)
Lemma process_events_run rf g fd evs : ∀ s,
  Forall (fun ke => ident ke = fd) evs → 0 ≤ fd < 2 ^ 31 →
  (Z.to_nat sizeof_buf + patience (iow (rio s)) < rf)%nat →
  ∃ rc s' cs ds, process_events rf g 0 evs s = Ok (rc, s') ∧ answered stops fd evs cs ds rc ∧
    trace (iow (rio s')) = trace (iow (rio s)) ++ cs ∧
    source fd (iow (rio s)) = concat ds ++ source fd (iow (rio s')) ∧
    shown s' = shown s ++ (if print g then c_str <$> ds else []) ∧
    (patience (iow (rio s')) ≤ patience (iow (rio s)))%nat ∧
    (∀ kq, watched kq (iow (rio s')) = watched kq (iow (rio s))).
Proof.
  induction evs as [|ke evs IH]; intros s Hi Hfd Hf; cbn [process_events].
  { exists 0, s, [], []. rewrite app_nil_r. split_and!; try done; [constructor|by destruct (print g); rewrite app_nil_r]. }
  apply Forall_cons in Hi as [Hk Hi].
  destruct (process_event_run rf g fd ke s Hk Hfd Hf)
    as (rc & s1 & cs & ds & -> & HA & Ht1 & Hs1 & Hsh1 & Hp1 & Hw1). rewrite bind_Ok.
  destruct HA as [[-> HA]|[Hne HA]].
  - cbn [Z.eqb negb]. destruct (IH s1 Hi Hfd ltac:(lia)) as (rc & s2 & cs2 & ds2 & -> & HA2 & Ht2 & Hs2 & Hsh2 & Hp2 & Hw2).
    exists rc, s2, (cs ++ cs2), (ds ++ ds2). rewrite shown_app, <- Hsh1, concat_app, <- app_assoc, <- Hs2, app_assoc, <- Ht1.
    split_and!; try done; [by apply HA|lia|]. intros kq. by rewrite Hw2, Hw1.
  - rewrite (proj2 (Z.eqb_neq rc 0) Hne). cbn [negb]. exists rc, s1, cs, ds. by split_and!.
Qed.

Lemma follow_start_run fd io kq io' :
  follow_start fd io = (kq, io') → 0 ≤ kq →
  still (iow io) (iow io') ∧ watched kq (iow io') = {[ fd ]}.
Proof.
  unfold follow_start, call_fd, call0. destruct (kq_kqueue (iow io)) as [[kq1|e] w1] eqn:E1;
    apply kqueue_law in E1 as [H1 L1]; cbn [iow ioerrno iolog]; [|intros [= <- <-]; lia].
  destruct L1 as [Hkq Hw1]. rewrite (proj2 (Z.eqb_neq (-1) kq1)) by lia.
  destruct (kq_change kq1 _ w1) as [[e|] w2] eqn:E2; apply change_law in E2 as [H2 L2];
    cbn [iow ioerrno iolog Z.eqb Z.compare Z.opp Pos.compare]; [intros [= <- <-]; lia|].
  destruct (kq_change kq1 _ w2) as [[e|] w3] eqn:E3; apply change_law in E3 as [H3 L3];
    cbn [iow ioerrno iolog Z.eqb Z.compare Z.opp Pos.compare]; intros [= <- <-] Hk; [lia|].
  split.
  - destruct H1 as (A1 & B1 & C1), H2 as (A2 & B2 & C2), H3 as (A3 & B3 & C3). split_and!; [..|cbn; lia]; intros fd'; cbn.
    + by rewrite A3, A2, A1.
    + by rewrite B3, B2, B1.
  - cbn in L2, L3 |- *. rewrite L3, L2, Hw1. set_solver.
Qed.

(** Any number of turns. *)
Lemma watch_turns rf g kq fd n : ∀ s,
  0 ≤ fd < 2 ^ 31 → watched kq (iow (rio s)) = {[ fd ]} →
  (Z.to_nat sizeof_buf + patience (iow (rio s)) < rf)%nat →
  ensures (turns n (watch_body rf g kq) (0, s)) (either
    (fun '(rc, s') => rc = 0 ∧ ∃ cs ds, followed g kq fd n cs ds None ∧ showing g fd (iow (rio s)) (shown s) cs ds s')
    (fun '(rc, s') => ∃ cs ds, followed g kq fd n cs ds (Some rc) ∧ showing g fd (iow (rio s)) (shown s) cs ds s')).
Proof.
  induction n as [|n IH]; intros s Hfd Hw Hf; cbn [turns].
  { cbn. split; [done|]. exists [], []. split; [constructor|]. split; [by rewrite app_nil_r|done|by destruct (print g); rewrite app_nil_r]. }
  unfold watch_body at 2, wait_call. fold (timeout g).
  destruct (kq_wait kq 10 _ _) as [r w] eqn:Ew. pose proof (trace_wait _ _ _ _ _ _ Ew) as (more & Ht & Hm).
  apply wait_law in Ew as (Hw1 & _ & _ & Hp1 & He); [|done].
  assert (Hidle : r = inl [] ∨ (∃ e, r = inr e) → ∀ io', iow io' = w → ∃ cs ds, followed g kq fd (S n) cs ds (Some 0) ∧
    showing g fd (iow (rio s)) (shown s) cs ds (MkReader io' (shown s))).
  { intros Hr io' <-. eexists _, []. split; [by apply (followed_idle _ _ _ _ r more)|]. split; cbn; [done|by rewrite Hm|].
    by destruct (print g); rewrite app_nil_r. }
  destruct r as [[|ev evs]|e]; [by apply Hidle; auto| |by apply Hidle; eauto].
  destruct He as [_ He]. rewrite Hw in He.
  set (s1 := MkReader (MkIo (ioerrno (rio s)) (iolog (rio s)) w) (shown s)).
  destruct (process_events_run rf g fd (ev :: evs) s1) as (rc & s2 & cs & ds & E & HA & Ht2 & Hs2 & Hsh2 & Hp2 & Hw2);
    [eapply Forall_impl; [exact He|]; intros ke; set_solver|done|cbn in *; lia|].
  subst s1. cbn [rio iow shown ioerrno iolog] in *. rewrite E, bind_Ok, Ht in *.
  assert (Hco : ∀ cs', contents fd (source fd (iow (rio s)))
    (CWait kq 10 (timeout g) (inl (ev :: evs)) more :: cs ++ cs') = contents fd (concat ds ++ source fd (iow (rio s2))) cs').
  { intros cs'. cbn [contents]. by rewrite (contents_answered _ _ _ _ _ _ _ _ _ HA), <- Hm, Hs2. }
  destruct (Z.eqb_spec rc 0) as [->|Hne]; cbn [negb].
  - rewrite bind_Ok. eapply ensures_mono; [apply IH; [done|by rewrite Hw2, Hw1|lia]|].
    assert (Hnext : ∀ cs' ds' s3, showing g fd (iow (rio s2)) (shown s2) cs' ds' s3 →
      showing g fd (iow (rio s)) (shown s) (CWait kq 10 (timeout g) (inl (ev :: evs)) more :: cs ++ cs') (ds ++ ds') s3).
    { intros cs' ds' s3 [H1 H2 H3]. split.
      - by rewrite H1, Ht2, <- !app_assoc.
      - by rewrite Hco, contents_app, H2, concat_app, <- app_assoc.
      - by rewrite shown_app, <- Hsh2. }
    intros [[rc s3]|[rc s3]]; cbn.
    + intros (-> & cs' & ds' & HF & HS). split; [done|]. eexists _, _. split; [by apply (followed_turn g kq fd n (ev :: evs) more cs ds)|by apply Hnext].
    + intros (cs' & ds' & HF & HS). eexists _, _. split; [by apply (followed_turn g kq fd n (ev :: evs) more cs ds)|by apply Hnext].
  - rewrite bind_Ok. cbn. eexists _, ds. split; [by apply (followed_end g kq fd n (ev :: evs) more cs)|]. split; [|specialize (Hco []); rewrite app_nil_r in Hco; by rewrite Hco|done].
    by rewrite Ht2, <- app_assoc.
Qed.

(** C15: reader shows exactly the file as it grows.  After any number of turns, and
    when it ends, the calls it has made since it began to follow the file are
    those of [followed]: it waits, with the timeout it was given, and reads one
    chunk, of at most 1024 bytes, for each event that announces data, and
    nothing else.  The chunks, each up to its first NUL byte, are what it has
    printed, if it was asked to; together with what is left to read they are
    what there was to read at first and all that has been added since: no byte is
    lost, repeated or moved, however the kernel groups its events, and the buffer is
    never overrun.  It ends with 0 when waiting fails or times out, with -1 when
    nothing could be read, and with 1 when the file has been deleted or revoked. *)
Theorem reader_shows_file rf n g fd kq s io :
  0 ≤ fd < 2 ^ 31 → follow_start fd (rio s) = (kq, io) → 0 ≤ kq →
  (Z.to_nat sizeof_buf + patience (iow (rio s)) < rf)%nat →
  source fd (iow io) = source fd (iow (rio s)) ∧
  ensures (turns n (watch_body rf g kq) (0, MkReader io (shown s))) (either
    (fun '(rc, s') => rc = 0 ∧ ∃ cs ds, followed g kq fd n cs ds None ∧ showing g fd (iow io) (shown s) cs ds s')
    (fun '(rc, s') => ∃ cs ds, followed g kq fd n cs ds (Some rc) ∧ showing g fd (iow io) (shown s) cs ds s')).
Proof.
  intros Hfd E Hkq Hf. apply follow_start_run in E as [(HA & _ & HC) HW]; [|done]. split; [apply HA|].
  apply (watch_turns rf g kq fd n (MkReader io (shown s))); [done|done|cbn; lia].
Qed.
End proofs.

(** ** Runs *)

(** One file, and the answers to the waits. *)
Definition a_watch (d : list Z) (sc : list event) (an : list answer) : io watch :=
  MkIo 0 [] (MkWatch {[ zs "/f" := d ]} ∅ [] ∅ 5 sc an []).

(** Text comes in twice, then the file is deleted. *)
Example reader_run :
  match main 2000 5 [zs "--print"; zs "/f"]
          (MkReader (a_watch (zs "one") []
             [MkAnswer [] (inl [readable 5 3]); MkAnswer [(5, zs "two")] (inl [readable 5 3; readable 6 9]);
              MkAnswer [] (inl [vnode 5 NOTE_DELETE])]) []) with
  | Ok (rc, s) => rc = 1 ∧ shown s = [zs "one"; zs "two"]
  | _ => False
  end.
Proof. vm_compute. split; reflexivity. Qed.

(** A wait that fails is reported as success. *)
Example reader_wait_fails :
  match main 2000 5 [zs "/f"] (MkReader (a_watch [] [] [MkAnswer [] (inr EIO)]) []) with
  | Ok (rc, s) => rc = 0 ∧ ioerrno (rio s) = EIO
  | _ => False
  end.
Proof. vm_compute. split; reflexivity. Qed.

Lemma reader_shows_file_witness :
  let s := MkReader (MkIo 0 [] (MkWatch ∅ {[ 5 := zs "one" ]} [] ∅ 6 [Err EINTR; Part 2]
             [MkAnswer [(5, zs "two")] (inl [readable 5 6; readable 5 4])] [])) [] in
  let '(kq, io) := follow_start 5 (rio s) in
  source 5 (iow io) = source 5 (iow (rio s)) ∧
  ensures (turns 2 (watch_body (Z.to_nat 2000) (MkOpt true 0) kq) (0, MkReader io (shown s))) (either
    (fun '(rc, s') => rc = 0 ∧ ∃ cs ds, followed (MkOpt true 0) kq 5 2 cs ds None ∧
       showing (MkOpt true 0) 5 (iow io) (shown s) cs ds s')
    (fun '(rc, s') => ∃ cs ds, followed (MkOpt true 0) kq 5 2 cs ds (Some rc) ∧
       showing (MkOpt true 0) 5 (iow io) (shown s) cs ds s')).
Proof.
  intros s. destruct (follow_start 5 (rio s)) as [kq io] eqn:E.
  refine (reader_shows_file (Z.to_nat 2000) 2 (MkOpt true 0) 5 kq s io _ E _ _).
  - lia.
  - apply (f_equal fst) in E. cbn [fst] in E. rewrite <- E. vm_compute. discriminate.
  - unfold sizeof_buf. cbn [patience kq_oslaws watch_laws watch_oslaws iow rio s wscript length]. lia.
Defined.
