(* ===== verification/Evrdr.v ===== *)
(** * fdwatch/evrdr.c: following a file through rotations

    As reader.c, but when the file is deleted or renamed the program opens the
    path again after the batch of events and goes on with the new file.  The
    state is [g_opt.fd] and what has been printed of the files.  [followed] says
    what it is to do in terms of the calls it makes (Kq). *)

From stdpp Require Import gmap strings.
From S2P Require Import Prelude Libc Fdio Kq.
Local Open Scope Z_scope.

Definition f_REOPEN : Z := 1.
Definition PATH_MAX : Z := 1024.
Definition sizeof_buf : Z := 1024 + 1.
(** [S_IRUSR|S_IWUSR|S_IRGRP|S_IROTH] *)
Definition FILE_MODE : Z := 420.

Section code.
Context {W : Type} `{Kq W}.
Variable rf : nat.

Record evrdr := MkEvrdr { eio : io W; shown : list (list Z); gfd : Z }.

Definition kq_add (kq fd : Z) (s : io W) : Z * io W :=
  let ke0 := MkEv fd EVFILT_VNODE (Z.lor EV_ADD EV_CLEAR) (Z.lor NOTE_DELETE NOTE_RENAME) 0 0 in
  let ke1 := MkEv fd EVFILT_READ EV_ADD 0 0 0 in
  let '(r, s) := call0 (kq_change kq ke0) s in
  if -1 =? r then (-1, perror s)
  else
    let '(r, s) := call0 (kq_change kq ke1) s in
    if -1 =? r then (-1, perror s) else (0, s).

(** [strncpy (g_opt.fpath, fname, sizeof(g_opt.fpath))]. *)
Definition set_fpath (fname : list Z) : list Z :=
  let n := Z.to_nat (PATH_MAX + 1) in take n fname ++ replicate (n - length fname) 0.

Definition re_open (kq : Z) (fpath : list Z) (s : evrdr) : res (Z * evrdr) :=
  let '(rc, io) := call0 (kq_close (gfd s)) (eio s) in
  if negb (rc =? 0) then Ok (rc, MkEvrdr (perror io) (shown s) (gfd s))
  else
    n ← strlen fpath;
    let '(fd, io) := call_fd (kq_open (take (Z.to_nat n) fpath) (Z.lor (Z.lor O_CREAT O_RDONLY) O_NONBLOCK) FILE_MODE) io in
    if -1 =? fd then Ok (-1, MkEvrdr (perror io) (shown s) fd)
    else
      let '(rc, io) := kq_add kq fd io in
      Ok (rc, MkEvrdr io (shown s) fd).

(** The result, [*flags] and the state. *)
Definition process_event (g : cliopt) (ke : kevent) (flags : Z) (s : evrdr) : res (Z * Z * evrdr) :=
  if EVFILT_READ =? filter ke then
    let offset := kdata ke in
    let fd := s32 (ident ke) in
    if 0 <? offset then
      let len := if sizeof_buf <=? offset then sizeof_buf - 1 else offset in
      '(nrd, buf, io) ← nread rf fd (replicate (Z.to_nat sizeof_buf) 0) len 0 (eio s);
      if nrd <=? 0 then Ok (-1, flags, MkEvrdr io (shown s) (gfd s))
      else if print g then
        buf ← aset buf nrd 0;
        Ok (0, flags, MkEvrdr io (shown s ++ [c_str buf]) (gfd s))
      else Ok (0, flags, MkEvrdr io (shown s) (gfd s))
    else Ok (0, flags, s)
  else if EVFILT_VNODE =? filter ke then
    let flags := if has (fflags ke) NOTE_DELETE then Z.lor flags f_REOPEN else flags in
    let flags := if has (fflags ke) NOTE_RENAME then Z.lor flags f_REOPEN else flags in
    Ok (0, flags, s)
  else Ok (0, flags, s).

Fixpoint process_events (g : cliopt) (rc flags : Z) (evs : list kevent) (s : evrdr) : res (Z * Z * evrdr) :=
  match evs with
  | [] => Ok (rc, flags, s)
  | ke :: evs' =>
      '(rc, flags, s) ← process_event g ke flags s;
      if negb (rc =? 0) then Ok (rc, flags, s) else process_events g rc flags evs' s
  end.

(** One turn of the watch loop. *)
Definition watch_body (g : cliopt) (kq : Z) (fpath : list Z) (st : Z * evrdr) :
    res (ctl (Z * evrdr) (Z * evrdr)) :=
  let '(rc, s) := st in
  let ptmout := if 0 <? tmout_sec g then Some (tmout_sec g) else None in
  let '(r, io) := wait_call kq 10 ptmout (eio s) in
  match r with
  | None => Ok (Leave (rc, MkEvrdr (perror io) (shown s) (gfd s)))
  | Some [] => Ok (Leave (rc, MkEvrdr io (shown s) (gfd s)))
  | Some evs =>
      '(rc, flags, s) ← process_events g rc 0 evs (MkEvrdr io (shown s) (gfd s));
      if negb (rc =? 0) then Ok (Leave (rc, s))
      else if has flags f_REOPEN then
        '(rc, s) ← re_open kq fpath s;
        if negb (rc =? 0) then Ok (Leave (rc, s)) else Ok (Next (rc, s))
      else Ok (Next (rc, s))
  end.

(** The result of [kq_add] is not looked at. *)
Definition follow_start (s : evrdr) : Z * evrdr :=
  let '(kq, io) := call_fd kq_kqueue (eio s) in
  if -1 =? kq then (-1, MkEvrdr (perror io) (shown s) (gfd s))
  else
    let '(_, io) := kq_add kq (gfd s) io in
    (kq, MkEvrdr io (shown s) (gfd s)).

Definition follow (fuel : nat) (g : cliopt) (fpath : list Z) (s : evrdr) : res (Z * evrdr) :=
  let '(kq, s) := follow_start s in
  if -1 =? kq then Ok (-1, s) else loop fuel (watch_body g kq fpath) (0, s).

(** [args]: [argv] without the program's name; the exit status. *)
Definition main (fuel : nat) (args : list (list Z)) (s : evrdr) : res (Z * evrdr) :=
  o ← parse_args args;
  match o with
  | None => Ok (EINVAL, s)
  | Some (g, fname) =>
      let '(fd, io) := call_fd (kq_open fname (Z.lor O_RDONLY O_NONBLOCK) 0) (eio s) in
      if -1 =? fd then Ok (1, MkEvrdr (perror io) (shown s) (gfd s))
      else
        '(rc, s) ← follow fuel g (set_fpath fname) (MkEvrdr io (shown s) fd);
        let '(_, io) := call0 (kq_close (gfd s)) (eio s) in
        Ok (rc, MkEvrdr io (shown s) (gfd s))
  end.
End code.
Arguments evrdr : clear implicits.

Lemma strlen_fpath fname :
  cstr fname → zlen fname ≤ PATH_MAX → strlen (set_fpath fname) = Ok (zlen fname).
Proof.
  intros Hc Hl. unfold set_fpath. rewrite take_ge by lia.
  replace (Z.to_nat (PATH_MAX + 1) - length fname)%nat with (S (Z.to_nat PATH_MAX - length fname)) by lia.
  cbn [replicate]. by apply strlen_cstr.
Qed.

(** ** What it is meant to do *)

(** The registrations of a descriptor, and their result. *)
Definition note_event (fd : Z) : kevent :=
  MkEv fd EVFILT_VNODE (Z.lor EV_ADD EV_CLEAR) (Z.lor NOTE_DELETE NOTE_RENAME) 0 0.
Definition read_event (fd : Z) : kevent := MkEv fd EVFILT_READ EV_ADD 0 0 0.
Inductive registering (kq fd : Z) : list call → Z → Prop :=
| registering_fails e : registering kq fd [CChange kq (note_event fd) (Some e)] (-1)
| registering_second r : registering kq fd [CChange kq (note_event fd) None; CChange kq (read_event fd) r]
    (if r is Some _ then -1 else 0).

(** Leaving the file [fd], of which [u] is not read, for the one the path names now:
    the new descriptor and what there is to read, if it could be opened, and the
    result. *)
Inductive reopened (kq : Z) (path : list Z) (fd : Z) (u : list Z) : list call → option (Z * list Z) → Z → Prop :=
| reopened_close e : reopened kq path fd u [CClose fd (Some e) u] None (-1)
| reopened_open e : reopened kq path fd u
    [CClose fd None u; COpen path (Z.lor (Z.lor O_CREAT O_RDONLY) O_NONBLOCK) FILE_MODE (IoErr e) []] None (-1)
| reopened_done fd' u' cs rc : registering kq fd' cs rc → reopened kq path fd u
    (CClose fd None u :: COpen path (Z.lor (Z.lor O_CREAT O_RDONLY) O_NONBLOCK) FILE_MODE (IoOk fd') u' :: cs)
    (Some (fd', u')) rc.

(** No event ends the loop; a batch with one of these notes ends with a new file. *)
Definition stops (ke : kevent) : bool := false.
Definition rotates : list kevent → bool := existsb (noted NOTE_DELETE NOTE_RENAME).

(** The calls of [n] turns that begin with the file [fd], of which [u] is still to
    be read; the files followed, each with the chunks read and what was not read
    of it; and the descriptor after these turns, or the result of the loop. *)
Inductive followed (g : cliopt) (kq : Z) (path : list Z) :
    nat → Z → list Z → list call → list (list (list Z) * list Z) → Z + Z → Prop :=
| followed_start fd u : followed g kq path 0 fd u [] [([], u)] (inl fd)
| followed_idle n fd u r more : (r = inl [] ∨ ∃ e, r = inr e) →
    followed g kq path (S n) fd u [CWait kq 10 (timeout g) r more] [([], u ++ more fd)] (inr 0)
| followed_failed n fd u evs more cs ds u' rc : evs ≠ [] → answered stops fd evs cs ds rc → rc ≠ 0 →
    u ++ more fd = concat ds ++ u' →
    followed g kq path (S n) fd u (CWait kq 10 (timeout g) (inl evs) more :: cs) [(ds, u')] (inr rc)
| followed_turn n fd u evs more cs ds u' cs' ds' l files st : evs ≠ [] → answered stops fd evs cs ds 0 →
    u ++ more fd = concat ds ++ u' → rotates evs = false →
    followed g kq path n fd u' cs' ((ds', l) :: files) st →
    followed g kq path (S n) fd u (CWait kq 10 (timeout g) (inl evs) more :: cs ++ cs') ((ds ++ ds', l) :: files) st
| followed_rotation n fd u evs more cs ds u' cs1 fd1 u1 cs' files st : evs ≠ [] → answered stops fd evs cs ds 0 →
    u ++ more fd = concat ds ++ u' → rotates evs = true → reopened kq path fd u' cs1 (Some (fd1, u1)) 0 →
    followed g kq path n fd1 u1 cs' files st →
    followed g kq path (S n) fd u (CWait kq 10 (timeout g) (inl evs) more :: cs ++ cs1 ++ cs') ((ds, u') :: files) st
| followed_stuck n fd u evs more cs ds u' cs1 new rc : evs ≠ [] → answered stops fd evs cs ds 0 →
    u ++ more fd = concat ds ++ u' → rotates evs = true → reopened kq path fd u' cs1 new rc → rc ≠ 0 →
    followed g kq path (S n) fd u (CWait kq 10 (timeout g) (inl evs) more :: cs ++ cs1)
      ((ds, u') :: match new with Some (_, u1) => [([], u1)] | None => [] end) (inr rc).

Lemma contents_registering fd cur kq fd' cs rc cs' :
  registering kq fd' cs rc → contents fd cur (cs ++ cs') = contents fd cur cs'.
Proof. by destruct 1. Qed.

Lemma contents_reopened fd cur kq path fd0 u cs new rc cs' :
  reopened kq path fd0 u cs new rc →
  contents fd cur (cs ++ cs') =
    match new with Some (fd', u') => cur :: contents fd' u' cs' | None => contents fd cur cs' end.
Proof. destruct 1; cbn; [done|done|]. by erewrite contents_registering. Qed.

(** Every file is its chunks and what was not read of it. *)
Lemma followed_contents g kq path n fd u cs files st :
  followed g kq path n fd u cs files st → contents fd u cs = (fun '(ds, l) => concat ds ++ l) <$> files.
Proof.
  induction 1 as [| |n fd u evs more cs ds u' rc _ HA _ Hu|n fd u evs more cs ds u' cs' ds' l files st _ HA Hu _ _ IH
    |n fd u evs more cs ds u' cs1 fd1 u1 cs' files st _ HA Hu _ HR _ IH|n fd u evs more cs ds u' cs1 new rc _ HA Hu _ HR _];
    [done|done|..]; cbn [contents fmap list_fmap]; rewrite Hu.
  - rewrite <- (app_nil_r cs), (contents_answered _ _ _ _ _ _ _ _ _ HA). done.
  - rewrite (contents_answered _ _ _ _ _ _ _ _ _ HA), contents_app, IH. cbn. by rewrite concat_app, <- app_assoc.
  - by rewrite (contents_answered _ _ _ _ _ _ _ _ _ HA), (contents_reopened _ _ _ _ _ _ _ _ _ _ HR), IH.
  - rewrite (contents_answered _ _ _ _ _ _ _ _ _ HA), <- (app_nil_r cs1), (contents_reopened _ _ _ _ _ _ _ _ _ _ HR).
    by destruct new as [[fd1 u1]|].
Qed.

Section proofs.
Context {W : Type} `{KT : KqTrace W}.
Implicit Types (s : evrdr W).

Lemma shown_all_app g (l : list (list Z)) ds ds' :
  l ++ (if print g then c_str <$> ds ++ ds' else []) =
  (l ++ (if print g then c_str <$> ds else [])) ++ (if print g then c_str <$> ds' else []).
Proof. destruct (print g); [by rewrite fmap_app, app_assoc|by rewrite !app_nil_r]. Qed.

Lemma evrdr_event rf g ke flags s :
  ident ke = gfd s → 0 ≤ gfd s < 2 ^ 31 → (Z.to_nat sizeof_buf + patience (iow (eio s)) < rf)%nat →
  (flags = 0 ∨ flags = f_REOPEN) →
  ∃ rc s' cs ds, process_event rf g ke flags s =
      Ok (rc, if noted NOTE_DELETE NOTE_RENAME ke then f_REOPEN else flags, s') ∧
    answer_to stops (gfd s) ke cs ds rc ∧
    trace (iow (eio s')) = trace (iow (eio s)) ++ cs ∧
    source (gfd s) (iow (eio s)) = concat ds ++ source (gfd s) (iow (eio s')) ∧
    shown s' = shown s ++ (if print g then c_str <$> ds else []) ∧ gfd s' = gfd s ∧
    (patience (iow (eio s')) ≤ patience (iow (eio s)))%nat ∧
    (∀ kq, watched kq (iow (eio s')) = watched kq (iow (eio s))).
Proof.
  intros Hi Hfd Hf Hfl. unfold process_event.
  assert (Hno : ∀ fl, data_event ke = false → fl = (if noted NOTE_DELETE NOTE_RENAME ke then f_REOPEN else flags) →
    ∃ rc s' cs ds, Ok (0, fl, s) = Ok (rc, if noted NOTE_DELETE NOTE_RENAME ke then f_REOPEN else flags, s') ∧
    answer_to stops (gfd s) ke cs ds rc ∧
    trace (iow (eio s')) = trace (iow (eio s)) ++ cs ∧
    source (gfd s) (iow (eio s)) = concat ds ++ source (gfd s) (iow (eio s')) ∧
    shown s' = shown s ++ (if print g then c_str <$> ds else []) ∧ gfd s' = gfd s ∧
    (patience (iow (eio s')) ≤ patience (iow (eio s)))%nat ∧
    (∀ kq, watched kq (iow (eio s')) = watched kq (iow (eio s)))).
  { intros fl Hd ->. exists 0, s, [], []. rewrite app_nil_r. split_and!; try done; [|by destruct (print g); rewrite app_nil_r].
    left. split; [done|]. intros. by constructor. }
  destruct (Z.eqb_spec EVFILT_READ (filter ke)) as [Hr|Hr].
  2: { apply Z.eqb_neq in Hr. unfold data_event in Hno. rewrite Hr in Hno. specialize (Hno _ eq_refl eq_refl).
       unfold noted in *. destruct (EVFILT_VNODE =? filter ke); [|exact Hno].
       by destruct (has (fflags ke) NOTE_DELETE), (has (fflags ke) NOTE_RENAME), Hfl as [->| ->]. }
  assert (Hnn : noted NOTE_DELETE NOTE_RENAME ke = false) by (unfold noted; by rewrite <- Hr).
  unfold data_event in Hno. rewrite Hnn, <- Hr in *. destruct (Z.ltb_spec 0 (kdata ke)) as [Hd|Hd]; [|by apply Hno].
  rewrite Hi, swrap_small by (cbn; lia). set (len := if _ <=? _ then _ else _).
  assert (Hlen : len = amount ke) by (subst len; unfold amount, sizeof_buf; destruct (Z.leb_spec (1024 + 1) (kdata ke)); lia).
  assert (Hda : data_event ke = true) by (unfold data_event; by rewrite <- Hr, (proj2 (Z.ltb_lt _ _) Hd)).
  rewrite Hlen. clear len Hlen.
  destruct (nread_chunk_reads rf (Z.to_nat sizeof_buf) (gfd s) (amount ke) (eio s))
    as (d & cs & io & -> & HR & Ht & Hdl & Hsrc & Hp & Hw & b & Eb & Hb); [unfold amount, sizeof_buf; lia|lia|].
  rewrite bind_Ok. destruct (Z.leb_spec (zlen d) 0) as [Hz|Hz].
  { assert (d = []) as -> by (by destruct d; [|cbn in Hz; lia]). exists (-1), (MkEvrdr io (shown s) (gfd s)), cs, [].
    split_and!; try done; [right; split; [done|]; intros evs; by constructor|by destruct (print g); rewrite app_nil_r]. }
  assert (HA : answer_to stops (gfd s) ke cs [d] 0).
  { left. split; [done|]. intros evs cs' ds' rc' H'. cbn. constructor; try done. by intros ->. }
  destruct (print g); [rewrite Eb, bind_Ok|]; (eexists 0, _, cs, [d]; split; [done|]); cbn; rewrite !app_nil_r.
  - by rewrite Hb.
  - done.
Qed.

(** A whole batch. *)
Lemma evrdr_events rf g evs : ∀ flags s,
  Forall (fun ke => ident ke = gfd s) evs → 0 ≤ gfd s < 2 ^ 31 →
  (Z.to_nat sizeof_buf + patience (iow (eio s)) < rf)%nat → (flags = 0 ∨ flags = f_REOPEN) →
  ∃ rc fl s' cs ds, process_events rf g 0 flags evs s = Ok (rc, fl, s') ∧
    answered stops (gfd s) evs cs ds rc ∧
    trace (iow (eio s')) = trace (iow (eio s)) ++ cs ∧
    source (gfd s) (iow (eio s)) = concat ds ++ source (gfd s) (iow (eio s')) ∧
    shown s' = shown s ++ (if print g then c_str <$> ds else []) ∧ gfd s' = gfd s ∧
    (patience (iow (eio s')) ≤ patience (iow (eio s)))%nat ∧
    (∀ kq, watched kq (iow (eio s')) = watched kq (iow (eio s))) ∧
    (rc = 0 → fl = if rotates evs then f_REOPEN else flags).
Proof.
  induction evs as [|ke evs IH]; intros flags s Hi Hfd Hf Hfl; cbn [process_events].
  { exists 0, flags, s, [], []. rewrite app_nil_r. split_and!; try done; [constructor|by destruct (print g); rewrite app_nil_r]. }
  apply Forall_cons in Hi as [Hk Hi].
  destruct (evrdr_event rf g ke flags s Hk Hfd Hf Hfl)
    as (rc & s1 & cs & ds & -> & HA & Ht1 & Hs1 & Hsh1 & Hg1 & Hp1 & Hw1). rewrite bind_Ok.
  set (fl1 := if noted _ _ _ then _ else _).
  destruct HA as [[-> HA]|[Hne HA]].
  2: { rewrite (proj2 (Z.eqb_neq rc 0) Hne). cbn [negb]. exists rc, fl1, s1, cs, ds. by split_and!. }
  cbn [Z.eqb negb].
  destruct (IH fl1 s1) as (rc & fl2 & s2 & cs2 & ds2 & -> & HA2 & Ht2 & Hs2 & Hsh2 & Hg2 & Hp2 & Hw2 & H2);
    [by rewrite Hg1|by rewrite Hg1|lia|subst fl1; destruct (noted _ _ _); auto|].
  rewrite Hg1 in *. exists rc, fl2, s2, (cs ++ cs2), (ds ++ ds2).
  rewrite shown_all_app, <- Hsh1, concat_app, <- app_assoc, <- Hs2, app_assoc, <- Ht1.
  split_and!; try done; [by apply HA|lia|intros kq; by rewrite Hw2, Hw1|].
  intros Hrc. rewrite (H2 Hrc). subst fl1. unfold rotates. cbn [existsb].
  by destruct (noted _ _ ke), (existsb _ evs).
Qed.

Lemma kq_add_run kq fd io r io' :
  kq_add kq fd io = (r, io') →
  still (iow io) (iow io') ∧ watched kq (iow io') ⊆ {[ fd ]} ∪ watched kq (iow io) ∧
  ∃ cs, registering kq fd cs r ∧ trace (iow io') = trace (iow io) ++ cs.
Proof.
  unfold kq_add, call0. fold (note_event fd) (read_event fd).
  destruct (kq_change kq (note_event fd) (iow io)) as [[e|] w1] eqn:E1; pose proof (trace_change _ _ _ _ _ E1) as T1;
    apply change_law in E1 as [H1 L1]; cbn [iow ioerrno iolog Z.eqb Z.compare Z.opp Pos.compare].
  { intros [= <- <-]. cbn. destruct L1 as [_ ->]. split_and!; [by destruct H1 as (?&?&?)..|set_solver|].
    eexists. split; [constructor|exact T1]. }
  destruct (kq_change kq (read_event fd) w1) as [r' w2] eqn:E2; pose proof (trace_change _ _ _ _ _ E2) as T2;
    apply change_law in E2 as [H2 L2]. rewrite T1, <- app_assoc in T2.
  assert (HS : still (iow io) w2).
  { destruct H1 as (A1 & B1 & C1), H2 as (A2 & B2 & C2).
    split_and!; [by intros fd'; rewrite A2, A1|by intros fd'; rewrite B2, B1|lia]. }
  pose proof (registering_second kq fd r') as HR.
  destruct r' as [e|]; cbn [iow ioerrno iolog Z.eqb Z.compare Z.opp Pos.compare]; intros [= <- <-]; cbn in *;
    (split; [exact HS|]); (split; [|by eexists]).
  - destruct L2 as [_ ->]. rewrite L1. set_solver.
  - rewrite L2, L1. set_solver.
Qed.

Lemma re_open_run kq fname s :
  cstr fname → zlen fname ≤ PATH_MAX → watched kq (iow (eio s)) ⊆ {[ gfd s ]} →
  ∃ rc s' cs new, re_open kq (set_fpath fname) s = Ok (rc, s') ∧ shown s' = shown s ∧
    (patience (iow (eio s')) ≤ patience (iow (eio s)))%nat ∧
    reopened kq fname (gfd s) (source (gfd s) (iow (eio s))) cs new rc ∧
    trace (iow (eio s')) = trace (iow (eio s)) ++ cs ∧
    (rc = 0 → 0 ≤ gfd s' < 2 ^ 31 ∧ watched kq (iow (eio s')) ⊆ {[ gfd s' ]} ∧
       new = Some (gfd s', source (gfd s') (iow (eio s')))).
Proof.
  intros Hc Hl Hw. unfold re_open, call0.
  destruct (kq_close (gfd s) (iow (eio s))) as [[e|] w1] eqn:E1; pose proof (trace_close _ _ _ _ E1) as T1;
    apply kclose_law in E1 as (_ & Hp1 & _ & H1); cbn [iow ioerrno iolog].
  { change (negb (-1 =? 0)) with true. eexists _, _, _, None. split; [done|]. cbn. split_and!; try done. constructor. }
  change (negb (0 =? 0)) with false. cbn iota. rewrite strlen_fpath, bind_Ok by done. unfold call_fd. cbn [iow ioerrno iolog].
  assert (Htake : take (Z.to_nat (zlen fname)) (set_fpath fname) = fname).
  { unfold set_fpath. rewrite Nat2Z.id, (take_ge fname), take_app_length by lia. done. }
  rewrite Htake.
  destruct (kq_open _ _ _ w1) as [[fd|e] w2] eqn:E2; pose proof (trace_open _ _ _ _ _ _ E2) as T2;
    apply kopen_law in E2 as (Hw2 & _ & Hp2 & H2); cbn [iow ioerrno iolog]; rewrite T1, <- app_assoc in T2.
  2: { eexists _, _, _, None. split; [done|]. cbn. split_and!; [done|lia| |exact T2|done]. constructor. }
  rewrite (proj2 (Z.eqb_neq (-1) fd)) by lia.
  destruct (kq_add kq fd _) as [rc io] eqn:E3. apply kq_add_run in E3 as ((Hs3 & _ & Hp3) & Hw3 & cs & HR & T3).
  cbn in *. rewrite T2, <- app_assoc in T3.
  eexists _, _, _, (Some (fd, source fd w2)). split; [done|]. cbn. split_and!; [done|lia| |exact T3|].
  - by constructor.
  - intros ->. split_and!; [lia|lia| |by rewrite Hs3]. rewrite Hw2, H1 in Hw3. set_solver.
Qed.

(** The calls since [w] are [cs]; each file followed is the chunks read and what was
    not read of it; the chunks have been shown, if so asked. *)
Record showing (g : cliopt) (fd : Z) (w : W) (shown0 : list (list Z)) (cs : list call)
    (files : list (list (list Z) * list Z)) s : Prop := {
  showing_trace : trace (iow (eio s)) = trace w ++ cs;
  showing_whole : contents fd (source fd w) cs = (fun '(ds, l) => concat ds ++ l) <$> files;
  showing_shown : shown s = shown0 ++ (if print g then c_str <$> concat (fst <$> files) else [])
}.

(** After [n] turns, or at the end, from a state with the given trace and output. *)
Definition running (g : cliopt) (kq : Z) (path : list Z) (n : nat) (s0 : evrdr W) (st : Z * evrdr W) : Prop :=
  let '(rc, s) := st in rc = 0 ∧ ∃ cs files,
    followed g kq path n (gfd s0) (source (gfd s0) (iow (eio s0))) cs files (inl (gfd s)) ∧
    showing g (gfd s0) (iow (eio s0)) (shown s0) cs files s ∧
    (snd <$> last files) = Some (source (gfd s) (iow (eio s))).
Definition ended (g : cliopt) (kq : Z) (path : list Z) (n : nat) (s0 : evrdr W) (st : Z * evrdr W) : Prop :=
  let '(rc, s) := st in ∃ cs files,
    followed g kq path n (gfd s0) (source (gfd s0) (iow (eio s0))) cs files (inr rc) ∧
    showing g (gfd s0) (iow (eio s0)) (shown s0) cs files s.

Lemma followed_files g kq path n fd u cs files st : followed g kq path n fd u cs files st → files ≠ [].
Proof. by destruct 1. Qed.

(** Turns after one without a rotation, and after one with it. *)
Lemma showing_more g fd w w2 shown0 shown2 cs cs' ds ds' l files s :
  showing g fd w2 shown2 cs' ((ds', l) :: files) s → trace w2 = trace w ++ cs →
  shown2 = shown0 ++ (if print g then c_str <$> ds else []) →
  contents fd (source fd w) (cs ++ cs') = (fun '(ds, l) => concat ds ++ l) <$> ((ds ++ ds', l) :: files) →
  showing g fd w shown0 (cs ++ cs') ((ds ++ ds', l) :: files) s.
Proof.
  intros [H1 H2 H3] Ht Hs Hc. split; [by rewrite H1, Ht, app_assoc|done|].
  rewrite H3, Hs. cbn. by rewrite <- (app_assoc ds), (shown_all_app g shown0 ds).
Qed.

Lemma showing_next g fd fd' w w2 shown0 shown2 cs cs' ds l files s :
  showing g fd' w2 shown2 cs' files s → trace w2 = trace w ++ cs →
  shown2 = shown0 ++ (if print g then c_str <$> ds else []) →
  contents fd (source fd w) (cs ++ cs') = (fun '(ds, l) => concat ds ++ l) <$> ((ds, l) :: files) →
  showing g fd w shown0 (cs ++ cs') ((ds, l) :: files) s.
Proof.
  intros [H1 H2 H3] Ht Hs Hc. split; [by rewrite H1, Ht, app_assoc|done|].
  rewrite H3, Hs. cbn. by rewrite (shown_all_app g shown0 ds).
Qed.

(** Any number of turns. *)
Lemma evrdr_turns rf g kq fname n : cstr fname → zlen fname ≤ PATH_MAX → ∀ s,
  0 ≤ gfd s < 2 ^ 31 → watched kq (iow (eio s)) ⊆ {[ gfd s ]} →
  (Z.to_nat sizeof_buf + patience (iow (eio s)) < rf)%nat →
  ensures (turns n (watch_body rf g kq (set_fpath fname)) (0, s)) (either (running g kq fname n s) (ended g kq fname n s)).
Proof.
  intros Hc Hl. induction n as [|n IH]; intros s Hfd Hw Hf; cbn [turns].
  { cbn. split; [done|]. eexists [], _. split; [constructor|]. split; [|done].
    split; cbn; [by rewrite app_nil_r|done|by destruct (print g); rewrite app_nil_r]. }
  unfold watch_body at 2, wait_call. fold (timeout g).
  destruct (kq_wait kq 10 _ _) as [r w] eqn:Ew. pose proof (trace_wait _ _ _ _ _ _ Ew) as (more & Ht & Hm).
  apply wait_law in Ew as (Hw1 & _ & _ & Hp1 & He); [|done].
  assert (Hidle : r = inl [] ∨ (∃ e, r = inr e) → ∀ io', iow io' = w →
    ended g kq fname (S n) s (0, MkEvrdr io' (shown s) (gfd s))).
  { intros Hr io' <-. eexists _, _. split; [by apply (followed_idle _ _ _ _ _ _ r more)|].
    split; cbn; [done|done|by destruct (print g); rewrite app_nil_r]. }
  destruct r as [[|ev evs]|e]; [by apply Hidle; auto| |by apply Hidle; eauto].
  destruct He as [_ He].
  set (s1 := MkEvrdr (MkIo (ioerrno (eio s)) (iolog (eio s)) w) (shown s) (gfd s)).
  destruct (evrdr_events rf g (ev :: evs) 0 s1) as (rc & fl & s2 & cs & ds & E & HA & Ht2 & Hs2 & Hsh2 & Hg2 & Hp2 & Hw2 & Hfl);
    [eapply Forall_impl; [exact He|]; intros ke; set_solver|done|cbn in *; lia|by left|].
  subst s1. cbn [eio iow shown gfd ioerrno iolog] in *. rewrite E, bind_Ok, Ht, Hm, <- app_assoc in *.
  set (c0 := CWait kq 10 (timeout g) (inl (ev :: evs)) more) in *. cbn [app] in Ht2.
  destruct (Z.eqb_spec rc 0) as [->|Hne]; cbn [negb].
  2: { rewrite bind_Ok. cbn. eexists _, _.
       pose proof (followed_failed g kq fname n (gfd s) _ (ev :: evs) more cs ds _ rc ltac:(done) HA Hne Hs2) as HF.
       split; [exact HF|]. split; [exact Ht2|by apply followed_contents in HF|]. cbn. by rewrite app_nil_r. }
  specialize (Hfl eq_refl). destruct (rotates (ev :: evs)) eqn:Ero; subst fl.
  - change (has f_REOPEN f_REOPEN) with true. cbn iota.
    destruct (re_open_run kq fname s2 Hc Hl) as (rc & s3 & cs1 & new & -> & Hsh3 & Hp3 & HR & Ht3 & H3);
      [by rewrite Hw2, Hw1, Hg2|]. rewrite bind_Ok, Hg2 in *. rewrite Ht2, <- app_assoc in Ht3. cbn [app] in Ht3.
    destruct (Z.eqb_spec rc 0) as [->|Hne]; cbn [negb]; rewrite bind_Ok.
    2: { cbn. eexists _, _.
         pose proof (followed_stuck g kq fname n (gfd s) _ (ev :: evs) more cs ds _ cs1 new rc ltac:(done) HA Hs2 Ero HR Hne) as HF.
         split; [exact HF|]. split; [exact Ht3|by apply followed_contents in HF|]. rewrite Hsh3, Hsh2.
         destruct new as [[fd1 u1]|]; cbn; by rewrite app_nil_r. }
    destruct (H3 eq_refl) as (Hfd3 & Hw3 & ->).
    eapply ensures_mono; [apply IH; [done|done|lia]|].
    assert (Hnext : ∀ cs' files st s4,
      followed g kq fname n (gfd s3) (source (gfd s3) (iow (eio s3))) cs' files st →
      showing g (gfd s3) (iow (eio s3)) (shown s3) cs' files s4 →
      ∃ cs files', followed g kq fname (S n) (gfd s) (source (gfd s) (iow (eio s))) cs files' st ∧
        showing g (gfd s) (iow (eio s)) (shown s) cs files' s4 ∧ last files' = last files).
    { intros cs' files st s4 HF HS. eexists _, _.
      pose proof (followed_rotation g kq fname n (gfd s) _ (ev :: evs) more cs ds _ cs1 _ _ cs' files st ltac:(done) HA Hs2 Ero HR HF) as HF'.
      split; [exact HF'|]. apply followed_contents in HF' as HC. rewrite app_assoc in HC. split.
      - rewrite app_assoc. eapply (showing_next _ _ _ _ _ _ _ (_ :: cs ++ cs1)); [exact HS|exact Ht3|by rewrite Hsh3, Hsh2|exact HC].
      - apply followed_files in HF. by destruct files. }
    intros [[rc s4]|[rc s4]]; cbn.
    + intros (-> & cs' & files & HF & HS & HL). split; [done|].
      destruct (Hnext _ _ _ _ HF HS) as (cs2 & files2 & ? & ? & Hlast). exists cs2, files2. rewrite Hlast. by split_and!.
    + intros (cs' & files & HF & HS). destruct (Hnext _ _ _ _ HF HS) as (cs2 & files2 & ? & ? & _). by exists cs2, files2.
  - change (has 0 f_REOPEN) with false. cbn iota. rewrite bind_Ok. unfold ended, running. rewrite <- Hg2 in *.
    eapply ensures_mono; [apply IH; [done|by rewrite Hw2, Hw1|lia]|].
    assert (Hnext : ∀ cs' files st s4,
      followed g kq fname n (gfd s2) (source (gfd s2) (iow (eio s2))) cs' files st →
      showing g (gfd s2) (iow (eio s2)) (shown s2) cs' files s4 →
      ∃ cs files', followed g kq fname (S n) (gfd s2) (source (gfd s2) (iow (eio s))) cs files' st ∧
        showing g (gfd s2) (iow (eio s)) (shown s) cs files' s4 ∧ (snd <$> last files') = (snd <$> last files)).
    { intros cs' files st s4 HF HS. destruct files as [|[ds' l] files]; [by apply followed_files in HF|]. eexists _, _.
      pose proof (followed_turn g kq fname n (gfd s2) _ (ev :: evs) more cs ds _ cs' ds' l files st ltac:(done) HA Hs2 Ero HF) as HF'.
      split; [exact HF'|]. apply followed_contents in HF' as HC. split.
      - eapply (showing_more _ _ _ _ _ _ (_ :: cs)); [exact HS|exact Ht2|done|exact HC].
      - by destruct files. }
    intros [[rc s4]|[rc s4]]; cbn.
    + intros (-> & cs' & files & HF & HS & HL). split; [done|].
      destruct (Hnext _ _ _ _ HF HS) as (cs2 & files2 & ? & ? & Hlast). exists cs2, files2. rewrite Hlast. by split_and!.
    + intros (cs' & files & HF & HS). destruct (Hnext _ _ _ _ HF HS) as (cs2 & files2 & ? & ? & _). by exists cs2, files2.
Qed.

(** C14: evrdr shows every file it follows from the start, in order and without
    gaps, chunk by chunk, until the file is rotated away.  After any number of
    turns, and when it ends, the calls it has made since it began to follow are
    those of [followed]: it waits, reads one chunk, of at most 1024 bytes, for each
    event that announces data, and after a batch with a deletion or a
    renaming closes the file, opens the path again and registers the new file.
    The chunks, each up to its first NUL byte, are what it has printed, if
    it was asked to.  For each file the chunks and a rest are all there ever
    was to read of it, what there was when it was opened and what has been
    added since: for the present file, the rest is what is still to be read;
    for an earlier one, what had not been read when its deletion or renaming was
    noticed, which is lost.  The loop ends with 0 when a wait fails or times out,
    and with -1 when there is nothing to read or the file cannot be changed. *)
Theorem evrdr_shows_files rf n g kq fname s s0 :
  0 ≤ gfd s < 2 ^ 31 → follow_start s = (kq, s0) → 0 ≤ kq → cstr fname → zlen fname ≤ PATH_MAX →
  (Z.to_nat sizeof_buf + patience (iow (eio s)) < rf)%nat →
  gfd s0 = gfd s ∧ source (gfd s0) (iow (eio s0)) = source (gfd s) (iow (eio s)) ∧ shown s0 = shown s ∧
  ensures (turns n (watch_body rf g kq (set_fpath fname)) (0, s0))
    (either (running g kq fname n s0) (ended g kq fname n s0)).
Proof.
  intros Hfd E Hkq Hc Hl Hf. unfold follow_start, call_fd in E.
  destruct (kq_kqueue (iow (eio s))) as [[kq1|e] w1] eqn:E1;
    apply kqueue_law in E1 as [(HA & _ & HC) L1]; cbn [iow ioerrno iolog] in E; [|injection E as <- <-; lia].
  destruct L1 as [Hkq1 Hw1]. rewrite (proj2 (Z.eqb_neq (-1) kq1)) in E by lia.
  destruct (kq_add kq1 (gfd s) _) as [r io] eqn:E2. injection E as <- <-.
  apply kq_add_run in E2 as ((HA2 & _ & HC2) & Hw2 & _). cbn in HA2, HC2, Hw2. rewrite Hw1 in Hw2.
  cbn. split_and!; [done|by rewrite HA2, HA|done|].
  apply evrdr_turns; cbn; [done|done|lia|set_solver|lia].
Qed.
End proofs.

(** ** Runs *)

Definition log_path : list Z := zs "/log".
Definition a_log (d : list Z) (an : list answer) : evrdr watch :=
  MkEvrdr (MkIo 0 [] (MkWatch {[ log_path := zs "new" ]} {[ 5 := d ]} [] ∅ 6 [] an [])) [] 5.

(** The file is renamed with 2000 bytes to read: 1024 are shown, the others never. *)
Example rotation_loses_data :
  match follow 2000 5 (MkOpt true 0) (set_fpath log_path)
          (a_log (replicate 2000 65)
             [MkAnswer [] (inl [readable 5 2000; vnode 5 NOTE_RENAME]); MkAnswer [] (inl [readable 6 3])]) with
  | Ok (rc, s) => rc = 0 ∧ shown s = [replicate 1024 65; zs "new"]
  | _ => False
  end.
Proof. vm_compute. split; reflexivity. Qed.

Lemma evrdr_shows_files_witness :
  let s := a_log (replicate 2000 65)
             [MkAnswer [] (inl [readable 5 2000; vnode 5 NOTE_RENAME]); MkAnswer [] (inl [readable 6 3])] in
  let '(kq, s0) := follow_start s in
  gfd s0 = gfd s ∧ source (gfd s0) (iow (eio s0)) = source (gfd s) (iow (eio s)) ∧ shown s0 = shown s ∧
  ensures (turns 2 (watch_body (Z.to_nat 2000) (MkOpt true 0) kq (set_fpath log_path)) (0, s0))
    (either (running (MkOpt true 0) kq log_path 2 s0) (ended (MkOpt true 0) kq log_path 2 s0)).
Proof.
  intros s. destruct (follow_start s) as [kq s0] eqn:E.
  refine (evrdr_shows_files (Z.to_nat 2000) 2 (MkOpt true 0) kq log_path s s0 _ E _ _ _ _).
  - cbn. lia.
  - apply (f_equal fst) in E. cbn [fst] in E. rewrite <- E. vm_compute. discriminate.
  - repeat constructor; vm_compute; reflexivity.
  - vm_compute. discriminate.
  - unfold sizeof_buf. cbn [patience kq_oslaws watch_laws watch_oslaws iow eio s a_log wscript length]. lia.
Defined.
