(* ===== verification/Kqfile.v ===== *)
(** * fdwatch/kqfile.c: following up to five log files

    The program copies to its output the lines that are added to its files, and
    opens a file again when it is rotated.  The [udata] of an event, a pointer
    to an entry of [files], is its index.  The output is what reaches descriptor
    1, by [write] and by [printf], which [main] has made unbuffered; the warnings
    go elsewhere and are left out.  [err] ends the program with status 1. *)

From stdpp Require Import gmap strings.
From S2P Require Import Prelude Libc Fdio Kq.
Local Open Scope Z_scope.

Definition NFILES : Z := 5.
Definition BUFSIZ : Z := 1024.
Definition STDOUT_FILENO : Z := 1.

(** [struct kqfile]; null pointers are empty strings. *)
Record kqfile := MkFile { kfd : Z; path : list Z; name : list Z }.
Definition no_file : kqfile := MkFile 0 [] [].

(** [get_filename]: what follows the last slash. *)
Fixpoint get_filename (nm : list Z) : list Z :=
  match nm with
  | [] => []
  | c :: nm' => if existsb (Z.eqb 47) nm' then get_filename nm' else if c =? 47 then nm' else nm
  end.

Example get_filename_log : get_filename (zs "/var/log/messages") = zs "messages".
Proof. reflexivity. Qed.

(** An addition of type [int]. *)
Definition add_int (a b : Z) : res Z :=
  if (- 2 ^ 31 <=? a + b) && (a + b <? 2 ^ 31) then Ok (a + b) else Ub.

(** ["%10.10s: "] *)
Definition column (nm : list Z) : list Z := replicate (10 - length nm) 32 ++ take 10 nm ++ zs ": ".

Example column_short : column (zs "log") = zs "       log: ".
Proof. reflexivity. Qed.
Example column_long : column (zs "messages.log.1") = zs "messages.l: ".
Proof. reflexivity. Qed.

Section code.
Context {W : Type} `{Kq W}.

(** [printf] without a buffer: [write] until the text is out or a call fails. *)
Fixpoint put_out (n : nat) (text : list Z) (s : io W) : io W :=
  match n, text with
  | S n', _ :: _ =>
      let '(k, s) := write_call STDOUT_FILENO text s in
      if k <? 0 then s else put_out n' (drop (Z.to_nat k) text) s
  | _, _ => s
  end.
Definition printf (text : list Z) (s : io W) : io W := put_out (length text) text s.

(** The two registrations of an entry: true, or the program exits. *)
Definition register_kevents (kq idx : Z) (f : kqfile) (s : io W) : bool * io W :=
  let ke := MkEv (kfd f) EVFILT_VNODE EV_ADD (Z.lor NOTE_DELETE NOTE_RENAME) 0 idx in
  let '(r, s) := call0 (kq_change kq ke) s in
  if r =? -1 then (false, perror s)
  else
    let ke := MkEv (kfd f) EVFILT_READ EV_ADD 0 0 idx in
    let '(r, s) := call0 (kq_change kq ke) s in
    if r =? -1 then (false, perror s) else (true, s).

(** -1 after a failure of [lseek] leaves the file open. *)
Definition open_file (p : list Z) (s : io W) : Z * io W :=
  let '(fd, s) := call_fd (kq_open p O_RDONLY 0) s in
  if fd =? -1 then (-1, s)
  else
    let '(r, s) := call0 (kq_seek_end fd) s in
    if r =? -1 then (-1, s) else (fd, s).

(** At most three attempts, a tenth of a second apart. *)
Fixpoint reopen_tries (n : nat) (p : list Z) (fd : Z) (s : io W) : Z * io W :=
  match n with
  | O => (fd, s)
  | S n' =>
      let s := MkIo (ioerrno s) (iolog s) (kq_usleep 100000 (iow s)) in
      let '(fd, s) := call_fd (kq_open p O_RDONLY 0) s in
      if negb (fd =? -1) then (fd, s) else reopen_tries n' p fd s
  end.

(** The descriptor or -1, and the entry; or the program exits. *)
Definition kqfreopen (kq idx : Z) (f : kqfile) (s : io W) : ctl (Z * kqfile * io W) (Z * io W) :=
  let '(_, s) := call0 (kq_close (kfd f)) s in
  let '(fd, s) := reopen_tries 3 (path f) (kfd f) s in
  let f := MkFile fd (path f) (name f) in
  if fd =? -1 then Next (-1, f, s)
  else
    let '(ok, s) := register_kevents kq idx f s in
    if ok then Next (fd, f, s) else Leave (1, s).

Definition kqfremove (f : kqfile) (s : io W) : kqfile * io W :=
  let '(_, s) := call0 (kq_close (kfd f)) s in (no_file, s).

(** [rdline] with its buffer: one byte at a time up to a newline. *)
Definition rdline_body (fd len : Z) (st : Z * list Z * io W) : res (ctl (Z * list Z * io W) (Z * list Z * io W)) :=
  let '(i, buf, s) := st in
  if negb (i <? len) then Ok (Leave st)
  else
    let '(r, s) := read_call (os_read fd 1) s in
    match r with
    | None => Ok (Leave (-1, buf, s))
    | Some [] => Ok (Leave (0, buf, s))
    | Some (c :: _) =>
        buf ← aset buf i c;
        if c =? 10 then Ok (Leave (i + 1, buf, s)) else Ok (Next (i + 1, buf, s))
    end.

Definition rdline (fd : Z) (buf : list Z) (len : Z) (s : io W) : res (Z * list Z * io W) :=
  loop (S (Z.to_nat len)) (rdline_body fd len) (0, buf, s).

(** The loop of [rwfile]; the state is [total] and the buffer. *)
Definition rwfile_body (f : kqfile) (len nbytes : Z) (st : Z * list Z * io W) :
    res (ctl (Z * list Z * io W) (Z * list Z * io W)) :=
  let '(total, buf, s) := st in
  '(i, buf, s) ← rdline (kfd f) buf len s;
  if i =? -1 then Ok (Leave (-1, buf, s))
  else
    b ← sub_bytes buf 0 i;
    let '(n, s) := write_call STDOUT_FILENO b s in
    total ← (if negb (n =? i) then Ok total else add_int total i);
    let s := if (i <? len) && (total <? nbytes) then printf (column (name f)) s else s in
    let buf := replicate (Z.to_nat len) 0 in
    if (0 <? i) && (total <? nbytes) then Ok (Next (total, buf, s)) else Ok (Leave (total, buf, s)).

Definition rwfile (fuel : nat) (f : kqfile) (buf : list Z) (len nbytes : Z) (s : io W) :
    res (Z * list Z * io W) :=
  loop fuel (rwfile_body f len nbytes) (0, buf, printf (column (name f)) s).

(** One turn of [kq_loop]: the entries, or an exit. *)
Definition kq_loop_body (fuel : nat) (kq : Z) (st : list kqfile * io W) :
    res (ctl (list kqfile * io W) (Z * io W)) :=
  let '(files, s) := st in
  let '(r, s) := wait_call kq 1 None s in
  match r with
  | None => Ok (Leave (1, perror s))
  | Some [] => Ok (Next (files, s))
  | Some (ke :: _) =>
      let idx := udata ke in
      if filter ke =? EVFILT_READ then
        f ← aget files idx;
        if kdata ke <? 0 then
          let s := printf (path f ++ zs " has shrunk" ++ [10]) s in
          let '(_, s) := call0 (kq_seek_end (kfd f)) s in Ok (Next (files, s))
        else
          '(i, _, s) ← rwfile fuel f (replicate (Z.to_nat BUFSIZ) 0) BUFSIZ (s32 (kdata ke)) s;
          Ok (Next (files, s))
      else if (filter ke =? EVFILT_VNODE) && (has (fflags ke) NOTE_DELETE || has (fflags ke) NOTE_RENAME) then
        f ← aget files idx;
        match kqfreopen kq idx f s with
        | Leave r => Ok (Leave r)
        | Next (r, f, s) =>
            let '(f, s) := if r =? -1 then kqfremove f s else (f, s) in
            files ← aset files idx f;
            Ok (Next (files, s))
        end
      else Ok (Next (files, s))
  end.

(** [for (i = 0; i < argc - 1 && i < NFILES; i++)]: the files named by the
    arguments; or an exit. *)
Fixpoint open_files (kq i : Z) (args : list (list Z)) (files : list kqfile) (s : io W) :
    res (ctl (Z * list kqfile * io W) (Z * io W)) :=
  match args with
  | [] => Ok (Next (i, files, s))
  | p :: args' =>
      if negb (i <? NFILES) then Ok (Next (i, files, s))
      else
        let '(fd, s) := open_file p s in
        if fd =? -1 then open_files kq (i + 1) args' files s
        else
          let f := MkFile fd p (get_filename p) in
          files ← aset files i f;
          let '(ok, s) := register_kevents kq i f s in
          if ok then open_files kq (i + 1) args' files s else Ok (Leave (1, s))
  end.

(** The exit status; [args] is [argv] without the program's name. *)
Definition main (rf fuel : nat) (args : list (list Z)) (s : io W) : res (Z * io W) :=
  let '(kq, s) := call_fd kq_kqueue s in
  if kq =? -1 then Ok (1, perror s)
  else
    c ← open_files kq 0 args (replicate (Z.to_nat NFILES) no_file) s;
    match c with
    | Leave r => Ok r
    | Next (i, files, s) =>
        if i =? 0 then Ok (1, s) else loop fuel (kq_loop_body rf kq) (files, s)
    end.
End code.

(** ** Lines *)

(** A piece that [rdline] delivers: it ends in a newline or fills the buffer. *)
Definition complete (n : nat) (p : list Z) : bool :=
  (List.last p 0 =? 10) || bool_decide (length p = n).

(** The pieces a text of at most [k] bytes consists of, without an unfinished rest. *)
Fixpoint pieces (k n : nat) (d : list Z) : list (list Z) :=
  match k with
  | O => []
  | S k' =>
      let '(p, r) := fgets_upto n d in
      if bool_decide (p = []) then [] else if complete n p then p :: pieces k' n r else []
  end.

(** What [rwfile] prints after the first name: after a piece that does not fill
  the buffer the name again, unless nothing is left of the bytes announced; at
  the end of the file once more, if bytes announced have not come as lines. *)
Fixpoint listing (col : list Z) (len : Z) (more : bool) (ps : list (list Z)) : list Z :=
  match ps with
  | [] => if more then col else []
  | p :: ps' =>
      p ++ (if (zlen p <? len) && (more || negb (bool_decide (ps' = []))) then col else []) ++
      listing col len more ps'
  end.

(** Names and pieces of text, as they reach the output. *)
Inductive shown := Name (t : list Z) | Text (t : list Z).
Definition shown_bytes (x : shown) : list Z := match x with Name t => t | Text t => t end.
Definition shown_text (x : shown) : list Z := match x with Name _ => [] | Text t => t end.
Definition name_of (f : kqfile) (x : shown) : Prop :=
  match x with Name t => t `prefix_of` column (name f) | Text _ => True end.

Lemma fgets_upto_app d n r :
  Forall (fun c => c ≠ 10) d →
  fgets_upto (length d + n) (d ++ r) = (d ++ (fgets_upto n r).1, (fgets_upto n r).2).
Proof.
  induction 1 as [|c d Hc Hd IH]; cbn; [by destruct (fgets_upto n r)|].
  rewrite (proj2 (Z.eqb_neq c 10)) by done. by rewrite IH.
Qed.

Lemma fgets_upto_split n d : (fgets_upto n d).1 ++ (fgets_upto n d).2 = d.
Proof.
  revert d. induction n as [|n IH]; intros [|c d]; cbn; try done. destruct (c =? 10); [done|].
  specialize (IH d). destruct (fgets_upto n d). cbn in *. by rewrite IH.
Qed.

(** With lines shorter than the buffer: the name in front of each, and twice more
  if there are bytes that make no line. *)
Lemma listing_short col len nbytes ps :
  Forall (fun p => zlen p < len) ps → 0 < nbytes →
  col ++ listing col len (zlen (concat ps) <? nbytes) ps =
  concat (map (app col) ps) ++ (if zlen (concat ps) <? nbytes then col ++ col else []).
Proof.
  intros Hp Hn. assert (Hnil : ps = [] → (zlen (concat ps) <? nbytes) = true) by (intros ->; by apply Z.ltb_lt).
  revert Hnil. generalize (zlen (concat ps) <? nbytes) as more.
  induction Hp as [|p ps Hlt Hp IH]; intros more Hnil; cbn [listing map concat]; [by rewrite Hnil|].
  rewrite (proj2 (Z.ltb_lt _ _)) by done. cbn [andb]. rewrite <- !app_assoc. do 2 f_equal.
  destruct ps as [|q ps].
  - cbn. by destruct more; rewrite ?app_nil_r.
  - rewrite bool_decide_false, orb_true_r by done. cbn [negb orb]. by apply IH.
Qed.

Section proofs.
Context {W : Type} `{KL : KqLaws W}.
Implicit Types (s : io W).

(** [rdline]: an error; or the end of the file, the bytes before it read and
    not delivered; or a piece of the text. *)
Lemma rdline_run fd buf len s :
  zlen buf = len → 0 < len →
  ∃ r d buf' s', rdline fd buf len s = Ok (r, buf', s') ∧ zlen buf' = len ∧
    source fd (iow s) = d ++ source fd (iow s') ∧ (∀ fd, sink fd (iow s') = sink fd (iow s)) ∧
    (r = -1 ∨
     (r = 0 ∧ source fd (iow s') = [] ∧ Forall (fun c => c ≠ 10) d ∧ zlen d < len) ∨
     (0 < r ∧ r = zlen d ∧ take (length d) buf' = d ∧ complete (Z.to_nat len) d = true ∧
      fgets_upto (Z.to_nat len) (source fd (iow s)) = (d, source fd (iow s')))).
Proof.
  intros Hb Hl. unfold rdline.
  set (I := fun st : Z * list Z * io W => let '(i, b, s') := st in
    ∃ d, i = zlen d ∧ i ≤ len ∧ b = patch d buf ∧ Forall (fun c => c ≠ 10) d ∧ (i = len → complete (Z.to_nat len) d = true) ∧
      source fd (iow s) = d ++ source fd (iow s') ∧ (∀ fd, sink fd (iow s') = sink fd (iow s))).
  set (Q := fun st : Z * list Z * io W => let '(r, b, s') := st in ∃ d, zlen b = len ∧
    source fd (iow s) = d ++ source fd (iow s') ∧ (∀ fd, sink fd (iow s') = sink fd (iow s)) ∧
    (r = -1 ∨
     (r = 0 ∧ source fd (iow s') = [] ∧ Forall (fun c => c ≠ 10) d ∧ zlen d < len) ∨
     (0 < r ∧ r = zlen d ∧ take (length d) b = d ∧ complete (Z.to_nat len) d = true ∧
      fgets_upto (Z.to_nat len) (source fd (iow s)) = (d, source fd (iow s'))))).
  enough (H0 : ensures (loop (S (Z.to_nat len)) (rdline_body fd len) (0, buf, s)) Q).
  { apply ensures_iff in H0 as ([[r b] s'] & -> & d & H0). by exists r, d, b, s'. }
  apply (loop_total I (fun st => Z.to_nat (len - st.1.1))); [|exists []; split_and!; (done || lia)|cbn; lia].
  intros [[i b] s1] (d & -> & Hi & -> & Hd & Hfull & Hs & Hk). unfold rdline_body.
  destruct (Z.ltb_spec (zlen d) len) as [Hlt|Hge]; cbn [negb].
  2: { exists d. rewrite length_patch by lia. split_and!; try done. right. right. split_and!; try done; [lia| | |].
       - unfold patch. by rewrite take_app_length.
       - apply Hfull. lia.
       - rewrite Hs. replace (Z.to_nat len) with (length d + 0)%nat by lia.
         rewrite fgets_upto_app by done. cbn. by rewrite app_nil_r. }
  unfold read_call. destruct (os_read fd 1 (iow s1)) as [[e|e] w] eqn:E.
  - apply read_ok in E as (He & Hsrc & Hz & Hk1 & _); [|lia].
    destruct e as [|c e]; [|destruct e; [|cbn in He; lia]]; cbn [app] in Hsrc.
    + exists d. rewrite length_patch by lia. cbn. split_and!; try done; [by rewrite <- Hsrc|by intros fd'; rewrite Hk1|].
      right. left. split_and!; try done. rewrite <- Hsrc. by apply Hz.
    + rewrite aset_patch, bind_Ok by (done || lia).
      assert (Hs' : source fd (iow s) = (d ++ [c]) ++ source fd w) by (by rewrite Hs, Hsrc, <- app_assoc).
      destruct (Z.eqb_spec c 10) as [->|Hc]; cbn.
      * exists (d ++ [10]). rewrite length_patch by (rewrite length_app; cbn; lia).
        split_and!; try done; [by intros fd'; rewrite Hk1|]. right. right. split_and!; try done; rewrite ?length_app; cbn; try lia.
        -- unfold patch. rewrite take_app_le by (rewrite length_app; cbn; lia). by rewrite take_ge by (rewrite length_app; cbn; lia).
        -- unfold complete. by rewrite List.last_last.
        -- rewrite Hs, Hsrc. replace (Z.to_nat len) with (length d + S (Z.to_nat len - length d - 1))%nat by lia.
           by rewrite fgets_upto_app by done.
      * split; [|lia]. exists (d ++ [c]). rewrite length_app. cbn. split_and!; try done; try lia.
        -- apply Forall_app. split; [done|by repeat constructor].
        -- intros Hx. unfold complete. rewrite bool_decide_true; [by rewrite orb_true_r|]. rewrite length_app. cbn. lia.
        -- by intros fd'; rewrite Hk1.
  - pose proof E as E'. apply read_err in E' as (He & Hsrc & Hk1 & _). exists d. rewrite length_patch by lia. cbn.
    split_and!; try done; [by rewrite Hs, Hsrc|by intros fd'; rewrite Hk1|]. by left.
Qed.

(** A text without a newline, too short for the buffer, is no piece. *)
Lemma unfinished_no_pieces k n d :
  Forall (fun c => c ≠ 10) d → (length d < n)%nat → pieces k n d = [].
Proof.
  intros Hd Hl. destruct k as [|k]; [done|]. cbn.
  assert (E : fgets_upto n d = (d, [])).
  { pose proof (fgets_upto_app d (n - length d) [] Hd) as E. rewrite app_nil_r in E.
    replace (length d + (n - length d))%nat with n in E by lia. rewrite E.
    destruct (n - length d)%nat; cbn; by rewrite app_nil_r. }
  rewrite E. case_bool_decide as Hn; [done|]. unfold complete.
  rewrite bool_decide_false, orb_false_r by lia.
  destruct (List.last d 0 =? 10) eqn:E10; [|done]. apply Z.eqb_eq in E10.
  destruct d as [|c d] using rev_ind; [done|]. rewrite List.last_last in E10.
  apply Forall_app in Hd as [_ Hc]. by apply (Forall_inv Hc) in E10.
Qed.

Lemma pieces_step k n d p r :
  fgets_upto n d = (p, r) → complete n p = true → p ≠ [] → pieces (S k) n d = p :: pieces k n r.
Proof. intros E Hc Hp. cbn. rewrite E, Hc. by rewrite bool_decide_false. Qed.

(** What [write] takes is the beginning of what it is given. *)
Lemma write_call_prefix fd d s n s' :
  (n, s') = write_call fd d s →
  (∀ fd, source fd (iow s') = source fd (iow s)) ∧
  ((n = -1 ∧ sink fd (iow s') = sink fd (iow s)) ∨
   (0 ≤ n ≤ zlen d ∧ (d ≠ [] → 0 < n) ∧ sink fd (iow s') = sink fd (iow s) ++ take (Z.to_nat n) d)).
Proof.
  unfold write_call. destruct (os_write fd d (iow s)) as [[k|e] w] eqn:E; intros [= -> ->]; cbn.
  - apply write_ok in E as (Hk & Hp & Hs & Hsrc & _). split; [done|]. by right.
  - apply write_err in E as (_ & Hs & Hsrc & _). split; [done|]. by left.
Qed.

Lemma write_call_sub fd d s n s' :
  (n, s') = write_call fd d s →
  (∀ fd, source fd (iow s') = source fd (iow s)) ∧
  ∃ e, e `sublist_of` d ∧ sink fd (iow s') = sink fd (iow s) ++ e ∧ (n = zlen d → e = d).
Proof.
  intros E. apply write_call_prefix in E as (Hsrc & [[-> Hs]|(Hk & _ & Hs)]); (split; [done|]).
  - exists []. split_and!; [apply sublist_nil_l|by rewrite app_nil_r|]. destruct d; [done|cbn; lia].
  - exists (take (Z.to_nat n) d). split_and!; [apply sublist_take|done|].
    intros ->. by rewrite Nat2Z.id, firstn_all.
Qed.

Lemma printf_prefix text s :
  (∀ fd, source fd (iow (printf text s)) = source fd (iow s)) ∧
  ∃ e, e `prefix_of` text ∧ sink STDOUT_FILENO (iow (printf text s)) = sink STDOUT_FILENO (iow s) ++ e.
Proof.
  unfold printf. generalize (length text) as n. intros n. revert text s.
  assert (Hnil : ∀ text s, (∀ fd, source fd (iow s) = source fd (iow s)) ∧
    ∃ e, e `prefix_of` text ∧ sink STDOUT_FILENO (iow s) = sink STDOUT_FILENO (iow s) ++ e).
  { intros text s. split; [done|]. exists []. split; [apply prefix_nil|by rewrite app_nil_r]. }
  induction n as [|n IH]; intros [|c text] s; cbn [put_out]; try apply Hnil.
  destruct (write_call STDOUT_FILENO (c :: text) s) as [k s1] eqn:E. symmetry in E.
  apply write_call_prefix in E as (Hsrc & Hk).
  destruct Hk as [[-> Hk]|(Hk & _ & Hs)]; [rewrite <- Hk; cbn; split; [done|]|].
  - exists []. split; [apply prefix_nil|by rewrite app_nil_r].
  - rewrite (proj2 (Z.ltb_ge k 0)) by lia.
    destruct (IH (drop (Z.to_nat k) (c :: text)) s1) as (Hsrc' & e & [x He] & Hs'). split; [by intros fd; rewrite Hsrc'|].
    exists (take (Z.to_nat k) (c :: text) ++ e). split.
    + exists x. rewrite <- app_assoc, <- He. by rewrite take_drop.
    + by rewrite Hs', Hs, app_assoc.
Qed.

(** One turn of [rwfile]'s loop. *)
Lemma rwfile_body_run f len nbytes total b s :
  zlen b = len → 0 < len → 0 ≤ total → total + len < 2 ^ 31 →
  ∃ d s1 r b1, rdline (kfd f) b len s = Ok (r, b1, s1) ∧
    source (kfd f) (iow s) = d ++ source (kfd f) (iow s1) ∧ (∀ fd, sink fd (iow s1) = sink fd (iow s)) ∧
    (r = -1 ∧ rwfile_body f len nbytes (total, b, s) = Ok (Leave (-1, b1, s1)) ∨
     ∃ n s2 total2, (n, s2) = write_call STDOUT_FILENO (take (Z.to_nat r) d) s1 ∧
       total2 = (if n =? r then total + r else total) ∧
       rwfile_body f len nbytes (total, b, s) =
         Ok ((if (0 <? r) && (total2 <? nbytes) then Next else Leave) (total2, replicate (Z.to_nat len) 0,
               if (r <? len) && (total2 <? nbytes) then printf (column (name f)) s2 else s2)) ∧
       ((r = 0 ∧ source (kfd f) (iow s1) = [] ∧ Forall (fun c => c ≠ 10) d ∧ zlen d < len) ∨
        (0 < r ∧ r = zlen d ∧ r ≤ len ∧ complete (Z.to_nat len) d = true ∧
         fgets_upto (Z.to_nat len) (source (kfd f) (iow s)) = (d, source (kfd f) (iow s1))))).
Proof.
  intros Hb Hl Ht Hov. destruct (rdline_run (kfd f) b len s Hb Hl) as (r & d & b1 & s1 & E & Hb1 & Hs & Hk & Hr).
  exists d, s1, r, b1. split_and!; try done. unfold rwfile_body. rewrite E, bind_Ok.
  destruct Hr as [->|Hr]; [by left|right].
  assert (Hr0 : 0 ≤ r ≤ len ∧ sub_bytes b1 0 r = Ok (take (Z.to_nat r) d)).
  { destruct Hr as [(-> & _)|(Hr & -> & Htk & _)].
    - split; [lia|]. by rewrite sub_bytes_ok by lia.
    - assert (zlen d ≤ len) by (apply (f_equal length) in Htk; rewrite length_take in Htk; lia). split; [lia|].
      rewrite sub_bytes_ok, drop_0 by lia. by rewrite Nat2Z.id, Htk, firstn_all. }
  destruct Hr0 as [Hr0 Hsub]. rewrite (proj2 (Z.eqb_neq r (-1))), Hsub, bind_Ok by lia.
  destruct (write_call STDOUT_FILENO _ s1) as [n s2] eqn:Ew. exists n, s2, (if n =? r then total + r else total).
  split_and!; [done|done| |].
  - destruct (n =? r); cbn [negb]; [|rewrite bind_Ok; by destruct (_ && _)].
    unfold add_int. rewrite (proj2 (Z.leb_le _ _)), (proj2 (Z.ltb_lt _ (2 ^ 31))) by lia. cbn [andb].
    rewrite bind_Ok. by destruct (_ && _).
  - destruct Hr as [Hr|(H1 & H2 & H3 & H4 & H5)]; [by left|right]. split_and!; (done || lia).
Qed.

(** Every write takes a byte, so the length of the text is fuel enough. *)
Lemma put_out_fuel n m text s :
  (length text ≤ n)%nat → (length text ≤ m)%nat → put_out n text s = put_out m text s.
Proof.
  revert m text s. induction n as [|n IH]; intros m [|c text] s Hn Hm; try (cbn in Hn; lia); [by destruct m|by destruct m|].
  destruct m as [|m]; [cbn in Hm; lia|]. cbn [put_out].
  destruct (write_call STDOUT_FILENO (c :: text) s) as [k s1] eqn:E. symmetry in E.
  apply write_call_prefix in E as (_ & [[-> _]|(Hk & Hpos & _)]); [done|].
  specialize (Hpos ltac:(done)). destruct (k <? 0); [done|].
  apply IH; rewrite length_drop; cbn in *; lia.
Qed.

(** What [rwfile] has taken from the file and put out. *)
Definition copying (f : kqfile) s s' : Prop :=
  ∃ d out, source (kfd f) (iow s) = d ++ source (kfd f) (iow s') ∧
    sink STDOUT_FILENO (iow s') = sink STDOUT_FILENO (iow s) ++ concat (map shown_bytes out) ∧
    Forall (name_of f) out ∧ concat (map shown_text out) `sublist_of` d.

Lemma copying_name f s s' (b : bool) :
  copying f s s' → copying f s (if b then printf (column (name f)) s' else s').
Proof.
  destruct b; [|done]. intros (d & out & Hs & Hk & Hn & Hsub).
  destruct (printf_prefix (column (name f)) s') as (Hsrc & e & He & Hk').
  exists d, (out ++ [Name e]). rewrite Hsrc, Hk', Hk, !map_app, !concat_app. cbn. rewrite !app_nil_r, <- app_assoc.
  split_and!; try done. apply Forall_app. split; [done|]. by constructor.
Qed.

Lemma copying_text f s s1 s2 s3 d e :
  copying f s s1 → source (kfd f) (iow s1) = d ++ source (kfd f) (iow s2) →
  (∀ fd, sink fd (iow s2) = sink fd (iow s1)) → (∀ fd, source fd (iow s3) = source fd (iow s2)) →
  sink STDOUT_FILENO (iow s3) = sink STDOUT_FILENO (iow s2) ++ e → e `sublist_of` d → copying f s s3.
Proof.
  intros (d0 & out & Hs0 & Hk0 & Hn & Hsub) Hs Hk Hs3 Hk3 He.
  exists (d0 ++ d), (out ++ [Text e]). rewrite Hs3, Hk3, Hk, Hs0, Hs, Hk0, !map_app, !concat_app. cbn.
  rewrite !app_nil_r, <- !app_assoc. split_and!; try done; [|by apply sublist_app].
  apply Forall_app. split; [done|]. by constructor.
Qed.

(** C19: [rwfile] ends, whatever the reads and writes do: every turn that goes on
    has taken a piece from the file, which holds finitely many bytes.  The buffer
    is not overrun, the sum does not overflow, and what arrives at the output
    are the file's name, or the beginning of it, and between the names a part, in
    order, of what has been taken from the file. *)
Theorem rwfile_ends fuel f buf len nbytes s :
  zlen buf = len → 0 < len → 0 ≤ nbytes → len + len + nbytes < 2 ^ 31 →
  (length (source (kfd f) (iow s)) < fuel)%nat →
  ensures (rwfile fuel f buf len nbytes s) (fun '(r, _, s') => -1 ≤ r < nbytes + len + 1 ∧
    ∃ d out, source (kfd f) (iow s) = d ++ source (kfd f) (iow s') ∧
      sink STDOUT_FILENO (iow s') = sink STDOUT_FILENO (iow s) ++ concat (map shown_bytes out) ∧
      Forall (name_of f) out ∧ concat (map shown_text out) `sublist_of` d).
Proof.
  intros Hb Hl Hn Hov Hf. unfold rwfile.
  apply (loop_total (fun '(total, b, s') => zlen b = len ∧ (total = 0 ∨ 0 ≤ total < nbytes) ∧ copying f s s')
    (fun st => length (source (kfd f) (iow st.2)))).
  2: { split_and!; [done|by left|]. apply (copying_name f s s true). exists [], []. rewrite app_nil_r. by split_and!. }
  2: { cbn. by rewrite (proj1 (printf_prefix _ _)). }
  intros [[total b] s1] (Hb1 & Ht & HC).
  destruct (rwfile_body_run f len nbytes total b s1 Hb1 Hl) as (d & s2 & r & b2 & E & Hs & Hk & Hr); [lia|lia|].
  destruct Hr as [[_ ->]|(n & s3 & t3 & Ew & Ht3 & -> & Hr)].
  { cbn. split; [lia|]. destruct HC as (d0 & out & Hs0 & Hk0 & Hn0 & Hsub). exists (d0 ++ d), out.
    rewrite Hk, Hs0, Hs, <- app_assoc. split_and!; try done. by apply sublist_inserts_r. }
  apply write_call_sub in Ew as (Hs3 & e & He & Hk3 & _).
  assert (HC3 : copying f s s3).
  { eapply copying_text; [exact HC|exact Hs|done|done|exact Hk3|]. etrans; [exact He|apply sublist_take]. }
  pose proof (copying_name f s s3 ((r <? len) && (t3 <? nbytes)) HC3) as HC4.
  assert (Hs4 : source (kfd f) (iow (if (r <? len) && (t3 <? nbytes) then printf (column (name f)) s3 else s3)) =
    source (kfd f) (iow s3)) by (destruct (_ && _); [apply printf_prefix|done]).
  assert (Hr' : 0 ≤ r ≤ len) by (destruct Hr as [(-> & _)|(? & _ & ? & _)]; lia).
  assert (Ht' : 0 ≤ t3 ≤ nbytes + len) by (rewrite Ht3; destruct (n =? r); lia).
  destruct (Z.ltb_spec 0 r) as [Hr0|Hr0]; [|cbn; split; [lia|exact HC4]].
  destruct (Z.ltb_spec t3 nbytes) as [Hlt|Hge]; cbn [andb]; [|split; [lia|exact HC4]].
  split_and!; [cbn; rewrite length_replicate; lia|cbn; lia|exact HC4|].
  cbn [snd]. rewrite Hs4, Hs3, Hs, length_app. destruct Hr as [(-> & _)|(_ & -> & _)]; lia.
Qed.

(** [P] holds of the systems in which no call fails or is cut short. *)
Record reliable (fd : Z) (P : W → Prop) : Prop := {
  reliable_read w r w' : P w → os_read fd 1 w = (r, w') → P w' ∧ ∃ d, r = RdOk d;
  reliable_write b w r w' : P w → os_write STDOUT_FILENO b w = (r, w') → P w' ∧ r = IoOk (zlen b)
}.

Lemma rdline_reliable fd P buf len s r b s' :
  reliable fd P → P (iow s) → rdline fd buf len s = Ok (r, b, s') → P (iow s') ∧ r ≠ -1.
Proof.
  intros [HR _] H0. unfold rdline.
  apply (loop_partial (fun st => P (iow st.2) ∧ 0 ≤ st.1.1) (fun st => P (iow st.2) ∧ st.1.1 ≠ -1)); [|by split].
  intros [[i b1] s1] c [HP Hi]. cbn [fst snd] in *. unfold rdline_body.
  destruct (i <? len); cbn [negb]; [|intros [= <-]; split; [done|cbn; lia]].
  unfold read_call. destruct (os_read fd 1 (iow s1)) as [e w] eqn:E. apply HR in E as [HP' [d ->]]; [|done].
  destruct d as [|x d]; [by intros [= <-]|]. destruct (aset b1 i x); try done. rewrite bind_Ok.
  destruct (x =? 10); intros [= <-]; cbn; (split; [done|lia]).
Qed.

Lemma write_call_reliable fd P b s n s' :
  reliable fd P → P (iow s) → (n, s') = write_call STDOUT_FILENO b s →
  P (iow s') ∧ n = zlen b ∧ (∀ fd, source fd (iow s') = source fd (iow s)) ∧
  sink STDOUT_FILENO (iow s') = sink STDOUT_FILENO (iow s) ++ b.
Proof.
  intros [_ Hw] HP E. pose proof (write_call_sub _ _ _ _ _ E) as (Hs & e & _ & Hk & He).
  unfold write_call in E. destruct (os_write STDOUT_FILENO b (iow s)) as [r w] eqn:Ew.
  apply Hw in Ew as [HP' ->]; [|done]. injection E as -> ->. cbn in *. by rewrite Hk, He.
Qed.

Lemma printf_reliable fd P (b : bool) text s :
  reliable fd P → P (iow s) →
  let s' := if b then printf text s else s in
  P (iow s') ∧ (∀ fd, source fd (iow s') = source fd (iow s)) ∧
  sink STDOUT_FILENO (iow s') = sink STDOUT_FILENO (iow s) ++ (if b then text else []).
Proof.
  intros HR HP. destruct b; [|by rewrite app_nil_r]. cbn zeta. unfold printf.
  destruct text as [|c text]; [by rewrite app_nil_r|]. cbn [length put_out].
  destruct (write_call STDOUT_FILENO (c :: text) s) as [k s1] eqn:E. symmetry in E.
  apply (write_call_reliable _ _ _ _ _ _ HR HP) in E as (HP1 & -> & Hs & Hk).
  rewrite (proj2 (Z.ltb_ge _ 0)), Nat2Z.id, drop_all by lia. by destruct (length text).
Qed.

(** The loop from any state: [k] bounds the bytes left. *)
Lemma rwfile_lines_run fuel P : ∀ f len nbytes total b s k,
  reliable (kfd f) P → P (iow s) → zlen b = len → 0 < len → 0 ≤ total → nbytes + len < 2 ^ 31 →
  total + zlen (source (kfd f) (iow s)) ≤ nbytes → (length (source (kfd f) (iow s)) ≤ k)%nat →
  (length (source (kfd f) (iow s)) < fuel)%nat →
  let ps := pieces k (Z.to_nat len) (source (kfd f) (iow s)) in
  let out := concat ps in
  ∃ tail b' s', loop fuel (rwfile_body f len nbytes) (total, b, s) = Ok (total + zlen out, b', s') ∧
    source (kfd f) (iow s) = out ++ tail ∧ Forall (fun c => c ≠ 10) tail ∧ zlen tail < len ∧
    source (kfd f) (iow s') = [] ∧
    sink STDOUT_FILENO (iow s') =
      sink STDOUT_FILENO (iow s) ++ listing (column (name f)) len (total + zlen out <? nbytes) ps.
Proof.
  induction fuel as [|fuel IH]; intros f len nbytes total b s k HR HP Hb Hl Ht Hov Hn Hk Hf; [lia|].
  destruct (rwfile_body_run f len nbytes total b s Hb Hl) as (d & s1 & r & b1 & Erd & Hs & Hk1 & Hr); [lia|lia|].
  destruct (rdline_reliable _ _ _ _ _ _ _ _ HR HP Erd) as [HP1 Hr1].
  destruct Hr as [[-> _]|(n & s2 & t2 & Ew & Ht2 & E & Hr)]; [done|].
  cbn [loop]. rewrite E, bind_Ok. apply (write_call_reliable _ _ _ _ _ _ HR HP1) in Ew as (HP2 & -> & Hs2 & Hk2).
  destruct (printf_reliable _ P ((r <? len) && (t2 <? nbytes)) (column (name f)) s2 HR HP2) as (HP3 & Hs3 & Hk3).
  set (s3 := if (r <? len) && (t2 <? nbytes) then printf (column (name f)) s2 else s2) in *.
  destruct Hr as [(-> & Hs1 & Hd & Hdl)|(Hr & -> & Hle & Hc & Hfg)].
  - rewrite Hs1, app_nil_r in Hs. rewrite Hs, unfinished_no_pieces by (done || lia). cbn [concat length listing].
    eexists d, _, s3. rewrite (proj2 (Z.ltb_lt 0 len)) in Hk3 by done. cbn [andb] in Hk3.
    change (take (Z.to_nat 0) d) with (@nil Z) in *. rewrite Hk3, Hk2, Hk1, app_nil_r, Ht2. cbn [length Z.of_nat Z.eqb Z.ltb Z.compare andb].
    split_and!; try done. by rewrite Hs3, Hs2.
  - rewrite Nat2Z.id, firstn_all in *. rewrite Z.eqb_refl in Ht2. rewrite (proj2 (Z.ltb_lt 0 _)) by done. cbn [andb].
    destruct k as [|k]; [rewrite Hs, length_app in Hk; lia|].
    rewrite (pieces_step k _ _ _ _ Hfg Hc) by (intros ->; cbn in Hr; lia). cbn [concat listing]. rewrite Hs, length_app in Hk, Hf, Hn.
    destruct (Z.ltb_spec t2 nbytes) as [Hlt|Hge].
    + destruct (IH f len nbytes t2 (replicate (Z.to_nat len) 0) s3 k) as (tail & b' & s' & E' & Hs' & Htl & Htn & He & Hk');
        [done|done|rewrite length_replicate; lia|done|lia|done|rewrite Hs3, Hs2; lia|rewrite Hs3, Hs2; lia|rewrite Hs3, Hs2; lia|].
      rewrite Hs3, Hs2 in E', Hs', Hk'. exists tail, b', s'.
      set (ps := pieces k (Z.to_nat len) (source (kfd f) (iow s1))) in *.
      assert (Et : t2 + zlen (concat ps) = total + zlen (d ++ concat ps)) by (rewrite length_app, Ht2; lia).
      rewrite Et in E', Hk'. split; [exact E'|].
      split_and!; try done; [by rewrite Hs, Hs', app_assoc|].
      rewrite Hk', Hk3, Hk2, Hk1, <- !app_assoc. do 2 f_equal.
      destruct ps as [|p ps]; [|by rewrite bool_decide_false, orb_true_r].
      rewrite bool_decide_true, orb_false_r by done. cbn [concat]. rewrite app_nil_r, <- Ht2.
      by rewrite (proj2 (Z.ltb_lt t2 nbytes)).
    + assert (Hnil : source (kfd f) (iow s1) = []) by (destruct (source (kfd f) (iow s1)); [done|cbn in Hn; lia]).
      rewrite Hnil, (unfinished_no_pieces k _ []) by (constructor || (cbn; lia)). cbn [concat listing].
      rewrite app_nil_r, <- Ht2, (proj2 (Z.ltb_ge t2 nbytes)), bool_decide_true by done.
      eexists [], _, s3. rewrite Hnil in Hs. rewrite andb_false_r in Hk3 |- *. rewrite !app_nil_r in *.
      split_and!; try done; [by rewrite Hs3, Hs2|by rewrite Hk3, Hk2, Hk1].
Qed.

(** C20: when nothing fails, [rwfile] copies to the output the lines the file
    holds, whole lines and full buffers of a longer line, and returns their
    length.  The name of the file stands before the first piece and after every
    piece that does not fill the buffer; so a line that exactly fills it is
    followed by the next line without a name, as the rest of a longer one is,
    and if every line is shorter each stands behind the name.  It reads what follows the last newline
    too, but that part, shorter than the buffer, is neither written nor kept: it
    never appears, only the name printed for it, twice. *)
Theorem rwfile_copies_lines fuel P f buf len nbytes s :
  reliable (kfd f) P → P (iow s) → zlen buf = len → 0 < len → nbytes + len < 2 ^ 31 →
  zlen (source (kfd f) (iow s)) ≤ nbytes → (length (source (kfd f) (iow s)) < fuel)%nat →
  let d := source (kfd f) (iow s) in
  let ps := pieces (length d) (Z.to_nat len) d in
  let out := concat ps in
  ∃ lost b' s', rwfile fuel f buf len nbytes s = Ok (zlen out, b', s') ∧
    d = out ++ lost ∧ Forall (fun c => c ≠ 10) lost ∧ zlen lost < len ∧
    source (kfd f) (iow s') = [] ∧
    sink STDOUT_FILENO (iow s') = sink STDOUT_FILENO (iow s) ++
      column (name f) ++ listing (column (name f)) len (zlen out <? nbytes) ps ∧
    (Forall (fun p => zlen p < len) ps → 0 < nbytes →
     sink STDOUT_FILENO (iow s') = sink STDOUT_FILENO (iow s) ++
       concat (map (app (column (name f))) ps) ++
       (if zlen out <? nbytes then column (name f) ++ column (name f) else [])).
Proof.
  intros HR HP Hb Hl Hov Hn Hf.
  destruct (printf_reliable _ P true (column (name f)) s HR HP) as (HP1 & Hs1 & Hk1).
  destruct (rwfile_lines_run fuel P f len nbytes 0 buf (printf (column (name f)) s) (length (source (kfd f) (iow s))))
    as (lost & b' & s' & E & Hs & Hn1 & Hl1 & He & Hk); try rewrite Hs1; (done || lia || idtac).
  rewrite Hs1 in *. exists lost, b', s'. rewrite Hk1, <- app_assoc in Hk.
  split_and!; try done. intros Hp Hpos. rewrite Hk. f_equal. by apply listing_short.
Qed.
End proofs.

(** ** Runs *)

(** Two lines and the beginning of a third. *)
Definition tail_ex : io watch :=
  MkIo 0 [] (MkWatch ∅ {[ 5 := zs "ab" ++ [10] ++ zs "c" ++ [10] ++ zs "de" ]} [] ∅ 6 [] [] []).
Definition file_ex : kqfile := MkFile 5 (zs "/log") (zs "log").

Example rwfile_run :
  match rwfile 20 file_ex (replicate 1024 0) 1024 7 tail_ex with
  | Ok (r, _, s) => r = 5 ∧ wsource 5 (iow s) = [] ∧
      wout (iow s) = zs "       log: ab" ++ [10] ++ zs "       log: c" ++ [10] ++ zs "       log:        log: "
  | _ => False
  end.
Proof. vm_compute. split_and!; reflexivity. Qed.

Lemma rwfile_ends_witness :
  ensures (rwfile 20 file_ex (replicate 4 0) 4 7 tail_ex) (fun '(r, _, s') => -1 ≤ r < 7 + 4 + 1 ∧
    ∃ d out, source (kfd file_ex) (iow tail_ex) = d ++ source (kfd file_ex) (iow s') ∧
      sink STDOUT_FILENO (iow s') = sink STDOUT_FILENO (iow tail_ex) ++ concat (map shown_bytes out) ∧
      Forall (name_of file_ex) out ∧ concat (map shown_text out) `sublist_of` d).
Proof.
  eapply ensures_mono; [apply (rwfile_ends 20 file_ex (replicate 4 0) 4 7 tail_ex)|by intros [[r b] s']].
  - reflexivity.
  - lia.
  - lia.
  - lia.
  - apply Nat.ltb_lt. vm_compute. reflexivity.
Defined.

Lemma watch_reliable fd : reliable fd (fun w : watch => wscript w = []).
Proof.
  split.
  - intros w r w' Hs E. cbn in E. unfold watch_read in E. rewrite Hs in E. injection E as <- <-. by split; [|eexists].
  - intros b w r w' Hs [= <- <-]. by split.
Qed.

Lemma rwfile_copies_lines_witness :
  let d := source (kfd file_ex) (iow tail_ex) in
  let ps := pieces (length d) (Z.to_nat 1024) d in
  let out := concat ps in
  ∃ lost b' s', rwfile 20 file_ex (replicate 1024 0) 1024 7 tail_ex = Ok (zlen out, b', s') ∧
    d = out ++ lost ∧ Forall (fun c => c ≠ 10) lost ∧ zlen lost < 1024 ∧
    source (kfd file_ex) (iow s') = [] ∧
    sink STDOUT_FILENO (iow s') = sink STDOUT_FILENO (iow tail_ex) ++
      column (name file_ex) ++ listing (column (name file_ex)) 1024 (zlen out <? 7) ps ∧
    (Forall (fun p => zlen p < 1024) ps → 0 < 7 →
     sink STDOUT_FILENO (iow s') = sink STDOUT_FILENO (iow tail_ex) ++
       concat (map (app (column (name file_ex))) ps) ++
       (if zlen out <? 7 then column (name file_ex) ++ column (name file_ex) else [])).
Proof.
  refine (rwfile_copies_lines 20 (fun w => wscript w = []) file_ex (replicate 1024 0) 1024 7 tail_ex
    (watch_reliable 5) eq_refl _ _ _ _ _).
  - reflexivity.
  - lia.
  - lia.
  - apply Z.leb_le. vm_compute. reflexivity.
  - apply Nat.ltb_lt. vm_compute. reflexivity.
Defined.
