(* ===== verification/Iorly.v ===== *)
(** * fdwatch/iorly.c: the start of a relay with many destinations

    The file is unfinished: it names things it does not declare and its server
    loop is empty.  What it does up to that loop, filling a list of kqueue
    changes and a table of destinations, is modelled here with the obvious
    reading of its slips: [p] in [evl_ensure_avail] is a local pointer, [ev] is
    [evl], [fdr] is [fdrec], [kq] is [g_kq], [g_srv] is the context, [i] in
    [server_loop] an index, and [& ctx.changes] and [| =] are [& ctx->changes]
    and [|=].  [fdrl_init] and [fdrl_expand], which it only calls, are
    parameters, and so are [fstat], [kqueue] and the success of [realloc].  The
    list of changes is only filled: no call hands it to the kernel. *)

From stdpp Require Import strings.
From S2P Require Import Prelude Libc Fdio Kq.
Local Open Scope Z_scope.

(** ** The list of events *)

(** What [ke] points to: nothing, a block already freed, or an array whose
    elements may not be set yet. *)
Inductive buffer := Null | Freed | Cells (l : list (option kevent)).

(** [len] is an [int], [capacity] a [size_t]. *)
Record ev_list := MkEvl { ke : buffer; len : Z; capacity : Z }.

Definition EVL_MIN_EXT : Z := 100.
Definition EVL_MAX_LEN : Z := 10000.
Definition EOVERFLOW : Z := 84.
Definition sizeof_kevent : Z := 32.

Definition INFO_DST : Z := Z.shiftl 1 1.

(** [S_ISREG] *)
Definition S_ISREG (mode : Z) : bool := Z.land mode 61440 =? 32768.

(** ** The table of destinations *)

Record fdrec := MkRec { fd : Z; fdio_flags : Z; src_offset : Z; info : Z }.
(** [first_empty] and [max_taken] are [ssize_t], [count] and [rcap] [size_t]. *)
Record fdr_list := MkFdrl { first_empty : Z; max_taken : Z; rec : option (list fdrec); count : Z; rcap : Z }.

Record server_ctx := MkCtx {
  src_fd : Z; idle_tmout : Z; changes : ev_list; in_dst : Z; in_sig : Z; dst : fdr_list
}.

Definition FDRL_INITIAL_LEN : Z := 100.
Definition FDRL_EXT : Z := 50.

(** The functions the file calls and nobody defines: a status and the table. *)
Class FdrlOps := {
  fdrl_init : fdr_list → Z → Z * fdr_list;
  fdrl_expand : fdr_list → Z → Z * fdr_list
}.

(** How [server_loop] ends: it returns, or spins in its empty loop. *)
Inductive server := Returned (rc : Z) (ctx : server_ctx) | Serving (ctx : server_ctx) (tmout : option Z).

Section code.
Context `{FdrlOps}.
(** [st_mode], or nothing if [fstat] fails; whether [realloc] succeeds for a
    size; the descriptor [kqueue] returns. *)
Variable fstat : Z → option Z.
Variable realloc_ok : Z → bool.
Variable kqueue : option Z.

Definition evl_ensure_avail (evl : ev_list) (n : Z) : res (Z * ev_list) :=
  _ ← c_assert (0 <? n);
  if u64 (u64 (len evl) + n) <? capacity evl then Ok (0, evl)
  else
    let nblocks := if negb (n / EVL_MIN_EXT =? 0) then n / EVL_MIN_EXT else 1 in
    let new_capacity := u64 (capacity evl + nblocks) in
    if EVL_MAX_LEN <? new_capacity then Ok (EOVERFLOW, evl)
    else
      match ke evl with
      | Freed => Ub
      | p =>
          if negb (realloc_ok (new_capacity * sizeof_kevent)) then
            Ok (ENOMEM, MkEvl (match p with Null => Null | _ => Freed end) (len evl) (capacity evl))
          else
            let old := match p with Cells l => l | _ => [] end in
            let l := take (Z.to_nat new_capacity)
                       (old ++ replicate (Z.to_nat new_capacity - length old) None) in
            Ok (0, MkEvl (Cells l) (len evl) new_capacity)
      end.

Definition get_stat_mode (fd : Z) : res (option Z) := _ ← c_assert (0 <=? fd); Ok (fstat fd).

(** [EV_SET (&events->ke[i], ...)] *)
Definition ev_set (events : ev_list) (i : Z) (e : kevent) : res ev_list :=
  match ke events with
  | Cells l => l ← aset l i (Some e); Ok (MkEvl (Cells l) (len events) (capacity events))
  | _ => Ub
  end.

(** [events->len++] *)
Definition inc_len (events : ev_list) : res ev_list :=
  if len events <? 2 ^ 31 - 1 then Ok (MkEvl (ke events) (len events + 1) (capacity events)) else Ub.

(** [udata] is the index of a record, or -1 for NULL. *)
Definition kq_reader_add (kq : Z) (events : ev_list) (fd udata : Z) : res (Z * ev_list) :=
  _ ← c_assert ((0 <? kq) && (0 <=? fd));
  mode ← get_stat_mode fd;
  match mode with
  | None => Ok (-1, events)
  | Some mode =>
      '(rc, events) ← evl_ensure_avail events (if S_ISREG mode then 2 else 1);
      if negb (rc =? 0) then Ok (-1, events)
      else
        let i := u64 (len events) in
        '(i, events) ←
          (if S_ISREG mode then
             events ← ev_set events i
               (MkEv fd EVFILT_VNODE (Z.lor EV_ADD EV_CLEAR) (Z.lor NOTE_DELETE NOTE_RENAME) 0 udata);
             events ← inc_len events;
             Ok (u64 (i + 1), events)
           else Ok (i, events));
        events ← ev_set events i (MkEv fd EVFILT_READ EV_ADD 0 0 udata);
        events ← inc_len events;
        Ok (0, events)
  end.

(** The search for the next free record: [n] bounds its turns. *)
Fixpoint find_empty (n : nat) (i : Z) (l : fdr_list) (rs : list fdrec) : res Z :=
  match n with
  | O => NoFuel
  | S n' =>
      if (i <=? u64 (max_taken l + 1)) && (i <? rcap l) then
        r ← aget rs i;
        if fd r =? -1 then Ok (s64 i) else find_empty n' (u64 (i + 1)) l rs
      else Ok (-1)
  end.

Definition in_table (l : fdr_list) : bool :=
  (0 <=? first_empty l) && (first_empty l <=? max_taken l + 1) && (u64 (first_empty l) <? rcap l).

(** The index of the record, or nothing for NULL. *)
Definition fdrl_add (l : fdr_list) (newfd : Z) : res (option Z * fdr_list) :=
  _ ← c_assert (0 <=? newfd);
  let '(rc, l) := match rec l with None => fdrl_init l FDRL_INITIAL_LEN | Some _ => (0, l) end in
  if negb (rc =? 0) then Ok (None, l)
  else
    let old_max := u64 (max_taken l) in
    let '(rc, l) :=
      if rcap l <=? u64 (max_taken l) then
        let '(rc, l) := fdrl_expand l FDRL_EXT in
        if negb (rc =? 0) then (rc, l)
        else (0, MkFdrl (s64 (old_max + 1)) (max_taken l) (rec l) (count l) (rcap l))
      else (0, l) in
    if negb (rc =? 0) then Ok (None, l)
    else
      _ ← c_assert (in_table l);
      match rec l with
      | None => Ub
      | Some rs =>
          let r := first_empty l in
          rs ← aset rs r (MkRec newfd 0 0 0);
          let l := MkFdrl (first_empty l) (if max_taken l <? r then r else max_taken l) (Some rs) (count l) (rcap l) in
          next ← find_empty (S (length rs)) (u64 (r + 1)) l rs;
          let l := MkFdrl next (max_taken l) (rec l) (count l) (rcap l) in
          _ ← c_assert (in_table l);
          Ok (Some r, MkFdrl (first_empty l) (max_taken l) (rec l) (u64 (count l + 1)) (rcap l))
      end.

Definition add_dst (kq : Z) (ctx : server_ctx) (newfd : Z) : res (Z * server_ctx) :=
  _ ← c_assert (0 <=? newfd);
  '(r, l) ← fdrl_add (dst ctx) newfd;
  match r with
  | None => Ok (-1, MkCtx (src_fd ctx) (idle_tmout ctx) (changes ctx) (in_dst ctx) (in_sig ctx) l)
  | Some r =>
      match rec l with
      | None => Ub
      | Some rs =>
          x ← aget rs r;
          rs ← aset rs r (MkRec (fd x) (fdio_flags x) (src_offset x) (Z.lor (info x) INFO_DST));
          let l := MkFdrl (first_empty l) (max_taken l) (Some rs) (count l) (rcap l) in
          '(rc, ch) ← kq_reader_add kq (changes ctx) newfd r;
          Ok (rc, MkCtx (src_fd ctx) (idle_tmout ctx) ch (in_dst ctx) (in_sig ctx) l)
      end
  end.

Definition set_changes (ch : ev_list) (ctx : server_ctx) : server_ctx :=
  MkCtx (src_fd ctx) (idle_tmout ctx) ch (in_dst ctx) (in_sig ctx) (dst ctx).

(** [rc = kq_reader_add (&g_srv.changes, fd, NULL)] *)
Definition add_source (kq fd : Z) (ctx : server_ctx) : res (Z * server_ctx) :=
  '(rc, ch) ← kq_reader_add kq (changes ctx) fd (-1);
  Ok (rc, set_changes ch ctx).

(** [for (i = 0; i < len; ++i) if (0 != add_dst (&g_srv, fds[i])) return -1;] *)
Fixpoint add_dsts (kq : Z) (fds : list Z) (ctx : server_ctx) : res (Z * server_ctx) :=
  match fds with
  | [] => Ok (0, ctx)
  | f :: fds' =>
      '(rc, ctx) ← add_dst kq ctx f;
      if negb (rc =? 0) then Ok (-1, ctx) else add_dsts kq fds' ctx
  end.

Definition server_loop (g_kq : Z) (fds : list Z) (ctx : server_ctx) : res server :=
  _ ← c_assert (0 =? g_kq);
  match kqueue with
  | None => Ok (Returned (-1) ctx)
  | Some kq =>
      '(rc, ctx) ← add_source kq (src_fd ctx) ctx;
      if negb (rc =? 0) then Ok (Returned (-1) ctx)
      else
        '(rc, ctx) ← (if 0 <? in_dst ctx then add_source kq (in_dst ctx) ctx else Ok (0, ctx));
        if negb (rc =? 0) then Ok (Returned (-1) ctx)
        else
          '(rc, ctx) ← (if negb (in_sig ctx =? 0) then add_source kq (in_sig ctx) ctx else Ok (0, ctx));
          if negb (rc =? 0) then Ok (Returned (-1) ctx)
          else
            '(rc, ctx) ← add_dsts kq fds ctx;
            if negb (rc =? 0) then Ok (Returned (-1) ctx)
            else Ok (Serving ctx (if 0 <? idle_tmout ctx then Some (idle_tmout ctx) else None))
  end.
End code.

(** ** Small runs *)

Definition no_events : ev_list := MkEvl Null 0 0.
(** A table of [n] free records, as zeroed memory and the code suggest. *)
Definition empty_table (n : nat) : fdr_list :=
  MkFdrl 0 0 (Some (replicate n (MkRec (-1) 0 0 0))) 0 (Z.of_nat n).

#[local] Instance no_ops : FdrlOps := {| fdrl_init l _ := (-1, l); fdrl_expand l _ := (-1, l) |}.
(** Descriptor 3 is a pipe, 5 is a regular file. *)
Definition some_modes (fd : Z) : option Z := if fd =? 5 then Some 33188 else Some 4480.

Example iorly_run :
  (∃ ctx, server_loop some_modes (fun _ => true) (Some 9) 0 [6; 7] (MkCtx 3 10 no_events 4 0 (empty_table 4)) = Ok (Serving ctx (Some 10)) ∧
     (len (changes ctx), count (dst ctx), first_empty (dst ctx)) = (4, 2, 2)) ∧
  server_loop some_modes (fun _ => true) (Some 9) 0 [] (MkCtx 5 10 no_events 4 0 (empty_table 4)) = Ub ∧
  server_loop some_modes (fun _ => true) (Some 9) 0 [6; 7] (MkCtx 3 10 no_events 4 0 (empty_table 2)) = Abort.
Proof. split_and!; [eexists; split|..]; by vm_compute. Qed.

(** ** The list of changes *)

(** The list holds [es] and has no room left: [evl_ensure_avail] extends it by
    one place at a time, whatever the number asked for. *)
Definition tight (evl : ev_list) (es : list kevent) : Prop :=
  len evl = zlen es ∧ capacity evl = zlen es ∧ zlen es ≤ EVL_MAX_LEN ∧
  (ke evl = Cells (map Some es) ∨ (ke evl = Null ∧ es = [])).

Lemma tight_no_events : tight no_events [].
Proof. unfold tight, EVL_MAX_LEN. cbn. split_and!; auto; lia. Qed.

Definition read_event (fd udata : Z) : kevent := MkEv fd EVFILT_READ EV_ADD 0 0 udata.

Section adding.
Context `{FdrlOps}.
Variable fstat : Z → option Z.
Variable realloc_ok : Z → bool.

(** What is left of the list when there is no memory: a pointer to a freed block. *)
Definition lost (evl : ev_list) : ev_list :=
  MkEvl (match ke evl with Null => Null | _ => Freed end) (len evl) (capacity evl).

Lemma ensure_avail_tight evl es n :
  tight evl es → 0 < n < EVL_MIN_EXT →
  evl_ensure_avail realloc_ok evl n =
    if zlen es =? EVL_MAX_LEN then Ok (EOVERFLOW, evl)
    else if realloc_ok ((zlen es + 1) * sizeof_kevent) then
      Ok (0, MkEvl (Cells (map Some es ++ [None])) (zlen es) (zlen es + 1))
    else Ok (ENOMEM, lost evl).
Proof.
  unfold EVL_MAX_LEN, EVL_MIN_EXT. intros (Hl & Hc & Hm & Hk) Hn. unfold evl_ensure_avail, EVL_MAX_LEN, EVL_MIN_EXT in *.
  rewrite (proj2 (Z.ltb_lt 0 n)) by lia. cbn [c_assert]. rewrite bind_Ok, Hl, Hc.
  assert (E : u64 (u64 (zlen es) + n) = zlen es + n) by (rewrite (wrap_small 64 (zlen es)), wrap_small; lia).
  rewrite E, Z.div_small by lia. clear E. rewrite (proj2 (Z.ltb_ge _ _)) by lia. cbn [Z.eqb negb].
  rewrite (wrap_small 64 (zlen es + 1)) by lia.
  destruct (Z.eqb_spec (zlen es) 10000) as [E|E].
  - by rewrite (proj2 (Z.ltb_lt _ _)) by lia.
  - rewrite (proj2 (Z.ltb_ge _ _)) by lia. unfold lost. rewrite Hl, Hc.
    destruct Hk as [-> | [-> ->]]; [|by destruct (realloc_ok _)]. destruct (realloc_ok _); cbn [negb]; [|done].
    do 4 f_equal. rewrite length_map. replace (Z.to_nat (zlen es + 1) - length es)%nat with 1%nat by lia.
    apply take_ge. rewrite length_app, length_map. cbn. lia.
Qed.

Lemma ev_set_last es e r n c :
  ev_set (MkEvl (Cells (map Some es ++ [r])) n c) (zlen es) e = Ok (MkEvl (Cells (map Some (es ++ [e]))) n c).
Proof.
  unfold ev_set. cbn [ke]. rewrite aset_Ok by (rewrite length_app, length_map; cbn; lia). rewrite bind_Ok. cbn [len capacity].
  do 3 f_equal. rewrite Nat2Z.id, insert_app_r_alt, length_map, Nat.sub_diag by (rewrite length_map; lia).
  by rewrite map_app.
Qed.

(** [kq_reader_add] on every branch, for the lists the program has.  A
    descriptor that is not a regular file is appended, until there are 10000
    events or the memory runs out, which leaves a pointer to a freed block.  A
    regular file takes two events, for which the list is extended by one place
    only: the second one is always stored behind its end. *)
Lemma kq_reader_add_spec kq evl es fd udata mode :
  tight evl es → 0 < kq → 0 ≤ fd → fstat fd = Some mode →
  if zlen es =? EVL_MAX_LEN then kq_reader_add fstat realloc_ok kq evl fd udata = Ok (-1, evl)
  else if negb (realloc_ok ((zlen es + 1) * sizeof_kevent)) then
    kq_reader_add fstat realloc_ok kq evl fd udata = Ok (-1, lost evl)
  else if S_ISREG mode then kq_reader_add fstat realloc_ok kq evl fd udata = Ub
  else ensures (kq_reader_add fstat realloc_ok kq evl fd udata) (fun '(rc, evl') =>
         rc = 0 ∧ tight evl' (es ++ [read_event fd udata])).
Proof.
  intros Ht Hkq Hfd Hs. unfold kq_reader_add. rewrite (proj2 (Z.ltb_lt _ _) Hkq), (proj2 (Z.leb_le _ _) Hfd).
  cbn [andb c_assert]. rewrite bind_Ok. unfold get_stat_mode. rewrite (proj2 (Z.leb_le _ _) Hfd). cbn [c_assert].
  rewrite !bind_Ok, Hs, (ensure_avail_tight evl es) by (try done; by destruct (S_ISREG mode)).
  destruct Ht as (Hl & Hc & Hm & _). unfold EVL_MAX_LEN in *.
  destruct (Z.eqb_spec (zlen es) 10000); [done|]. destruct (realloc_ok _); [|done]. cbn [negb]. rewrite bind_Ok.
  cbn [Z.eqb negb len]. rewrite (wrap_small 64 (zlen es)) by lia.
  assert (Hi : zlen es <? 2 ^ 31 - 1 = true) by (apply Z.ltb_lt; lia). destruct (S_ISREG mode).
  - rewrite ev_set_last, bind_Ok. unfold inc_len. cbn [len ke capacity]. rewrite Hi, !bind_Ok.
    rewrite (wrap_small 64 (zlen es + 1)) by lia. unfold ev_set at 1. cbn [ke].
    rewrite aset_Ub; [done|]. rewrite length_map, length_app. cbn. lia.
  - rewrite bind_Ok, ev_set_last, bind_Ok. unfold inc_len. cbn [len ke capacity]. rewrite Hi, bind_Ok. cbn [ensures].
    split; [done|]. unfold tight. cbn [len ke capacity]. rewrite length_app. unfold EVL_MAX_LEN. cbn [length].
    split_and!; try lia. by left.
Qed.
End adding.

(** ** The table of destinations *)

(** The records [rs] are taken, from the first one on, and [free] follow.  No
    record is ever given back, so the table keeps this form. *)
Definition dense (l : fdr_list) (rs free : list fdrec) : Prop :=
  rec l = Some (rs ++ free) ∧ Forall (fun r => fd r = -1) free ∧ rcap l = zlen (rs ++ free) ∧
  first_empty l = zlen rs ∧ max_taken l = Z.max 0 (zlen rs - 1) ∧ count l = zlen rs ∧ zlen (rs ++ free) < 2 ^ 31.

Lemma dense_empty_table n : Z.of_nat n < 2 ^ 31 → dense (empty_table n) [] (replicate n (MkRec (-1) 0 0 0)).
Proof.
  intros Hn. unfold dense, empty_table. cbn. rewrite length_replicate. split_and!; try done.
  by apply Forall_replicate.
Qed.

Lemma in_table_iff l : 0 ≤ first_empty l < 2 ^ 63 →
  in_table l = (first_empty l <=? max_taken l + 1) && (first_empty l <? rcap l).
Proof.
  intros Hf. unfold in_table. rewrite wrap_small by lia. by rewrite (proj2 (Z.leb_le 0 _)) by lia.
Qed.

(** The next free record is the one behind the new one, if there is one. *)
Lemma find_empty_next l rs r free n c :
  Forall (fun r => fd r = -1) free → max_taken l = zlen rs ∨ (max_taken l = 0 ∧ rs = []) →
  rcap l = c → c = zlen (rs ++ r :: free) → c < 2 ^ 31 →
  find_empty (S n) (zlen rs + 1) l (rs ++ r :: free) =
    Ok (match free with [] => -1 | _ => zlen rs + 1 end).
Proof.
  intros Hf Hm Hc -> Hlt. rewrite length_app in *. cbn [length] in *. cbn [find_empty].
  assert (Hmt : u64 (max_taken l + 1) = zlen rs + 1).
  { destruct Hm as [->|[-> ->]]; rewrite wrap_small; cbn; lia. }
  rewrite Hmt, Hc, Z.leb_refl. cbn [andb]. destruct free as [|f free].
  - by rewrite (proj2 (Z.ltb_ge _ _)) by (cbn; lia).
  - rewrite (proj2 (Z.ltb_lt _ _)) by (cbn [length]; lia).
    assert (E : aget (rs ++ r :: f :: free) (zlen rs + 1) = Ok f).
    { unfold aget. rewrite (proj2 (Z.leb_le _ _)) by lia. rewrite lookup_app_r by lia.
      by replace (Z.to_nat (zlen rs + 1) - length rs)%nat with 1%nat by lia. }
    rewrite E, bind_Ok. apply Forall_cons in Hf as [-> _]. cbn. by rewrite s64_small by lia.
Qed.

Section table.
Context `{FdrlOps}.

(** [fdrl_add] never calls [fdrl_expand]: [max_taken] is an index, so it stays
    below the capacity.  It takes the records one after the other, and fails its
    last assertion at the last one. *)
Lemma fdrl_add_dense l rs f free newfd :
  dense l rs (f :: free) → 0 ≤ newfd →
  match free with
  | [] => fdrl_add l newfd = Abort
  | _ => ensures (fdrl_add l newfd) (fun '(r, l') =>
           r = Some (zlen rs) ∧ dense l' (rs ++ [MkRec newfd 0 0 0]) free)
  end.
Proof.
  intros (Hr & Hf & Hc & He & Hm & Hn & Hlt) Hfd. unfold fdrl_add. rewrite (proj2 (Z.leb_le _ _) Hfd). cbn [c_assert].
  rewrite bind_Ok, Hr. cbn [Z.eqb negb]. apply Forall_cons in Hf as [_ Hf].
  pose proof Hlt as Hlt'. rewrite length_app in Hlt'. cbn [length] in Hlt'.
  rewrite (wrap_small 64 (max_taken l)), (proj2 (Z.leb_gt (rcap l) _)) by (rewrite ?Hc, ?Hm, ?length_app; cbn [length]; lia).
  cbn [Z.eqb negb]. rewrite in_table_iff, He, Hm, Hc, length_app by lia. cbn [length].
  set (n := Z.of_nat (length rs + S (length free))) in *.
  rewrite (proj2 (Z.leb_le (zlen rs) _)), (proj2 (Z.ltb_lt (zlen rs) n)) by lia. cbn [andb c_assert]. rewrite bind_Ok, Hr.
  rewrite aset_Ok, bind_Ok by (rewrite length_app; cbn [length]; lia).
  assert (Ei : <[Z.to_nat (zlen rs) := MkRec newfd 0 0 0]> (rs ++ f :: free) = rs ++ MkRec newfd 0 0 0 :: free).
  { by rewrite Nat2Z.id, insert_app_r_alt, Nat.sub_diag by lia. }
  rewrite Ei, (wrap_small 64 (zlen rs + 1)) by lia.
  set (mt := if Z.max 0 (zlen rs - 1) <? zlen rs then zlen rs else Z.max 0 (zlen rs - 1)).
  assert (Hmt : mt = zlen rs ∨ (mt = 0 ∧ rs = [])).
  { unfold mt. destruct (Z.ltb_spec (Z.max 0 (zlen rs - 1)) (zlen rs)); [by left|]. right. destruct rs; cbn in *; [done|lia]. }
  assert (Hmax : mt = Z.max 0 (zlen rs)) by (destruct Hmt as [->|[-> ->]]; cbn; lia).
  rewrite (find_empty_next _ rs _ free _ n), bind_Ok; [|done|exact Hmt|done|rewrite length_app; cbn [length]; lia|lia].
  cbn [first_empty max_taken rec rcap count].
  destruct free as [|f' free]; [done|]. rewrite in_table_iff by (cbn [first_empty]; lia).
  cbn [first_empty max_taken rec rcap count]. rewrite (proj2 (Z.leb_le (zlen rs + 1) _)), (proj2 (Z.ltb_lt _ n)) by (unfold n; cbn [length]; lia).
  cbn [andb c_assert]. rewrite bind_Ok. cbn [ensures]. split; [done|]. unfold dense. cbn [first_empty max_taken rec rcap count].
  rewrite <- !app_assoc, !length_app, Hn, wrap_small by lia. cbn [length app]. unfold n in *. cbn [length] in *.
  split_and!; try done; lia.
Qed.
End table.

(** ** The start of the server *)

(** A descriptor that is not a regular file. *)
Definition plain (fstat : Z → option Z) (fd : Z) : Prop :=
  0 ≤ fd ∧ ∃ mode, fstat fd = Some mode ∧ S_ISREG mode = false.

Definition dst_record (fd : Z) : fdrec := MkRec fd 0 0 INFO_DST.

(** The events of the destinations, each with the index of its record. *)
Fixpoint dst_events (k : Z) (fds : list Z) : list kevent :=
  match fds with [] => [] | f :: fds' => read_event f k :: dst_events (k + 1) fds' end.

Definition inbox_events (ctx : server_ctx) : list kevent :=
  (if 0 <? in_dst ctx then [read_event (in_dst ctx) (-1)] else []) ++
  (if in_sig ctx =? 0 then [] else [read_event (in_sig ctx) (-1)]).

Section start.
Context `{FdrlOps}.
Variable fstat : Z → option Z.
Variable kq : Z.
Hypothesis kq_pos : 0 < kq.

Abbreviation reader_add := (kq_reader_add fstat (fun _ => true) kq).

Lemma reader_add_plain evl es fd udata :
  tight evl es → zlen es < EVL_MAX_LEN → plain fstat fd →
  ∃ evl', reader_add evl fd udata = Ok (0, evl') ∧ tight evl' (es ++ [read_event fd udata]).
Proof.
  intros Ht Hl (Hfd & mode & Hs & Hreg).
  pose proof (kq_reader_add_spec fstat (fun _ => true) kq evl es fd udata mode Ht kq_pos Hfd Hs) as P.
  rewrite (proj2 (Z.eqb_neq _ _)), Hreg in P by lia. cbn [negb] in P.
  apply ensures_iff in P as ([rc evl'] & -> & -> & P). by exists evl'.
Qed.

Lemma add_source_plain ctx es fd :
  tight (changes ctx) es → zlen es < EVL_MAX_LEN → plain fstat fd →
  ∃ ch, add_source fstat (fun _ => true) kq fd ctx = Ok (0, set_changes ch ctx) ∧
    tight ch (es ++ [read_event fd (-1)]).
Proof.
  intros Ht Hl Hp. unfold add_source. destruct (reader_add_plain _ _ fd (-1) Ht Hl Hp) as (ch & -> & Hch).
  by exists ch.
Qed.

(** What a destination changes. *)
Definition same_sources (ctx ctx' : server_ctx) : Prop :=
  src_fd ctx' = src_fd ctx ∧ idle_tmout ctx' = idle_tmout ctx ∧ in_dst ctx' = in_dst ctx ∧ in_sig ctx' = in_sig ctx.

Lemma add_dst_plain ctx es rs f free fd :
  tight (changes ctx) es → zlen es < EVL_MAX_LEN → dense (dst ctx) rs (f :: free) → plain fstat fd →
  match free with
  | [] => add_dst fstat (fun _ => true) kq ctx fd = Abort
  | _ => ∃ ctx', add_dst fstat (fun _ => true) kq ctx fd = Ok (0, ctx') ∧ same_sources ctx ctx' ∧
           tight (changes ctx') (es ++ [read_event fd (zlen rs)]) ∧ dense (dst ctx') (rs ++ [dst_record fd]) free
  end.
Proof.
  intros Ht Hl Hd Hp. unfold add_dst. rewrite (proj2 (Z.leb_le _ _) (proj1 Hp)). cbn [c_assert]. rewrite bind_Ok.
  pose proof (fdrl_add_dense _ _ _ _ fd Hd (proj1 Hp)) as P. destruct free as [|f' free]; [by rewrite P|].
  apply ensures_iff in P as ([r l] & -> & -> & Hl'). rewrite bind_Ok.
  destruct Hl' as (Hr & Hf & Hc & He & Hm & Hn & Hlt). rewrite Hr, <- app_assoc. cbn [app].
  assert (Eg : aget (rs ++ MkRec fd 0 0 0 :: f' :: free) (zlen rs) = Ok (MkRec fd 0 0 0)).
  { unfold aget. rewrite (proj2 (Z.leb_le _ _)) by lia. by rewrite Nat2Z.id, list_lookup_middle. }
  rewrite Eg, bind_Ok, aset_Ok, bind_Ok by (rewrite !length_app; cbn; lia).
  destruct (reader_add_plain _ _ fd (zlen rs) Ht Hl Hp) as (ch & -> & Hch). rewrite bind_Ok.
  eexists. split_and!; [done|by split_and!|done|].
  unfold dense in *. cbn [dst rec rcap first_empty max_taken count] in *. rewrite !length_app in *. cbn [length] in *.
  split_and!; try done.
  rewrite Nat2Z.id, insert_app_r_alt, Nat.sub_diag by lia. by rewrite <- app_assoc.
Qed.

Lemma add_dsts_plain fds : ∀ ctx es rs free,
  tight (changes ctx) es → zlen es + zlen fds ≤ EVL_MAX_LEN → dense (dst ctx) rs free → free ≠ [] →
  Forall (plain fstat) fds →
  if zlen fds <? zlen free then
    ∃ ctx', add_dsts fstat (fun _ => true) kq fds ctx = Ok (0, ctx') ∧ same_sources ctx ctx' ∧
      tight (changes ctx') (es ++ dst_events (zlen rs) fds) ∧
      dense (dst ctx') (rs ++ map dst_record fds) (drop (length fds) free)
  else add_dsts fstat (fun _ => true) kq fds ctx = Abort.
Proof.
  induction fds as [|x fds IH]; intros ctx es rs free Ht Hl Hd Hne Hp.
  - destruct free as [|f free]; [done|]. rewrite (proj2 (Z.ltb_lt _ _)) by (cbn; lia).
    exists ctx. cbn. rewrite !app_nil_r. by split_and!.
  - apply Forall_cons in Hp as [Hx Hp]. destruct free as [|f free]; [done|]. cbn [length] in Hl.
    pose proof (add_dst_plain ctx es rs f free x Ht ltac:(lia) Hd Hx) as P. cbn [add_dsts].
    destruct free as [|f' free].
    + rewrite P. by rewrite (proj2 (Z.ltb_ge _ _)) by (cbn [length]; lia).
    + destruct P as (ctx1 & -> & (S1 & S2 & S3 & S4) & Ht1 & Hd1). rewrite bind_Ok. cbn [Z.eqb negb].
      specialize (IH ctx1 _ _ _ Ht1 ltac:(rewrite length_app; cbn [length]; lia) Hd1 ltac:(done) Hp).
      replace (zlen (x :: fds) <? zlen (f :: f' :: free)) with (zlen fds <? zlen (f' :: free))
        by (cbn [length]; destruct (Z.ltb_spec (zlen fds) (Z.of_nat (S (length free)))); symmetry; (apply Z.ltb_lt || apply Z.ltb_ge); lia).
      destruct (_ <? _); [|done]. destruct IH as (ctx' & -> & (T1 & T2 & T3 & T4) & Ht' & Hd'). exists ctx'.
      split_and!; [done|split_and!; congruence| |].
      * rewrite <- app_assoc in Ht'. rewrite length_app in Ht'. cbn [length] in Ht'.
        replace (Z.of_nat (length rs + 1)) with (zlen rs + 1) in Ht' by lia. exact Ht'.
      * rewrite <- app_assoc in Hd'. exact Hd'.
Qed.
End start.

(** The optional sources. *)
Lemma add_inbox `{FdrlOps} fstat kq (b : bool) fd ctx es :
  0 < kq → tight (changes ctx) es → zlen es < EVL_MAX_LEN → (b = true → plain fstat fd) →
  ∃ ch, (if b then add_source fstat (fun _ => true) kq fd ctx else Ok (0, ctx)) = Ok (0, set_changes ch ctx) ∧
    tight ch (es ++ if b then [read_event fd (-1)] else []).
Proof.
  intros Hkq Ht Hl Hp. destruct b.
  - by apply add_source_plain; [..|apply Hp].
  - exists (changes ctx). rewrite app_nil_r. by destruct ctx.
Qed.

(** The first destination makes the table, which the program leaves NULL. *)
Definition set_dst (l : fdr_list) (ctx : server_ctx) : server_ctx :=
  MkCtx (src_fd ctx) (idle_tmout ctx) (changes ctx) (in_dst ctx) (in_sig ctx) l.

Lemma add_dsts_init `{FdrlOps} fstat realloc_ok kq f fds ctx l0 :
  rec (dst ctx) = None → fdrl_init (dst ctx) FDRL_INITIAL_LEN = (0, l0) → rec l0 ≠ None →
  add_dsts fstat realloc_ok kq (f :: fds) ctx = add_dsts fstat realloc_ok kq (f :: fds) (set_dst l0 ctx).
Proof.
  intros Hr Hi H0. cbn [add_dsts]. f_equal. unfold add_dst. cbn [dst set_dst src_fd idle_tmout changes in_dst in_sig].
  assert (E : fdrl_add (dst ctx) f = fdrl_add l0 f); [|by rewrite E].
  unfold fdrl_add. rewrite Hr, Hi. by destruct (rec l0).
Qed.

(** With destinations: if [fdrl_init] makes a table of free records, and none of the
    descriptors is a regular file, the server loop is reached with one record for
    each destination in order; but the table must have more records than
    destinations, or taking the last one fails an assertion: the call that would
    enlarge the table is never made. *)
Theorem relay_takes_destinations `{FdrlOps} fstat kq f fds ctx l0 free :
  0 < kq → changes ctx = no_events →
  rec (dst ctx) = None → fdrl_init (dst ctx) FDRL_INITIAL_LEN = (0, l0) → dense l0 [] free → free ≠ [] →
  plain fstat (src_fd ctx) →
  (0 < in_dst ctx → plain fstat (in_dst ctx)) → (in_sig ctx ≠ 0 → plain fstat (in_sig ctx)) →
  Forall (plain fstat) (f :: fds) → 3 + zlen (f :: fds) ≤ EVL_MAX_LEN →
  let start := server_loop fstat (fun _ => true) (Some kq) 0 (f :: fds) ctx in
  if zlen (f :: fds) <? zlen free then
    ∃ ctx', start = Ok (Serving ctx' (if 0 <? idle_tmout ctx then Some (idle_tmout ctx) else None)) ∧
      tight (changes ctx') (read_event (src_fd ctx) (-1) :: inbox_events ctx ++ dst_events 0 (f :: fds)) ∧
      dense (dst ctx') (map dst_record (f :: fds)) (drop (length (f :: fds)) free)
  else start = Abort.
Proof.
  intros Hkq Hch Hrec Hinit Hd Hne Hsrc Hin Hsig Hfds Hlen start. unfold start, server_loop. clear start. cbn [Z.eqb c_assert].
  rewrite bind_Ok. assert (Hmax : EVL_MAX_LEN = 10000) by done.
  destruct (add_source_plain fstat kq Hkq ctx [] (src_fd ctx)) as (c1 & -> & Ht1);
    [by rewrite Hch; apply tight_no_events|cbn; lia|done|].
  rewrite bind_Ok. cbn [Z.eqb negb in_dst set_changes].
  destruct (add_inbox fstat kq (0 <? in_dst ctx) (in_dst ctx) (set_changes c1 ctx) _ Hkq Ht1) as (c2 & -> & Ht2);
    [cbn; lia|by intros ?%Z.ltb_lt; apply Hin|].
  rewrite bind_Ok. cbn [Z.eqb negb in_sig set_changes].
  destruct (add_inbox fstat kq (negb (in_sig ctx =? 0)) (in_sig ctx) (set_changes c2 (set_changes c1 ctx)) _ Hkq Ht2) as (c3 & -> & Ht3);
    [rewrite length_app; destruct (0 <? in_dst ctx); cbn; lia|by intros ?%negb_true_iff%Z.eqb_neq; apply Hsig|].
  rewrite bind_Ok. cbn [Z.eqb negb].
  rewrite (add_dsts_init _ _ _ _ _ (set_changes c3 (set_changes c2 (set_changes c1 ctx))) l0 Hrec Hinit)
    by (by destruct Hd as [-> _]).
  pose proof (add_dsts_plain fstat kq Hkq (f :: fds)
    (set_dst l0 (set_changes c3 (set_changes c2 (set_changes c1 ctx)))) _ [] free Ht3) as P.
  specialize (P ltac:(rewrite !length_app; destruct (0 <? in_dst ctx), (negb (in_sig ctx =? 0)); cbn in *; lia) Hd Hne Hfds).
  destruct (_ <? zlen free); [|by rewrite P]. destruct P as (ctx' & -> & (_ & S2 & _) & Ht' & Hd').
  rewrite bind_Ok. cbn [Z.eqb negb]. exists ctx'. rewrite S2. split_and!; [done| |done].
  unfold inbox_events. rewrite <- !app_assoc in Ht'. cbn [app] in Ht'. rewrite <- app_assoc.
  by destruct (in_sig ctx =? 0).
Qed.

(** ** The sources *)

(** The descriptors the program reads, in order. *)
Definition sources (ctx : server_ctx) : list Z :=
  src_fd ctx :: (if 0 <? in_dst ctx then [in_dst ctx] else []) ++ (if in_sig ctx =? 0 then [] else [in_sig ctx]).

(** What becomes of a list with the events [es] when [fds] are added: the events, or
    nothing if one of them cannot be examined or there is no memory for it; a regular
    file, for which there is room for one event only, is undefined. *)
Fixpoint listed (fstat : Z → option Z) (realloc_ok : Z → bool) (es : list kevent) (fds : list Z) :
    res (option (list kevent)) :=
  match fds with
  | [] => Ok (Some es)
  | f :: fds' =>
      if f <? 0 then Abort
      else
        match fstat f with
        | None => Ok None
        | Some mode =>
            if negb (realloc_ok ((zlen es + 1) * sizeof_kevent)) then Ok None
            else if S_ISREG mode then Ub
            else listed fstat realloc_ok (es ++ [read_event f (-1)]) fds'
        end
  end.

Lemma listed_events fstat realloc_ok fds : ∀ es es',
  listed fstat realloc_ok es fds = Ok (Some es') → es' = es ++ map (fun fd => read_event fd (-1)) fds.
Proof.
  induction fds as [|f fds IH]; intros es es'; cbn [listed]; [intros [= <-]; by rewrite app_nil_r|].
  destruct (f <? 0); [done|]. destruct (fstat f) as [mode|]; [|done]. destruct (negb _); [done|].
  destruct (S_ISREG mode); [done|]. intros ->%IH. by rewrite <- app_assoc.
Qed.

Section sources.
Context `{FdrlOps}.
Variable fstat : Z → option Z.
Variable realloc_ok : Z → bool.

(** The sources one after the other, as [server_loop] adds them. *)
Fixpoint add_sources (kq : Z) (fds : list Z) (ctx : server_ctx) : res (Z * server_ctx) :=
  match fds with
  | [] => Ok (0, ctx)
  | f :: fds' =>
      '(rc, ctx) ← add_source fstat realloc_ok kq f ctx;
      if negb (rc =? 0) then Ok (-1, ctx) else add_sources kq fds' ctx
  end.

Lemma server_loop_sources kq ctx : let '(MkCtx src tmout _ ind ins _) := ctx in
  server_loop fstat realloc_ok (Some kq) 0 [] ctx =
    ('(rc, ctx) ← add_sources kq (sources ctx) ctx;
     if negb (rc =? 0) then Ok (Returned (-1) ctx)
     else Ok (Serving ctx (if 0 <? tmout then Some tmout else None))).
Proof.
  destruct ctx as [src tmout ch ind ins d]. unfold server_loop, sources, add_source. cbn [src_fd in_dst in_sig idle_tmout changes dst].
  cbn [Z.eqb c_assert add_sources]. unfold add_source, set_changes. rewrite bind_Ok. cbn [changes src_fd idle_tmout in_dst in_sig dst].
  destruct (kq_reader_add _ _ _ ch src _) as [[rc ch1]| | |]; try done. rewrite !bind_Ok.
  destruct (rc =? 0) eqn:E1; cbn [negb]; [|rewrite bind_Ok; by rewrite (proj2 (Z.eqb_neq (-1) 0))].
  cbn [changes src_fd idle_tmout in_dst in_sig dst].
  destruct (0 <? ind) eqn:E2; cbn [app add_sources]; unfold add_source, set_changes; cbn [changes src_fd idle_tmout in_dst in_sig dst].
  - destruct (kq_reader_add _ _ _ ch1 ind _) as [[rc2 ch2]| | |]; try done. rewrite !bind_Ok.
    destruct (rc2 =? 0) eqn:E3; cbn [negb]; [|rewrite bind_Ok; by rewrite (proj2 (Z.eqb_neq (-1) 0))].
    cbn [changes src_fd idle_tmout in_dst in_sig dst]. destruct (ins =? 0) eqn:E4; cbn [negb add_sources]; unfold add_source, set_changes; cbn [changes src_fd idle_tmout in_dst in_sig dst].
    + done.
    + destruct (kq_reader_add _ _ _ ch2 ins _) as [[rc3 ch3]| | |]; try done. rewrite !bind_Ok.
      by destruct (rc3 =? 0) eqn:E5.
  - rewrite !bind_Ok. cbn [Z.eqb negb].
    cbn [changes src_fd idle_tmout in_dst in_sig dst]. destruct (ins =? 0) eqn:E4; cbn [negb add_sources]; unfold add_source, set_changes; cbn [changes src_fd idle_tmout in_dst in_sig dst].
    + done.
    + destruct (kq_reader_add _ _ _ ch1 ins _) as [[rc3 ch3]| | |]; try done. rewrite !bind_Ok.
      by destruct (rc3 =? 0) eqn:E5.
Qed.

Lemma add_sources_listed kq fds : 0 < kq → ∀ ctx es,
  tight (changes ctx) es → zlen es + zlen fds ≤ EVL_MAX_LEN →
  match listed fstat realloc_ok es fds with
  | Ok (Some es') => ∃ ch, add_sources kq fds ctx = Ok (0, set_changes ch ctx) ∧ tight ch es'
  | Ok None => ∃ ch, add_sources kq fds ctx = Ok (-1, set_changes ch ctx)
  | Ub => add_sources kq fds ctx = Ub
  | Abort => add_sources kq fds ctx = Abort
  | NoFuel => False
  end.
Proof.
  intros Hkq. induction fds as [|f fds IH]; intros ctx es Ht Hl; cbn [listed add_sources].
  { exists (changes ctx). by destruct ctx. }
  unfold add_source. destruct (Z.ltb_spec f 0) as [Hf|Hf].
  { unfold kq_reader_add. rewrite (proj2 (Z.leb_gt 0 f)) by done. by rewrite andb_false_r. }
  cbn [length] in Hl. destruct (fstat f) as [mode|] eqn:Es.
  2: { unfold kq_reader_add, get_stat_mode. rewrite (proj2 (Z.ltb_lt _ _) Hkq), (proj2 (Z.leb_le _ _) Hf).
       cbn [andb c_assert]. rewrite !bind_Ok, Es, !bind_Ok. by exists (changes ctx). }
  pose proof (kq_reader_add_spec fstat realloc_ok kq _ es f (-1) mode Ht Hkq Hf Es) as P.
  rewrite (proj2 (Z.eqb_neq _ _)) in P by lia. destruct (realloc_ok _); cbn [negb] in P |- *.
  2: { rewrite P, !bind_Ok. by exists (lost (changes ctx)). }
  destruct (S_ISREG mode); [by rewrite P|].
  apply ensures_iff in P as ([rc ch] & -> & -> & Hch). rewrite !bind_Ok. cbn [Z.eqb negb].
  specialize (IH (set_changes ch ctx) (es ++ [read_event f (-1)]) Hch ltac:(rewrite length_app; cbn [length]; lia)).
  destruct (listed _ _ _ fds) as [[es'|]| | |]; try done.
Qed.
End sources.

(** C40: how the relay starts when it is given no destinations.  In every case of
    [kqueue], [fstat] and [realloc] and for all its descriptors: without a queue it
    returns -1; otherwise it goes through its source, client inbox and signal
    inbox, those it has, in this order.  A descriptor that cannot be examined, or
    for which there is no memory, makes it return -1; a regular file makes it
    store an event behind the end of its list, which is undefined; a negative
    one fails an assertion.  If none of this happens it reaches its server loop,
    which never ends, with a list of exactly one read event for each.  (The loop
    is empty: the list is never handed to the kernel.) *)
Theorem relay_starts `{FdrlOps} fstat realloc_ok kqueue ctx :
  changes ctx = no_events →
  let start := server_loop fstat realloc_ok kqueue 0 [] ctx in
  match kqueue with
  | None => start = Ok (Returned (-1) ctx)
  | Some kq =>
      if kq <=? 0 then start = Abort
      else
        match listed fstat realloc_ok [] (sources ctx) with
        | Ok (Some es) => ∃ ch, tight ch es ∧ es = map (fun fd => read_event fd (-1)) (sources ctx) ∧
            start = Ok (Serving (set_changes ch ctx) (if 0 <? idle_tmout ctx then Some (idle_tmout ctx) else None))
        | Ok None => ∃ ch, start = Ok (Returned (-1) (set_changes ch ctx))
        | Ub => start = Ub
        | Abort => start = Abort
        | NoFuel => False
        end
  end.
Proof.
  intros Hch start. unfold start. clear start. destruct kqueue as [kq|]; [|done].
  destruct (Z.leb_spec kq 0) as [Hkq|Hkq].
  { unfold server_loop, add_source, kq_reader_add. cbn [Z.eqb c_assert]. by rewrite bind_Ok, (proj2 (Z.ltb_ge 0 kq)). }
  pose proof (server_loop_sources fstat realloc_ok kq ctx) as E.
  pose proof (add_sources_listed fstat realloc_ok kq (sources ctx) Hkq ctx []) as P. rewrite Hch in P.
  specialize (P tight_no_events).
  assert (Hlen : zlen (@nil kevent) + zlen (sources ctx) ≤ EVL_MAX_LEN).
  { unfold sources, EVL_MAX_LEN. destruct (0 <? in_dst ctx), (in_sig ctx =? 0); cbn; lia. }
  specialize (P Hlen). pose proof (listed_events fstat realloc_ok (sources ctx) []) as HE.
  destruct ctx as [src tmout ch0 ind ins d]. rewrite E.
  destruct (listed _ _ [] _) as [[es|]| | |]; [| |by rewrite P..|done].
  - destruct P as (ch & -> & Ht). exists ch. split_and!; [done|by apply HE|done].
  - destruct P as (ch & ->). by exists ch.
Qed.

(** A pipe with a client inbox; and the same with a regular file as the inbox. *)
Lemma relay_starts_witness :
  (∃ ch, tight ch [read_event 3 (-1); read_event 4 (-1)] ∧
     [read_event 3 (-1); read_event 4 (-1)] = map (fun fd => read_event fd (-1)) [3; 4] ∧
     server_loop some_modes (fun _ => true) (Some 9) 0 [] (MkCtx 3 10 no_events 4 0 (empty_table 0)) =
       Ok (Serving (set_changes ch (MkCtx 3 10 no_events 4 0 (empty_table 0))) (Some 10))) ∧
  server_loop some_modes (fun _ => true) (Some 9) 0 [] (MkCtx 3 10 no_events 5 0 (empty_table 0)) = Ub.
Proof.
  split.
  - exact (relay_starts some_modes (fun _ => true) (Some 9) (MkCtx 3 10 no_events 4 0 (empty_table 0)) eq_refl).
  - exact (relay_starts some_modes (fun _ => true) (Some 9) (MkCtx 3 10 no_events 5 0 (empty_table 0)) eq_refl).
Defined.
