(* ===== verification/Mmcu.v ===== *)
(** * memcached/mmcu.c: storing a value in memcached and reading it back

    The memcached server behind libmemcached is the interface [Memcached].  The
    messages are left out, except the verdict of the comparison, which is all
    the program says about it. *)

From stdpp Require Import gmap strings.
From S2P Require Import Prelude Libc Fdio.
Local Open Scope Z_scope.

Definition MEMCACHED_SUCCESS : Z := 0.

Class Memcached (W : Type) := {
  (** [malloc]: the bytes it happens to hold, if it succeeds *)
  mc_malloc : Z → W → option (list Z) * W;
  mc_create : W → bool * W;
  (** host and port; key, value; the [memcached_return] *)
  mc_server_add : list Z → Z → W → Z * W;
  mc_set : list Z → list Z → W → Z * W;
  (** the value's bytes or NULL *)
  mc_get : list Z → W → option (list Z) * Z * W
}.

(** What the manual pages promise: a value stored is the value retrieved. *)
Class MemcachedLaws (W : Type) `{Memcached W} := {
  stored : W → list Z → option (list Z);
  malloc_law n w b w' : 0 ≤ n → mc_malloc n w = (Some b, w') → zlen b = n;
  set_law k v w w' : mc_set k v w = (MEMCACHED_SUCCESS, w') → stored w' k = Some v;
  get_law k v w p w' : mc_get k w = (Some p, MEMCACHED_SUCCESS, w') → stored w k = Some v → p = v
}.

Section code.
Context {W : Type} `{Memcached W}.

(** The loop that fills the buffer with copies of [val]; the state is the buffer,
    [p] as an index, and [left]. *)
Definition fill_body (val : list Z) (st : list Z * Z * Z) : res (ctl (list Z * Z * Z) (list Z)) :=
  let '(buf, p, lft) := st in
  if negb (0 <? lft) then Ok (Leave buf)
  else
    let n := if lft <? zlen val then lft else zlen val in
    buf ← put_bytes buf p (take (Z.to_nat n) val);
    Ok (Next (buf, p + n, lft - n)).

Definition fill (fuel : nat) (val buf : list Z) (size : Z) : res (list Z) :=
  buf ← loop fuel (fill_body val) (buf, 0, size - 1);
  buf ← aset buf (size - 1) 0;
  n ← strlen buf;
  _ ← c_assert (n =? size - 1);
  Ok buf.

(** [strcmp] of two memory areas. *)
Definition strcmp_areas (a b : list Z) : res bool :=
  n ← strlen a;
  m ← strlen b;
  Ok (strcmp_eq (take (Z.to_nat n) a) (take (Z.to_nat m) b)).

(** The exit status, and the verdict of the comparison if it is reached. *)
Definition session (host : list Z) (port : Z) (key buf : list Z) (w : W) : res (Z * option bool * W) :=
  let '(ok, w) := mc_create w in
  if negb ok then Ok (1, None, w)
  else
    let '(mrc, w) := mc_server_add host port w in
    if negb (mrc =? MEMCACHED_SUCCESS) then Ok (EIO, None, w)
    else
      let '(mrc, w) := mc_set key buf w in
      if negb (mrc =? MEMCACHED_SUCCESS) then Ok (EIO, None, w)
      else
        let '(p, mrc, w) := mc_get key w in
        match p with
        | Some p =>
            if negb (mrc =? MEMCACHED_SUCCESS) then Ok (EIO, None, w)
            else same ← strcmp_areas buf p; Ok (0, Some same, w)
        | None => Ok (EIO, None, w)
        end.

(** [args]: [argv] without the program's name.  With four arguments [argv[5]] is
    the null pointer at the end of the vector. *)
Definition main (fuel : nat) (args : list (list Z)) (w : W) : res (Z * option bool * W) :=
  match args with
  | host :: port :: key :: val :: rest =>
      p ← atoi port;
      let port := u16 p in
      if port <=? 0 then Ok (1, None, w)
      else
        match rest with
        | [] => Ub
        | size :: _ =>
            lval ← atol size;
            if lval <=? 0 then Ok (1, None, w)
            else
              let size := u64 lval in
              let '(b, w) := mc_malloc size w in
              match b with
              | None => Ok (ENOMEM, None, w)
              | Some buf => buf ← fill fuel val buf size; session host port key buf w
              end
        end
  | _ => Ok (1, None, w)
  end.
End code.

(** ** The buffer *)

(** [n] bytes of a value repeated. *)
Definition repeated (val : list Z) (n : nat) : list Z := take n (concat (replicate n val)).

Lemma length_concat_replicate {A} k (l : list A) : length (concat (replicate k l)) = (k * length l)%nat.
Proof. induction k as [|k IH]; cbn; [done|]. by rewrite length_app, IH. Qed.

Lemma take_concat_replicate {A} n k m (l : list A) :
  (n ≤ k * length l)%nat → (n ≤ m * length l)%nat →
  take n (concat (replicate k l)) = take n (concat (replicate m l)).
Proof.
  intros Hk Hm.
  assert (H : ∀ i j : nat, (i ≤ j)%nat → concat (replicate i l) `prefix_of` concat (replicate j l)).
  { intros i j Hij. exists (concat (replicate (j - i) l)). rewrite <- concat_app, <- replicate_add. do 2 f_equal. lia. }
  destruct (Nat.le_ge_cases k m) as [Hkm|Hkm]; [|symmetry];
    destruct (H _ _ Hkm) as [r ->]; rewrite take_app_le; rewrite ?length_concat_replicate; done.
Qed.

Lemma length_repeated val n : val ≠ [] → length (repeated val n) = n.
Proof.
  intros Hv. unfold repeated. rewrite length_take, length_concat_replicate.
  destruct val; [done|]. cbn. nia.
Qed.

Lemma repeated_cstr val n : cstr val → cstr (repeated val n).
Proof.
  intros Hv. unfold repeated. apply Forall_take. apply Forall_concat, Forall_replicate. done.
Qed.

Lemma fill_loop val buf size fuel :
  val ≠ [] → 0 < size → zlen buf = size → (Z.to_nat size < fuel)%nat →
  loop fuel (fill_body val) (buf, 0, size - 1) = Ok (patch (repeated val (Z.to_nat (size - 1))) buf).
Proof.
  intros Hv Hs Hb Hf.
  assert (Hl : 0 < zlen val) by (destruct val; [done|cbn; lia]).
  set (I := fun st : list Z * Z * Z => let '(b, p, lft) := st in 0 ≤ lft ∧ p + lft = size - 1 ∧
    ∃ k, b = patch (take (Z.to_nat p) (concat (replicate k val))) buf ∧ (Z.to_nat p ≤ k * length val)%nat ∧
      (0 < lft → p = Z.of_nat k * zlen val)).
  enough (ensures (loop fuel (fill_body val) (buf, 0, size - 1))
    (fun b => b = patch (repeated val (Z.to_nat (size - 1))) buf)) as H0.
  { by apply ensures_iff in H0 as (b & -> & ->). }
  apply (loop_total I (fun st => Z.to_nat st.2)); [|split_and!; try lia; exists O; split_and!; (done || lia)|cbn; lia].
  intros [[b p] lft] (Hleft & Hp & k & -> & Hk & Hpk). unfold fill_body.
  destruct (Z.ltb_spec 0 lft) as [Hlt|Hge]; cbn [negb].
  2: { cbn. f_equal. unfold repeated. replace p with (size - 1) by lia. apply take_concat_replicate; [|nia].
       by replace (size - 1) with p by lia. }
  specialize (Hpk Hlt). set (D := take _ _).
  assert (HD : D = concat (replicate k val)) by (apply take_ge; rewrite length_concat_replicate; lia).
  assert (HDl : zlen D = p) by (rewrite HD, length_concat_replicate; lia).
  set (n := if lft <? zlen val then lft else zlen val).
  assert (Hn : 0 < n ≤ lft ∧ n ≤ zlen val ∧ (n < lft → n = zlen val)) by (subst n; destruct (Z.ltb_spec lft (zlen val)); lia).
  assert (Htn : zlen (take (Z.to_nat n) val) = n) by (rewrite length_take; lia).
  replace (put_bytes (patch D buf) p _) with (put_bytes (patch D buf) (zlen D) (take (Z.to_nat n) val)) by (by rewrite HDl).
  rewrite put_bytes_patch, bind_Ok by lia. cbn. split; [|lia]. split_and!; [lia|lia|]. exists (S k).
  split_and!; [|nia|intros Hx; rewrite (proj2 (proj2 Hn)) by lia; lia].
  f_equal. rewrite HD, replicate_S_end, concat_app. cbn. rewrite app_nil_r.
  replace (Z.to_nat (p + n)) with (length (concat (replicate k val)) + Z.to_nat n)%nat by (rewrite <- HD; lia).
  by rewrite take_app_add.
Qed.

(** The buffer holds the value repeated up to one byte less than its size, and a NUL. *)
Lemma fill_run val buf size fuel :
  val ≠ [] → cstr val → 0 < size → zlen buf = size → (Z.to_nat size < fuel)%nat →
  fill fuel val buf size = Ok (repeated val (Z.to_nat (size - 1)) ++ [0]).
Proof.
  intros Hv Hc Hs Hb Hf. unfold fill. rewrite fill_loop, bind_Ok by done.
  assert (Hlr := length_repeated val (Z.to_nat (size - 1)) Hv).
  rewrite aset_patch, bind_Ok by lia. unfold patch.
  rewrite (drop_ge buf), app_nil_r by (rewrite length_app; cbn; lia).
  rewrite strlen_cstr, bind_Ok by (by apply repeated_cstr). rewrite Hlr, Z2Nat.id, Z.eqb_refl by lia. done.
Qed.

Lemma eqb_list_refl s : eqb_list s s = true.
Proof. induction s as [|c s IH]; [done|]. cbn. by rewrite Z.eqb_refl. Qed.

Section proofs.
Context {W : Type} `{ML : MemcachedLaws W}.

Lemma session_run host port key s w :
  cstr s →
  ensures (session host port key (s ++ [0]) w)
    (fun '(rc, verdict, _) => (rc = 0 ∧ verdict = Some true) ∨ (rc ≠ 0 ∧ verdict = None)).
Proof.
  intros Hs. unfold session. destruct (mc_create w) as [[] w1]; [|by right]. cbn [negb].
  destruct (mc_server_add host port w1) as [r w2]. destruct (r =? MEMCACHED_SUCCESS); [|by right]. cbn [negb].
  destruct (mc_set key (s ++ [0]) w2) as [r3 w3] eqn:E3.
  destruct (Z.eqb_spec r3 MEMCACHED_SUCCESS) as [->|]; [|by right]. cbn [negb]. apply set_law in E3.
  destruct (mc_get key w3) as [[[p|] r4] w4] eqn:E4; [|by right].
  destruct (Z.eqb_spec r4 MEMCACHED_SUCCESS) as [->|]; [|by right]. cbn [negb].
  rewrite (get_law _ _ _ _ _ E4 E3). unfold strcmp_areas. rewrite strlen_cstr, !bind_Ok by done.
  unfold strcmp_eq. rewrite eqb_list_refl. by left.
Qed.

(** with a value that is not empty and a server that keeps what it is given,
    the program ends, the assertion on its buffer holds, and a comparison that
    is reached succeeds: the status is 0 exactly then, and an error status
    means that a step before it failed. *)
Theorem mmcu_stores_and_checks fuel host port key val size rest w p n :
  atoi port = Ok p → u16 p ≠ 0 → atol size = Ok n → 0 < n → val ≠ [] → cstr val → (Z.to_nat n < fuel)%nat →
  ensures (main fuel (host :: port :: key :: val :: size :: rest) w)
    (fun '(rc, verdict, _) => (rc = 0 ∧ verdict = Some true) ∨ (rc ≠ 0 ∧ verdict = None)).
Proof.
  intros Hp Hp0 Hn Hn0 Hv Hc Hf. cbn [main]. rewrite Hp, bind_Ok.
  pose proof (wrap_range 16 p ltac:(lia)) as Hr. rewrite (proj2 (Z.leb_gt _ 0)) by lia.
  rewrite Hn, bind_Ok, (proj2 (Z.leb_gt n 0)) by lia.
  pose proof (ato_range _ _ _ Hn) as Hn1. rewrite wrap_small by (cbn in *; lia).
  destruct (mc_malloc n w) as [[buf|] w1] eqn:E; [|by right]. apply malloc_law in E; [|lia].
  rewrite fill_run, bind_Ok by done. apply session_run. by apply repeated_cstr.
Qed.

(** Filling the buffer with an empty value. *)
Lemma fill_empty fuel buf n : 0 < n → loop fuel (fill_body []) (buf, 0, n) = NoFuel.
Proof.
  intros Hn. assert (E : fill_body [] (buf, 0, n) = Ok (Next (buf, 0, n))).
  { unfold fill_body. rewrite (proj2 (Z.ltb_lt 0 n)) by done. cbn [negb]. change (Z.of_nat (length (@nil Z))) with 0.
    rewrite (proj2 (Z.ltb_ge n 0)) by lia.
    assert (Ep : put_bytes buf 0 [] = Ok buf).
    { unfold put_bytes. by rewrite (proj2 (Z.leb_le _ (zlen buf))) by (cbn; lia). }
    change (take (Z.to_nat 0) []) with (@nil Z). by rewrite Ep, bind_Ok, Z.sub_0_r. }
  induction fuel as [|f IH]; [done|]. cbn [loop]. by rewrite E, bind_Ok.
Qed.

(** two uses of mmcu that its checks let pass: with an empty value and a size
    of at least two the program never ends; and without a size, the five words
    that its check asks for, it reads a number from the null pointer. *)
Theorem mmcu_bad_arguments fuel host port key val size w p n buf w' :
  atoi port = Ok p → u16 p ≠ 0 → atol size = Ok n → 1 < n → mc_malloc n w = (Some buf, w') →
  main fuel [host; port; key; []; size] w = NoFuel ∧ main fuel [host; port; key; val] w = Ub.
Proof.
  intros Hp Hp0 Hn Hn0 Hm. pose proof (wrap_range 16 p ltac:(lia)) as Hr.
  split; cbn [main]; rewrite Hp, bind_Ok, (proj2 (Z.leb_gt _ 0)) by lia; [|done].
  rewrite Hn, bind_Ok, (proj2 (Z.leb_gt n 0)) by lia.
  pose proof (ato_range _ _ _ Hn) as Hn1. rewrite wrap_small by (cbn in *; lia). rewrite Hm.
  unfold fill. by rewrite fill_empty by lia.
Qed.
End proofs.

(** ** A server *)

(** A map from keys to values; adding it fails for port 1. *)
#[export] Instance map_server : Memcached (gmap (list Z) (list Z)) := {|
  mc_malloc := fun n w => (Some (replicate (Z.to_nat n) 205), w);
  mc_create := fun w => (true, w);
  mc_server_add := fun _ port w => (if port =? 1 then 5 else MEMCACHED_SUCCESS, w);
  mc_set := fun k v w => (MEMCACHED_SUCCESS, <[k := v]> w);
  mc_get := fun k w => (w !! k, MEMCACHED_SUCCESS, w)
|}.

#[export] Instance map_server_laws : MemcachedLaws (gmap (list Z) (list Z)).
Proof.
  refine {| stored := fun w k => w !! k |}; cbn.
  - intros n w b w' Hn [= <- <-]. rewrite length_replicate. lia.
  - intros k v w w' [= <-]. by rewrite lookup_insert_eq.
  - intros k v w p w' [= E <-]. congruence.
Defined.

(** The value cut at 6 bytes and a NUL arrives; port 65537 is port 1. *)
Example mmcu_run :
  match main 20 [zs "h"; zs "11211"; zs "k"; zs "abcd"; zs "7"] (∅ : gmap (list Z) (list Z)) with
  | Ok (rc, v, w) => rc = 0 ∧ v = Some true ∧ w !! zs "k" = Some (zs "abcdab" ++ [0])
  | _ => False
  end ∧
  match main 20 [zs "h"; zs "65537"; zs "k"; zs "abcd"; zs "7"] (∅ : gmap (list Z) (list Z)) with
  | Ok (rc, v, _) => rc = EIO ∧ v = None
  | _ => False
  end.
Proof. vm_compute. split_and!; reflexivity. Qed.

Lemma mmcu_stores_and_checks_witness :
  ensures (main 20 [zs "h"; zs "11211"; zs "k"; zs "abcd"; zs "7"] (∅ : gmap (list Z) (list Z)))
    (fun '(rc, verdict, _) => (rc = 0 ∧ verdict = Some true) ∨ (rc ≠ 0 ∧ verdict = None)).
Proof.
  refine (mmcu_stores_and_checks 20 (zs "h") (zs "11211") (zs "k") (zs "abcd") (zs "7") [] ∅ 11211 7 _ _ _ _ _ _ _).
  - vm_compute. reflexivity.
  - vm_compute. discriminate.
  - vm_compute. reflexivity.
  - lia.
  - vm_compute. discriminate.
  - repeat constructor; vm_compute; reflexivity.
  - lia.
Defined.

Lemma mmcu_bad_arguments_witness :
  let w := (∅ : gmap (list Z) (list Z)) in
  main 20 [zs "h"; zs "11211"; zs "k"; []; zs "7"] w = NoFuel ∧
  main 20 [zs "h"; zs "11211"; zs "k"; zs "abcd"] w = Ub.
Proof.
  refine (mmcu_bad_arguments 20 (zs "h") (zs "11211") (zs "k") (zs "abcd") (zs "7") ∅ 11211 7 (replicate 7 205) ∅ _ _ _ _ _).
  - vm_compute. reflexivity.
  - vm_compute. discriminate.
  - vm_compute. reflexivity.
  - lia.
  - reflexivity.
Defined.
