(* ===== verification/Rsymb.v ===== *)
(** * bfd/rsymb.c: counting the usable symbols of an object file

    What libbfd answers about the file is a record.  The output is the list of
    things printed on [out], texts and the numbers of each line; what goes to
    the error output is left out. *)

From stdpp Require Import strings.
From S2P Require Import Prelude Libc Small.

Definition BSF_FUNCTION : Z := 8.

(** A symbol: the vma and the size of its section, if it has one, and the members
    [name], [value] and [flags]. *)
Record asymbol := MkSym { sname : list Z; sect : option (Z * Z); value : Z; flags : Z }.

(** Texts; the line of a symbol (its number, GOOD or BAD, its address, the symbol);
    the numbers of symbols read and good. *)
Inductive out :=
  | OText (t : list Frameaddr.item)
  | OFlavour (f : Z)
  | OLine (i : Z) (good : bool) (addr : Z) (s : asymbol)
  | OTotal (nsym count : Z).

Definition text (t : list Z) : out := OText [Frameaddr.Str t].

Record bfd := MkBfd {
  bfd_openr : bool;
  is_archive : bool;
  (** [bfd_check_format_matches] and the formats it leaves in [matching] *)
  matches : bool;
  matching : option (list (list Z));
  (** [bfd_target_elf_flavour == h->xvec->flavour], and the number *)
  elf_flavour : bool;
  flavour : Z;
  symtab_upper_bound : Z;
  malloc_ok : bool;
  (** none for a negative count *)
  canonicalize_symtab : option (list asymbol);
  bfd_close : bool
}.

(** One turn of the loop: none when the symbol has no section. *)
Definition status (elf : bool) (s : asymbol) : option (bool * Z) :=
  match sect s with
  | None => None
  | Some (vma, size) =>
      let isfunc := if elf then Z.land (flags s) BSF_FUNCTION else 1 in
      let addr := u64 (vma + value s) in
      Some (negb (isfunc =? 0) && (0 <? addr) && (value s <? size), addr)
  end.

(** The loop from [i]: the lines printed and [count]. *)
Fixpoint list_symbols (elf : bool) (i : Z) (syms : list asymbol) (count : Z) : list out * Z :=
  match syms with
  | [] => ([], count)
  | s :: syms' =>
      match status elf s with
      | None => ([], count)
      | Some (good, addr) =>
          let '(lines, count) := list_symbols elf (i + 1) syms' (if good then u64 (count + 1) else count) in
          (OLine (i + 1) good addr s :: lines, count)
      end
  end.

(** The body of the [do ... while (0)] past the opening of the file, with the
  status it leaves. *)
Definition read_opened (fpath : list Z) (b : bfd) : res (Z * list out) :=
  if is_archive b then Ok (-1, [text (fpath ++ zs " is an archive" ++ [10])])
  else
    (* [++s] walks through the characters of the first format, and on *)
    '(go, o) ← (if matches b then Ok (true, [])
          else match matching b with
               | None => Ok (false, [])
               | Some [] => Ok (true, [text [10]])
               | Some (_ :: _) => Ub
               end);
    if negb go then Ok (-1, o)
    else
      let o := o ++ [if elf_flavour b then text (zs "ELF file format" ++ [10]) else OFlavour (flavour b)] in
      if symtab_upper_bound b <=? 0 then Ok (-1, o)
      else if negb (malloc_ok b) then Ok (-1, o)
      else
        match canonicalize_symtab b with
        | None => Ok (-1, o)
        | Some syms =>
            let '(lines, count) := list_symbols (elf_flavour b) 0 syms 0 in
            Ok (0, o ++ lines ++ [OTotal (zlen syms) count])
        end.

(** The result and what is printed.  [frame] and [load] are the builtin's answer
  and the memory, as in bfd/frameaddr.c. *)
Definition read_symbols (fpath : list Z) (frame : Z) (load : Z → option Z) (b : bfd) : res (Z * list out) :=
  head ← Frameaddr.print_frame (zs "read_symbols") frame load;
  if negb (bfd_openr b) then Ub (* bfd_close (NULL) *)
  else
    '(rc, o) ← read_opened fpath b;
    Ok (rc, OText head :: o ++ (if bfd_close b then [] else [text (zs "error closing BFD" ++ [10])])).

(** The exit status; [args] is [argv] without the program's name. *)
Definition main (args : list (list Z)) (frame : Z) (load : Z → option Z) (b : bfd) : res (Z * list out) :=
  match args with
  | [] => Ok (1, [])
  | fpath :: _ => read_symbols fpath frame load b
  end.

(** ** What is counted *)

(** A function, in ELF, that lies within its section. *)
Definition good (elf : bool) (s : asymbol) : bool :=
  match sect s with
  | None => false
  | Some (vma, size) =>
      (negb elf || Z.testbit (flags s) 3) && negb (u64 (vma + value s) =? 0) && (value s <? size)
  end.

Definition has_section (s : asymbol) : bool := match sect s with Some _ => true | None => false end.

Fixpoint take_while {A} (f : A → bool) (l : list A) : list A :=
  match l with
  | [] => []
  | x :: l' => if f x then x :: take_while f l' else []
  end.

Lemma land_8 x : (Z.land x 8 =? 0) = negb (Z.testbit x 3).
Proof.
  change 8 with (2 ^ 3). destruct (Z.testbit x 3) eqn:E; cbn [negb].
  - apply Z.eqb_neq. intros H. apply (f_equal (fun z => Z.testbit z 3)) in H.
    rewrite Z.land_spec, E, Z.bits_0 in H. done.
  - apply Z.eqb_eq. apply Z.bits_inj'. intros k Hk. rewrite Z.land_spec, Z.bits_0.
    destruct (Z.eq_dec k 3) as [->|Hne]; [by rewrite E|]. rewrite Z.pow2_bits_false by lia. apply andb_false_r.
Qed.

Lemma status_good elf s vma size :
  sect s = Some (vma, size) → status elf s = Some (good elf s, u64 (vma + value s)).
Proof.
  intros E. unfold status, good. rewrite E. do 2 f_equal. do 2 f_equal.
  - destruct elf; [|done]. unfold BSF_FUNCTION. rewrite land_8. by destruct (Z.testbit _ _).
  - pose proof (wrap_range 64 (vma + value s) ltac:(lia)). destruct (Z.ltb_spec 0 (u64 (vma + value s)));
      destruct (Z.eqb_spec (u64 (vma + value s)) 0); (done || lia).
Qed.

(** The line of the symbol at position [i]. *)
Definition line (elf : bool) (i : nat) (s : asymbol) : out :=
  let vma := match sect s with Some (vma, _) => vma | None => 0 end in
  OLine (Z.of_nat i + 1) (good elf s) (u64 (vma + value s)) s.

Lemma list_symbols_run elf syms : ∀ (i : nat) count,
  0 ≤ count → count + zlen syms < 2 ^ 64 →
  let l := take_while has_section syms in
  list_symbols elf (Z.of_nat i) syms count =
    (imap (fun k => line elf (i + k)) l, count + zlen (List.filter (good elf) l)).
Proof.
  induction syms as [|s syms IH]; intros i count H0 Hc; cbn [list_symbols take_while length] in *.
  { cbn. by rewrite Z.add_0_r. }
  assert (Eh : has_section s = match sect s with Some _ => true | None => false end) by done.
  rewrite Eh. clear Eh. destruct (sect s) as [[vma size]|] eqn:E.
  2: { unfold status. rewrite E. cbn. by rewrite Z.add_0_r. }
  rewrite (status_good elf s vma size E). cbn [List.filter imap].
  replace (Z.of_nat i + 1) with (Z.of_nat (S i)) by lia.
  assert (Hl : line elf (i + 0) s = OLine (Z.of_nat (S i)) (good elf s) (u64 (vma + value s)) s).
  { unfold line. rewrite E. f_equal. lia. }
  assert (Hm : ∀ l, imap (fun k => line elf (S i + k)) l = imap ((fun k => line elf (i + k)) ∘ S) l).
  { intros l. apply imap_ext. intros k x _. cbn. f_equal. lia. }
  destruct (good elf s) eqn:Eg.
  - rewrite wrap_small, IH by lia. cbn [length]. rewrite Hl, Hm. f_equal. lia.
  - rewrite IH by lia. by rewrite Hl, Hm.
Qed.

(** for a file that libbfd can read, the program lists the symbols up to the
    first without a section, numbered from 1, calls exactly the functions (in
    ELF; all symbols in other formats) GOOD whose address is not 0 and which lie
    within their section, and the number it reports last is the number of those.
    If the frame can be read, it is undefined exactly if the file cannot be
    opened, since it closes the null pointer, or if it is ambiguous, since it
    then runs through memory looking for the end of a list of names. *)
Theorem rsymb_counts fpath frame load b :
  frame = 0 ∨ is_Some (load (frame + 8)) →
  (∀ syms, bfd_openr b = true → is_archive b = false → matches b = true → 0 < symtab_upper_bound b →
    malloc_ok b = true → canonicalize_symtab b = Some syms → bfd_close b = true → zlen syms < 2 ^ 64 →
    let l := take_while has_section syms in
    ∃ o, read_symbols fpath frame load b =
      Ok (0, o ++ imap (line (elf_flavour b)) l ++ [OTotal (zlen syms) (zlen (List.filter (good (elf_flavour b)) l))])) ∧
  (read_symbols fpath frame load b = Ub ↔
    bfd_openr b = false ∨
    (is_archive b = false ∧ matches b = false ∧ ∃ m ms, matching b = Some (m :: ms))).
Proof.
  intros Hfr. unfold read_symbols.
  assert (Hh : ∃ head, Frameaddr.print_frame (zs "read_symbols") frame load = Ok head).
  { unfold Frameaddr.print_frame. destruct (Z.eqb_spec frame 0); [by eexists|].
    destruct Hfr as [|[ret ->]]; [done|by eexists]. }
  destruct Hh as [head ->]. rewrite bind_Ok. split.
  - intros syms H1 H2 H3 H4 H5 H6 H7 H8. unfold read_opened. rewrite H1, H2, H3, H5, H6, H7. cbn [negb]. rewrite bind_Ok. cbn [negb].
    rewrite (proj2 (Z.leb_gt _ 0)) by done.
    pose proof (list_symbols_run (elf_flavour b) syms 0 0) as E. change (Z.of_nat 0) with 0 in E. cbv zeta in E. rewrite E by lia.
    rewrite bind_Ok, app_nil_r. eexists (OText head :: [_]). done.
  - destruct (bfd_openr b); cbn [negb]; [|split; [by left|done]]. unfold read_opened.
    destruct (is_archive b).
    { split; [done|]. by intros [?|(? & _)]. }
    destruct (matches b); [|destruct (matching b) as [[|m ms]|]]; rewrite ?bind_Ok; cbn [negb].
    3: { split; [intros _; right; split_and!; [done|done|by eexists _, _]|done]. }
    3: { split; [done|]. by intros [?|(_ & _ & ? & ? & ?)]. }
    all: split; [|by intros [?|(_ & ? & ? & ? & ?)]].
    all: destruct (_ <=? 0); [done|]; destruct (malloc_ok b); [|done]; destruct (canonicalize_symtab b); [|done];
      by destruct (list_symbols _ _ _).
Qed.

(** A good function, data, a function outside its section, no section, another one. *)
Definition syms_ex : list asymbol :=
  [MkSym (zs "main") (Some (4096, 100)) 10 8; MkSym (zs "x") (Some (4096, 100)) 10 1;
   MkSym (zs "end") (Some (4096, 100)) 100 8; MkSym (zs "ext") None 0 8; MkSym (zs "f") (Some (4096, 100)) 10 8].
Definition file_ex : bfd := MkBfd true false true None true 5 64 true (Some syms_ex) true.

Example rsymb_run :
  read_symbols (zs "a.out") 0 (fun _ => None) file_ex =
  Ok (0, [OText [Frameaddr.Str (zs "read_symbols"); Frameaddr.Str (zs " frame = "); Frameaddr.Ptr 0; Frameaddr.Str [10]];
          text (zs "ELF file format" ++ [10]);
          OLine 1 true 4106 (MkSym (zs "main") (Some (4096, 100)) 10 8);
          OLine 2 false 4106 (MkSym (zs "x") (Some (4096, 100)) 10 1);
          OLine 3 false 4196 (MkSym (zs "end") (Some (4096, 100)) 100 8); OTotal 5 1]).
Proof. reflexivity. Qed.

Lemma rsymb_counts_witness :
  let l := take_while has_section syms_ex in
  ∃ o, read_symbols (zs "a.out") 0 (fun _ => None) file_ex =
    Ok (0, o ++ imap (line (elf_flavour file_ex)) l ++
             [OTotal (zlen syms_ex) (zlen (List.filter (good (elf_flavour file_ex)) l))]).
Proof.
  intros l.
  apply (proj1 (rsymb_counts (zs "a.out") 0 (fun _ => None) file_ex (or_introl eq_refl)) syms_ex); reflexivity.
Defined.
