(* ===== verification/Unalign.v ===== *)
(** * memalign/unalign.c and unalcalc.c: stores at unaligned addresses

    The programs map memory, and store a null pointer, eight bytes, at every
    eighth byte from a given offset to the end.  Addresses are numbers; the
    kernel's choice of the address and the size of a page are parameters, and a
    store that is not within the pages mapped is undefined.  The result of a
    program is its status and the addresses stored to. *)

From stdpp Require Import strings.
From S2P Require Import Prelude Libc.
Local Open Scope Z_scope.

(** The offset and the address [*ap]. *)
Definition align128bit_offset (lp : Z) : Z * Z :=
  let msk_right4bits0 := u64 (Z.shiftl (2 ^ 64 - 1) 4) in
  let aligned_lp :=
    if negb (Z.land lp msk_right4bits0 =? 0) then u64 (Z.shiftl (u64 (Z.shiftr lp 4 + 1)) 4) else lp in
  (u64 (aligned_lp - lp), aligned_lp).

Section code.
Variable page : Z.
(** [mmap] of so many bytes, and whether [munmap] succeeds. *)
Variable mmap : Z → option Z.
Variable munmap_ok : bool.

(** The bytes that can be accessed: whole pages. *)
Definition mapped (mb_len : Z) : Z := (mb_len + page - 1) / page * page.

(** The loop: the next address and the stores made. *)
Definition store_body (mblock mb_len : Z) (st : Z * list Z) : res (ctl (Z * list Z) (Z * list Z)) :=
  let '(vp, done) := st in
  if vp <? mblock + mb_len then
    if (mblock <=? vp) && (vp + 8 <=? mblock + mapped mb_len) then Ok (Next (vp + 8, done ++ [vp])) else Ub
  else Ok (Leave st).

Definition store_all (fuel : nat) (mblock mb_len vp : Z) : res (Z * list Z) :=
  '(_, done) ← loop fuel (store_body mblock mb_len) (vp, []);
  Ok (if munmap_ok then 0 else -1, done).

(** unalign.c; [args] is [argv] without the program's name. *)
Definition unalign_main (fuel : nat) (args : list (list Z)) : res (Z * list Z) :=
  match args with
  | size :: off :: _ =>
      mb_len ← atol size;
      if mb_len <=? 0 then Ok (1, [])
      else
        offset ← atol off;
        if offset <=? 0 then Ok (1, [])
        else
          match mmap mb_len with
          | None => Ok (1, [])
          | Some mblock => store_all fuel mblock mb_len (mblock + offset)
          end
  | _ => Ok (1, [])
  end.

(** unalcalc.c; the second comparison is with the program's name. *)
Definition unalcalc_main (fuel : nat) (app : list Z) (args : list (list Z)) : res (Z * list Z) :=
  match args with
  | size :: off :: rest =>
      mb_len ← atol size;
      if mb_len <=? 0 then Ok (1, [])
      else
        offset ← atol off;
        if offset <=? 0 then Ok (1, [])
        else
          let should_align :=
            match rest with
            | [] => false
            | a :: _ => strcasecmp_eq (zs "y") a || strcasecmp_eq (zs "yes") app
            end in
          match mmap mb_len with
          | None => Ok (1, [])
          | Some mblock =>
              let vp := mblock + offset in
              let '(al_offset, ap) := align128bit_offset vp in
              let vp := if negb (al_offset =? 0) && should_align then vp + al_offset else vp in
              store_all fuel mblock mb_len vp
          end
  | _ => Ok (1, [])
  end.
End code.

(** ** Alignment *)

Lemma high_bits lp : 0 ≤ lp < 2 ^ 64 →
  Z.land lp (u64 (Z.shiftl (2 ^ 64 - 1) 4)) = Z.shiftl (lp / 16) 4.
Proof.
  intros Hl. replace (u64 (Z.shiftl (2 ^ 64 - 1) 4)) with (Z.shiftl (2 ^ 60 - 1) 4) by (vm_compute; reflexivity).
  apply Z.bits_inj'. intros k Hk. rewrite Z.land_spec.
  destruct (Z.lt_ge_cases k 4) as [Hlt|Hge].
  - rewrite !Z.shiftl_spec_low by done. apply andb_false_r.
  - rewrite !Z.shiftl_spec by done. change 16 with (2 ^ 4). rewrite <- Z.shiftr_div_pow2, Z.shiftr_spec by lia.
    replace (k - 4 + 4) with k by lia. destruct (Z.lt_ge_cases k 64) as [Hk64|Hk64].
    + change (2 ^ 60 - 1) with (Z.ones 60). rewrite Z.ones_spec_low by lia. by rewrite andb_true_r.
    + rewrite (testbit_high lp 64) by done. done.
Qed.

(** [align128bit_offset] never answers that an address is aligned, except in
    the first 16 bytes, where it always does: from 16 on it gives the next
    multiple of 16 strictly after the address, so a misaligned address is
    rounded up correctly and an aligned one is moved by 16. *)
Theorem align128bit_offset_spec lp :
  0 ≤ lp < 2 ^ 64 - 16 →
  let '(offset, ap) := align128bit_offset lp in
  ap = lp + offset ∧
  (lp < 16 → offset = 0) ∧
  (16 ≤ lp → ap mod 16 = 0 ∧ 0 < offset ≤ 16 ∧ (offset = 16 ↔ lp mod 16 = 0)).
Proof.
  intros Hl. unfold align128bit_offset. rewrite high_bits by lia.
  rewrite !Z.shiftl_mul_pow2, Z.shiftr_div_pow2 by lia. change (2 ^ 4) with 16.
  destruct (Z.eqb_spec (lp / 16 * 16) 0) as [E|E]; cbn [negb].
  - rewrite Z.sub_diag. unfold wrap. rewrite Z.mod_0_l by done. split_and!; [lia|done|intros; plia].
  - unfold wrap. pow2. rewrite (Z.mod_small (lp / 16 + 1)) by plia.
    rewrite (Z.mod_small ((lp / 16 + 1) * 16)) by plia. rewrite (Z.mod_small (_ - lp)) by plia.
    split_and!; [lia|intros; plia|]. intros H16. split_and!; plia.
Qed.

(** ** The stores *)

(** [n] addresses from [vp] on. *)
Definition addresses (vp : Z) (n : nat) : list Z := (fun i => vp + 8 * Z.of_nat i) <$> seq 0 n.

Lemma addresses_snoc vp n : addresses vp (S n) = addresses vp n ++ [vp + 8 * Z.of_nat n].
Proof. unfold addresses. by rewrite seq_S, fmap_app. Qed.

(** How many stores it takes to pass the end. *)
Definition store_count (rest : Z) : Z := if 0 <? rest then (rest + 7) / 8 else 0.

Lemma store_count_spec rest :
  (0 < rest → rest ≤ 8 * store_count rest < rest + 8) ∧ (rest ≤ 0 → store_count rest = 0).
Proof. unfold store_count. destruct (Z.ltb_spec 0 rest); split; intros; plia. Qed.

Lemma store_loop_run page mblock mb_len vp : ∀ k fuel n,
  mblock ≤ vp → Z.of_nat n + Z.of_nat k = store_count (mblock + mb_len - vp) → (k < fuel)%nat →
  loop fuel (store_body page mblock mb_len) (vp + 8 * Z.of_nat n, addresses vp n) =
    if decide (k = O ∨ vp + 8 * store_count (mblock + mb_len - vp) ≤ mblock + mapped page mb_len) then
      Ok (vp + 8 * store_count (mblock + mb_len - vp), addresses vp (n + k))
    else Ub.
Proof.
  pose proof (store_count_spec (mblock + mb_len - vp)) as [Hc1 Hc2].
  induction k as [|k IH]; intros [|fuel] n Hvp Hn Hf; [lia| |lia|]; cbn [loop]; unfold store_body at 2.
  - rewrite (proj2 (Z.ltb_ge _ _)) by lia.
    rewrite bind_Ok, decide_True by (by left). rewrite Nat.add_0_r. by rewrite <- Hn, Z.add_0_r.
  - assert (0 < mblock + mb_len - vp) by lia.
    rewrite (proj2 (Z.ltb_lt _ _)), (proj2 (Z.leb_le mblock _)) by lia. cbn [andb].
    destruct (Z.leb_spec (vp + 8 * Z.of_nat n + 8) (mblock + mapped page mb_len)) as [Hin|Hout].
    + rewrite bind_Ok, <- addresses_snoc.
      replace (vp + 8 * Z.of_nat n + 8) with (vp + 8 * Z.of_nat (S n)) by lia. rewrite IH by lia.
      replace (S n + k)%nat with (n + S k)%nat by lia.
      destruct (decide (k = O ∨ _)) as [[Hk0|H1]|H1], (decide (S k = O ∨ _)) as [[H2|H2]|H2]; try done; exfalso.
      * apply H2. right. lia.
      * apply H2. by right.
      * apply H1. by right.
    + rewrite decide_False; [done|]. intros [H1|H1]; [done|]. lia.
Qed.

(** the stores end.  From an address within or past the block they go to every
    eighth byte up to the end of the block, the last one running up to seven
    bytes past it; the program is undefined exactly if that last store leaves
    the pages mapped.  For a block of whole pages that is the case
    whenever the start is inside and not a multiple of eight away from the end,
    that is, in every unaligned run. *)
Theorem unaligned_stores page munmap_ok fuel mblock mb_len offset :
  0 < page → 0 < mb_len → 0 < offset → (Z.to_nat mb_len < fuel)%nat →
  let n := store_count (mb_len - offset) in
  store_all page munmap_ok fuel mblock mb_len (mblock + offset) =
    (if decide (mb_len ≤ offset ∨ offset + 8 * n ≤ mapped page mb_len)
     then Ok (if munmap_ok then 0 else -1, addresses (mblock + offset) (Z.to_nat n)) else Ub) ∧
  (mb_len mod page = 0 → offset < mb_len →
   store_all page munmap_ok fuel mblock mb_len (mblock + offset) = Ub ↔ (mb_len - offset) mod 8 ≠ 0).
Proof.
  intros Hp Hm Ho Hf n.
  pose proof (store_count_spec (mb_len - offset)) as [Hc1 Hc2]. fold n in Hc1, Hc2.
  assert (E : store_all page munmap_ok fuel mblock mb_len (mblock + offset) =
    if decide (mb_len ≤ offset ∨ offset + 8 * n ≤ mapped page mb_len)
    then Ok (if munmap_ok then 0 else -1, addresses (mblock + offset) (Z.to_nat n)) else Ub).
  { unfold store_all. pose proof (store_loop_run page mblock mb_len (mblock + offset) (Z.to_nat n) fuel 0) as H.
    replace (mblock + mb_len - (mblock + offset)) with (mb_len - offset) in H by lia. fold n in H.
    cbn [addresses seq fmap list_fmap Z.of_nat] in H. rewrite Z.mul_0_r, Z.add_0_r in H.
    change (addresses (mblock + offset) 0) with (@nil Z) in H. rewrite H by lia.
    destruct (decide (Z.to_nat n = O ∨ _)) as [H1|H1], (decide (mb_len ≤ offset ∨ _)) as [H2|H2]; try done; exfalso; lia. }
  split; [done|]. intros Hmp Hlt. rewrite E.
  assert (Hmap : mapped page mb_len = mb_len).
  { unfold mapped. apply Z.div_exact in Hmp; [|lia]. rewrite Hmp at 1.
    replace (page * (mb_len / page) + page - 1) with ((mb_len / page) * page + (page - 1)) by lia.
    rewrite Z.div_add_l, (Z.div_small (page - 1)) by lia. lia. }
  rewrite Hmap. clear E Hmp Hmap Hf. clearbody n. specialize (Hc1 ltac:(lia)).
  case_decide as Hd; split; intros HE; try done.
  - exfalso. apply HE. replace (mb_len - offset) with (n * 8) by lia. by apply Z.mod_mul.
  - intros HE0. apply Hd. right. plia.
Qed.

(** ** Runs *)

(** A block at 4096 in a page of 4096 bytes. *)
Example unalign_fine :
  unalign_main 4096 (fun _ => Some 4096) true 5000 [zs "40"; zs "20"] =
    Ok (0, [4116; 4124; 4132]).
Proof. vm_compute. reflexivity. Qed.

(** An aligned address, said to be misaligned and moved by 16; "yes" is not taken. *)
Example unalcalc_moves :
  unalcalc_main 4096 (fun _ => Some 4096) true 5000 (zs "unalcalc") [zs "40"; zs "16"; zs "Y"] = Ok (0, [4128]) ∧
  unalcalc_main 4096 (fun _ => Some 4096) true 5000 (zs "unalcalc") [zs "40"; zs "16"; zs "yes"] =
    Ok (0, [4112; 4120; 4128]).
Proof. vm_compute. split; reflexivity. Qed.

Lemma align128bit_offset_spec_witness :
  let '(offset, ap) := align128bit_offset 4112 in
  ap = 4112 + offset ∧ (4112 < 16 → offset = 0) ∧
  (16 ≤ 4112 → ap mod 16 = 0 ∧ 0 < offset ≤ 16 ∧ (offset = 16 ↔ 4112 mod 16 = 0)).
Proof. apply (align128bit_offset_spec 4112). lia. Defined.

Lemma unaligned_stores_witness :
  let n := store_count (4096 - 4083) in
  store_all 4096 true (Z.to_nat 5000) 8192 4096 (8192 + 4083) =
    (if decide (4096 ≤ 4083 ∨ 4083 + 8 * n ≤ mapped 4096 4096)
     then Ok (0, addresses (8192 + 4083) (Z.to_nat n)) else Ub) ∧
  (4096 mod 4096 = 0 → 4083 < 4096 →
   store_all 4096 true (Z.to_nat 5000) 8192 4096 (8192 + 4083) = Ub ↔ (4096 - 4083) mod 8 ≠ 0).
Proof. apply (unaligned_stores 4096 true (Z.to_nat 5000) 8192 4096 4083); lia. Defined.
